(* ===== verification/_CoqProject ===== *)
-Q . S2P
Prelude.v
Ids.v
Bytes.v
Digest.v
Segment.v
Reason.v
Lifecycle.v
Governance.v
Authority.v
Registries.v
Evidence.v
Validation.v
ValidationProps.v
Codec.v
Persistence.v
PersistenceProps.v
Store.v
StoreProps.v
Evolution.v
StoreTheorems.v
Recovery.v
Explain.v
ExplainProps.v
Wire.v
WireProps.v
WireRequests.v
WireFrames.v
WireStream.v
Coordinator.v
CoordinatorProps.v
CoordinatorLife.v
CoordinatorStart.v
Worker.v
WorkerProps.v
Scenario.v
Witnesses.v
ComponentWitnesses.v
CoordinatorWitnesses.v
Oracle.v
OracleProps.v
OracleFacts.v
OracleChecks.v
OracleVerdict.v
OracleText.v
OracleRender.v
OracleRun.v
OracleWitnesses.v
Transport.v
TransportProps.v
Process.v
TransportWitnesses.v
Threads.v
ThreadsProps.v
ThreadsWitnesses.v
Tools.v
ToolsProps.v
Render.v
Examples.v
ExamplePrograms.v
