(* ===== verification/Prelude.v ===== *)
(** * Segment Routing Fabric: verification library

    ** The program

    The fabric governs ordered lists of abstract segments.  A coordinator process owns one
    store of lists and the table of the publishers that may change them; worker processes
    speak to it over a framed binary protocol; the store survives a restart through a
    checksummed image.  The calls go down this chain:

      worker -> wire -> coordinator -> store -> validation, registry, authority, evidence,
      persistence -> canonical forms and digests

    and the independent oracle is a second, standalone implementation of the evidence-free
    rules for one sequence.

    ** Parts and files

    Each file opens with what it holds.  Names are those of the source where the language
    allows it; paths are under src/.

    - [Prelude]: integers of a width, tactics, hints, vectors searched by a key,
      [std::unique].
    - [Ids], [Bytes], [Digest]: include/srf/strong.hpp, ids.hpp, limits.hpp, bytes.hpp,
      src/digest.cpp.
    - [Segment]: src/segment.cpp, src/canonical.cpp.
    - [Reason]: src/reason.cpp, the reason table and the bounded ordered result.
    - [Lifecycle]: src/lifecycle.cpp, the transition table as a function.
    - [Governance]: src/profile.cpp, src/policy.cpp, src/list.cpp.
    - [Authority] (module [AuthorityTable]): src/authority.cpp; [Registries] (module
      [Registry]): src/registry.cpp.
    - [Evidence]: src/evidence.cpp, the class [EvidenceSource] and its instance
      [SyntheticEvidence].
    - [Validation], [ValidationProps]: src/validation.cpp.
    - [Codec], [Persistence], [PersistenceProps]: src/persistence.cpp, the decoder monad, the
      image, and the modules [MemoryPersistence] and [FilePersistence].
    - [Store], [StoreProps], [Evolution], [StoreTheorems], [Recovery]: src/store.cpp.
    - [Explain], [ExplainProps]: src/explain.cpp, include/srf/snapshot.hpp.
    - [Wire], [WireProps], [WireFrames], [WireStream], [WireRequests]: src/wire.cpp.
    - [Coordinator], [CoordinatorProps], [CoordinatorLife], [CoordinatorStart]:
      src/coordinator.cpp, what a server does; [Threads], [ThreadsProps]: the same file,
      which of its threads does it when.
    - [Worker], [WorkerProps]: src/worker.cpp.
    - [Oracle] (module [OracleMain]), [OracleProps], [OracleFacts], [OracleChecks],
      [OracleVerdict], [OracleText], [OracleRender], [OracleRun]: oracle/oracle_main.cpp.
    - [Transport], [TransportProps]: src/transport.cpp; [Process]: src/process.cpp and
      [wait_until] of include/srf/process.hpp.
    - [Tools] (modules [CoordinatorTool] and [WorkerTool]), [ToolsProps]:
      tools/srf_coordinator.cpp, tools/srf_worker.cpp.
    - [Render] (module [Rendering]): the text of digests and results, src/digest.cpp and
      src/reason.cpp.
    - [Examples] (module [Support]), [ExamplePrograms] (module [Consumer]): examples/, as
      computations over one scenario that count their checks, and consumer/main.cpp.
    - [Scenario], [Witnesses], [ComponentWitnesses], [CoordinatorWitnesses],
      [OracleWitnesses], [TransportWitnesses], [ThreadsWitnesses]: concrete runs, and the
      theorems applied to them.

    ** How state and effects are modelled

    An unsigned integer is a [Z], wrapped where the source can leave its width.  A buffer is a
    list of bytes, a vector a list, a struct a record.  A method of an object is a function
    from the object to its answer and the object after it; fallible code returns a sum, an
    option or the source's own result type.

    Concurrency: each critical section under a mutex is one function.  Where a method of the
    store releases its mutex, an [Interference] (an arbitrary function on the whole store)
    says what the other threads do meanwhile; the theorems ask of it only that it is made of
    operations of the store ([evolves]), or nothing at all.  The coordinator's handlers run
    against an [Env] in the same way, required to be fair where its own steps are concerned.
    Time is a number of milliseconds that the handlers are given.  A file backend is what each
    call to the file system comes to.  To the worker and the coordinator a socket is what its
    calls come to: whether a send goes out, and the chunks that arrive; [Transport] has the
    loops behind those calls.

    When the server's threads start, wait and end is the step relation of [Threads]: a state
    says where each thread is in its function, a step is one atomic action of one thread, and
    the clients are steps from outside.

    Interfaces: [EvidenceSource] is what the store relies on from evidence; [PersistenceLaws]
    is what it relies on from a backend, discharged by both shipped backends.  [KernelLaws]
    and [ProcessLaws] are what the transport and the child processes rely on from the
    operating system, as POSIX documents it; both have an instance in [TransportWitnesses].

    ** What the theorems show

    - Store: a batch under interference is the batch run alone at its commit point, and all
      of it or nothing; an attempt is executed at most once; each operation's effect in
      full; lineages keep their identifiers, generations never decrease and terminal states
      are final; capacities hold; the invariant holds of every reachable store.
    - Recovery and persistence: the image of a storable state is read back exactly; what is
      accepted is well formed; one changed byte is detected; a file save is atomic to an
      observer; a restart recovers every list and leaves none available, in a later epoch
      with every earlier boot fenced.
    - Validation: a request is admitted exactly when it is admissible by a declarative
      statement, and the primary phase of a refusal is the first that fails; when none
      is dropped, the reason that names a terminal state is never the primary one.
    - Wire: frames and mutations are read exactly from their encodings; the stream delivers
      the same frames however it is cut, within a bounded buffer.
    - Coordinator and worker: a connection is its frames served in order; an acknowledged
      mutation came from a live session; a lost connection or an expired lease fences its
      boot; whatever arrives, the store keeps its invariant; an exchange of a worker returns
      the coordinator's answer to that request.
    - Oracle: its encoding and digest are the library's on every scenario it accepts; its
      verdict is the library's within the scope stated by [joint_scope]; its numerals are
      exact; and it reads back every scenario that is rendered to it.
    - Threads: no thread uses the store after [stop] has destroyed it; once stopping has begun
      every run ends, with every thread ended where closing a descriptor wakes its waiters,
      and possibly hung where it does not.
    - Transport, processes, programs: the frames one end sends are the frames the other end
      receives, and both ends return; the port file and the worker's command line are read
      back; a bounded wait asks every five milliseconds up to its bound and returns for every
      32-bit bound; the coordinator program cannot end properly.
    - Text: a digest is read back from its digits, and the text of a result determines its
      reasons in order.
    - Examples and consumer: run to their ends they make exactly the checks of the source;
      all exit with 0 but the seventh and the eleventh example, which expect a terminal
      state as a primary reason.

    ** Bounds and fuel

    Every loop that is not structural has fuel that is proved to be enough:
    [decode_records] by the bytes left (each turn consumes some), the assembler's
    [drain_loop] and [serve_buffer] by one more than the length of the buffer (each frame
    consumes its header), [wait_until] by the number of its five-millisecond turns.  The
    loops of [Transport] repeat a call that would block; enough fuel exists whenever the
    kernel cannot ask to try again forever.  Sizes are not bounded except by the program's
    own limits; hypotheses [fits w] say that a value fits its field.

    ** Not modelled

    - The Windows branches of src/transport.cpp and src/process.cpp, and
      [executable_directory].
    - Unsynchronised accesses: [stop] closes sockets whose handles other threads read.
    - Text for people: the wording of what the tools, the examples and the consumer print.
    - bench and tests: drivers of the library without rules of their own; the benchmark's
      results are times.
    - Exhaustion of memory. *)

From Stdlib Require Export ZArith Lia.
From coqutil Require Export Byte.
From stdpp Require Export base list sorting strings option.

#[global] Open Scope Z_scope.

(** ** Machine-width unsigned integers

    A [std::uintN_t] is a [Z]; arithmetic that can leave the range is wrapped
    explicitly with [u8], [u16], [u32] or [u64], and [fits w z] says that [z] is a
    value of the width. *)

Declare Scope srf_scope.
Delimit Scope srf_scope with srf.

Definition wrap (w z : Z) : Z := z mod 2 ^ w.
Abbreviation u8 := (wrap 8).
Abbreviation u16 := (wrap 16).
Abbreviation u32 := (wrap 32).
Abbreviation u64 := (wrap 64).

Definition fits (w z : Z) : Prop := 0 <= z < 2 ^ w.

Notation "z ∈u8" := (fits 8 z) (at level 1) : srf_scope.
Notation "z ∈u16" := (fits 16 z) (at level 1) : srf_scope.
Notation "z ∈u32" := (fits 32 z) (at level 1) : srf_scope.
Notation "z ∈u64" := (fits 64 z) (at level 1) : srf_scope.
#[global] Open Scope srf_scope.

#[global] Instance fits_dec w z : Decision (fits w z).
Proof. unfold fits. apply _. Defined.

(** [std::size_t] of a container: the length as a [Z]. *)
Definition size {A} (l : list A) : Z := Z.of_nat (length l).

#[global] Arguments size {A} l : simpl never.
#[global] Arguments wrap w z : simpl never.
#[global] Arguments fits w z : simpl never.

(** The C++ conversion of a [bool] field to the byte that encodes it. *)
Definition bool_byte (b : bool) : Z := if b then 1 else 0.

(** ** Tactics and hint databases *)

Create HintDb srf discriminated.

(** Split every boolean conjunction of the context and turn boolean comparisons on
    [Z] into propositions. *)
Ltac simpl_bools :=
  repeat match goal with
  | H : _ && _ = true |- _ => apply andb_true_iff in H as [? ?]
  | H : _ || _ = false |- _ => apply orb_false_iff in H as [? ?]
  | H : negb _ = true |- _ => apply negb_true_iff in H
  | H : negb _ = false |- _ => apply negb_false_iff in H
  | H : (_ =? _) = true |- _ => apply Z.eqb_eq in H
  | H : (_ =? _) = false |- _ => apply Z.eqb_neq in H
  | H : (_ <? _) = true |- _ => apply Z.ltb_lt in H
  | H : (_ <? _) = false |- _ => apply Z.ltb_ge in H
  | H : (_ <=? _) = true |- _ => apply Z.leb_le in H
  | H : (_ <=? _) = false |- _ => apply Z.leb_gt in H
  | H : bool_decide _ = true |- _ => apply bool_decide_eq_true in H
  | H : bool_decide _ = false |- _ => apply bool_decide_eq_false in H
  end.

(** Case analysis on the innermost scrutinee of the first [if] or [match] of the
    goal, recording the equation. *)
Ltac case_goal :=
  match goal with
  | |- context [match ?x with _ => _ end] =>
      lazymatch x with
      | context [match _ with _ => _ end] => fail
      | _ => let E := fresh "E" in destruct x eqn:E
      end
  end.

(** The same on a hypothesis. *)
Ltac case_hyp H :=
  match type of H with
  | context [match ?x with _ => _ end] =>
      lazymatch x with
      | context [match _ with _ => _ end] => fail
      | _ => let E := fresh "E" in destruct x eqn:E
      end
  end.

(** ** Width lemmas *)

Lemma wrap_fits w z : 0 <= w -> fits w (wrap w z).
Proof. intros. apply Z.mod_pos_bound. apply Z.pow_pos_nonneg; lia. Qed.

Lemma wrap_small w z : fits w z -> wrap w z = z.
Proof. intros. by apply Z.mod_small. Qed.

Lemma fits_mono w w' z : w <= w' -> 0 <= w -> fits w z -> fits w' z.
Proof.
  unfold fits. intros Hw H0 [Hl Hu]. split; [done|].
  pose proof (Z.pow_le_mono_r 2 w w' ltac:(lia) Hw). lia.
Qed.

Lemma fits_bool_byte w b : 1 <= w -> fits w (bool_byte b).
Proof.
  intros Hw. pose proof (Z.pow_le_mono_r 2 1 w ltac:(lia) Hw).
  unfold fits. destruct b; cbn; lia.
Qed.

#[export] Hint Resolve wrap_fits fits_bool_byte : srf.

(** A counter increment that wrapped is never equal to the counter before it. *)
Lemma u64_succ_ne z : fits 64 z -> u64 (z + 1) <> z.
Proof.
  unfold fits, wrap. intros Hz.
  destruct (decide (z + 1 < 2 ^ 64)).
  - rewrite Z.mod_small by lia. lia.
  - assert (z + 1 = 2 ^ 64) as -> by lia. rewrite Z_mod_same_full. lia.
Qed.

Lemma size_nonneg {A} (l : list A) : 0 <= size l.
Proof. unfold size. lia. Qed.

Lemma size_app {A} (l k : list A) : size (l ++ k) = size l + size k.
Proof. unfold size. rewrite length_app. lia. Qed.

Lemma size_cons {A} (x : A) l : size (x :: l) = 1 + size l.
Proof. unfold size. cbn. lia. Qed.

Lemma size_nil {A} : size (@nil A) = 0.
Proof. done. Qed.

Lemma size_snoc {A} (x : A) l : size (l ++ [x]) = size l + 1.
Proof. rewrite size_app. done. Qed.

(** ** Vectors searched by a key

    Every registry of the runtime is a [std::vector] of records searched from the
    front by an identifier: [for (auto& p : v) if (p.id == id) ...].  The section
    gives the lookup, the in-place update of the first match, the
    update-or-[push_back] idiom, and the lemmas all components share. *)

Section Keyed.
Context {A : Type} (key : A -> Z).
Implicit Types (l : list A) (k : Z) (x y : A) (f : A -> A).

Fixpoint find_key k l : option A :=
  match l with
  | [] => None
  | x :: l' => if key x =? k then Some x else find_key k l'
  end.

Fixpoint update_key k f l : list A :=
  match l with
  | [] => []
  | x :: l' => if key x =? k then f x :: l' else x :: update_key k f l'
  end.

Definition keys l : list Z := map key l.

Lemma find_key_Some k l x : find_key k l = Some x -> x ∈ l /\ key x = k.
Proof.
  induction l as [|y l IH]; cbn; [done|].
  destruct (Z.eqb_spec (key y) k) as [?|?]; intros H.
  - simplify_eq. split; [left|done].
  - destruct (IH H). split; [by right|done].
Qed.

Lemma find_key_None k l : find_key k l = None <-> k ∉ keys l.
Proof.
  unfold keys. induction l as [|y l IH]; cbn.
  - split; [intros _; apply not_elem_of_nil|done].
  - rewrite not_elem_of_cons.
    destruct (Z.eqb_spec (key y) k) as [->|]; [|rewrite IH]; intuition congruence.
Qed.

Lemma find_key_is_Some k l : is_Some (find_key k l) <-> k ∈ keys l.
Proof.
  rewrite <-not_eq_None_Some, find_key_None.
  split; [apply dec_stable|tauto].
Qed.

Lemma find_key_elem l x : NoDup (keys l) -> x ∈ l -> find_key (key x) l = Some x.
Proof.
  unfold keys. induction l as [|y l IH]; cbn; intros Hnd Hx.
  - by apply not_elem_of_nil in Hx.
  - apply list.NoDup_cons in Hnd as [Hy Hnd]. apply elem_of_cons in Hx as [->|Hx].
    + by rewrite Z.eqb_refl.
    + destruct (Z.eqb_spec (key y) (key x)) as [E|]; [|by apply IH].
      exfalso. apply Hy. rewrite E. by apply list_elem_of_fmap_2.
Qed.

Lemma find_key_app k l l' :
  find_key k (l ++ l') =
    match find_key k l with Some x => Some x | None => find_key k l' end.
Proof. induction l as [|y l IH]; cbn; [done|]. by destruct (key y =? k). Qed.

Lemma length_update_key k f l : length (update_key k f l) = length l.
Proof. induction l as [|x l IH]; cbn; [done|]. destruct (key x =? k); cbn; auto. Qed.

Lemma size_update_key k f l : size (update_key k f l) = size l.
Proof. unfold size. by rewrite length_update_key. Qed.

Lemma update_key_absent k f l : k ∉ keys l -> update_key k f l = l.
Proof.
  unfold keys. induction l as [|x l IH]; cbn; [done|].
  rewrite not_elem_of_cons. intros [? ?].
  destruct (Z.eqb_spec (key x) k); [congruence|]. by rewrite IH.
Qed.

Lemma keys_update_key k f l :
  (forall x, key x = k -> key (f x) = k) -> keys (update_key k f l) = keys l.
Proof.
  intros Hf. unfold keys. induction l as [|x l IH]; cbn; [done|].
  destruct (Z.eqb_spec (key x) k) as [E|]; cbn; [by rewrite Hf, E|by rewrite IH].
Qed.

Lemma find_update_key_eq k f l :
  (forall x, key x = k -> key (f x) = k) ->
  find_key k (update_key k f l) = f <$> find_key k l.
Proof.
  intros Hf. induction l as [|x l IH]; cbn; [done|].
  destruct (Z.eqb_spec (key x) k) as [E|E]; cbn.
  - by rewrite Hf, Z.eqb_refl.
  - destruct (Z.eqb_spec (key x) k); [done|]. apply IH.
Qed.

Lemma find_update_key_ne k k' f l :
  (forall x, key x = k -> key (f x) = k) -> k <> k' ->
  find_key k' (update_key k f l) = find_key k' l.
Proof.
  intros Hf Hne. induction l as [|x l IH]; cbn; [done|].
  destruct (Z.eqb_spec (key x) k) as [E|E]; cbn.
  - rewrite Hf by done. destruct (Z.eqb_spec k k'); [done|].
    destruct (Z.eqb_spec (key x) k'); [congruence|done].
  - by rewrite IH.
Qed.

Lemma Forall_update_key (P : A -> Prop) k f l :
  Forall P l -> (forall x, x ∈ l -> key x = k -> P x -> P (f x)) ->
  Forall P (update_key k f l).
Proof.
  intros HP Hf. induction HP as [|x l Hx HP IH]; cbn; [constructor|].
  destruct (Z.eqb_spec (key x) k) as [E|E]; constructor; auto.
  - apply Hf; [left|..]; done.
  - apply IH. intros. apply Hf; [by right|..]; done.
Qed.

Lemma elem_of_update_key k f l y :
  y ∈ update_key k f l -> y ∈ l \/ exists x, x ∈ l /\ key x = k /\ y = f x.
Proof.
  induction l as [|x l IH]; cbn; [by left|].
  destruct (Z.eqb_spec (key x) k) as [E|E]; rewrite !elem_of_cons; intros [->|Hy].
  - right. exists x. split; [left|done].
  - by left; right.
  - by left; left.
  - destruct (IH Hy) as [?|(z & Hz & ? & ?)]; [by left; right|].
    right. exists z. split; [by right|done].
Qed.

(** [for (p : v) if (p.id == x.id) { p = x; return; } v.push_back(x);] *)
Definition put_key x l : list A :=
  match find_key (key x) l with
  | Some _ => update_key (key x) (fun _ => x) l
  | None => l ++ [x]
  end.

Lemma find_put_key_eq x l : find_key (key x) (put_key x l) = Some x.
Proof.
  unfold put_key. destruct (find_key (key x) l) as [y|] eqn:E.
  - rewrite find_update_key_eq by done. by rewrite E.
  - rewrite find_key_app, E. cbn. by rewrite Z.eqb_refl.
Qed.

Lemma find_put_key_ne x k l : key x <> k -> find_key k (put_key x l) = find_key k l.
Proof.
  intros Hne. unfold put_key. destruct (find_key (key x) l) as [y|] eqn:E.
  - by apply find_update_key_ne.
  - rewrite find_key_app. destruct (find_key k l); [done|]. cbn.
    by destruct (Z.eqb_spec (key x) k).
Qed.

Lemma NoDup_snoc_key x l :
  NoDup (keys l) -> find_key (key x) l = None -> NoDup (keys (l ++ [x])).
Proof.
  intros Hnd Hn. unfold keys. rewrite map_app. cbn.
  apply list.NoDup_app. split_and!; [done| |apply NoDup_singleton].
  intros k Hk ->%list_elem_of_singleton. by apply find_key_None in Hn.
Qed.

Lemma NoDup_put_key x l : NoDup (keys l) -> NoDup (keys (put_key x l)).
Proof.
  intros Hnd. unfold put_key. destruct (find_key (key x) l) eqn:E.
  - by rewrite keys_update_key.
  - by apply NoDup_snoc_key.
Qed.

Lemma Forall_put_key (P : A -> Prop) x l : Forall P l -> P x -> Forall P (put_key x l).
Proof.
  intros Hl Hx. unfold put_key. destruct (find_key (key x) l).
  - by apply Forall_update_key.
  - apply Forall_app. split; [done|by constructor].
Qed.
End Keyed.

#[global] Arguments keys {A} key l : simpl never.
#[global] Arguments put_key {A} key x l : simpl never.
#[export] Hint Resolve NoDup_put_key Forall_put_key : srf.

(** ** Membership tests

    [std::find(v.begin(), v.end(), x) != v.end()] on a vector of identifiers. *)
Fixpoint zmem (z : Z) (l : list Z) : bool :=
  match l with
  | [] => false
  | x :: l' => (x =? z) || zmem z l'
  end.

Lemma zmem_spec z l : zmem z l = true <-> z ∈ l.
Proof.
  induction l as [|x l IH]; cbn.
  - split; [done|]. by intros ?%not_elem_of_nil.
  - rewrite orb_true_iff, IH, elem_of_cons, Z.eqb_eq. naive_solver.
Qed.

Lemma zmem_false z l : zmem z l = false <-> z ∉ l.
Proof. rewrite <-zmem_spec. destruct (zmem z l); naive_solver. Qed.

Lemma zmem_app z l l' : zmem z (l ++ l') = zmem z l || zmem z l'.
Proof. induction l as [|x l IH]; cbn; [done|]. by rewrite IH, orb_assoc. Qed.

(** [if (find(v, x) == v.end()) v.push_back(x);] *)
Definition push_unique (z : Z) (l : list Z) : list Z :=
  if zmem z l then l else l ++ [z].

Lemma elem_of_push_unique z x l : x ∈ push_unique z l <-> x ∈ l \/ x = z.
Proof.
  unfold push_unique. destruct (zmem z l) eqn:E.
  - apply zmem_spec in E. naive_solver.
  - rewrite elem_of_app, list_elem_of_singleton. done.
Qed.

Lemma NoDup_push_unique z l : NoDup l -> NoDup (push_unique z l).
Proof.
  intros Hnd. unfold push_unique. destruct (zmem z l) eqn:E; [done|].
  apply zmem_false in E. apply list.NoDup_app. split_and!; [done| |apply NoDup_singleton].
  by intros x Hx ->%list_elem_of_singleton.
Qed.

#[global] Arguments push_unique : simpl never.
#[export] Hint Resolve NoDup_push_unique : srf.

(** ** [std::unique]: drop every element equal to its predecessor *)
Fixpoint unique_adjacent {A} `{EqDecision A} (l : list A) : list A :=
  match l with
  | x :: (y :: _) as l' =>
      if bool_decide (x = y) then unique_adjacent l' else x :: unique_adjacent l'
  | _ => l
  end.
