(* ===== verification/Ids.v ===== *)
(** * Identifiers, generations and limits

    [include/srf/strong.hpp], [include/srf/ids.hpp] and [include/srf/limits.hpp].
    A [StrongId] is a 64-bit value whose zero is the invalid sentinel; a
    [Generation] is a checked, non-wrapping 64-bit counter.  The tags that make the
    C++ identifier domains distinct types have no run-time content: every domain is
    an abbreviation of [Z], kept so that signatures read like the code. *)

From S2P Require Import Prelude.

Abbreviation SegmentListId := Z (only parsing).
Abbreviation SegmentId := Z (only parsing).
Abbreviation SegmentProfileId := Z (only parsing).
Abbreviation SegmentPolicyId := Z (only parsing).
Abbreviation NodeId := Z (only parsing).
Abbreviation AdjacencyId := Z (only parsing).
Abbreviation EndpointId := Z (only parsing).
Abbreviation BindingId := Z (only parsing).
Abbreviation PathId := Z (only parsing).
Abbreviation RouteId := Z (only parsing).
Abbreviation ConstraintEvaluationId := Z (only parsing).
Abbreviation PublisherId := Z (only parsing).
Abbreviation WorkerBootId := Z (only parsing).
Abbreviation WorkerSessionId := Z (only parsing).
Abbreviation MutationAttemptId := Z (only parsing).
Abbreviation SnapshotId := Z (only parsing).
Abbreviation ScopeId := Z (only parsing).
Abbreviation CapabilityKey := Z (only parsing).
Abbreviation HistoryId := Z (only parsing).
Abbreviation SegmentListGeneration := Z (only parsing).
Abbreviation SegmentGeneration := Z (only parsing).
Abbreviation SegmentProfileGeneration := Z (only parsing).
Abbreviation SegmentPolicyGeneration := Z (only parsing).
Abbreviation TopologyGeneration := Z (only parsing).
Abbreviation CapabilityGeneration := Z (only parsing).
Abbreviation PathAuthorityGeneration := Z (only parsing).
Abbreviation RouteGeneration := Z (only parsing).
Abbreviation ConstraintGeneration := Z (only parsing).
Abbreviation CoordinatorEpoch := Z (only parsing).

(** [StrongId::valid] and [Generation::valid]. *)
Definition valid (z : Z) : bool := negb (z =? 0).

Module Generation.
Definition max_value : Z := 0xFFFFFFFFFFFFFFFF.
Definition initial : Z := 1.
Definition exhausted (g : Z) : bool := g =? max_value.
(** [std::nullopt] at the maximum value: a generation never wraps. *)
Definition next (g : Z) : option Z :=
  if max_value <=? g then None else Some (u64 (g + 1)).

Lemma next_Some g g' :
  fits 64 g -> next g = Some g' -> g' = g + 1 /\ fits 64 g' /\ valid g' = true.
Proof.
  unfold next, max_value, fits, valid, wrap. intros Hg H.
  destruct (Z.leb_spec 0xFFFFFFFFFFFFFFFF g); simplify_eq.
  rewrite Z.mod_small by lia.
  split_and!; [lia|lia|lia|]. apply negb_true_iff, Z.eqb_neq. lia.
Qed.

Lemma next_None g : fits 64 g -> next g = None <-> exhausted g = true.
Proof.
  unfold next, exhausted, max_value, fits. intros.
  rewrite Z.eqb_eq. destruct (Z.leb_spec 0xFFFFFFFFFFFFFFFF g);
    split; intros; try done; lia.
Qed.
End Generation.

Lemma valid_true z : valid z = true <-> z <> 0.
Proof. unfold valid. rewrite negb_true_iff. apply Z.eqb_neq. Qed.

Lemma valid_false z : valid z = false <-> z = 0.
Proof. unfold valid. rewrite negb_false_iff. apply Z.eqb_eq. Qed.

(** ** [srf::Limits] *)
Record Limits := {
  max_lists : Z;
  max_segments_per_list : Z;
  max_segment_payload_bytes : Z;
  max_profiles : Z;
  max_policies : Z;
  max_batch_size : Z;
  max_publishers : Z;
  max_frame_bytes : Z;
  max_history : Z;
  max_explanation_entries : Z;
  max_persistence_record_bytes : Z;
  max_reasons : Z;
  max_diff_entries : Z;
  max_total_segments : Z;
  max_attempt_records : Z;
  max_evidence_records : Z;
}.

Definition default_limits : Limits := {|
  max_lists := 4096;
  max_segments_per_list := 32;
  max_segment_payload_bytes := 16;
  max_profiles := 64;
  max_policies := 256;
  max_batch_size := 64;
  max_publishers := 32;
  max_frame_bytes := 262144;
  max_history := 256;
  max_explanation_entries := 64;
  max_persistence_record_bytes := Z.shiftl 1 20;
  max_reasons := 32;
  max_diff_entries := 512;
  max_total_segments := 65536;
  max_attempt_records := 4096;
  max_evidence_records := 8192;
|}.
