(* ===== verification/Bytes.v ===== *)
(** * Byte writer and byte reader

    [include/srf/bytes.hpp].  A [ByteBuffer] is a [list byte].  The writer appends
    the in-memory representation of an integer ([raw(&v, n)]); the model is the one
    of the little-endian hosts the project is verified on, so [put16], [put32] and
    [put64] are the little-endian bytes of the value truncated to its width. *)

From S2P Require Import Prelude.
From S2P Require Import Ids.
From coqutil Require Import Word.LittleEndianList.

Abbreviation ByteBuffer := (list Byte.byte) (only parsing).

(** ** ByteWriter

    A write appends to the buffer, so a sequence of writes is the concatenation of
    what each appends. *)
Definition put8 (v : Z) : list Byte.byte := le_split 1 v.
Definition put16 (v : Z) : list Byte.byte := le_split 2 v.
Definition put32 (v : Z) : list Byte.byte := le_split 4 v.
Definition put64 (v : Z) : list Byte.byte := le_split 8 v.

Definition zero_byte : Byte.byte := Byte.x00.

(** [ByteWriter::fixed_bytes]: [false] and nothing written when [s] is too long,
    else [s] left-aligned and padded with zeros to [width]. *)
Definition fixed_bytes (s : list Byte.byte) (width : Z) : option (list Byte.byte) :=
  if width <? size s then None
  else Some (s ++ replicate (Z.to_nat (width - size s)) zero_byte).

Lemma length_put8 v : length (put8 v) = 1%nat.
Proof. apply length_le_split. Qed.
Lemma length_put16 v : length (put16 v) = 2%nat.
Proof. apply length_le_split. Qed.
Lemma length_put32 v : length (put32 v) = 4%nat.
Proof. apply length_le_split. Qed.
Lemma length_put64 v : length (put64 v) = 8%nat.
Proof. apply length_le_split. Qed.

(** Two in-range values with the same bytes are equal. *)
Lemma le_split_inj n v v' :
  fits (8 * Z.of_nat n) v -> fits (8 * Z.of_nat n) v' ->
  le_split n v = le_split n v' -> v = v'.
Proof.
  unfold fits. intros Hv Hv' H. apply (f_equal le_combine) in H.
  rewrite !le_combine_split, !(Z.mul_comm _ 8), !Z.mod_small in H by done. done.
Qed.

Lemma put8_inj v v' : fits 8 v -> fits 8 v' -> put8 v = put8 v' -> v = v'.
Proof. apply (le_split_inj 1). Qed.
Lemma put16_inj v v' : fits 16 v -> fits 16 v' -> put16 v = put16 v' -> v = v'.
Proof. apply (le_split_inj 2). Qed.
Lemma put32_inj v v' : fits 32 v -> fits 32 v' -> put32 v = put32 v' -> v = v'.
Proof. apply (le_split_inj 4). Qed.
Lemma put64_inj v v' : fits 64 v -> fits 64 v' -> put64 v = put64 v' -> v = v'.
Proof. apply (le_split_inj 8). Qed.

(** Field-by-field peeling of two equal encodings. *)
Lemma app_inj_length {A} (l l' k k' : list A) :
  length l = length l' -> l ++ k = l' ++ k' -> l = l' /\ k = k'.
Proof. intros. by apply app_inj_1. Qed.

Ltac peel_field H E :=
  apply app_inj_length in H as [E H];
  [|rewrite ?length_put8, ?length_put16, ?length_put32, ?length_put64; reflexivity].

(** ** ByteReader *)
Record ByteReader := mkReader {
  data : list Byte.byte;
  pos : Z;
  ok : bool;
}.

Definition reader (bytes : list Byte.byte) : ByteReader := mkReader bytes 0 true.

Definition at_end (r : ByteReader) : bool := pos r =? size (data r).
Definition remaining (r : ByteReader) : Z := size (data r) - pos r.
Definition rest (r : ByteReader) : list Byte.byte := drop (Z.to_nat (pos r)) (data r).

(** [ByteReader::raw]: the next [n] bytes, or a sticky failure. *)
Definition read_raw (n : Z) (r : ByteReader) : option (list Byte.byte) * ByteReader :=
  if negb (ok r) || (remaining r <? n) then (None, {| r with ok := false |})
  else (Some (take (Z.to_nat n) (rest r)), {| r with pos := pos r + n |}).

Definition read_uint (n : Z) (r : ByteReader) : option Z * ByteReader :=
  match read_raw n r with
  | (Some bs, r') => (Some (le_combine bs), r')
  | (None, r') => (None, r')
  end.

Definition read_u8 := read_uint 1.
Definition read_u16 := read_uint 2.
Definition read_u32 := read_uint 4.
Definition read_u64 := read_uint 8.

Definition skip (n : Z) (r : ByteReader) : bool * ByteReader :=
  if negb (ok r) || (remaining r <? n) then (false, {| r with ok := false |})
  else (true, {| r with pos := pos r + n |}).

(** The reader invariant: the cursor is inside the span. *)
Definition reader_wf (r : ByteReader) : Prop := 0 <= pos r <= size (data r).

Lemma reader_reader_wf bs : reader_wf (reader bs).
Proof. split; cbn; [lia|apply size_nonneg]. Qed.

Lemma size_rest r : reader_wf r -> size (rest r) = remaining r.
Proof.
  unfold reader_wf, rest, remaining, size. intros. rewrite length_drop. lia.
Qed.

Lemma read_raw_wf n r :
  0 <= n -> reader_wf r -> reader_wf (read_raw n r).2.
Proof.
  unfold read_raw, reader_wf, remaining. intros Hn Hr.
  destruct (negb (ok r) || (size (data r) - pos r <? n)) eqn:E; cbn; [done|].
  simpl_bools. lia.
Qed.

(** Reading back what was written: a reader in front of [bs ++ tl] reads [bs] and
    is then in front of [tl]. *)
Lemma read_raw_app bs tl r :
  reader_wf r -> ok r = true -> rest r = bs ++ tl ->
  exists r', read_raw (size bs) r = (Some bs, r') /\
    reader_wf r' /\ ok r' = true /\ rest r' = tl.
Proof.
  intros Hwf Hok Hrest. pose proof (size_rest _ Hwf) as Hsz.
  rewrite Hrest, size_app in Hsz. pose proof (size_nonneg tl).
  pose proof (size_nonneg bs).
  unfold read_raw. rewrite Hok. cbn [negb orb].
  destruct (Z.ltb_spec (remaining r) (size bs)); [lia|].
  exists {| r with pos := pos r + size bs |}. split; [|split_and!].
  - rewrite Hrest. unfold size. by rewrite Nat2Z.id, take_app_length, Hok.
  - unfold reader_wf, remaining in *. cbn. lia.
  - done.
  - unfold rest in *. cbn. unfold reader_wf in Hwf. rewrite Z2Nat.inj_add by lia.
    rewrite <-drop_drop, Hrest. unfold size. by rewrite Nat2Z.id, drop_app_length.
Qed.

Lemma read_uint_app n v tl r :
  fits (8 * Z.of_nat n) v ->
  reader_wf r -> ok r = true -> rest r = le_split n v ++ tl ->
  exists r', read_uint (Z.of_nat n) r = (Some v, r') /\
    reader_wf r' /\ ok r' = true /\ rest r' = tl.
Proof.
  intros Hv Hwf Hok Hrest.
  destruct (read_raw_app _ _ _ Hwf Hok Hrest) as (r' & Hr & ? & ? & ?).
  exists r'. split_and!; [|done..]. unfold read_uint.
  unfold size in Hr. rewrite length_le_split in Hr. rewrite Hr.
  by rewrite le_combine_split, Z.mul_comm, Z.mod_small.
Qed.

Lemma at_end_rest r : reader_wf r -> at_end r = true <-> rest r = [].
Proof.
  intros Hwf. pose proof (size_rest _ Hwf) as Hsz. unfold at_end, remaining in *.
  rewrite Z.eqb_eq. split; intros H.
  - assert (size (rest r) = 0) as H0 by lia. unfold size in H0. by destruct (rest r).
  - rewrite H in Hsz. unfold size at 1 in Hsz. cbn in Hsz. lia.
Qed.

(** A value that was read is a value of its width. *)
Lemma read_uint_fits n r v r' :
  0 <= n -> reader_wf r -> read_uint n r = (Some v, r') -> fits (8 * n) v.
Proof.
  unfold read_uint, read_raw. intros Hn Hwf H.
  destruct (negb (ok r) || (remaining r <? n)) eqn:E; [done|].
  simpl_bools. injection H as <- <-.
  pose proof (le_combine_bound (take (Z.to_nat n) (rest r))) as Hb.
  pose proof (size_rest _ Hwf) as Hsz. unfold size in Hsz.
  rewrite length_take_le in Hb by lia. unfold fits.
  by rewrite Z2Nat.id in Hb.
Qed.
