(* ===== verification/Digest.v ===== *)
(** * Digests and integrity trailers

    [include/srf/digest.hpp] and [src/digest.cpp]: the FNV-1a derived 128-bit
    digest and the table-driven CRC-32C.  The table-driven CRC is proved equal to
    the bit-serial definition of the polynomial division, and both routines are
    proved to separate any two inputs that differ in exactly one byte. *)

From S2P Require Import Prelude.
From S2P Require Import Ids.
From S2P Require Import Bytes.

(** ** FNV-1a *)
Definition kFnvOffsetA : Z := 0xCBF29CE484222325.
Definition kFnvPrime : Z := 0x00000100000001B3.
Definition kFnvOffsetB : Z := 0x9E3779B97F4A7C15.
Definition kFnvOffsetC : Z := 0x2545F4914F6CDD1D.

Definition fnv_step (h : Z) (b : Byte.byte) : Z :=
  u64 (Z.lxor h (byte.unsigned b) * kFnvPrime).

Definition fnv1a_seeded (seed : Z) (data : list Byte.byte) : Z :=
  fold_left fnv_step data seed.

Record Digest128 := mkDigest { hi : Z; lo : Z }.

#[global] Instance Digest128_eq_dec : EqDecision Digest128.
Proof. solve_decision. Defined.

Definition is_zero (d : Digest128) : bool := (hi d =? 0) && (lo d =? 0).

(** The eight length bytes of the second lane, least significant first. *)
Definition length_bytes (n : Z) : list Byte.byte :=
  map (fun i => byte.of_Z (Z.land (Z.shiftr n (8 * i)) 0xFF)) [0;1;2;3;4;5;6;7].

Definition digest128 (data : list Byte.byte) : Digest128 :=
  let a := fnv1a_seeded kFnvOffsetA data in
  let len := length_bytes (u64 (size data)) in
  let b := fnv1a_seeded kFnvOffsetB data in
  let b := fnv1a_seeded b len in
  let b := fnv1a_seeded (Z.lxor b kFnvOffsetC) data in
  if (a =? 0) && (b =? 0) then mkDigest a 1 else mkDigest a b.

Definition fnv1a64 (data : list Byte.byte) : Z :=
  let h := fnv1a_seeded kFnvOffsetA data in
  if h =? 0 then 1 else h.

(** ** CRC-32C *)
Definition crc_poly : Z := 0x82F63B78.

Definition crc_bit (c : Z) : Z :=
  if negb (Z.land c 1 =? 0) then Z.lxor crc_poly (Z.shiftr c 1) else Z.shiftr c 1.

Definition make_crc32c_table : list Z :=
  map (fun i => Nat.iter 8 crc_bit (Z.of_nat i)) (seq 0 256).

(** [constexpr auto kCrc32cTable = make_crc32c_table();] *)
Definition kCrc32cTable : list Z := Eval vm_compute in make_crc32c_table.

Definition crc_step (c : Z) (b : Byte.byte) : Z :=
  Z.lxor (nth (Z.to_nat (Z.land (Z.lxor c (byte.unsigned b)) 0xFF)) kCrc32cTable 0)
         (Z.shiftr c 8).

(** [~x] on [std::uint32_t]. *)
Definition not32 (c : Z) : Z := Z.lxor c 0xFFFFFFFF.

Definition crc32c_extend (seed : Z) (data : list Byte.byte) : Z :=
  not32 (fold_left crc_step data (not32 seed)).

Definition crc32c (data : list Byte.byte) : Z := crc32c_extend 0 data.

(** The bit-serial reference: shift the register eight times per input byte. *)
Definition crc_byte_ref (c : Z) (b : Byte.byte) : Z :=
  Nat.iter 8 crc_bit (Z.lxor c (byte.unsigned b)).

Definition crc32c_ref (seed : Z) (data : list Byte.byte) : Z :=
  not32 (fold_left crc_byte_ref data (not32 seed)).

(** The check value of CRC-32C. *)
Example crc32c_check_value :
  crc32c (map byte.of_Z [0x31;0x32;0x33;0x34;0x35;0x36;0x37;0x38;0x39]) = 0xE3069283.
Proof. vm_compute. reflexivity. Qed.

(** ** Arithmetic of the FNV step *)

Lemma lxor_fits w a b : 0 <= w -> fits w a -> fits w b -> fits w (Z.lxor a b).
Proof.
  unfold fits. intros Hw Ha Hb.
  assert (0 <= Z.lxor a b) as H0 by (apply Z.lxor_nonneg; tauto).
  split; [done|].
  destruct (decide (Z.lxor a b = 0)) as [->|]; [apply Z.pow_pos_nonneg; lia|].
  apply Z.log2_lt_pow2; [lia|].
  assert (forall x, 0 <= x < 2 ^ w -> x <> 0 -> Z.log2 x < w) as Hlog.
  { intros x Hx Hn. apply Z.log2_lt_pow2; lia. }
  pose proof (Z.log2_lxor a b ltac:(lia) ltac:(lia)).
  destruct (decide (a = 0)) as [->|]; [rewrite Z.lxor_0_l in *; by apply Hlog|].
  destruct (decide (b = 0)) as [->|]; [rewrite Z.lxor_0_r in *; by apply Hlog|].
  pose proof (Hlog a Ha ltac:(done)). pose proof (Hlog b Hb ltac:(done)). lia.
Qed.

Lemma lxor_cancel_r a b c : Z.lxor a c = Z.lxor b c -> a = b.
Proof.
  intros H. apply (f_equal (fun z => Z.lxor z c)) in H.
  by rewrite !Z.lxor_assoc, Z.lxor_nilpotent, !Z.lxor_0_r in H.
Qed.

Lemma lxor_cancel_l a b c : Z.lxor c a = Z.lxor c b -> a = b.
Proof. rewrite !(Z.lxor_comm c). apply lxor_cancel_r. Qed.

Lemma byte_fits w b : 8 <= w -> fits w (byte.unsigned b).
Proof. intros Hw. apply (fits_mono 8); [lia..|]. apply byte.unsigned_range. Qed.

(** The inverse of the FNV prime modulo 2^64. *)
Definition fnv_prime_inverse : Z := 0xCE965057AFF6957B.

Lemma u64_mul_prime_inj x y :
  fits 64 x -> fits 64 y -> u64 (x * kFnvPrime) = u64 (y * kFnvPrime) -> x = y.
Proof.
  unfold wrap, fits. intros Hx Hy H.
  apply (f_equal (fun z => (z * fnv_prime_inverse) mod 2 ^ 64)) in H.
  rewrite !Zmult_mod_idemp_l, <-!Z.mul_assoc in H.
  rewrite <-(Zmult_mod_idemp_r _ x), <-(Zmult_mod_idemp_r _ y) in H.
  change ((kFnvPrime * fnv_prime_inverse) mod 2 ^ 64) with 1 in H.
  by rewrite !Z.mul_1_r, !Z.mod_small in H.
Qed.

Lemma fnv_step_fits h b : fits 64 (fnv_step h b).
Proof. apply wrap_fits. lia. Qed.

Lemma fnv_step_inj_state h h' b :
  fits 64 h -> fits 64 h' -> fnv_step h b = fnv_step h' b -> h = h'.
Proof.
  intros Hh Hh' H. apply u64_mul_prime_inj in H.
  - by apply lxor_cancel_r in H.
  - apply lxor_fits; [lia|done|]. apply byte_fits. lia.
  - apply lxor_fits; [lia|done|]. apply byte_fits. lia.
Qed.

Lemma fnv_step_inj_byte h b b' :
  fits 64 h -> fnv_step h b = fnv_step h b' -> b = b'.
Proof.
  intros Hh H. apply u64_mul_prime_inj in H.
  - apply lxor_cancel_l in H. by apply byte.unsigned_inj.
  - apply lxor_fits; [lia|done|]. apply byte_fits. lia.
  - apply lxor_fits; [lia|done|]. apply byte_fits. lia.
Qed.

(** ** Folds of an injective step separate inputs that differ in one byte

    Shared by the FNV lane and the CRC register. *)
Section ByteFold.
Context (w : Z) (step : Z -> Byte.byte -> Z).
Context (step_fits : forall c b, fits w c -> fits w (step c b)).
Context (step_inj_state : forall c c' b,
  fits w c -> fits w c' -> step c b = step c' b -> c = c').
Context (step_inj_byte : forall c b b', fits w c -> step c b = step c b' -> b = b').

Lemma fold_fits l c : fits w c -> fits w (fold_left step l c).
Proof. revert c. induction l; cbn; auto. Qed.

Lemma fold_inj_state l c c' :
  fits w c -> fits w c' -> fold_left step l c = fold_left step l c' -> c = c'.
Proof.
  revert c c'. induction l as [|b l IH]; cbn; intros c c' Hc Hc' H; [done|].
  apply IH in H; [|auto..]. by apply step_inj_state in H.
Qed.

Lemma fold_one_byte l b b' l' c :
  fits w c -> b <> b' ->
  fold_left step (l ++ b :: l') c <> fold_left step (l ++ b' :: l') c.
Proof.
  intros Hc Hb. rewrite !fold_left_app. cbn. intros H.
  pose proof (fold_fits l c Hc).
  apply fold_inj_state in H; [|auto..]. apply Hb. by eapply step_inj_byte.
Qed.
End ByteFold.

Lemma fnv1a_one_byte seed l b b' l' :
  fits 64 seed -> b <> b' ->
  fnv1a_seeded seed (l ++ b :: l') <> fnv1a_seeded seed (l ++ b' :: l').
Proof.
  apply (fold_one_byte 64 fnv_step); eauto using fnv_step_fits, fnv_step_inj_state,
    fnv_step_inj_byte.
Qed.

(** ** The CRC register is linear *)

Lemma land1_odd c : negb (Z.land c 1 =? 0) = Z.odd c.
Proof.
  change 1 with (Z.ones 1). rewrite Z.land_ones by lia. change (2 ^ 1) with 2.
  rewrite Zmod_odd. by destruct (Z.odd c).
Qed.

Lemma crc_bit_odd c :
  crc_bit c = Z.lxor (if Z.odd c then crc_poly else 0) (Z.shiftr c 1).
Proof. unfold crc_bit. rewrite land1_odd. by destruct (Z.odd c). Qed.

Lemma crc_bit_lxor a b : crc_bit (Z.lxor a b) = Z.lxor (crc_bit a) (crc_bit b).
Proof.
  rewrite !crc_bit_odd, Z.shiftr_lxor, <-!Z.bit0_odd, Z.lxor_spec.
  destruct (Z.testbit a 0), (Z.testbit b 0); cbn [xorb];
    rewrite ?Z.lxor_0_l, ?Z.lxor_assoc; try done.
  - rewrite <-(Z.lxor_assoc (Z.shiftr a 1)), (Z.lxor_comm (Z.shiftr a 1) crc_poly).
    rewrite Z.lxor_assoc, <-(Z.lxor_assoc crc_poly crc_poly), Z.lxor_nilpotent.
    by rewrite Z.lxor_0_l.
  - by rewrite <-!Z.lxor_assoc, (Z.lxor_comm crc_poly).
Qed.

Lemma crc_bits_lxor n a b :
  Nat.iter n crc_bit (Z.lxor a b) = Z.lxor (Nat.iter n crc_bit a) (Nat.iter n crc_bit b).
Proof. induction n as [|n IH]; [done|]. by rewrite !Nat.iter_succ, IH, crc_bit_lxor. Qed.

Lemma crc_bits_shiftl n y : 0 <= y -> Nat.iter n crc_bit (Z.shiftl y (Z.of_nat n)) = y.
Proof.
  intros Hy. induction n as [|n IH]; [apply Z.shiftl_0_r|].
  rewrite Nat.iter_succ_r. rewrite <-IH at 2. f_equal.
  rewrite crc_bit_odd, <-Z.bit0_odd, Z.shiftl_spec_low by lia.
  rewrite Z.lxor_0_l, Z.shiftr_shiftl_l by lia. f_equal. lia.
Qed.

Lemma split_low_byte x : 0 <= x ->
  x = Z.lxor (Z.land x 0xFF) (Z.shiftl (Z.shiftr x 8) 8).
Proof.
  intros Hx. apply Z.bits_inj'. intros n Hn.
  rewrite Z.lxor_spec, Z.land_spec. change 0xFF with (Z.ones 8).
  rewrite Z.shiftl_spec by lia.
  destruct (Z.ltb_spec n 8).
  - rewrite Z.ones_spec_low by lia. rewrite (Z.testbit_neg_r _ (n - 8)) by lia.
    by rewrite andb_true_r, xorb_false_r.
  - rewrite Z.ones_spec_high by lia. rewrite Z.shiftr_spec by lia.
    rewrite andb_false_r, xorb_false_l. f_equal. lia.
Qed.

Lemma kCrc32cTable_make : kCrc32cTable = make_crc32c_table.
Proof. vm_compute. reflexivity. Qed.

Lemma crc_table_lookup i :
  0 <= i < 256 -> nth (Z.to_nat i) kCrc32cTable 0 = Nat.iter 8 crc_bit i.
Proof.
  intros Hi. rewrite kCrc32cTable_make. unfold make_crc32c_table.
  rewrite nth_indep with (d' := Nat.iter 8 crc_bit (Z.of_nat 0)).
  2:{ rewrite length_map, length_seq. lia. }
  rewrite (map_nth (fun i => Nat.iter 8 crc_bit (Z.of_nat i))).
  rewrite seq_nth by lia. f_equal. lia.
Qed.

Lemma land_255_range x : 0 <= x -> 0 <= Z.land x 0xFF < 256.
Proof.
  intros. change 0xFF with (Z.ones 8). rewrite Z.land_ones by lia.
  apply (Z.mod_pos_bound x 256). lia.
Qed.

Lemma crc_step_ref c b : fits 32 c -> crc_step c b = crc_byte_ref c b.
Proof.
  intros Hc. pose proof (byte_fits 32 b ltac:(lia)) as Hb.
  pose proof (lxor_fits 32 _ _ ltac:(lia) Hc Hb) as Hx. unfold fits in *.
  unfold crc_step, crc_byte_ref. rewrite crc_table_lookup by (apply land_255_range; lia).
  rewrite (split_low_byte (Z.lxor c (byte.unsigned b))) at 2 by lia.
  rewrite crc_bits_lxor. f_equal.
  rewrite (crc_bits_shiftl 8) by (apply Z.shiftr_nonneg; lia).
  rewrite Z.shiftr_lxor. pose proof (byte.unsigned_range b) as Hr.
  rewrite (Z.shiftr_eq_0 (byte.unsigned b)); [by rewrite Z.lxor_0_r|lia|].
  destruct (decide (byte.unsigned b = 0)) as [->|]; [cbn; lia|].
  apply Z.log2_lt_pow2; lia.
Qed.

Lemma crc_bit_fits c : fits 32 c -> fits 32 (crc_bit c).
Proof.
  intros Hc. rewrite crc_bit_odd.
  assert (fits 32 (Z.shiftr c 1)).
  { unfold fits in *. rewrite Z.shiftr_div_pow2 by lia. change (2 ^ 1) with 2.
    split; [apply Z.div_pos; lia|]. apply Z.div_lt_upper_bound; lia. }
  apply lxor_fits; [lia| |done]. destruct (Z.odd c); vm_compute; split; congruence.
Qed.

Lemma crc_bit_inj c c' : fits 32 c -> fits 32 c' -> crc_bit c = crc_bit c' -> c = c'.
Proof.
  intros Hc Hc' H.
  assert (forall x, fits 32 x -> Z.testbit (crc_bit x) 31 = Z.odd x) as Htop.
  { intros x Hx. rewrite crc_bit_odd, Z.lxor_spec, Z.shiftr_spec by lia.
    rewrite (Z.bits_above_log2 x (31 + 1)).
    - rewrite xorb_false_r. by destruct (Z.odd x).
    - unfold fits in Hx; lia.
    - unfold fits in Hx. destruct (decide (x = 0)) as [->|]; [cbn; lia|].
      apply Z.log2_lt_pow2; lia. }
  pose proof (Htop c Hc) as Ho. rewrite H, Htop in Ho by done.
  rewrite !crc_bit_odd, Ho in H. apply lxor_cancel_l in H.
  rewrite (Z.div2_odd c), (Z.div2_odd c'), !Z.div2_spec, H, Ho. done.
Qed.

Lemma crc_bits_fits n c : fits 32 c -> fits 32 (Nat.iter n crc_bit c).
Proof. intros. induction n; [done|]. rewrite Nat.iter_succ. by apply crc_bit_fits. Qed.

Lemma crc_bits_inj n c c' :
  fits 32 c -> fits 32 c' -> Nat.iter n crc_bit c = Nat.iter n crc_bit c' -> c = c'.
Proof.
  intros Hc Hc'. induction n as [|n IH]; [done|]. rewrite !Nat.iter_succ.
  intros H. apply crc_bit_inj in H; auto using crc_bits_fits.
Qed.

Lemma crc_byte_ref_fits c b : fits 32 c -> fits 32 (crc_byte_ref c b).
Proof.
  intros. apply crc_bits_fits, lxor_fits; [lia|done|]. apply byte_fits. lia.
Qed.

Lemma crc_step_fits c b : fits 32 c -> fits 32 (crc_step c b).
Proof. intros. rewrite crc_step_ref by done. by apply crc_byte_ref_fits. Qed.

Lemma crc_step_inj_state c c' b :
  fits 32 c -> fits 32 c' -> crc_step c b = crc_step c' b -> c = c'.
Proof.
  intros Hc Hc' H. rewrite !crc_step_ref in H by done.
  apply crc_bits_inj in H; [by apply lxor_cancel_r in H|..];
    (apply lxor_fits; [lia|done|apply byte_fits; lia]).
Qed.

Lemma crc_step_inj_byte c b b' : fits 32 c -> crc_step c b = crc_step c b' -> b = b'.
Proof.
  intros Hc H. rewrite !crc_step_ref in H by done.
  apply crc_bits_inj in H;
    [apply lxor_cancel_l in H; by apply byte.unsigned_inj|..];
    (apply lxor_fits; [lia|done|apply byte_fits; lia]).
Qed.

Lemma not32_fits c : fits 32 c -> fits 32 (not32 c).
Proof. intros. apply lxor_fits; [lia|done|]. vm_compute. split; congruence. Qed.

Lemma not32_inj c c' : not32 c = not32 c' -> c = c'.
Proof. apply lxor_cancel_r. Qed.

Lemma not32_involutive c : not32 (not32 c) = c.
Proof. unfold not32. by rewrite Z.lxor_assoc, Z.lxor_nilpotent, Z.lxor_0_r. Qed.

#[export] Hint Resolve fnv_step_fits crc_step_fits not32_fits : srf.

Lemma crc32c_fits data : fits 32 (crc32c data).
Proof.
  apply not32_fits. apply (fold_fits 32 crc_step); [auto with srf|].
  apply not32_fits. vm_compute. split; congruence.
Qed.

(** ** Properties *)

(** C40: The table-driven CRC computes the bit-serial CRC, for every seed and input. *)
Theorem crc32c_table_correct seed data :
  fits 32 seed -> crc32c_extend seed data = crc32c_ref seed data.
Proof.
  intros Hs. unfold crc32c_extend, crc32c_ref. f_equal.
  assert (fits 32 (not32 seed)) as Hc by auto with srf. revert Hc.
  generalize (not32 seed). induction data as [|b l IH]; cbn; intros c Hc; [done|].
  rewrite crc_step_ref by done. apply IH. by apply crc_byte_ref_fits.
Qed.

(** Extending a checksum is checksumming the concatenation. *)
Lemma crc32c_extend_app seed l l' :
  crc32c_extend (crc32c_extend seed l) l' = crc32c_extend seed (l ++ l').
Proof. unfold crc32c_extend. by rewrite not32_involutive, fold_left_app. Qed.

(** Changing one byte of the input always changes the CRC. *)
Theorem crc32c_one_byte l b b' l' :
  b <> b' -> crc32c (l ++ b :: l') <> crc32c (l ++ b' :: l').
Proof.
  intros Hb H. apply not32_inj in H. revert H.
  apply (fold_one_byte 32 crc_step);
    eauto using crc_step_fits, crc_step_inj_state, crc_step_inj_byte.
  apply not32_fits. vm_compute. split; congruence.
Qed.

Lemma hi_digest128 data : hi (digest128 data) = fnv1a_seeded kFnvOffsetA data.
Proof. unfold digest128. by destruct (_ && _). Qed.

(** Changing one byte of the input always changes the digest. *)
Theorem digest128_one_byte l b b' l' :
  b <> b' -> digest128 (l ++ b :: l') <> digest128 (l ++ b' :: l').
Proof.
  intros Hb H. apply (f_equal hi) in H. rewrite !hi_digest128 in H. revert H.
  apply fnv1a_one_byte; [|done]. vm_compute. split; congruence.
Qed.

(** A digest is never the absent sentinel. *)
Lemma digest128_not_zero data : is_zero (digest128 data) = false.
Proof.
  unfold digest128. cbv zeta. generalize (fnv1a_seeded kFnvOffsetA data).
  generalize (fnv1a_seeded (Z.lxor (fnv1a_seeded (fnv1a_seeded kFnvOffsetB data)
    (length_bytes (u64 (size data)))) kFnvOffsetC) data).
  intros b a. destruct ((a =? 0) && (b =? 0)) eqn:E; [|exact E].
  unfold is_zero. cbn. apply andb_false_r.
Qed.
