(* ===== verification/Segment.v ===== *)
(** * Segments and their canonical encoding

    [include/srf/segment.hpp], [src/segment.cpp] and the segment and sequence parts
    of [include/srf/canonical.hpp] and [src/canonical.cpp]; [derive_segment_list_id]
    of [src/list.cpp].  The semantic equality of segments is proved to be equality
    of canonical bytes, and the canonical bytes of a sequence to determine the
    sequence, order included, up to that equality. *)

From S2P Require Import Prelude.
From S2P Require Import Ids.
From S2P Require Import Bytes.
From S2P Require Import Digest.

#[global] Instance byte_eq_dec : EqDecision Byte.byte.
Proof.
  intros x y. destruct (decide (byte.unsigned x = byte.unsigned y)) as [E|E].
  - left. by apply byte.unsigned_inj.
  - right. by intros ->.
Defined.

Definition byte_eqb (x y : Byte.byte) : bool := byte.unsigned x =? byte.unsigned y.

Lemma byte_eqb_eq x y : byte_eqb x y = true <-> x = y.
Proof.
  unfold byte_eqb. rewrite Z.eqb_eq.
  split; [apply byte.unsigned_inj|by intros ->].
Qed.

(** ** Data *)
Inductive SegmentKind := KInvalid | KNode | KAdjacency | KEndpoint | KBinding | KPolicy.

Definition kind_value (k : SegmentKind) : Z :=
  match k with
  | KInvalid => 0 | KNode => 1 | KAdjacency => 2
  | KEndpoint => 3 | KBinding => 4 | KPolicy => 5
  end.

Inductive SegmentEncodingId :=
  | EInvalid | AbstractNodeV1 | AbstractAdjacencyV1 | AbstractEndpointV1
  | AbstractBindingV1 | AbstractPolicyV1.

Definition encoding_value (e : SegmentEncodingId) : Z :=
  match e with
  | EInvalid => 0 | AbstractNodeV1 => 1 | AbstractAdjacencyV1 => 2
  | AbstractEndpointV1 => 3 | AbstractBindingV1 => 4 | AbstractPolicyV1 => 5
  end.

Inductive Strictness := Strict | Loose.

Definition strictness_value (s : Strictness) : Z :=
  match s with Strict => 1 | Loose => 2 end.

#[global] Instance SegmentKind_eq_dec : EqDecision SegmentKind.
Proof. solve_decision. Defined.
#[global] Instance SegmentEncodingId_eq_dec : EqDecision SegmentEncodingId.
Proof. solve_decision. Defined.
#[global] Instance Strictness_eq_dec : EqDecision Strictness.
Proof. solve_decision. Defined.

Definition kind_eqb (a b : SegmentKind) : bool := kind_value a =? kind_value b.
Definition encoding_eqb (a b : SegmentEncodingId) : bool :=
  encoding_value a =? encoding_value b.
Definition strictness_eqb (a b : Strictness) : bool :=
  strictness_value a =? strictness_value b.

Lemma kind_eqb_eq a b : kind_eqb a b = true <-> a = b.
Proof. destruct a, b; cbn; split; congruence. Qed.
Lemma encoding_eqb_eq a b : encoding_eqb a b = true <-> a = b.
Proof. destruct a, b; cbn; split; congruence. Qed.
Lemma strictness_eqb_eq a b : strictness_eqb a b = true <-> a = b.
Proof. destruct a, b; cbn; split; congruence. Qed.
Lemma kind_value_inj a b : kind_value a = kind_value b -> a = b.
Proof. destruct a, b; cbn; congruence. Qed.
Lemma encoding_value_inj a b : encoding_value a = encoding_value b -> a = b.
Proof. destruct a, b; cbn; congruence. Qed.

Definition segment_kind_name (k : SegmentKind) : string :=
  match k with
  | KInvalid => "Invalid" | KNode => "Node" | KAdjacency => "Adjacency"
  | KEndpoint => "Endpoint" | KBinding => "Binding" | KPolicy => "Policy"
  end.

Definition segment_encoding_name (e : SegmentEncodingId) : string :=
  match e with
  | EInvalid => "Invalid"
  | AbstractNodeV1 => "AbstractNodeV1"
  | AbstractAdjacencyV1 => "AbstractAdjacencyV1"
  | AbstractEndpointV1 => "AbstractEndpointV1"
  | AbstractBindingV1 => "AbstractBindingV1"
  | AbstractPolicyV1 => "AbstractPolicyV1"
  end.

Definition strictness_name (s : Strictness) : string :=
  match s with Strict => "Strict" | Loose => "Loose" end.

Definition expected_encoding_for (k : SegmentKind) : SegmentEncodingId :=
  match k with
  | KNode => AbstractNodeV1
  | KAdjacency => AbstractAdjacencyV1
  | KEndpoint => AbstractEndpointV1
  | KBinding => AbstractBindingV1
  | KPolicy => AbstractPolicyV1
  | KInvalid => EInvalid
  end.

Record Segment := {
  seg_kind : SegmentKind;
  seg_encoding : SegmentEncodingId;
  seg_id : SegmentId;
  seg_generation : SegmentGeneration;
  seg_node : NodeId;
  seg_adjacency : AdjacencyId;
  seg_endpoint : EndpointId;
  seg_binding : BindingId;
  seg_policy : SegmentPolicyId;
  seg_policy_generation : SegmentPolicyGeneration;
  seg_topology : TopologyGeneration;
  seg_payload : ByteBuffer;
}.

(** [Segment{}] *)
Definition empty_segment : Segment := {|
  seg_kind := KInvalid; seg_encoding := EInvalid; seg_id := 0; seg_generation := 0;
  seg_node := 0; seg_adjacency := 0; seg_endpoint := 0; seg_binding := 0;
  seg_policy := 0; seg_policy_generation := 0; seg_topology := 0; seg_payload := [];
|}.

#[global] Instance Segment_eq_dec : EqDecision Segment.
Proof. solve_decision. Defined.

(** Every scalar field is a value of its C++ width. *)
Definition segment_fits (s : Segment) : Prop :=
  fits 64 (seg_id s) /\ fits 64 (seg_generation s) /\ fits 64 (seg_node s) /\
  fits 64 (seg_adjacency s) /\ fits 64 (seg_endpoint s) /\ fits 64 (seg_binding s) /\
  fits 64 (seg_policy s) /\ fits 64 (seg_policy_generation s) /\
  fits 64 (seg_topology s).

#[global] Instance segment_fits_dec s : Decision (segment_fits s).
Proof. unfold segment_fits. apply _. Defined.

(** ** Canonical bytes *)
Definition kSegmentMagic : Z := 0xC501.
Definition kContentMagic : Z := 0xC502.
Definition kSequenceMagic : Z := 0xC503.

(** Exactly [width] payload bytes: truncated, then zero padded. *)
Definition pad_payload (payload : list Byte.byte) (width : Z) : list Byte.byte :=
  let usable := if size payload <? width then size payload else width in
  take (Z.to_nat usable) payload
    ++ replicate (Z.to_nat (width - usable)) zero_byte.

(** The nine 64-bit references, in the order they are written. *)
Definition segment_scalars (s : Segment) : list Z :=
  [seg_id s; seg_generation s; seg_node s; seg_adjacency s; seg_endpoint s;
   seg_binding s; seg_policy s; seg_policy_generation s; seg_topology s].

Definition put64s (zs : list Z) : list Byte.byte := concat (map put64 zs).

Definition write_segment (s : Segment) (payload_width : Z) : list Byte.byte :=
  put16 (kind_value (seg_kind s)) ++
  put16 (encoding_value (seg_encoding s)) ++
  put64s (segment_scalars s) ++
  put16 payload_width ++
  pad_payload (seg_payload s) payload_width.

Definition write_segments (ss : list Segment) (payload_width : Z) : list Byte.byte :=
  concat (map (fun s => write_segment s payload_width) ss).

Definition canonical_segment_bytes (s : Segment) (payload_width : Z) : ByteBuffer :=
  put16 kSegmentMagic ++ write_segment s payload_width.

Definition canonical_sequence_bytes (ss : list Segment) (payload_width : Z) : ByteBuffer :=
  put16 kSequenceMagic ++ put32 (size ss) ++ write_segments ss payload_width.

Definition sequence_digest (ss : list Segment) (payload_width : Z) : Digest128 :=
  digest128 (canonical_sequence_bytes ss payload_width).

(** ** Equality *)
Definition payload_byte (l : list Byte.byte) (i : nat) : Byte.byte := nth i l zero_byte.

Definition canonical_payload_equal (a b : list Byte.byte) (payload_width : Z) : bool :=
  if (payload_width <? size a) || (payload_width <? size b) then false
  else forallb (fun i => byte_eqb (payload_byte a i) (payload_byte b i))
         (seq 0 (Z.to_nat payload_width)).

Definition canonical_payload_padded_equal (a b : Segment) : bool :=
  let width := if size (seg_payload b) <? size (seg_payload a)
               then size (seg_payload a) else size (seg_payload b) in
  canonical_payload_equal (seg_payload a) (seg_payload b) (u32 width).

Definition effective_encoding (s : Segment) : SegmentEncodingId :=
  if negb (encoding_eqb (seg_encoding s) EInvalid) then seg_encoding s
  else expected_encoding_for (seg_kind s).

Definition same_scalar_content (a b : Segment) : bool :=
  kind_eqb (seg_kind a) (seg_kind b) &&
  encoding_eqb (effective_encoding a) (effective_encoding b) &&
  (seg_id a =? seg_id b) && (seg_generation a =? seg_generation b) &&
  (seg_node a =? seg_node b) && (seg_adjacency a =? seg_adjacency b) &&
  (seg_endpoint a =? seg_endpoint b) && (seg_binding a =? seg_binding b) &&
  (seg_policy a =? seg_policy b) &&
  (seg_policy_generation a =? seg_policy_generation b) &&
  (seg_topology a =? seg_topology b).

(** [operator==(const Segment&, const Segment&)] *)
Definition segment_eqb (a b : Segment) : bool :=
  if negb (same_scalar_content a b) then false
  else canonical_payload_padded_equal a b.

Definition segment_semantic_equal (a b : Segment) (payload_width : Z) : bool :=
  if negb (same_scalar_content a b) then false
  else canonical_payload_equal (seg_payload a) (seg_payload b) payload_width.

(** [canonicalize_segments] of [src/validation.cpp]: an unset encoding becomes the
    one the kind requires; nothing else changes, order included. *)
Definition canonicalize_segment (s : Segment) : Segment :=
  if encoding_eqb (seg_encoding s) EInvalid
  then {| s with seg_encoding := expected_encoding_for (seg_kind s) |} else s.

Definition canonicalize_segments (ss : list Segment) : list Segment :=
  map canonicalize_segment ss.

(** ** [derive_segment_list_id] *)
Definition derive_segment_list_id (scope name : list Byte.byte) : SegmentListId :=
  let h := fnv1a64 (put16 0x1D01 ++ put32 (size scope) ++ scope
                      ++ put32 (size name) ++ name) in
  if h =? 0 then 1 else h.

(** ** Lemmas: padding *)

Lemma pad_payload_short l w :
  size l <= w ->
  pad_payload l w = l ++ replicate (Z.to_nat (w - size l)) zero_byte.
Proof.
  intros H. unfold pad_payload. destruct (Z.ltb_spec (size l) w).
  - unfold size. by rewrite Nat2Z.id, firstn_all.
  - assert (w = size l) as -> by lia. unfold size. by rewrite Nat2Z.id, firstn_all.
Qed.

Lemma length_pad_payload l w : length (pad_payload l w) = Z.to_nat w.
Proof.
  unfold pad_payload, size.
  destruct (Z.ltb_spec (Z.of_nat (length l)) w);
    rewrite length_app, length_take, length_replicate; lia.
Qed.

Lemma lookup_pad_payload l w i :
  (i < Z.to_nat w)%nat -> pad_payload l w !! i = Some (payload_byte l i).
Proof.
  unfold payload_byte, pad_payload. intros Hi.
  destruct (Z.ltb_spec (size l) w) as [Hw|Hw]; unfold size in *.
  - rewrite Nat2Z.id, firstn_all. destruct (decide (i < length l)%nat).
    + rewrite lookup_app_l by done.
      destruct (nth_lookup_or_length l i zero_byte); [done|lia].
    + rewrite lookup_app_r by lia. rewrite lookup_replicate_2 by lia.
      by rewrite nth_overflow by lia.
  - rewrite lookup_app_l by (rewrite length_take; lia).
    rewrite lookup_take_lt by done.
    destruct (nth_lookup_or_length l i zero_byte); [done|lia].
Qed.

(** Payloads are equal under padding exactly when both fit and the padded bytes
    agree. *)
Lemma canonical_payload_equal_spec a b w :
  0 <= w ->
  canonical_payload_equal a b w = true <->
  size a <= w /\ size b <= w /\ pad_payload a w = pad_payload b w.
Proof.
  intros Hw. unfold canonical_payload_equal.
  destruct ((w <? size a) || (w <? size b)) eqn:E.
  { split; [done|]. intros (?&?&_). apply orb_true_iff in E as [E|E]; simpl_bools; lia. }
  simpl_bools. rewrite forallb_forall. setoid_rewrite in_seq.
  setoid_rewrite byte_eqb_eq. split.
  - intros Hall. split_and!; [lia|lia|]. apply list_eq_same_length with (Z.to_nat w);
      try by rewrite length_pad_payload.
    intros i x y Hi. rewrite !lookup_pad_payload by lia. intros. simplify_eq.
    apply Hall. lia.
  - intros (_ & _ & Hp) i Hi. apply (f_equal (fun l => l !! i)) in Hp.
    rewrite !lookup_pad_payload in Hp by lia. by simplify_eq.
Qed.

(** ** Lemmas: one segment *)

Lemma put64s_inj zs zs' :
  length zs = length zs' -> Forall (fits 64) zs -> Forall (fits 64) zs' ->
  put64s zs = put64s zs' -> zs = zs'.
Proof.
  unfold put64s. revert zs'. induction zs as [|z zs IH]; intros [|z' zs'];
    cbn; intros Hlen Hz Hz' H; try done.
  inversion Hz; inversion Hz'; subst. peel_field H E.
  apply put64_inj in E; [|done..]. subst. f_equal. apply IH; auto.
Qed.

Lemma length_put64s zs : length (put64s zs) = (8 * length zs)%nat.
Proof.
  unfold put64s. induction zs; cbn; [done|]. rewrite length_app, length_put64. lia.
Qed.

Lemma segment_scalars_fits s : segment_fits s -> Forall (fits 64) (segment_scalars s).
Proof. intros (?&?&?&?&?&?&?&?&?). unfold segment_scalars. repeat (constructor; [done|]). constructor. Qed.

Lemma kind_value_fits k : fits 16 (kind_value k).
Proof. destruct k; vm_compute; split; congruence. Qed.
Lemma encoding_value_fits e : fits 16 (encoding_value e).
Proof. destruct e; vm_compute; split; congruence. Qed.

Lemma length_write_segment s w :
  length (write_segment s w) = (78 + Z.to_nat w)%nat.
Proof.
  unfold write_segment.
  rewrite !length_app, !length_put16, length_put64s, length_pad_payload.
  reflexivity.
Qed.

(** Equal canonical bytes: equal kind, encoding, references and padded payload. *)
Lemma write_segment_inj a b w :
  segment_fits a -> segment_fits b ->
  write_segment a w = write_segment b w ->
  seg_kind a = seg_kind b /\ seg_encoding a = seg_encoding b /\
  segment_scalars a = segment_scalars b /\
  pad_payload (seg_payload a) w = pad_payload (seg_payload b) w.
Proof.
  unfold write_segment. intros Ha Hb H.
  peel_field H Hk. apply put16_inj, kind_value_inj in Hk; auto using kind_value_fits.
  peel_field H He. apply put16_inj, encoding_value_inj in He; auto using encoding_value_fits.
  apply app_inj_length in H as [Hs H]; [|by rewrite !length_put64s].
  apply put64s_inj in Hs; auto using segment_scalars_fits.
  peel_field H Hpw. done.
Qed.

Lemma same_scalar_content_spec a b :
  same_scalar_content a b = true <->
  seg_kind a = seg_kind b /\ effective_encoding a = effective_encoding b /\
  segment_scalars a = segment_scalars b.
Proof.
  unfold same_scalar_content, segment_scalars.
  rewrite !andb_true_iff, kind_eqb_eq, encoding_eqb_eq, !Z.eqb_eq.
  split; [intros; destruct_and!; repeat split; congruence|].
  intros (Hk & He & Hs). injection Hs. intros. by repeat split.
Qed.

Lemma canonicalize_segment_encoding s :
  seg_encoding (canonicalize_segment s) = effective_encoding s.
Proof.
  unfold canonicalize_segment, effective_encoding.
  by destruct (encoding_eqb (seg_encoding s) EInvalid).
Qed.

Lemma canonicalize_segment_kind s : seg_kind (canonicalize_segment s) = seg_kind s.
Proof. unfold canonicalize_segment. by destruct (encoding_eqb _ _). Qed.

Lemma canonicalize_segment_scalars s :
  segment_scalars (canonicalize_segment s) = segment_scalars s.
Proof. unfold canonicalize_segment. by destruct (encoding_eqb _ _). Qed.

Lemma canonicalize_segment_payload s :
  seg_payload (canonicalize_segment s) = seg_payload s.
Proof. unfold canonicalize_segment. by destruct (encoding_eqb _ _). Qed.

Lemma canonicalize_segment_fits s : segment_fits s -> segment_fits (canonicalize_segment s).
Proof. unfold canonicalize_segment. by destruct (encoding_eqb _ _). Qed.

Lemma canonicalize_segment_idemp s :
  canonicalize_segment (canonicalize_segment s) = canonicalize_segment s.
Proof.
  destruct s as [k e]. destruct k, e; reflexivity.
Qed.

Lemma canonical_bytes_of_equal a b w :
  0 <= w -> segment_semantic_equal a b w = true ->
  write_segment (canonicalize_segment a) w = write_segment (canonicalize_segment b) w.
Proof.
  unfold segment_semantic_equal. intros Hw.
  destruct (same_scalar_content a b) eqn:E; [cbn|done].
  apply same_scalar_content_spec in E as (Hk & He & Hs).
  intros (_ & _ & Hp)%canonical_payload_equal_spec; [|done].
  unfold write_segment.
  by rewrite !canonicalize_segment_kind, !canonicalize_segment_encoding,
    !canonicalize_segment_scalars, !canonicalize_segment_payload, Hk, He, Hs, Hp.
Qed.

(** Semantic equality is equality of the canonical bytes of the canonicalized
    segments, for payloads within the width. *)
Lemma semantic_equal_iff_canonical a b w :
  0 <= w -> segment_fits a -> segment_fits b ->
  size (seg_payload a) <= w -> size (seg_payload b) <= w ->
  segment_semantic_equal a b w = true <->
  write_segment (canonicalize_segment a) w = write_segment (canonicalize_segment b) w.
Proof.
  intros Hw Ha Hb Hpa Hpb. split; [by apply canonical_bytes_of_equal|].
  intros H. apply write_segment_inj in H as (Hk & He & Hs & Hp);
    [|by apply canonicalize_segment_fits..].
  rewrite !canonicalize_segment_kind in Hk. rewrite !canonicalize_segment_encoding in He.
  rewrite !canonicalize_segment_scalars in Hs. rewrite !canonicalize_segment_payload in Hp.
  unfold segment_semantic_equal.
  rewrite (proj2 (same_scalar_content_spec a b)) by done. cbn.
  by apply canonical_payload_equal_spec.
Qed.

(** ** Equality of segments as a setoid

    [operator==] identifies segments that spell the same content: an unset encoding
    is the encoding of the kind, and payloads are compared under zero padding. *)

#[global] Instance segment_equiv : Equiv Segment := fun a b =>
  seg_kind a = seg_kind b /\ effective_encoding a = effective_encoding b /\
  segment_scalars a = segment_scalars b /\
  forall i, payload_byte (seg_payload a) i = payload_byte (seg_payload b) i.

#[global] Instance segment_equivalence : Equivalence (≡@{Segment}).
Proof.
  unfold equiv, segment_equiv. split.
  - done.
  - intros a b (-> & -> & -> & H). by repeat split.
  - intros a b c (-> & -> & -> & H) (-> & -> & -> & H'). repeat split.
    intros i. by rewrite H.
Qed.

Lemma pad_payload_ext l l' w :
  (forall i, payload_byte l i = payload_byte l' i) ->
  pad_payload l w = pad_payload l' w.
Proof.
  intros H. apply list_eq_same_length with (Z.to_nat w);
    try by rewrite length_pad_payload.
  intros i x y Hi. rewrite !lookup_pad_payload by done. rewrite H. intros. by simplify_eq.
Qed.

(** The canonical bytes of a canonicalized segment respect [operator==]. *)
#[global] Instance write_segment_proper w :
  Proper ((≡) ==> (=)) (fun s => write_segment (canonicalize_segment s) w).
Proof.
  intros a b (Hk & He & Hs & Hp). unfold write_segment.
  rewrite !canonicalize_segment_kind, !canonicalize_segment_encoding,
    !canonicalize_segment_scalars, !canonicalize_segment_payload, Hk, He, Hs.
  by rewrite (pad_payload_ext _ _ w Hp).
Qed.

Lemma payload_byte_overflow l i : (length l <= i)%nat -> payload_byte l i = zero_byte.
Proof. apply nth_overflow. Qed.

Lemma canonical_payload_padded_spec a b :
  fits 32 (size (seg_payload a)) -> fits 32 (size (seg_payload b)) ->
  canonical_payload_padded_equal a b = true <->
  forall i, payload_byte (seg_payload a) i = payload_byte (seg_payload b) i.
Proof.
  intros Ha Hb. unfold canonical_payload_padded_equal.
  generalize dependent (seg_payload b). generalize dependent (seg_payload a).
  clear a b. intros a Ha b Hb. set (w := if size b <? size a then size a else size b).
  assert (size a <= w /\ size b <= w /\ fits 32 w) as (Hwa & Hwb & Hw).
  { subst w. destruct (Z.ltb_spec (size b) (size a)); split_and!; try lia; done. }
  rewrite wrap_small by done. pose proof (size_nonneg a).
  rewrite canonical_payload_equal_spec by lia. split.
  - intros (_ & _ & Hp) i. destruct (decide (i < Z.to_nat w)%nat).
    + apply (f_equal (fun l => l !! i)) in Hp.
      rewrite !lookup_pad_payload in Hp by done. by simplify_eq.
    + unfold size in *. rewrite !payload_byte_overflow by lia. done.
  - intros Hp. split_and!; [done..|]. by apply pad_payload_ext.
Qed.

(** [operator==] decides the setoid equality. *)
Theorem segment_eqb_spec a b :
  fits 32 (size (seg_payload a)) -> fits 32 (size (seg_payload b)) ->
  segment_eqb a b = true <-> a ≡ b.
Proof.
  intros Ha Hb. unfold segment_eqb, equiv, segment_equiv.
  destruct (same_scalar_content a b) eqn:E; cbn.
  - apply same_scalar_content_spec in E. rewrite canonical_payload_padded_spec by done.
    tauto.
  - split; [done|]. intros (Hk & He & Hs & _).
    by rewrite (proj2 (same_scalar_content_spec a b)) in E.
Qed.

(** ** Sequences *)

Lemma write_segments_cons s ss w :
  write_segments (s :: ss) w = write_segment s w ++ write_segments ss w.
Proof. done. Qed.

Definition payload_within (w : Z) (s : Segment) : Prop := size (seg_payload s) <= w.

(** Hypotheses on a sequence that make its canonical encoding lossless: the width
    and the count fit their fields, no payload is truncated. *)
Definition sequence_ok (w : Z) (ss : list Segment) : Prop :=
  Forall segment_fits ss /\ Forall (payload_within w) ss /\ fits 32 (size ss).

Lemma write_segments_iff w ss ss' :
  0 <= w -> Forall segment_fits ss -> Forall segment_fits ss' ->
  Forall (payload_within w) ss -> Forall (payload_within w) ss' ->
  length ss = length ss' ->
  write_segments (canonicalize_segments ss) w =
    write_segments (canonicalize_segments ss') w <->
  Forall2 (fun a b => segment_semantic_equal a b w = true) ss ss'.
Proof.
  intros Hw Hf. revert ss'. induction Hf as [|a ss Ha Hf IH]; intros ss' Hf' Hp Hp' Hlen.
  - destruct ss'; [|done]. cbn. split; constructor.
  - destruct Hf' as [|b ss' Hb Hf']; [done|].
    inversion Hp; inversion Hp'; subst. change (canonicalize_segments (?x :: ?l)) with
      (canonicalize_segment x :: canonicalize_segments l).
    rewrite !write_segments_cons, list.Forall2_cons, semantic_equal_iff_canonical by done.
    rewrite <-IH by (done || by injection Hlen). split.
    + intros H'. apply app_inj_length in H'; [tauto|]. by rewrite !length_write_segment.
    + intros [-> ->]. done.
Qed.

(** The canonical bytes of a sequence determine the sequence, in order, up to
    semantic equality of its segments: reordering, dropping or repeating a segment
    changes the bytes unless the sequences agree position by position. *)
Theorem canonical_sequence_bytes_iff w ss ss' :
  0 <= w -> sequence_ok w ss -> sequence_ok w ss' ->
  canonical_sequence_bytes (canonicalize_segments ss) w =
    canonical_sequence_bytes (canonicalize_segments ss') w <->
  Forall2 (fun a b => segment_semantic_equal a b w = true) ss ss'.
Proof.
  intros Hw (Hf & Hp & Hn) (Hf' & Hp' & Hn'). unfold canonical_sequence_bytes.
  assert (forall l, size (canonicalize_segments l) = size l) as Hsz.
  { intros l. unfold size, canonicalize_segments. by rewrite length_map. }
  rewrite !Hsz. split.
  - intros H. peel_field H Hm. peel_field H Hc.
    apply put32_inj in Hc; [|done..]. unfold size in Hc.
    eapply write_segments_iff; eauto; lia.
  - intros H. pose proof (list.Forall2_length _ _ _ H) as Hlen.
    unfold size. rewrite Hlen. do 2 f_equal. by apply write_segments_iff.
Qed.

(** Canonicalization never reorders, drops or adds a segment. *)
Lemma canonicalize_segments_equiv ss : canonicalize_segments ss ≡ ss.
Proof.
  induction ss as [|s ss IH]; [constructor|]. constructor; [|done].
  unfold equiv, segment_equiv.
  rewrite canonicalize_segment_kind, canonicalize_segment_scalars,
    canonicalize_segment_payload.
  split_and!; [done| |done..]. destruct s as [k e]. by destruct k, e.
Qed.
