(* ===== verification/Reason.v ===== *)
(** * Rejection reasons and validation results

    [include/srf/reason.hpp] and [src/reason.cpp]: the phases of the fixed rejection
    precedence, the reason codes with their values and phases, and
    [ValidationResult] with its bounded, sorted, deduplicated reason list. *)

From S2P Require Import Prelude.
From S2P Require Import Ids.

Inductive ValidationPhase :=
  | PhOk | PhWireDecode | PhCallerIdentity | PhEpochBootScope
  | PhListLifecycleGeneration | PhProfile | PhPolicy | PhStructuralSegment
  | PhCapabilityEvidence | PhTopologyEvidence | PhPathAuthority | PhRouteBinding
  | PhConstraintBinding | PhResourceLimits | PhCommit.

Definition phase_value (p : ValidationPhase) : Z :=
  match p with
  | PhOk => 0 | PhWireDecode => 1 | PhCallerIdentity => 2 | PhEpochBootScope => 3
  | PhListLifecycleGeneration => 4 | PhProfile => 5 | PhPolicy => 6
  | PhStructuralSegment => 7 | PhCapabilityEvidence => 8 | PhTopologyEvidence => 9
  | PhPathAuthority => 10 | PhRouteBinding => 11 | PhConstraintBinding => 12
  | PhResourceLimits => 13 | PhCommit => 14
  end.

Definition phase_name (p : ValidationPhase) : string :=
  match p with
  | PhOk => "Ok"
  | PhWireDecode => "WireDecode"
  | PhCallerIdentity => "CallerIdentity"
  | PhEpochBootScope => "EpochBootScope"
  | PhListLifecycleGeneration => "ListLifecycleGeneration"
  | PhProfile => "Profile"
  | PhPolicy => "Policy"
  | PhStructuralSegment => "StructuralSegment"
  | PhCapabilityEvidence => "CapabilityEvidence"
  | PhTopologyEvidence => "TopologyEvidence"
  | PhPathAuthority => "PathAuthority"
  | PhRouteBinding => "RouteBinding"
  | PhConstraintBinding => "ConstraintBinding"
  | PhResourceLimits => "ResourceLimits"
  | PhCommit => "Commit"
  end.

Inductive ReasonCode :=
  | ReasonOk | WireMagicMismatch | WireUnsupportedVersion | WireUnknownMessageId
  | WireMalformedFrame | WireHeaderTruncated | WirePayloadLengthMismatch
  | WireIntegrityMismatch | WireTrailingBytes | WireUnknownEnumValue
  | WireUnsupportedFlags | WireAssemblyOverflow | WireFieldOutOfRange
  | CallerMissingPublisher | CallerUnknownPublisher | CallerFencedPublisher
  | CallerMissingWorkerBoot | CallerStaleWorkerBoot | CallerMissingMutationAttempt
  | CallerMutationAttemptReuseMismatch | CallerMissingScope | CallerScopeMismatch
  | CallerInvalidIdentity | EpochInvalid | EpochStale | EpochExhausted | BootUnknown
  | BootAlreadyFenced | ScopeNotPermitted | ScopeMismatch | ListIdInvalid
  | ListNotFound | ListAlreadyExists | ListGenerationInvalid | ListGenerationConflict
  | ListGenerationExhausted | ListGenerationRegressed | LifecycleTransitionDenied
  | ListRetired | ListRevoked | ListWithdrawn | ListSuperseded | ListEmptyNotPermitted
  | ListSupersedesUnknown | ListKeyMismatch | ListLineageMismatch | ProfileUnknown
  | ProfileIdInvalid | ProfileGenerationInvalid | ProfileGenerationMismatch
  | ProfileKindNotAllowed | ProfilePayloadWidthExceeded | ProfileMaxDepthExceeded
  | ProfileRepeatNotPermitted | ProfileEmptyNotPermitted | ProfileEncodingUnsupported
  | ProfileKindMismatch | ProfileDigestMismatch | ProfileStrictnessUnsupported
  | PolicyUnknown | PolicyIdInvalid | PolicyGenerationInvalid
  | PolicyGenerationMismatch | PolicyDeniedProfile | PolicyDeniedSegmentKind
  | PolicyMaxDepthExceeded | PolicyRequiredEntityMissing | PolicyForbiddenEntityPresent
  | PolicyOwnershipMismatch | PolicyReplacementDenied | PolicyDerivationDenied
  | PolicyDigestMismatch | PolicyStrictnessRequired | SegmentKindInvalid
  | SegmentIdInvalid | SegmentGenerationInvalid | SegmentPayloadTooLarge
  | SegmentReservedFieldSet | SegmentMissingBinding | SegmentUnexpectedBinding
  | SegmentBindingIncomplete | SegmentEncodingMismatch | SegmentEntityUnknown
  | SegmentEntityGenerationMismatch | SegmentEntityKindMismatch | SegmentCountMismatch
  | SegmentDuplicateConsecutive | SegmentDuplicateNonConsecutive
  | SegmentAggregateDigestMismatch | CapabilityMissing | CapabilityUnsupported
  | CapabilityGenerationMismatch | CapabilityEvidenceUnavailable | CapabilityKeyInvalid
  | TopologyGenerationInvalid | TopologyGenerationMismatch | TopologyAdjacencyUnknown
  | TopologyAdjacencyStale | TopologyEvidenceUnavailable
  | TopologyAdjacencyKindMismatch | PathIdInvalid | PathUnknown
  | PathAuthorityGenerationInvalid | PathAuthorityGenerationStale | PathAuthorityDenied
  | PathBindingMissing | PathBelongsToOtherScope | RouteBindingUnknown
  | RouteBindingGenerationStale | RouteBindingInvalid | ConstraintBindingUnknown
  | ConstraintBindingGenerationStale | ConstraintBindingInvalid | LimitMaxLists
  | LimitMaxSegmentsPerList | LimitMaxSegmentPayloadBytes | LimitMaxProfiles
  | LimitMaxPolicies | LimitMaxBatchSize | LimitMaxPublishers | LimitMaxFrameBytes
  | LimitMaxHistory | LimitMaxExplanationEntries | LimitMaxPersistenceRecordBytes
  | LimitMaxReasons | LimitMaxDiffEntries | LimitMaxTotalSegments
  | LimitMaxAttemptRecords | LimitMaxEvidenceRecords | CommitWatermarkChanged
  | CommitConflict | CommitPersistenceFailure | CommitGenerationExhausted
  | CommitReplayPayloadMismatch | CommitAborted | CommitNotDurable | CurrentnessCurrent
  | CurrentnessStaleProfile | CurrentnessStalePolicy | CurrentnessStaleTopology
  | CurrentnessStaleCapability | CurrentnessStalePathAuthority
  | CurrentnessStaleRouteBinding | CurrentnessStaleConstraintBinding
  | CurrentnessStaleEpoch | CurrentnessFencedPublisher
  | CurrentnessRevalidationRequired | CurrentnessUnknown | PersistBadMagic
  | PersistBadVersion | PersistTruncated | PersistCorrupt | PersistBadIntegrity
  | PersistBadRecord | PersistDuplicateIdentity | PersistImpossibleGeneration
  | PersistDanglingReference | PersistAbsurdCount | PersistTrailingBytes
  | PersistIoError | PersistIndexInconsistent | PersistCountMismatch | PersistOverflow
  | PersistKindInvalid | PersistProfileInvalid | PersistEncodingInvalid
  | PersistDepthInvalid | PersistDigestMismatch | PersistEmpty | InvalidArgument
  | InternalError | ResourceExhausted | NotSupported.

(** [static_cast<std::uint16_t>(code)] *)
Definition code_value (c : ReasonCode) : Z :=
  match c with
  | ReasonOk => 0 | WireMagicMismatch => 1 | WireUnsupportedVersion => 2
  | WireUnknownMessageId => 3 | WireMalformedFrame => 4 | WireHeaderTruncated => 5
  | WirePayloadLengthMismatch => 6 | WireIntegrityMismatch => 7
  | WireTrailingBytes => 8 | WireUnknownEnumValue => 9 | WireUnsupportedFlags => 10
  | WireAssemblyOverflow => 11 | WireFieldOutOfRange => 12
  | CallerMissingPublisher => 40 | CallerUnknownPublisher => 41
  | CallerFencedPublisher => 42 | CallerMissingWorkerBoot => 43
  | CallerStaleWorkerBoot => 44 | CallerMissingMutationAttempt => 45
  | CallerMutationAttemptReuseMismatch => 46 | CallerMissingScope => 47
  | CallerScopeMismatch => 48 | CallerInvalidIdentity => 49 | EpochInvalid => 80
  | EpochStale => 81 | EpochExhausted => 82 | BootUnknown => 83
  | BootAlreadyFenced => 84 | ScopeNotPermitted => 85 | ScopeMismatch => 86
  | ListIdInvalid => 120 | ListNotFound => 121 | ListAlreadyExists => 122
  | ListGenerationInvalid => 123 | ListGenerationConflict => 124
  | ListGenerationExhausted => 125 | ListGenerationRegressed => 126
  | LifecycleTransitionDenied => 127 | ListRetired => 128 | ListRevoked => 129
  | ListWithdrawn => 130 | ListSuperseded => 131 | ListEmptyNotPermitted => 132
  | ListSupersedesUnknown => 133 | ListKeyMismatch => 134 | ListLineageMismatch => 135
  | ProfileUnknown => 170 | ProfileIdInvalid => 171 | ProfileGenerationInvalid => 172
  | ProfileGenerationMismatch => 173 | ProfileKindNotAllowed => 174
  | ProfilePayloadWidthExceeded => 175 | ProfileMaxDepthExceeded => 176
  | ProfileRepeatNotPermitted => 177 | ProfileEmptyNotPermitted => 178
  | ProfileEncodingUnsupported => 179 | ProfileKindMismatch => 180
  | ProfileDigestMismatch => 181 | ProfileStrictnessUnsupported => 182
  | PolicyUnknown => 210 | PolicyIdInvalid => 211 | PolicyGenerationInvalid => 212
  | PolicyGenerationMismatch => 213 | PolicyDeniedProfile => 214
  | PolicyDeniedSegmentKind => 215 | PolicyMaxDepthExceeded => 216
  | PolicyRequiredEntityMissing => 217 | PolicyForbiddenEntityPresent => 218
  | PolicyOwnershipMismatch => 219 | PolicyReplacementDenied => 220
  | PolicyDerivationDenied => 221 | PolicyDigestMismatch => 222
  | PolicyStrictnessRequired => 223 | SegmentKindInvalid => 250
  | SegmentIdInvalid => 251 | SegmentGenerationInvalid => 252
  | SegmentPayloadTooLarge => 253 | SegmentReservedFieldSet => 254
  | SegmentMissingBinding => 255 | SegmentUnexpectedBinding => 256
  | SegmentBindingIncomplete => 257 | SegmentEncodingMismatch => 258
  | SegmentEntityUnknown => 259 | SegmentEntityGenerationMismatch => 260
  | SegmentEntityKindMismatch => 261 | SegmentCountMismatch => 262
  | SegmentDuplicateConsecutive => 263 | SegmentDuplicateNonConsecutive => 264
  | SegmentAggregateDigestMismatch => 265 | CapabilityMissing => 290
  | CapabilityUnsupported => 291 | CapabilityGenerationMismatch => 292
  | CapabilityEvidenceUnavailable => 293 | CapabilityKeyInvalid => 294
  | TopologyGenerationInvalid => 320 | TopologyGenerationMismatch => 321
  | TopologyAdjacencyUnknown => 322 | TopologyAdjacencyStale => 323
  | TopologyEvidenceUnavailable => 324 | TopologyAdjacencyKindMismatch => 325
  | PathIdInvalid => 350 | PathUnknown => 351 | PathAuthorityGenerationInvalid => 352
  | PathAuthorityGenerationStale => 353 | PathAuthorityDenied => 354
  | PathBindingMissing => 355 | PathBelongsToOtherScope => 356
  | RouteBindingUnknown => 380 | RouteBindingGenerationStale => 381
  | RouteBindingInvalid => 382 | ConstraintBindingUnknown => 400
  | ConstraintBindingGenerationStale => 401 | ConstraintBindingInvalid => 402
  | LimitMaxLists => 420 | LimitMaxSegmentsPerList => 421
  | LimitMaxSegmentPayloadBytes => 422 | LimitMaxProfiles => 423
  | LimitMaxPolicies => 424 | LimitMaxBatchSize => 425 | LimitMaxPublishers => 426
  | LimitMaxFrameBytes => 427 | LimitMaxHistory => 428
  | LimitMaxExplanationEntries => 429 | LimitMaxPersistenceRecordBytes => 430
  | LimitMaxReasons => 431 | LimitMaxDiffEntries => 432 | LimitMaxTotalSegments => 433
  | LimitMaxAttemptRecords => 434 | LimitMaxEvidenceRecords => 435
  | CommitWatermarkChanged => 470 | CommitConflict => 471
  | CommitPersistenceFailure => 472 | CommitGenerationExhausted => 473
  | CommitReplayPayloadMismatch => 474 | CommitAborted => 475 | CommitNotDurable => 476
  | CurrentnessCurrent => 520 | CurrentnessStaleProfile => 521
  | CurrentnessStalePolicy => 522 | CurrentnessStaleTopology => 523
  | CurrentnessStaleCapability => 524 | CurrentnessStalePathAuthority => 525
  | CurrentnessStaleRouteBinding => 526 | CurrentnessStaleConstraintBinding => 527
  | CurrentnessStaleEpoch => 528 | CurrentnessFencedPublisher => 529
  | CurrentnessRevalidationRequired => 530 | CurrentnessUnknown => 531
  | PersistBadMagic => 560 | PersistBadVersion => 561 | PersistTruncated => 562
  | PersistCorrupt => 563 | PersistBadIntegrity => 564 | PersistBadRecord => 565
  | PersistDuplicateIdentity => 566 | PersistImpossibleGeneration => 567
  | PersistDanglingReference => 568 | PersistAbsurdCount => 569
  | PersistTrailingBytes => 570 | PersistIoError => 571
  | PersistIndexInconsistent => 572 | PersistCountMismatch => 573
  | PersistOverflow => 574 | PersistKindInvalid => 575 | PersistProfileInvalid => 576
  | PersistEncodingInvalid => 577 | PersistDepthInvalid => 578
  | PersistDigestMismatch => 579 | PersistEmpty => 580 | InvalidArgument => 620
  | InternalError => 621 | ResourceExhausted => 622 | NotSupported => 623
  end.

(** The enumerator of a value, when it names one. *)
Definition code_of_value (z : Z) : option ReasonCode :=
  match z with
  | 0 => Some ReasonOk | 1 => Some WireMagicMismatch | 2 => Some WireUnsupportedVersion
  | 3 => Some WireUnknownMessageId | 4 => Some WireMalformedFrame
  | 5 => Some WireHeaderTruncated | 6 => Some WirePayloadLengthMismatch
  | 7 => Some WireIntegrityMismatch | 8 => Some WireTrailingBytes
  | 9 => Some WireUnknownEnumValue | 10 => Some WireUnsupportedFlags
  | 11 => Some WireAssemblyOverflow | 12 => Some WireFieldOutOfRange
  | 40 => Some CallerMissingPublisher | 41 => Some CallerUnknownPublisher
  | 42 => Some CallerFencedPublisher | 43 => Some CallerMissingWorkerBoot
  | 44 => Some CallerStaleWorkerBoot | 45 => Some CallerMissingMutationAttempt
  | 46 => Some CallerMutationAttemptReuseMismatch | 47 => Some CallerMissingScope
  | 48 => Some CallerScopeMismatch | 49 => Some CallerInvalidIdentity
  | 80 => Some EpochInvalid | 81 => Some EpochStale | 82 => Some EpochExhausted
  | 83 => Some BootUnknown | 84 => Some BootAlreadyFenced
  | 85 => Some ScopeNotPermitted | 86 => Some ScopeMismatch | 120 => Some ListIdInvalid
  | 121 => Some ListNotFound | 122 => Some ListAlreadyExists
  | 123 => Some ListGenerationInvalid | 124 => Some ListGenerationConflict
  | 125 => Some ListGenerationExhausted | 126 => Some ListGenerationRegressed
  | 127 => Some LifecycleTransitionDenied | 128 => Some ListRetired
  | 129 => Some ListRevoked | 130 => Some ListWithdrawn | 131 => Some ListSuperseded
  | 132 => Some ListEmptyNotPermitted | 133 => Some ListSupersedesUnknown
  | 134 => Some ListKeyMismatch | 135 => Some ListLineageMismatch
  | 170 => Some ProfileUnknown | 171 => Some ProfileIdInvalid
  | 172 => Some ProfileGenerationInvalid | 173 => Some ProfileGenerationMismatch
  | 174 => Some ProfileKindNotAllowed | 175 => Some ProfilePayloadWidthExceeded
  | 176 => Some ProfileMaxDepthExceeded | 177 => Some ProfileRepeatNotPermitted
  | 178 => Some ProfileEmptyNotPermitted | 179 => Some ProfileEncodingUnsupported
  | 180 => Some ProfileKindMismatch | 181 => Some ProfileDigestMismatch
  | 182 => Some ProfileStrictnessUnsupported | 210 => Some PolicyUnknown
  | 211 => Some PolicyIdInvalid | 212 => Some PolicyGenerationInvalid
  | 213 => Some PolicyGenerationMismatch | 214 => Some PolicyDeniedProfile
  | 215 => Some PolicyDeniedSegmentKind | 216 => Some PolicyMaxDepthExceeded
  | 217 => Some PolicyRequiredEntityMissing | 218 => Some PolicyForbiddenEntityPresent
  | 219 => Some PolicyOwnershipMismatch | 220 => Some PolicyReplacementDenied
  | 221 => Some PolicyDerivationDenied | 222 => Some PolicyDigestMismatch
  | 223 => Some PolicyStrictnessRequired | 250 => Some SegmentKindInvalid
  | 251 => Some SegmentIdInvalid | 252 => Some SegmentGenerationInvalid
  | 253 => Some SegmentPayloadTooLarge | 254 => Some SegmentReservedFieldSet
  | 255 => Some SegmentMissingBinding | 256 => Some SegmentUnexpectedBinding
  | 257 => Some SegmentBindingIncomplete | 258 => Some SegmentEncodingMismatch
  | 259 => Some SegmentEntityUnknown | 260 => Some SegmentEntityGenerationMismatch
  | 261 => Some SegmentEntityKindMismatch | 262 => Some SegmentCountMismatch
  | 263 => Some SegmentDuplicateConsecutive
  | 264 => Some SegmentDuplicateNonConsecutive
  | 265 => Some SegmentAggregateDigestMismatch | 290 => Some CapabilityMissing
  | 291 => Some CapabilityUnsupported | 292 => Some CapabilityGenerationMismatch
  | 293 => Some CapabilityEvidenceUnavailable | 294 => Some CapabilityKeyInvalid
  | 320 => Some TopologyGenerationInvalid | 321 => Some TopologyGenerationMismatch
  | 322 => Some TopologyAdjacencyUnknown | 323 => Some TopologyAdjacencyStale
  | 324 => Some TopologyEvidenceUnavailable | 325 => Some TopologyAdjacencyKindMismatch
  | 350 => Some PathIdInvalid | 351 => Some PathUnknown
  | 352 => Some PathAuthorityGenerationInvalid
  | 353 => Some PathAuthorityGenerationStale | 354 => Some PathAuthorityDenied
  | 355 => Some PathBindingMissing | 356 => Some PathBelongsToOtherScope
  | 380 => Some RouteBindingUnknown | 381 => Some RouteBindingGenerationStale
  | 382 => Some RouteBindingInvalid | 400 => Some ConstraintBindingUnknown
  | 401 => Some ConstraintBindingGenerationStale | 402 => Some ConstraintBindingInvalid
  | 420 => Some LimitMaxLists | 421 => Some LimitMaxSegmentsPerList
  | 422 => Some LimitMaxSegmentPayloadBytes | 423 => Some LimitMaxProfiles
  | 424 => Some LimitMaxPolicies | 425 => Some LimitMaxBatchSize
  | 426 => Some LimitMaxPublishers | 427 => Some LimitMaxFrameBytes
  | 428 => Some LimitMaxHistory | 429 => Some LimitMaxExplanationEntries
  | 430 => Some LimitMaxPersistenceRecordBytes | 431 => Some LimitMaxReasons
  | 432 => Some LimitMaxDiffEntries | 433 => Some LimitMaxTotalSegments
  | 434 => Some LimitMaxAttemptRecords | 435 => Some LimitMaxEvidenceRecords
  | 470 => Some CommitWatermarkChanged | 471 => Some CommitConflict
  | 472 => Some CommitPersistenceFailure | 473 => Some CommitGenerationExhausted
  | 474 => Some CommitReplayPayloadMismatch | 475 => Some CommitAborted
  | 476 => Some CommitNotDurable | 520 => Some CurrentnessCurrent
  | 521 => Some CurrentnessStaleProfile | 522 => Some CurrentnessStalePolicy
  | 523 => Some CurrentnessStaleTopology | 524 => Some CurrentnessStaleCapability
  | 525 => Some CurrentnessStalePathAuthority
  | 526 => Some CurrentnessStaleRouteBinding
  | 527 => Some CurrentnessStaleConstraintBinding | 528 => Some CurrentnessStaleEpoch
  | 529 => Some CurrentnessFencedPublisher
  | 530 => Some CurrentnessRevalidationRequired | 531 => Some CurrentnessUnknown
  | 560 => Some PersistBadMagic | 561 => Some PersistBadVersion
  | 562 => Some PersistTruncated | 563 => Some PersistCorrupt
  | 564 => Some PersistBadIntegrity | 565 => Some PersistBadRecord
  | 566 => Some PersistDuplicateIdentity | 567 => Some PersistImpossibleGeneration
  | 568 => Some PersistDanglingReference | 569 => Some PersistAbsurdCount
  | 570 => Some PersistTrailingBytes | 571 => Some PersistIoError
  | 572 => Some PersistIndexInconsistent | 573 => Some PersistCountMismatch
  | 574 => Some PersistOverflow | 575 => Some PersistKindInvalid
  | 576 => Some PersistProfileInvalid | 577 => Some PersistEncodingInvalid
  | 578 => Some PersistDepthInvalid | 579 => Some PersistDigestMismatch
  | 580 => Some PersistEmpty | 620 => Some InvalidArgument | 621 => Some InternalError
  | 622 => Some ResourceExhausted | 623 => Some NotSupported
  | _ => None
  end.

Record CodeName := mkCodeName { cn_code : ReasonCode; cn_name : string; cn_phase : ValidationPhase }.

Definition kCodes : list CodeName := [
  mkCodeName ReasonOk "Ok" PhOk;
  mkCodeName WireMagicMismatch "WireMagicMismatch" PhWireDecode;
  mkCodeName WireUnsupportedVersion "WireUnsupportedVersion" PhWireDecode;
  mkCodeName WireUnknownMessageId "WireUnknownMessageId" PhWireDecode;
  mkCodeName WireMalformedFrame "WireMalformedFrame" PhWireDecode;
  mkCodeName WireHeaderTruncated "WireHeaderTruncated" PhWireDecode;
  mkCodeName WirePayloadLengthMismatch "WirePayloadLengthMismatch" PhWireDecode;
  mkCodeName WireIntegrityMismatch "WireIntegrityMismatch" PhWireDecode;
  mkCodeName WireTrailingBytes "WireTrailingBytes" PhWireDecode;
  mkCodeName WireUnknownEnumValue "WireUnknownEnumValue" PhWireDecode;
  mkCodeName WireUnsupportedFlags "WireUnsupportedFlags" PhWireDecode;
  mkCodeName WireAssemblyOverflow "WireAssemblyOverflow" PhWireDecode;
  mkCodeName WireFieldOutOfRange "WireFieldOutOfRange" PhWireDecode;
  mkCodeName CallerMissingPublisher "CallerMissingPublisher" PhCallerIdentity;
  mkCodeName CallerUnknownPublisher "CallerUnknownPublisher" PhCallerIdentity;
  mkCodeName CallerFencedPublisher "CallerFencedPublisher" PhCallerIdentity;
  mkCodeName CallerMissingWorkerBoot "CallerMissingWorkerBoot" PhCallerIdentity;
  mkCodeName CallerStaleWorkerBoot "CallerStaleWorkerBoot" PhCallerIdentity;
  mkCodeName CallerMissingMutationAttempt "CallerMissingMutationAttempt" PhCallerIdentity;
  mkCodeName CallerMutationAttemptReuseMismatch "CallerMutationAttemptReuseMismatch" PhCallerIdentity;
  mkCodeName CallerMissingScope "CallerMissingScope" PhCallerIdentity;
  mkCodeName CallerScopeMismatch "CallerScopeMismatch" PhCallerIdentity;
  mkCodeName CallerInvalidIdentity "CallerInvalidIdentity" PhCallerIdentity;
  mkCodeName EpochInvalid "EpochInvalid" PhEpochBootScope;
  mkCodeName EpochStale "EpochStale" PhEpochBootScope;
  mkCodeName EpochExhausted "EpochExhausted" PhEpochBootScope;
  mkCodeName BootUnknown "BootUnknown" PhEpochBootScope;
  mkCodeName BootAlreadyFenced "BootAlreadyFenced" PhEpochBootScope;
  mkCodeName ScopeNotPermitted "ScopeNotPermitted" PhEpochBootScope;
  mkCodeName ScopeMismatch "ScopeMismatch" PhEpochBootScope;
  mkCodeName ListIdInvalid "ListIdInvalid" PhListLifecycleGeneration;
  mkCodeName ListNotFound "ListNotFound" PhListLifecycleGeneration;
  mkCodeName ListAlreadyExists "ListAlreadyExists" PhListLifecycleGeneration;
  mkCodeName ListGenerationInvalid "ListGenerationInvalid" PhListLifecycleGeneration;
  mkCodeName ListGenerationConflict "ListGenerationConflict" PhListLifecycleGeneration;
  mkCodeName ListGenerationExhausted "ListGenerationExhausted" PhListLifecycleGeneration;
  mkCodeName ListGenerationRegressed "ListGenerationRegressed" PhListLifecycleGeneration;
  mkCodeName LifecycleTransitionDenied "LifecycleTransitionDenied" PhListLifecycleGeneration;
  mkCodeName ListRetired "ListRetired" PhListLifecycleGeneration;
  mkCodeName ListRevoked "ListRevoked" PhListLifecycleGeneration;
  mkCodeName ListWithdrawn "ListWithdrawn" PhListLifecycleGeneration;
  mkCodeName ListSuperseded "ListSuperseded" PhListLifecycleGeneration;
  mkCodeName ListEmptyNotPermitted "ListEmptyNotPermitted" PhListLifecycleGeneration;
  mkCodeName ListSupersedesUnknown "ListSupersedesUnknown" PhListLifecycleGeneration;
  mkCodeName ListKeyMismatch "ListKeyMismatch" PhListLifecycleGeneration;
  mkCodeName ListLineageMismatch "ListLineageMismatch" PhListLifecycleGeneration;
  mkCodeName ProfileUnknown "ProfileUnknown" PhProfile;
  mkCodeName ProfileIdInvalid "ProfileIdInvalid" PhProfile;
  mkCodeName ProfileGenerationInvalid "ProfileGenerationInvalid" PhProfile;
  mkCodeName ProfileGenerationMismatch "ProfileGenerationMismatch" PhProfile;
  mkCodeName ProfileKindNotAllowed "ProfileKindNotAllowed" PhProfile;
  mkCodeName ProfilePayloadWidthExceeded "ProfilePayloadWidthExceeded" PhProfile;
  mkCodeName ProfileMaxDepthExceeded "ProfileMaxDepthExceeded" PhProfile;
  mkCodeName ProfileRepeatNotPermitted "ProfileRepeatNotPermitted" PhProfile;
  mkCodeName ProfileEmptyNotPermitted "ProfileEmptyNotPermitted" PhProfile;
  mkCodeName ProfileEncodingUnsupported "ProfileEncodingUnsupported" PhProfile;
  mkCodeName ProfileKindMismatch "ProfileKindMismatch" PhProfile;
  mkCodeName ProfileDigestMismatch "ProfileDigestMismatch" PhProfile;
  mkCodeName ProfileStrictnessUnsupported "ProfileStrictnessUnsupported" PhProfile;
  mkCodeName PolicyUnknown "PolicyUnknown" PhPolicy;
  mkCodeName PolicyIdInvalid "PolicyIdInvalid" PhPolicy;
  mkCodeName PolicyGenerationInvalid "PolicyGenerationInvalid" PhPolicy;
  mkCodeName PolicyGenerationMismatch "PolicyGenerationMismatch" PhPolicy;
  mkCodeName PolicyDeniedProfile "PolicyDeniedProfile" PhPolicy;
  mkCodeName PolicyDeniedSegmentKind "PolicyDeniedSegmentKind" PhPolicy;
  mkCodeName PolicyMaxDepthExceeded "PolicyMaxDepthExceeded" PhPolicy;
  mkCodeName PolicyRequiredEntityMissing "PolicyRequiredEntityMissing" PhPolicy;
  mkCodeName PolicyForbiddenEntityPresent "PolicyForbiddenEntityPresent" PhPolicy;
  mkCodeName PolicyOwnershipMismatch "PolicyOwnershipMismatch" PhPolicy;
  mkCodeName PolicyReplacementDenied "PolicyReplacementDenied" PhPolicy;
  mkCodeName PolicyDerivationDenied "PolicyDerivationDenied" PhPolicy;
  mkCodeName PolicyDigestMismatch "PolicyDigestMismatch" PhPolicy;
  mkCodeName PolicyStrictnessRequired "PolicyStrictnessRequired" PhPolicy;
  mkCodeName SegmentKindInvalid "SegmentKindInvalid" PhStructuralSegment;
  mkCodeName SegmentIdInvalid "SegmentIdInvalid" PhStructuralSegment;
  mkCodeName SegmentGenerationInvalid "SegmentGenerationInvalid" PhStructuralSegment;
  mkCodeName SegmentPayloadTooLarge "SegmentPayloadTooLarge" PhStructuralSegment;
  mkCodeName SegmentReservedFieldSet "SegmentReservedFieldSet" PhStructuralSegment;
  mkCodeName SegmentMissingBinding "SegmentMissingBinding" PhStructuralSegment;
  mkCodeName SegmentUnexpectedBinding "SegmentUnexpectedBinding" PhStructuralSegment;
  mkCodeName SegmentBindingIncomplete "SegmentBindingIncomplete" PhStructuralSegment;
  mkCodeName SegmentEncodingMismatch "SegmentEncodingMismatch" PhStructuralSegment;
  mkCodeName SegmentEntityUnknown "SegmentEntityUnknown" PhStructuralSegment;
  mkCodeName SegmentEntityGenerationMismatch "SegmentEntityGenerationMismatch" PhStructuralSegment;
  mkCodeName SegmentEntityKindMismatch "SegmentEntityKindMismatch" PhStructuralSegment;
  mkCodeName SegmentCountMismatch "SegmentCountMismatch" PhStructuralSegment;
  mkCodeName SegmentDuplicateConsecutive "SegmentDuplicateConsecutive" PhStructuralSegment;
  mkCodeName SegmentDuplicateNonConsecutive "SegmentDuplicateNonConsecutive" PhStructuralSegment;
  mkCodeName SegmentAggregateDigestMismatch "SegmentAggregateDigestMismatch" PhStructuralSegment;
  mkCodeName CapabilityMissing "CapabilityMissing" PhCapabilityEvidence;
  mkCodeName CapabilityUnsupported "CapabilityUnsupported" PhCapabilityEvidence;
  mkCodeName CapabilityGenerationMismatch "CapabilityGenerationMismatch" PhCapabilityEvidence;
  mkCodeName CapabilityEvidenceUnavailable "CapabilityEvidenceUnavailable" PhCapabilityEvidence;
  mkCodeName CapabilityKeyInvalid "CapabilityKeyInvalid" PhCapabilityEvidence;
  mkCodeName TopologyGenerationInvalid "TopologyGenerationInvalid" PhTopologyEvidence;
  mkCodeName TopologyGenerationMismatch "TopologyGenerationMismatch" PhTopologyEvidence;
  mkCodeName TopologyAdjacencyUnknown "TopologyAdjacencyUnknown" PhTopologyEvidence;
  mkCodeName TopologyAdjacencyStale "TopologyAdjacencyStale" PhTopologyEvidence;
  mkCodeName TopologyEvidenceUnavailable "TopologyEvidenceUnavailable" PhTopologyEvidence;
  mkCodeName TopologyAdjacencyKindMismatch "TopologyAdjacencyKindMismatch" PhTopologyEvidence;
  mkCodeName PathIdInvalid "PathIdInvalid" PhPathAuthority;
  mkCodeName PathUnknown "PathUnknown" PhPathAuthority;
  mkCodeName PathAuthorityGenerationInvalid "PathAuthorityGenerationInvalid" PhPathAuthority;
  mkCodeName PathAuthorityGenerationStale "PathAuthorityGenerationStale" PhPathAuthority;
  mkCodeName PathAuthorityDenied "PathAuthorityDenied" PhPathAuthority;
  mkCodeName PathBindingMissing "PathBindingMissing" PhPathAuthority;
  mkCodeName PathBelongsToOtherScope "PathBelongsToOtherScope" PhPathAuthority;
  mkCodeName RouteBindingUnknown "RouteBindingUnknown" PhRouteBinding;
  mkCodeName RouteBindingGenerationStale "RouteBindingGenerationStale" PhRouteBinding;
  mkCodeName RouteBindingInvalid "RouteBindingInvalid" PhRouteBinding;
  mkCodeName ConstraintBindingUnknown "ConstraintBindingUnknown" PhConstraintBinding;
  mkCodeName ConstraintBindingGenerationStale "ConstraintBindingGenerationStale" PhConstraintBinding;
  mkCodeName ConstraintBindingInvalid "ConstraintBindingInvalid" PhConstraintBinding;
  mkCodeName LimitMaxLists "LimitMaxLists" PhResourceLimits;
  mkCodeName LimitMaxSegmentsPerList "LimitMaxSegmentsPerList" PhResourceLimits;
  mkCodeName LimitMaxSegmentPayloadBytes "LimitMaxSegmentPayloadBytes" PhResourceLimits;
  mkCodeName LimitMaxProfiles "LimitMaxProfiles" PhResourceLimits;
  mkCodeName LimitMaxPolicies "LimitMaxPolicies" PhResourceLimits;
  mkCodeName LimitMaxBatchSize "LimitMaxBatchSize" PhResourceLimits;
  mkCodeName LimitMaxPublishers "LimitMaxPublishers" PhResourceLimits;
  mkCodeName LimitMaxFrameBytes "LimitMaxFrameBytes" PhResourceLimits;
  mkCodeName LimitMaxHistory "LimitMaxHistory" PhResourceLimits;
  mkCodeName LimitMaxExplanationEntries "LimitMaxExplanationEntries" PhResourceLimits;
  mkCodeName LimitMaxPersistenceRecordBytes "LimitMaxPersistenceRecordBytes" PhResourceLimits;
  mkCodeName LimitMaxReasons "LimitMaxReasons" PhResourceLimits;
  mkCodeName LimitMaxDiffEntries "LimitMaxDiffEntries" PhResourceLimits;
  mkCodeName LimitMaxTotalSegments "LimitMaxTotalSegments" PhResourceLimits;
  mkCodeName LimitMaxAttemptRecords "LimitMaxAttemptRecords" PhResourceLimits;
  mkCodeName LimitMaxEvidenceRecords "LimitMaxEvidenceRecords" PhResourceLimits;
  mkCodeName CommitWatermarkChanged "CommitWatermarkChanged" PhCommit;
  mkCodeName CommitConflict "CommitConflict" PhCommit;
  mkCodeName CommitPersistenceFailure "CommitPersistenceFailure" PhCommit;
  mkCodeName CommitGenerationExhausted "CommitGenerationExhausted" PhCommit;
  mkCodeName CommitReplayPayloadMismatch "CommitReplayPayloadMismatch" PhCommit;
  mkCodeName CommitAborted "CommitAborted" PhCommit;
  mkCodeName CommitNotDurable "CommitNotDurable" PhCommit;
  mkCodeName CurrentnessCurrent "CurrentnessCurrent" PhOk;
  mkCodeName CurrentnessStaleProfile "CurrentnessStaleProfile" PhOk;
  mkCodeName CurrentnessStalePolicy "CurrentnessStalePolicy" PhOk;
  mkCodeName CurrentnessStaleTopology "CurrentnessStaleTopology" PhOk;
  mkCodeName CurrentnessStaleCapability "CurrentnessStaleCapability" PhOk;
  mkCodeName CurrentnessStalePathAuthority "CurrentnessStalePathAuthority" PhOk;
  mkCodeName CurrentnessStaleRouteBinding "CurrentnessStaleRouteBinding" PhOk;
  mkCodeName CurrentnessStaleConstraintBinding "CurrentnessStaleConstraintBinding" PhOk;
  mkCodeName CurrentnessStaleEpoch "CurrentnessStaleEpoch" PhOk;
  mkCodeName CurrentnessFencedPublisher "CurrentnessFencedPublisher" PhOk;
  mkCodeName CurrentnessRevalidationRequired "CurrentnessRevalidationRequired" PhOk;
  mkCodeName CurrentnessUnknown "CurrentnessUnknown" PhOk;
  mkCodeName PersistBadMagic "PersistBadMagic" PhCommit;
  mkCodeName PersistBadVersion "PersistBadVersion" PhCommit;
  mkCodeName PersistTruncated "PersistTruncated" PhCommit;
  mkCodeName PersistCorrupt "PersistCorrupt" PhCommit;
  mkCodeName PersistBadIntegrity "PersistBadIntegrity" PhCommit;
  mkCodeName PersistBadRecord "PersistBadRecord" PhCommit;
  mkCodeName PersistDuplicateIdentity "PersistDuplicateIdentity" PhCommit;
  mkCodeName PersistImpossibleGeneration "PersistImpossibleGeneration" PhCommit;
  mkCodeName PersistDanglingReference "PersistDanglingReference" PhCommit;
  mkCodeName PersistAbsurdCount "PersistAbsurdCount" PhCommit;
  mkCodeName PersistTrailingBytes "PersistTrailingBytes" PhCommit;
  mkCodeName PersistIoError "PersistIoError" PhCommit;
  mkCodeName PersistIndexInconsistent "PersistIndexInconsistent" PhCommit;
  mkCodeName PersistCountMismatch "PersistCountMismatch" PhCommit;
  mkCodeName PersistOverflow "PersistOverflow" PhCommit;
  mkCodeName PersistKindInvalid "PersistKindInvalid" PhCommit;
  mkCodeName PersistProfileInvalid "PersistProfileInvalid" PhCommit;
  mkCodeName PersistEncodingInvalid "PersistEncodingInvalid" PhCommit;
  mkCodeName PersistDepthInvalid "PersistDepthInvalid" PhCommit;
  mkCodeName PersistDigestMismatch "PersistDigestMismatch" PhCommit;
  mkCodeName PersistEmpty "PersistEmpty" PhCommit;
  mkCodeName InvalidArgument "InvalidArgument" PhCallerIdentity;
  mkCodeName InternalError "InternalError" PhCommit;
  mkCodeName ResourceExhausted "ResourceExhausted" PhResourceLimits;
  mkCodeName NotSupported "NotSupported" PhProfile
].

Lemma code_of_value_value c : code_of_value (code_value c) = Some c.
Proof. by destruct c. Qed.

Lemma code_value_inj c c' : code_value c = code_value c' -> c = c'.
Proof.
  intros H. apply (f_equal code_of_value) in H. rewrite !code_of_value_value in H.
  congruence.
Qed.

#[global] Instance ReasonCode_eq_dec : EqDecision ReasonCode.
Proof.
  intros c c'. destruct (decide (code_value c = code_value c')) as [E|E].
  - left. by apply code_value_inj.
  - right. by intros ->.
Defined.

Definition code_eqb (a b : ReasonCode) : bool := code_value a =? code_value b.

Lemma code_eqb_eq a b : code_eqb a b = true <-> a = b.
Proof.
  unfold code_eqb. rewrite Z.eqb_eq.
  split; [apply code_value_inj|by intros ->].
Qed.

(** [lookup]: the first table entry of a code. *)
Definition lookup_code (c : ReasonCode) : option CodeName :=
  find (fun e => code_eqb (cn_code e) c) kCodes.

Definition reason_code_name (c : ReasonCode) : string :=
  match lookup_code c with Some e => cn_name e | None => "UnnamedReason" end.

Definition phase_of (c : ReasonCode) : ValidationPhase :=
  match lookup_code c with Some e => cn_phase e | None => PhCommit end.

(** ** Reasons *)
Record Reason := mkReason { r_code : ReasonCode; r_index : Z; r_detail : Z }.

#[global] Instance Reason_eq_dec : EqDecision Reason.
Proof. solve_decision. Defined.

(** [operator<=>] of [Reason], as the strict order it induces. *)
Definition reason_lt (a b : Reason) : bool :=
  if negb (code_value (r_code a) =? code_value (r_code b))
  then code_value (r_code a) <? code_value (r_code b)
  else if negb (r_index a =? r_index b) then r_index a <? r_index b
  else r_detail a <? r_detail b.

(** The comparator of [sort_and_dedup]: phase first, then the order of reasons. *)
Definition reason_before (a b : Reason) : bool :=
  let pa := phase_value (phase_of (r_code a)) in
  let pb := phase_value (phase_of (r_code b)) in
  if negb (pa =? pb) then pa <? pb else reason_lt a b.

(** ** ValidationResult *)
Record ValidationResult := mkResult {
  reasons : list Reason;
  limits_ : option Limits;
  truncated : bool;
}.

Definition empty_result : ValidationResult := mkResult [] None false.
Definition set_limits (l : option Limits) (r : ValidationResult) : ValidationResult :=
  {| r with limits_ := l |}.

(** [std::sort] with the comparator, then [std::unique]. *)
Definition not_after (a b : Reason) : Prop := reason_before b a = false.

#[global] Instance not_after_dec a b : Decision (not_after a b).
Proof. unfold not_after. apply _. Defined.

Definition sort_and_dedup (l : list Reason) : list Reason :=
  unique_adjacent (merge_sort not_after l).

Definition reason_cap (r : ValidationResult) : Z :=
  match limits_ r with Some l => max_reasons l | None => 32 end.

Definition has_code (c : ReasonCode) (l : list Reason) : bool :=
  existsb (fun r => code_eqb (r_code r) c) l.

(** [reasons_.back() = x] on a non-empty vector. *)
Definition set_back (x : Reason) (l : list Reason) : list Reason := removelast l ++ [x].

Definition add (code : ReasonCode) (index detail : Z) (r : ValidationResult)
  : ValidationResult :=
  if code_eqb code ReasonOk then r
  else
    let cap := reason_cap r in
    if cap <=? size (reasons r) then
      let already := has_code LimitMaxReasons (reasons r) in
      if negb already && (0 <? cap) then
        {| r with reasons := sort_and_dedup (set_back (mkReason LimitMaxReasons 0 0) (reasons r));
                  truncated := true |}
      else if cap =? 0 then {| r with truncated := true |}
      else r
    else {| r with reasons := sort_and_dedup (reasons r ++ [mkReason code index detail]) |}.

Definition add_reason (r : Reason) (o : ValidationResult) : ValidationResult :=
  add (r_code r) (r_index r) (r_detail r) o.

(** A run of [out.add(...)] calls, in program order. *)
Definition emit (rs : list Reason) (o : ValidationResult) : ValidationResult :=
  fold_left (fun o r => add_reason r o) rs o.

Definition failure (code : ReasonCode) (index detail : Z) : ValidationResult :=
  add code index detail empty_result.

(** [absorb(const ValidationResult&)] *)
Definition absorb (other r : ValidationResult) : ValidationResult :=
  emit (reasons other) {| r with truncated := truncated r || truncated other |}.

(** [absorb(ValidationResult&&)]; [limits_] pointers are equal when both results
    were given the limits of the same store. *)
#[global] Instance Limits_eq_dec : EqDecision Limits.
Proof. solve_decision. Defined.

Definition absorb_move (other r : ValidationResult) : ValidationResult :=
  let r := {| r with truncated := truncated r || truncated other |} in
  if match reasons r with [] => true | _ => false end
     && bool_decide (limits_ r = limits_ other)
  then {| r with reasons := sort_and_dedup (reasons other) |}
  else emit (reasons other) r.

Definition result_ok (r : ValidationResult) : bool :=
  match reasons r with [] => true | _ => false end.
Definition failed (r : ValidationResult) : bool := negb (result_ok r).

Definition primary (r : ValidationResult) : Reason :=
  match reasons r with [] => mkReason ReasonOk 0 0 | x :: _ => x end.

Definition contains (c : ReasonCode) (r : ValidationResult) : bool :=
  has_code c (reasons r).

Definition primary_phase (r : ValidationResult) : ValidationPhase :=
  match reasons r with [] => PhOk | x :: _ => phase_of (r_code x) end.

Definition primary_name (r : ValidationResult) : string :=
  match reasons r with [] => "Ok"%string | x :: _ => reason_code_name (r_code x) end.

(** ** The reason table *)

(** Every enumerator has a row: [UnnamedReason] and the [Commit] default of
    [phase_of] are never reached, and names and phases are the rows'. *)
Theorem kCodes_complete c :
  exists e, lookup_code c = Some e /\ cn_code e = c /\ reason_code_name c = cn_name e /\
            phase_of c = cn_phase e.
Proof. destruct c; vm_compute; eauto. Qed.

(** ** The order of reasons *)

Definition reason_rank (a : Reason) : Z * Z * Z * Z :=
  (phase_value (phase_of (r_code a)), code_value (r_code a), r_index a, r_detail a).

Lemma reason_rank_inj a b : reason_rank a = reason_rank b -> a = b.
Proof.
  destruct a as [c i d], b as [c' i' d']. unfold reason_rank. cbn.
  intros H. injection H as _ Hc -> ->. by rewrite (code_value_inj _ _ Hc).
Qed.

Lemma reason_before_spec a b :
  reason_before a b = true <->
  let '(p, c, i, d) := reason_rank a in
  let '(p', c', i', d') := reason_rank b in
  p < p' \/ (p = p' /\ (c < c' \/ (c = c' /\ (i < i' \/ (i = i' /\ d < d'))))).
Proof.
  unfold reason_before, reason_lt, reason_rank.
  repeat match goal with |- context [?x =? ?y] => destruct (Z.eqb_spec x y) end;
    cbn [negb]; rewrite Z.ltb_lt; lia.
Qed.

Lemma not_after_spec a b :
  not_after a b <->
  let '(p, c, i, d) := reason_rank a in
  let '(p', c', i', d') := reason_rank b in
  p < p' \/ (p = p' /\ (c < c' \/ (c = c' /\ (i < i' \/ (i = i' /\ d <= d'))))).
Proof.
  unfold not_after. rewrite <-not_true_iff_false, reason_before_spec.
  destruct (reason_rank a) as [[[??]?]?], (reason_rank b) as [[[??]?]?]. lia.
Qed.

#[global] Instance not_after_total : Total not_after.
Proof.
  intros a b. rewrite !not_after_spec.
  destruct (reason_rank a) as [[[??]?]?], (reason_rank b) as [[[??]?]?]. lia.
Qed.

#[global] Instance not_after_trans : Transitive not_after.
Proof.
  intros a b c. rewrite !not_after_spec.
  destruct (reason_rank a) as [[[??]?]?], (reason_rank b) as [[[??]?]?],
    (reason_rank c) as [[[??]?]?]. lia.
Qed.

#[global] Instance not_after_antisymm : AntiSymm (=) not_after.
Proof.
  intros a b. rewrite !not_after_spec. intros Ha Hb. apply reason_rank_inj.
  destruct (reason_rank a) as [[[??]?]?], (reason_rank b) as [[[??]?]?].
  repeat f_equal; lia.
Qed.

Lemma not_after_phase a b :
  not_after a b -> phase_value (phase_of (r_code a)) <= phase_value (phase_of (r_code b)).
Proof. rewrite not_after_spec. unfold reason_rank. lia. Qed.

(** ** Sorting and deduplication *)

Section Unique.
Context {A : Type} `{EqDecision A} (R : relation A) `{!AntiSymm (=) R}.

Lemma elem_of_unique_adjacent x (l : list A) : x ∈ unique_adjacent l <-> x ∈ l.
Proof.
  induction l as [|a [|b l] IH]; [done..|]. cbn -[unique_adjacent].
  change (unique_adjacent (a :: b :: l)) with
    (if bool_decide (a = b) then unique_adjacent (b :: l)
     else a :: unique_adjacent (b :: l)).
  case_bool_decide; [subst|]; rewrite ?elem_of_cons, IH, ?elem_of_cons; tauto.
Qed.

Lemma unique_adjacent_sorted (l : list A) :
  StronglySorted R l -> StronglySorted R (unique_adjacent l) /\ NoDup (unique_adjacent l).
Proof.
  induction l as [|a [|b l] IH]; intros Hs.
  - split; [done|]. constructor.
  - split; [done|]. apply NoDup_singleton.
  - change (unique_adjacent (a :: b :: l)) with
      (if bool_decide (a = b) then unique_adjacent (b :: l)
       else a :: unique_adjacent (b :: l)).
    apply StronglySorted_inv in Hs as [Hs Ha]. destruct (IH Hs) as [IHs IHn].
    case_bool_decide as Hab; [done|]. split.
    + constructor; [done|]. apply list.Forall_forall. intros x.
      rewrite elem_of_unique_adjacent. intros Hx.
      by apply (proj1 (list.Forall_forall _ _) Ha).
    + apply list.NoDup_cons. split; [|done]. rewrite elem_of_unique_adjacent.
      intros Hin. apply elem_of_cons in Hin as [?|Hin]; [done|].
      apply Hab. apply (anti_symm R).
      * apply (proj1 (list.Forall_forall _ _) Ha). by left.
      * apply StronglySorted_inv in Hs as [_ Hb].
        by apply (proj1 (list.Forall_forall _ _) Hb).
Qed.

Lemma sorted_nodup_unique (l l' : list A) :
  StronglySorted R l -> StronglySorted R l' -> NoDup l -> NoDup l' ->
  (forall x, x ∈ l <-> x ∈ l') -> l = l'.
Proof.
  intros Hl Hl' Hn Hn' Hx. apply (StronglySorted_unique R); [done|done|].
  by apply NoDup_Permutation.
Qed.
End Unique.

(** The invariant of a reason list: strictly ordered by precedence. *)
Definition reasons_ordered (l : list Reason) : Prop :=
  StronglySorted not_after l /\ NoDup l.

Lemma elem_of_sort_and_dedup x l : x ∈ sort_and_dedup l <-> x ∈ l.
Proof.
  unfold sort_and_dedup. rewrite elem_of_unique_adjacent.
  by rewrite (merge_sort_Permutation not_after l).
Qed.

Lemma sort_and_dedup_ordered l : reasons_ordered (sort_and_dedup l).
Proof.
  apply unique_adjacent_sorted; [apply _|].
  apply StronglySorted_merge_sort; apply _.
Qed.

Lemma reasons_ordered_unique l l' :
  reasons_ordered l -> reasons_ordered l' -> (forall x, x ∈ l <-> x ∈ l') -> l = l'.
Proof. intros [? ?] [? ?]. by apply (sorted_nodup_unique not_after). Qed.

(** Sorting is a function of the set of reasons. *)
Lemma sort_and_dedup_ext l l' :
  (forall x, x ∈ l <-> x ∈ l') -> sort_and_dedup l = sort_and_dedup l'.
Proof.
  intros H. apply reasons_ordered_unique; try apply sort_and_dedup_ordered.
  intros x. by rewrite !elem_of_sort_and_dedup.
Qed.

Lemma sort_and_dedup_id l : reasons_ordered l -> sort_and_dedup l = l.
Proof.
  intros. apply reasons_ordered_unique; [apply sort_and_dedup_ordered|done|].
  intros. apply elem_of_sort_and_dedup.
Qed.

Lemma length_sort_and_dedup l : (length (sort_and_dedup l) <= length l)%nat.
Proof.
  assert (forall k : list Reason, (length (unique_adjacent k) <= length k)%nat) as H.
  { induction k as [|a [|b k] IH]; [done..|].
    change (unique_adjacent (a :: b :: k)) with
      (if bool_decide (a = b) then unique_adjacent (b :: k)
       else a :: unique_adjacent (b :: k)).
    case_bool_decide; cbn [length] in *; lia. }
  unfold sort_and_dedup. rewrite H. by rewrite (merge_sort_Permutation not_after l).
Qed.

(** ** Adding reasons *)

#[global] Arguments sort_and_dedup : simpl never.
#[global] Arguments phase_of : simpl never.

Lemma length_set_back x l : l <> [] -> length (set_back x l) = length l.
Proof.
  intros Hl. unfold set_back.
  rewrite (app_removelast_last x Hl) at 2. by rewrite !length_app.
Qed.

Lemma elem_of_set_back y x l : y ∈ set_back x l -> y = x \/ y ∈ l.
Proof.
  unfold set_back. rewrite elem_of_app, list_elem_of_singleton. intros [H| ->]; [|by left].
  right. destruct l as [|a l]; [by apply not_elem_of_nil in H|].
  rewrite (app_removelast_last x (l := a :: l)) by done.
  apply elem_of_app. by left.
Qed.

Lemma head_in_set_back x y z l : y ∈ set_back x (y :: z :: l).
Proof. unfold set_back. cbn. left. Qed.

(** The limits of a result never change while reasons are added. *)
Lemma add_limits c i d o : limits_ (add c i d o) = limits_ o.
Proof. unfold add. by repeat case_match. Qed.

Lemma add_reason_cap c i d o : reason_cap (add c i d o) = reason_cap o.
Proof. unfold reason_cap. by rewrite add_limits. Qed.

Lemma emit_limits rs o : limits_ (emit rs o) = limits_ o.
Proof.
  unfold emit. revert o. induction rs as [|r rs IH]; cbn; intros o; [done|].
  rewrite IH. apply add_limits.
Qed.

Lemma emit_cap rs o : reason_cap (emit rs o) = reason_cap o.
Proof. unfold reason_cap. by rewrite emit_limits. Qed.

Lemma emit_app rs rs' o : emit (rs ++ rs') o = emit rs' (emit rs o).
Proof. apply fold_left_app. Qed.

Lemma emit_cons r rs o : emit (r :: rs) o = emit rs (add_reason r o).
Proof. done. Qed.

(** A fold invariant of [emit]. *)
Lemma emit_invariant (P : ValidationResult -> Prop) rs o :
  (forall c i d o, P o -> P (add c i d o)) -> P o -> P (emit rs o).
Proof.
  intros Hadd. revert o. induction rs as [|r rs IH]; intros o Ho; [done|].
  rewrite emit_cons. apply IH, Hadd, Ho.
Qed.

Lemma add_ordered c i d o :
  reasons_ordered (reasons o) -> reasons_ordered (reasons (add c i d o)).
Proof.
  intros. unfold add. repeat case_match; cbn; auto using sort_and_dedup_ordered.
Qed.

Definition result_bounded (o : ValidationResult) : Prop :=
  size (reasons o) <= Z.max 0 (reason_cap o).

Lemma size_sort_and_dedup l : size (sort_and_dedup l) <= size l.
Proof. unfold size. pose proof (length_sort_and_dedup l). lia. Qed.

Lemma add_bounded c i d o : result_bounded o -> result_bounded (add c i d o).
Proof.
  unfold result_bounded. rewrite add_reason_cap. intros Hb. unfold add.
  destruct (code_eqb c ReasonOk); [done|].
  destruct (Z.leb_spec (reason_cap o) (size (reasons o))) as [Hc|Hc].
  - destruct (negb _ && (0 <? reason_cap o)) eqn:E; [|by destruct (_ =? 0)].
    cbn. simpl_bools. etransitivity; [apply size_sort_and_dedup|].
    assert (size (set_back (mkReason LimitMaxReasons 0 0) (reasons o)) = size (reasons o))
      as ->; [|done].
    unfold size. rewrite length_set_back; [done|].
    intros Hn. rewrite Hn, size_nil in Hc. lia.
  - cbn. etransitivity; [apply size_sort_and_dedup|].
    rewrite size_snoc. lia.
Qed.

Lemma sort_and_dedup_nonempty x l : x ∈ l -> sort_and_dedup l <> [].
Proof.
  rewrite <-elem_of_sort_and_dedup. intros Hx Hn. rewrite Hn in Hx.
  by apply not_elem_of_nil in Hx.
Qed.

Lemma result_ok_spec o : result_ok o = true <-> reasons o = [].
Proof. unfold result_ok. by destruct (reasons o). Qed.

Lemma result_ok_false o : result_ok o = false <-> reasons o <> [].
Proof. unfold result_ok. by destruct (reasons o). Qed.

(** With a positive cap, a result is a failure once anything was added. *)
Lemma add_result_ok c i d o :
  0 < reason_cap o ->
  result_ok (add c i d o) = result_ok o && code_eqb c ReasonOk.
Proof.
  intros Hcap. unfold add. destruct (code_eqb c ReasonOk); [by rewrite andb_true_r|].
  rewrite andb_false_r. apply result_ok_false.
  destruct (Z.leb_spec (reason_cap o) (size (reasons o))) as [Hc|Hc].
  - assert (reasons o <> []) as Hne by (intros Hn; rewrite Hn, size_nil in Hc; lia).
    destruct (negb _ && (0 <? reason_cap o)); [|by destruct (_ =? 0)]. cbn.
    apply (sort_and_dedup_nonempty (mkReason LimitMaxReasons 0 0)).
    apply elem_of_app. right. by apply list_elem_of_singleton.
  - cbn. apply (sort_and_dedup_nonempty (mkReason c i d)).
    apply elem_of_app. right. by apply list_elem_of_singleton.
Qed.

Definition no_ok (rs : list Reason) : Prop :=
  Forall (fun r => r_code r <> ReasonOk) rs.

Lemma code_eqb_ok_false r : r_code r <> ReasonOk -> code_eqb (r_code r) ReasonOk = false.
Proof. intros H. apply not_true_iff_false. by rewrite code_eqb_eq. Qed.

Lemma emit_result_ok rs o :
  0 < reason_cap o -> no_ok rs ->
  result_ok (emit rs o) = true <-> result_ok o = true /\ rs = [].
Proof.
  intros Hcap Hn. revert o Hcap. induction Hn as [|r rs Hr Hn IH]; intros o Hcap.
  - cbn. tauto.
  - rewrite emit_cons, IH by (unfold add_reason; by rewrite add_reason_cap).
    unfold add_reason. rewrite add_result_ok by done.
    rewrite code_eqb_ok_false, andb_false_r by done. naive_solver.
Qed.

(** With a zero cap nothing is ever recorded. *)
Lemma add_zero_cap c i d o : reason_cap o = 0 -> reasons (add c i d o) = reasons o.
Proof.
  intros Hcap. unfold add. rewrite Hcap. pose proof (size_nonneg (reasons o)).
  destruct (code_eqb c ReasonOk); [done|]. destruct (Z.leb_spec 0 (size (reasons o))); [|lia].
  by rewrite Z.ltb_irrefl, andb_false_r.
Qed.

Lemma emit_zero_cap rs o : reason_cap o = 0 -> reasons (emit rs o) = reasons o.
Proof.
  intros Hcap. revert o Hcap. induction rs as [|r rs IH]; intros o Hcap; [done|].
  rewrite emit_cons, IH; unfold add_reason; [by apply add_zero_cap|].
  by rewrite add_reason_cap.
Qed.

Lemma add_below_cap c i d o :
  c <> ReasonOk -> size (reasons o) < reason_cap o ->
  add c i d o = {| o with reasons := sort_and_dedup (reasons o ++ [mkReason c i d]) |}.
Proof.
  intros Hc Hs. unfold add.
  destruct (code_eqb c ReasonOk) eqn:E; [by apply code_eqb_eq in E|].
  by destruct (Z.leb_spec (reason_cap o) (size (reasons o))); [lia|].
Qed.

(** Below the cap the result is exactly the sorted set of what was added. *)
Lemma emit_exact rs o :
  no_ok rs -> reasons_ordered (reasons o) ->
  size (reasons o) + size rs <= reason_cap o ->
  emit rs o = {| o with reasons := sort_and_dedup (reasons o ++ rs) |}.
Proof.
  intros Hn. revert o. induction Hn as [|r rs Hr Hn IH]; intros o Ho Hs.
  - rewrite app_nil_r, sort_and_dedup_id by done. by destruct o.
  - rewrite size_cons in Hs. pose proof (size_nonneg rs). pose proof (size_nonneg (reasons o)).
    rewrite emit_cons. unfold add_reason. rewrite add_below_cap by (done || lia).
    set (l := sort_and_dedup _).
    assert (size l <= size (reasons o) + 1).
    { subst l. etransitivity; [apply size_sort_and_dedup|].
      rewrite size_snoc. lia. }
    rewrite IH.
    + cbn. f_equal. apply sort_and_dedup_ext. intros x. subst l.
      rewrite !elem_of_app, elem_of_sort_and_dedup, elem_of_app, list_elem_of_singleton,
        elem_of_cons. destruct r. cbn. tauto.
    + cbn. apply sort_and_dedup_ordered.
    + cbn. unfold reason_cap in *. cbn. lia.
Qed.

(** ** Precedence *)

Definition reason_phase (r : Reason) : Z := phase_value (phase_of (r_code r)).

Lemma sorted_head_phase f l :
  f ∈ l -> Forall (fun x => reason_phase f <= reason_phase x) l ->
  exists h t, sort_and_dedup l = h :: t /\ reason_phase h = reason_phase f.
Proof.
  intros Hf Hall. destruct (sort_and_dedup l) as [|h t] eqn:E.
  { by apply sort_and_dedup_nonempty in Hf. }
  exists h, t. split; [done|].
  assert (h ∈ l) as Hh by (apply elem_of_sort_and_dedup; rewrite E; left).
  assert (f ∈ h :: t) as Hft by (rewrite <-E; by apply elem_of_sort_and_dedup).
  pose proof (proj1 (list.Forall_forall _ _) Hall h Hh) as Hle. cbn in Hle.
  apply elem_of_cons in Hft as [->|Hft]; [done|].
  destruct (sort_and_dedup_ordered l) as [Hs _]. rewrite E in Hs.
  apply StronglySorted_inv in Hs as [_ Hs].
  pose proof (not_after_phase _ _ (proj1 (list.Forall_forall _ _) Hs f Hft)).
  unfold reason_phase in *. lia.
Qed.

(** The primary phase is settled by the first reason of minimal phase: later
    additions of the same or a later phase keep it, truncation included. *)
Definition front_phase (p : Z) (o : ValidationResult) : Prop :=
  exists h t, reasons o = h :: t /\ reason_phase h = p /\
              Forall (fun x => p <= reason_phase x) (reasons o).

Lemma front_phase_sort f m o :
  f ∈ m -> Forall (fun x => reason_phase f <= reason_phase x) m ->
  front_phase (reason_phase f) {| o with reasons := sort_and_dedup m |}.
Proof.
  intros Hf Hm. destruct (sorted_head_phase f m Hf Hm) as (h & t & E & Hp).
  exists h, t. cbn. split_and!; [done|done|].
  apply list.Forall_forall. intros x Hx. rewrite elem_of_sort_and_dedup in Hx.
  by apply (proj1 (list.Forall_forall _ _) Hm).
Qed.

Lemma add_front_phase p c i d o :
  2 <= reason_cap o -> p <= phase_value PhResourceLimits ->
  p <= reason_phase (mkReason c i d) ->
  front_phase p o -> front_phase p (add c i d o).
Proof.
  intros Hcap Hp Hc (h & t & E & <- & Hall). unfold add.
  destruct (code_eqb c ReasonOk); [by exists h, t|].
  destruct (Z.leb_spec (reason_cap o) (size (reasons o))) as [Hs|Hs].
  - destruct (negb _ && _); [|destruct (_ =? 0); by exists h, t].
    destruct t as [|z t].
    { rewrite E, size_cons, size_nil in Hs. lia. }
    apply (front_phase_sort h _ {| o with truncated := true |}).
    + rewrite E. apply head_in_set_back.
    + apply list.Forall_forall. intros x [->|Hx]%elem_of_set_back; [exact Hp|].
      by apply (proj1 (list.Forall_forall _ _) Hall).
  - apply front_phase_sort.
    + apply elem_of_app. left. rewrite E. left.
    + apply Forall_app. split; [done|]. by apply list.Forall_singleton.
Qed.

Lemma emit_front_phase p rs o :
  2 <= reason_cap o -> p <= phase_value PhResourceLimits ->
  Forall (fun x => p <= reason_phase x) rs ->
  front_phase p o -> front_phase p (emit rs o).
Proof.
  intros Hcap Hp Hrs. revert o Hcap. induction Hrs as [|r rs Hr Hrs IH]; intros o Hcap Ho.
  - done.
  - rewrite emit_cons. apply IH; unfold add_reason.
    + by rewrite add_reason_cap.
    + by apply add_front_phase; destruct r.
Qed.

(** Fixed precedence of a run of reports: whatever is reported later, and even when
    the list is truncated, the primary reason is of the earliest phase reported. *)
Lemma emit_primary_phase r rs o :
  2 <= reason_cap o -> reasons o = [] -> r_code r <> ReasonOk ->
  reason_phase r <= phase_value PhResourceLimits ->
  Forall (fun x => reason_phase r <= reason_phase x) rs ->
  phase_value (primary_phase (emit (r :: rs) o)) = reason_phase r.
Proof.
  intros Hcap Ho Hr Hp Hrs. rewrite emit_cons. unfold add_reason.
  rewrite add_below_cap by (done || rewrite Ho, size_nil; lia).
  destruct (emit_front_phase (reason_phase r) rs
    {| o with reasons := sort_and_dedup (reasons o ++ [mkReason (r_code r) (r_index r) (r_detail r)]) |})
    as (h & t & E & Hh & _); [done|done|done| |].
  - apply front_phase_sort; rewrite Ho; destruct r; [left|].
    apply list.Forall_singleton. cbn. lia.
  - unfold primary_phase. rewrite E. exact Hh.
Qed.

Lemma add_no_ok c i d o : no_ok (reasons o) -> no_ok (reasons (add c i d o)).
Proof.
  intros Ho. unfold add. destruct (code_eqb c ReasonOk) eqn:Ec; [done|].
  assert (c <> ReasonOk) as Hc by (intros ->; by vm_compute in Ec).
  assert (forall l, no_ok l -> no_ok (sort_and_dedup l)) as Hsort.
  { unfold no_ok. intros l Hl. apply list.Forall_forall. intros x Hx.
    rewrite elem_of_sort_and_dedup in Hx. exact (proj1 (list.Forall_forall _ _) Hl x Hx). }
  repeat case_match; try done; cbn [reasons]; apply Hsort.
  - apply list.Forall_forall. intros x Hx. apply elem_of_set_back in Hx as [->|Hx]; [done|].
    exact (proj1 (list.Forall_forall _ _) Ho x Hx).
  - apply Forall_app. split; [done|]. by constructor.
Qed.

Lemma emit_no_ok rs o : no_ok (reasons o) -> no_ok (reasons (emit rs o)).
Proof. apply (emit_invariant (fun o => no_ok (reasons o))). apply add_no_ok. Qed.

(** A reason added to an empty result is there. *)
Lemma contains_add c i d limits :
  c <> ReasonOk -> 0 < max_reasons limits ->
  contains c (add c i d (set_limits (Some limits) empty_result)) = true.
Proof.
  intros Hc Hcap. unfold add.
  destruct (code_eqb c ReasonOk) eqn:Ec; [by apply code_eqb_eq in Ec|].
  cbn [reason_cap limits_ set_limits reasons empty_result]. rewrite size_nil.
  destruct (Z.leb_spec (max_reasons limits) 0); [lia|].
  unfold contains, has_code. cbn [reasons app]. apply existsb_exists.
  exists (mkReason c i d). split; [|by apply code_eqb_eq].
  apply list_elem_of_In, elem_of_sort_and_dedup. left.
Qed.
