(* ===== verification/Lifecycle.v ===== *)
(** * List lifecycle and currentness

    [include/srf/lifecycle.hpp] and [src/lifecycle.cpp]: the literal transition
    table, its lookup, and the currentness classification. *)

From stdpp Require Import relations.
From S2P Require Import Prelude.
From S2P Require Import Ids.
From S2P Require Import Reason.

Inductive LifecycleState :=
  | SInvalid | Declared | Validating | Active | RevalidationRequired
  | Withdrawing | Withdrawn | Superseded | Revoked | Retired.

Definition state_value (s : LifecycleState) : Z :=
  match s with
  | SInvalid => 0 | Declared => 1 | Validating => 2 | Active => 3
  | RevalidationRequired => 4 | Withdrawing => 5 | Withdrawn => 6
  | Superseded => 7 | Revoked => 8 | Retired => 9
  end.

(** [static_cast<LifecycleState>(v)] for a value in the range of the enumeration. *)
Definition state_of_value (v : Z) : LifecycleState :=
  match v with
  | 1 => Declared | 2 => Validating | 3 => Active | 4 => RevalidationRequired
  | 5 => Withdrawing | 6 => Withdrawn | 7 => Superseded | 8 => Revoked | 9 => Retired
  | _ => SInvalid
  end.

Inductive LifecycleEvent :=
  | EvInvalid | ValidateBegin | ValidateSucceed | ValidateFail | RevalidateBegin
  | RevalidateSucceed | RevalidateFail | DependencyChanged | WithdrawBegin
  | WithdrawCommit | SupersedeBegin | SupersedeCommit | Revoke | Retire
  | Reactivate | RecoveryLoad | ReplaceBegin.

Definition event_value (e : LifecycleEvent) : Z :=
  match e with
  | EvInvalid => 0 | ValidateBegin => 1 | ValidateSucceed => 2 | ValidateFail => 3
  | RevalidateBegin => 4 | RevalidateSucceed => 5 | RevalidateFail => 6
  | DependencyChanged => 7 | WithdrawBegin => 8 | WithdrawCommit => 9
  | SupersedeBegin => 10 | SupersedeCommit => 11 | Revoke => 12 | Retire => 13
  | Reactivate => 14 | RecoveryLoad => 15 | ReplaceBegin => 16
  end.

#[global] Instance LifecycleState_eq_dec : EqDecision LifecycleState.
Proof. solve_decision. Defined.
#[global] Instance LifecycleEvent_eq_dec : EqDecision LifecycleEvent.
Proof. solve_decision. Defined.

Definition state_eqb (a b : LifecycleState) : bool := state_value a =? state_value b.

Lemma state_eqb_eq a b : state_eqb a b = true <-> a = b.
Proof. destruct a, b; cbn; split; congruence. Qed.

Definition kLifecycleStateCount : Z := 9.
Definition kLifecycleEventCount : Z := 16.

Record TransitionOutcome := mkTransition { allowed : bool; next : LifecycleState }.

Definition kD : Z := state_value SInvalid.
Definition kDecl : Z := state_value Declared.
Definition kVal : Z := state_value Validating.
Definition kAct : Z := state_value Active.
Definition kRvl : Z := state_value RevalidationRequired.
Definition kWbg : Z := state_value Withdrawing.
Definition kWdn : Z := state_value Withdrawn.
Definition kSup : Z := state_value Superseded.
Definition kRev : Z := state_value Revoked.
Definition kRet : Z := state_value Retired.

(** Rows are states, columns events, in value order. *)
Definition kTable : list (list Z) := [
  (* Declared *)
  [kVal; kD; kD; kD; kD; kD; kD; kWbg; kD; kSup; kD; kRev; kRet; kD; kDecl; kVal];
  (* Validating *)
  [kD; kAct; kDecl; kD; kD; kD; kDecl; kWbg; kD; kSup; kD; kRev; kRet; kD; kDecl; kVal];
  (* Active *)
  [kD; kD; kD; kVal; kAct; kD; kRvl; kWbg; kD; kSup; kD; kRev; kRet; kD; kRvl; kVal];
  (* RevalidationRequired *)
  [kD; kD; kD; kVal; kAct; kRvl; kRvl; kWbg; kD; kSup; kD; kRev; kRet; kD; kRvl; kVal];
  (* Withdrawing *)
  [kD; kD; kD; kD; kD; kD; kWbg; kD; kWdn; kSup; kD; kRev; kRet; kD; kWdn; kD];
  (* Withdrawn *)
  [kD; kD; kD; kD; kD; kD; kWdn; kD; kD; kSup; kD; kRev; kRet; kD; kWdn; kD];
  (* Superseded *)
  [kD; kD; kD; kD; kD; kD; kSup; kD; kD; kD; kSup; kRev; kRet; kD; kSup; kD];
  (* Revoked *)
  [kD; kD; kD; kD; kD; kD; kRev; kD; kD; kD; kD; kD; kRet; kD; kRev; kD];
  (* Retired *)
  [kD; kD; kD; kD; kD; kD; kD; kD; kD; kD; kD; kD; kD; kD; kRet; kD]
].

Definition no_index : Z := 0xFFFFFFFF.

Definition state_index (s : LifecycleState) : Z :=
  let v := state_value s in
  if (1 <=? v) && (v <=? kLifecycleStateCount) then v - 1 else no_index.

Definition event_index (e : LifecycleEvent) : Z :=
  let v := event_value e in
  if (1 <=? v) && (v <=? kLifecycleEventCount) then v - 1 else no_index.

Definition table_at (s e : Z) : Z := nth (Z.to_nat e) (nth (Z.to_nat s) kTable []) 0.

Definition lifecycle_transition (state : LifecycleState) (event : LifecycleEvent)
  : TransitionOutcome :=
  let out := mkTransition false SInvalid in
  let s := state_index state in
  let e := event_index event in
  if (s =? no_index) || (e =? no_index) then out
  else
    let next := table_at s e in
    if next =? 0 then out else mkTransition true (state_of_value next).

Definition lifecycle_state_name (s : LifecycleState) : string :=
  match s with
  | SInvalid => "Invalid" | Declared => "DECLARED" | Validating => "VALIDATING"
  | Active => "ACTIVE" | RevalidationRequired => "REVALIDATION_REQUIRED"
  | Withdrawing => "WITHDRAWING" | Withdrawn => "WITHDRAWN"
  | Superseded => "SUPERSEDED" | Revoked => "REVOKED" | Retired => "RETIRED"
  end.

Definition lifecycle_event_name (e : LifecycleEvent) : string :=
  match e with
  | EvInvalid => "Invalid" | ValidateBegin => "ValidateBegin"
  | ValidateSucceed => "ValidateSucceed" | ValidateFail => "ValidateFail"
  | RevalidateBegin => "RevalidateBegin" | RevalidateSucceed => "RevalidateSucceed"
  | RevalidateFail => "RevalidateFail" | DependencyChanged => "DependencyChanged"
  | WithdrawBegin => "WithdrawBegin" | WithdrawCommit => "WithdrawCommit"
  | SupersedeBegin => "SupersedeBegin" | SupersedeCommit => "SupersedeCommit"
  | Revoke => "Revoke" | Retire => "Retire" | Reactivate => "Reactivate"
  | RecoveryLoad => "RecoveryLoad" | ReplaceBegin => "ReplaceBegin"
  end.

Definition lifecycle_is_terminal_for_activation (s : LifecycleState) : bool :=
  match s with
  | Withdrawn | Superseded | Revoked | Retired => true
  | _ => false
  end.

Definition lifecycle_is_available (s : LifecycleState) : bool := state_eqb s Active.

(** ** Currentness *)
Inductive Currentness :=
  | CUnknown | Current | CRevalidationRequired | StaleProfile | StalePolicy
  | StaleTopology | StaleCapability | StalePathAuthority | StaleRouteBinding
  | StaleConstraintBinding | StaleEpoch | FencedPublisher.

Definition currentness_value (c : Currentness) : Z :=
  match c with
  | CUnknown => 0 | Current => 1 | CRevalidationRequired => 2 | StaleProfile => 3
  | StalePolicy => 4 | StaleTopology => 5 | StaleCapability => 6
  | StalePathAuthority => 7 | StaleRouteBinding => 8 | StaleConstraintBinding => 9
  | StaleEpoch => 10 | FencedPublisher => 11
  end.

Definition currentness_of_value (v : Z) : Currentness :=
  match v with
  | 1 => Current | 2 => CRevalidationRequired | 3 => StaleProfile | 4 => StalePolicy
  | 5 => StaleTopology | 6 => StaleCapability | 7 => StalePathAuthority
  | 8 => StaleRouteBinding | 9 => StaleConstraintBinding | 10 => StaleEpoch
  | 11 => FencedPublisher | _ => CUnknown
  end.

#[global] Instance Currentness_eq_dec : EqDecision Currentness.
Proof. solve_decision. Defined.

Definition currentness_eqb (a b : Currentness) : bool :=
  currentness_value a =? currentness_value b.

Lemma currentness_eqb_eq a b : currentness_eqb a b = true <-> a = b.
Proof. destruct a, b; cbn; split; congruence. Qed.

Definition currentness_name (c : Currentness) : string :=
  match c with
  | CUnknown => "Unknown" | Current => "CURRENT"
  | CRevalidationRequired => "REVALIDATION_REQUIRED"
  | StaleProfile => "STALE_PROFILE" | StalePolicy => "STALE_POLICY"
  | StaleTopology => "STALE_TOPOLOGY" | StaleCapability => "STALE_CAPABILITY"
  | StalePathAuthority => "STALE_PATH_AUTHORITY"
  | StaleRouteBinding => "STALE_ROUTE_BINDING"
  | StaleConstraintBinding => "STALE_CONSTRAINT_BINDING"
  | StaleEpoch => "STALE_EPOCH" | FencedPublisher => "FENCED_PUBLISHER"
  end.

Definition currentness_reason (c : Currentness) : ReasonCode :=
  match c with
  | Current => CurrentnessCurrent
  | CRevalidationRequired => CurrentnessRevalidationRequired
  | StaleProfile => CurrentnessStaleProfile
  | StalePolicy => CurrentnessStalePolicy
  | StaleTopology => CurrentnessStaleTopology
  | StaleCapability => CurrentnessStaleCapability
  | StalePathAuthority => CurrentnessStalePathAuthority
  | StaleRouteBinding => CurrentnessStaleRouteBinding
  | StaleConstraintBinding => CurrentnessStaleConstraintBinding
  | StaleEpoch => CurrentnessStaleEpoch
  | FencedPublisher => CurrentnessFencedPublisher
  | CUnknown => CurrentnessUnknown
  end.

Definition currentness_is_usable (c : Currentness) : bool := currentness_eqb c Current.

(** ** The transition relation *)

Inductive lifecycle_step : LifecycleState -> LifecycleState -> Prop :=
  | lifecycle_step_event s e :
      allowed (lifecycle_transition s e) = true ->
      lifecycle_step s (next (lifecycle_transition s e)).

Definition lifecycle_reachable : relation LifecycleState := rtc lifecycle_step.

(** Case analysis over the table. *)
Ltac lifecycle_cases :=
  repeat match goal with
  | s : LifecycleState |- _ => destruct s
  | e : LifecycleEvent |- _ => destruct e
  end; vm_compute in *; try congruence; try (split_and!; congruence).

Lemma state_of_value_value s : state_of_value (state_value s) = s.
Proof. by destruct s. Qed.

Lemma currentness_of_value_value c : currentness_of_value (currentness_value c) = c.
Proof. by destruct c. Qed.

Lemma state_value_range s : 0 <= state_value s <= 9.
Proof. destruct s; cbn; lia. Qed.

Lemma currentness_value_range c : 0 <= currentness_value c <= 11.
Proof. destruct c; cbn; lia. Qed.

(** An allowed transition starts and ends in a real state. *)
Lemma transition_valid s e :
  allowed (lifecycle_transition s e) = true ->
  s <> SInvalid /\ e <> EvInvalid /\ next (lifecycle_transition s e) <> SInvalid.
Proof. intros H. lifecycle_cases. Qed.

(** Terminal states are closed under every event. *)
Lemma terminal_closed s e :
  lifecycle_is_terminal_for_activation s = true ->
  allowed (lifecycle_transition s e) = true ->
  lifecycle_is_terminal_for_activation (next (lifecycle_transition s e)) = true.
Proof. intros H1 H2. lifecycle_cases. Qed.

Lemma terminal_reachable s s' :
  lifecycle_reachable s s' -> lifecycle_is_terminal_for_activation s = true ->
  lifecycle_is_terminal_for_activation s' = true.
Proof.
  induction 1 as [|s t s' [u e He] _ IH]; [done|].
  intros Hs. by apply IH, terminal_closed.
Qed.

Definition never_active (s : LifecycleState) : Prop :=
  forall s', lifecycle_reachable s s' -> s' <> Active.

Lemma reach_event s e s' :
  allowed (lifecycle_transition s e) = true ->
  next (lifecycle_transition s e) = s' -> lifecycle_step s s'.
Proof. intros H <-. by constructor. Qed.

(** No event sequence leads from a terminal state to [Active]; of the remaining
    states, [Withdrawing] is the only other one with that property. *)
Theorem never_active_iff s :
  s <> SInvalid ->
  never_active s <-> lifecycle_is_terminal_for_activation s = true \/ s = Withdrawing.
Proof.
  intros Hs. split.
  - intros Hn. destruct s; try (by left); try (by right); try done; exfalso.
    + apply (Hn Active); [|done]. apply rtc_l with Validating.
      * by apply (reach_event _ ValidateBegin).
      * by apply rtc_once, (reach_event _ ValidateSucceed).
    + apply (Hn Active); [|done]. by apply rtc_once, (reach_event _ ValidateSucceed).
    + by apply (Hn Active); [apply rtc_refl|].
    + apply (Hn Active); [|done]. by apply rtc_once, (reach_event _ RevalidateSucceed).
  - intros H s' Hr ->.
    assert (lifecycle_is_terminal_for_activation Active = true \/ Active = Withdrawing)
      as [?|?]; [|done..].
    revert H. induction Hr as [|s t s' [u e He] _ IH]; [done|]. intros H. apply IH.
    + by destruct (transition_valid _ _ He) as (_ & _ & ?).
    + destruct H as [H| ->]; [left; by apply terminal_closed|].
      clear -He. destruct e; vm_compute in *; (congruence || tauto).
Qed.

(** [Active] is entered only by a successful validation or revalidation. *)
Theorem active_entered_by s e :
  allowed (lifecycle_transition s e) = true ->
  next (lifecycle_transition s e) = Active ->
  (s = Validating /\ e = ValidateSucceed) \/
  ((s = Active \/ s = RevalidationRequired) /\ e = RevalidateSucceed).
Proof. intros H1 H2. lifecycle_cases; auto. Qed.

(** [Reactivate] is denied everywhere and [Retired] admits only recovery. *)
Theorem reactivate_denied s : allowed (lifecycle_transition s Reactivate) = false.
Proof. by destruct s. Qed.

Theorem retired_absorbing e :
  lifecycle_transition Retired e =
    if bool_decide (e = RecoveryLoad) then mkTransition true Retired
    else mkTransition false SInvalid.
Proof. by destruct e. Qed.

(** After recovery nothing is active, and terminal states are preserved. *)
Theorem recovery_transition s :
  s <> SInvalid ->
  allowed (lifecycle_transition s RecoveryLoad) = true /\
  next (lifecycle_transition s RecoveryLoad) <> Active /\
  (lifecycle_is_terminal_for_activation s = true ->
   next (lifecycle_transition s RecoveryLoad) = s).
Proof. intros H. destruct s; vm_compute; try congruence; split_and!; congruence. Qed.

(** The table has 9 x 16 entries, exactly 55 of them permitted. *)
Definition all_states : list LifecycleState :=
  map state_of_value [1;2;3;4;5;6;7;8;9].
Definition all_events : list LifecycleEvent :=
  [ValidateBegin; ValidateSucceed; ValidateFail; RevalidateBegin; RevalidateSucceed;
   RevalidateFail; DependencyChanged; WithdrawBegin; WithdrawCommit; SupersedeBegin;
   SupersedeCommit; Revoke; Retire; Reactivate; RecoveryLoad; ReplaceBegin].

Example permitted_pairs :
  length (filter (fun p => allowed (lifecycle_transition p.1 p.2) = true)
            (list_prod all_states all_events)) = 55%nat.
Proof. vm_compute. reflexivity. Qed.
