(* ===== verification/Governance.v ===== *)
(** * Profiles, policies and segment lists

    [include/srf/profile.hpp], [src/profile.cpp], [include/srf/policy.hpp],
    [src/policy.cpp] and the records of [include/srf/list.hpp], with the content
    encoding of [src/canonical.cpp]. *)

From S2P Require Import Prelude.
From S2P Require Import Ids.
From S2P Require Import Bytes.
From S2P Require Import Digest.
From S2P Require Import Segment.
From S2P Require Import Reason.
From S2P Require Import Lifecycle.

(** ** Profiles *)
Inductive SupportClassification := AbstractSynthetic | PhysicalUnverified.

Definition support_value (s : SupportClassification) : Z :=
  match s with AbstractSynthetic => 1 | PhysicalUnverified => 2 end.

#[global] Instance SupportClassification_eq_dec : EqDecision SupportClassification.
Proof. solve_decision. Defined.

Record SegmentProfile := {
  pr_id : SegmentProfileId;
  pr_generation : SegmentProfileGeneration;
  pr_name : list Byte.byte;
  pr_support : SupportClassification;
  pr_allowed_kinds_mask : Z;
  pr_max_depth : Z;
  pr_payload_width : Z;
  pr_allow_empty : bool;
  pr_allow_consecutive_repeats : bool;
  pr_allow_nonconsecutive_repeats : bool;
  pr_allow_loose : bool;
  pr_required_capabilities : list CapabilityKey;
}.

#[global] Instance SegmentProfile_eq_dec : EqDecision SegmentProfile.
Proof. solve_decision. Defined.

(** [SegmentProfile{}] *)
Definition empty_profile : SegmentProfile := {|
  pr_id := 0; pr_generation := 0; pr_name := []; pr_support := AbstractSynthetic;
  pr_allowed_kinds_mask := 0; pr_max_depth := 0; pr_payload_width := 0;
  pr_allow_empty := false; pr_allow_consecutive_repeats := false;
  pr_allow_nonconsecutive_repeats := false; pr_allow_loose := false;
  pr_required_capabilities := [];
|}.

(** [1u << (kind - 1u)] as a 16-bit mask; the source never shifts for [Invalid]. *)
Definition kind_bit (k : SegmentKind) : Z := u16 (Z.shiftl 1 (kind_value k - 1)).

Definition allows_kind (p : SegmentProfile) (k : SegmentKind) : bool :=
  if kind_eqb k KInvalid then false
  else negb (Z.land (pr_allowed_kinds_mask p) (kind_bit k) =? 0).

Definition profile_digest (p : SegmentProfile) : Digest128 :=
  digest128 (
    put16 0xA510 ++ put64 (pr_id p) ++ put64 (pr_generation p) ++
    put8 (support_value (pr_support p)) ++ put16 (pr_allowed_kinds_mask p) ++
    put32 (pr_max_depth p) ++ put32 (pr_payload_width p) ++
    put8 (bool_byte (pr_allow_empty p)) ++
    put8 (bool_byte (pr_allow_consecutive_repeats p)) ++
    put8 (bool_byte (pr_allow_nonconsecutive_repeats p)) ++
    put8 (bool_byte (pr_allow_loose p)) ++
    put32 (size (pr_required_capabilities p)) ++
    put64s (pr_required_capabilities p) ++ pr_name p).

(** ASCII text as bytes. *)
Definition text (s : string) : list Byte.byte := String.list_byte_of_string s.

Definition kinds_mask (ks : list SegmentKind) : Z :=
  u16 (fold_right Z.lor 0 (map kind_bit ks)).

Definition abstract_governance_profile : SegmentProfile := {|
  pr_id := 0x00010001; pr_generation := 1; pr_name := text "abstract-governance-v1";
  pr_support := AbstractSynthetic;
  pr_allowed_kinds_mask := kinds_mask [KNode; KAdjacency; KEndpoint; KBinding; KPolicy];
  pr_max_depth := 8; pr_payload_width := 4; pr_allow_empty := false;
  pr_allow_consecutive_repeats := false; pr_allow_nonconsecutive_repeats := false;
  pr_allow_loose := false; pr_required_capabilities := [0x1001; 0x1002];
|}.

Definition abstract_ordered_profile : SegmentProfile := {|
  pr_id := 0x00010002; pr_generation := 1; pr_name := text "abstract-ordered-v1";
  pr_support := AbstractSynthetic;
  pr_allowed_kinds_mask := kinds_mask [KNode; KAdjacency; KEndpoint];
  pr_max_depth := 16; pr_payload_width := 8; pr_allow_empty := false;
  pr_allow_consecutive_repeats := false; pr_allow_nonconsecutive_repeats := true;
  pr_allow_loose := true; pr_required_capabilities := [0x1001];
|}.

Definition abstract_nullable_profile : SegmentProfile := {|
  pr_id := 0x00010003; pr_generation := 1; pr_name := text "abstract-nullable-v1";
  pr_support := AbstractSynthetic;
  pr_allowed_kinds_mask := kinds_mask [KNode; KPolicy];
  pr_max_depth := 4; pr_payload_width := 2; pr_allow_empty := true;
  pr_allow_consecutive_repeats := true; pr_allow_nonconsecutive_repeats := true;
  pr_allow_loose := false; pr_required_capabilities := [];
|}.

(** ** Policies *)
Record SegmentPolicy := {
  po_id : SegmentPolicyId;
  po_generation : SegmentPolicyGeneration;
  po_owner_scope : ScopeId;
  po_allowed_profiles : list SegmentProfileId;
  po_allowed_kinds_mask : Z;
  po_max_depth : Z;
  po_required_segments : list SegmentId;
  po_forbidden_segments : list SegmentId;
  po_allow_replacement : bool;
  po_allow_derivation : bool;
  po_require_strict : bool;
}.

#[global] Instance SegmentPolicy_eq_dec : EqDecision SegmentPolicy.
Proof. solve_decision. Defined.

(** [SegmentPolicy{}] *)
Definition empty_policy : SegmentPolicy := {|
  po_id := 0; po_generation := 0; po_owner_scope := 0; po_allowed_profiles := [];
  po_allowed_kinds_mask := 0; po_max_depth := 0; po_required_segments := [];
  po_forbidden_segments := []; po_allow_replacement := true;
  po_allow_derivation := false; po_require_strict := false;
|}.

Definition policy_digest (p : SegmentPolicy) : Digest128 :=
  digest128 (
    put16 0xB700 ++ put64 (po_id p) ++ put64 (po_generation p) ++
    put64 (po_owner_scope p) ++
    put32 (size (po_allowed_profiles p)) ++ put64s (po_allowed_profiles p) ++
    put16 (po_allowed_kinds_mask p) ++ put32 (po_max_depth p) ++
    put32 (size (po_required_segments p)) ++ put64s (po_required_segments p) ++
    put32 (size (po_forbidden_segments p)) ++ put64s (po_forbidden_segments p) ++
    put8 (bool_byte (po_allow_replacement p)) ++
    put8 (bool_byte (po_allow_derivation p)) ++
    put8 (bool_byte (po_require_strict p))).

(** ** Segment lists *)
Record SegmentListContent := {
  c_id : SegmentListId;
  c_scope : ScopeId;
  c_profile : SegmentProfileId;
  c_profile_generation : SegmentProfileGeneration;
  c_policy : SegmentPolicyId;
  c_policy_generation : SegmentPolicyGeneration;
  c_strictness : Strictness;
  c_topology : TopologyGeneration;
  c_capability : CapabilityGeneration;
  c_path : PathId;
  c_path_authority : PathAuthorityGeneration;
  c_route : RouteId;
  c_route_generation : RouteGeneration;
  c_constraint : ConstraintEvaluationId;
  c_constraint_generation : ConstraintGeneration;
  c_segments : list Segment;
}.

Record SegmentListProvenance := {
  pv_source_path : PathId;
  pv_source_path_authority : PathAuthorityGeneration;
  pv_source_route : RouteId;
  pv_source_route_generation : RouteGeneration;
  pv_source_constraint : ConstraintEvaluationId;
  pv_source_constraint_generation : ConstraintGeneration;
  pv_derivation_policy : SegmentPolicyGeneration;
  pv_observed_topology : TopologyGeneration;
  pv_observed_capability : CapabilityGeneration;
  pv_publisher : PublisherId;
  pv_boot : WorkerBootId;
  pv_epoch : CoordinatorEpoch;
}.

Record SegmentListAuthority := {
  au_publisher : PublisherId;
  au_boot : WorkerBootId;
  au_epoch : CoordinatorEpoch;
  au_attempt : MutationAttemptId;
}.

Record SegmentListLineage := {
  ln_supersedes : SegmentListGeneration;
  ln_superseded_by : SegmentListId;
  ln_history : HistoryId;
}.

Record SegmentList := {
  sl_content : SegmentListContent;
  sl_generation : SegmentListGeneration;
  sl_lineage : SegmentListLineage;
  sl_authority : SegmentListAuthority;
  sl_provenance : SegmentListProvenance;
  sl_state : LifecycleState;
  sl_currentness : Currentness;
  sl_content_digest : Digest128;
  sl_sequence_digest : Digest128;
  sl_committed_revision : Z;
}.

#[global] Instance SegmentListContent_eq_dec : EqDecision SegmentListContent.
Proof. solve_decision. Defined.
#[global] Instance SegmentListProvenance_eq_dec : EqDecision SegmentListProvenance.
Proof. solve_decision. Defined.
#[global] Instance SegmentListAuthority_eq_dec : EqDecision SegmentListAuthority.
Proof. solve_decision. Defined.
#[global] Instance SegmentListLineage_eq_dec : EqDecision SegmentListLineage.
Proof. solve_decision. Defined.
#[global] Instance SegmentList_eq_dec : EqDecision SegmentList.
Proof. solve_decision. Defined.

Definition sl_id (l : SegmentList) : SegmentListId := c_id (sl_content l).

Definition segment_list_state_name (l : SegmentList) : string :=
  lifecycle_state_name (sl_state l).

(** The scalar fields of a content, as the two runs of 64-bit values around the
    strictness byte. *)
Definition content_head (c : SegmentListContent) : list Z :=
  [c_id c; c_scope c; c_profile c; c_profile_generation c; c_policy c;
   c_policy_generation c].

Definition content_bindings (c : SegmentListContent) : list Z :=
  [c_topology c; c_capability c; c_path c; c_path_authority c; c_route c;
   c_route_generation c; c_constraint c; c_constraint_generation c].

Definition canonical_content_bytes (c : SegmentListContent) (payload_width : Z)
  : ByteBuffer :=
  put16 kContentMagic ++ put32 payload_width ++ put64s (content_head c) ++
  put8 (strictness_value (c_strictness c)) ++ put64s (content_bindings c) ++
  put32 (size (c_segments c)) ++ write_segments (c_segments c) payload_width.

Definition content_digest (c : SegmentListContent) (payload_width : Z) : Digest128 :=
  digest128 (canonical_content_bytes c payload_width).

(** ** Lemmas *)

Definition content_fits (c : SegmentListContent) : Prop :=
  Forall (fits 64) (content_head c) /\ Forall (fits 64) (content_bindings c) /\
  Forall segment_fits (c_segments c) /\ fits 32 (size (c_segments c)).

Lemma strictness_value_fits s : fits 8 (strictness_value s).
Proof. destruct s; vm_compute; split; congruence. Qed.

Lemma strictness_value_inj s s' : strictness_value s = strictness_value s' -> s = s'.
Proof. destruct s, s'; cbn; congruence. Qed.

(** The masks of the kinds are distinct single bits. *)
Lemma allows_kind_spec p k :
  k <> KInvalid ->
  allows_kind p k = Z.testbit (pr_allowed_kinds_mask p) (kind_value k - 1).
Proof.
  intros Hk. unfold allows_kind.
  destruct (kind_eqb k KInvalid) eqn:E; [by apply kind_eqb_eq in E|].
  assert (kind_bit k = 2 ^ (kind_value k - 1)) as ->.
  { destruct k; try done; vm_compute; reflexivity. }
  assert (0 <= kind_value k - 1) as H0 by (destruct k; cbn in *; (lia || done)).
  destruct (Z.testbit (pr_allowed_kinds_mask p) (kind_value k - 1)) eqn:T.
  - apply negb_true_iff, Z.eqb_neq. intros Hz.
    apply (f_equal (fun z => Z.testbit z (kind_value k - 1))) in Hz.
    rewrite Z.land_spec, T, Z.pow2_bits_true, Z.bits_0 in Hz by done. done.
  - apply negb_false_iff, Z.eqb_eq. apply Z.bits_inj'. intros n Hn.
    rewrite Z.land_spec, Z.pow2_bits_eqb, Z.bits_0 by done.
    destruct (Z.eqb_spec (kind_value k - 1) n) as [<-|]; [by rewrite T|].
    apply andb_false_r.
Qed.

(** C39: The canonical content determines every bound identity and generation, the
    strictness and the ordered segments. *)
Theorem canonical_content_bytes_inj w c c' :
  0 <= w -> content_fits c -> content_fits c' ->
  Forall (payload_within w) (c_segments c) -> Forall (payload_within w) (c_segments c') ->
  let canonical c := {| c with c_segments := canonicalize_segments (c_segments c) |} in
  canonical_content_bytes (canonical c) w = canonical_content_bytes (canonical c') w <->
  content_head c = content_head c' /\ content_bindings c = content_bindings c' /\
  c_strictness c = c_strictness c' /\
  Forall2 (fun a b => segment_semantic_equal a b w = true) (c_segments c) (c_segments c').
Proof.
  intros Hw (Hh & Hb & Hs & Hn) (Hh' & Hb' & Hs' & Hn') Hp Hp' canonical.
  unfold canonical_content_bytes.
  change (content_head (canonical ?c)) with (content_head c).
  change (content_bindings (canonical ?c)) with (content_bindings c).
  cbn [canonical c_segments c_strictness].
  assert (forall l, size (canonicalize_segments l) = size l) as Hsz.
  { intros l. unfold size, canonicalize_segments. by rewrite length_map. }
  rewrite !Hsz. split.
  - intros H. peel_field H Hm. peel_field H Hpw.
    apply app_inj_length in H as [E1 H]; [|by rewrite !length_put64s].
    apply put64s_inj in E1; [|done..].
    peel_field H E2. apply put8_inj, strictness_value_inj in E2;
      auto using strictness_value_fits.
    apply app_inj_length in H as [E3 H]; [|by rewrite !length_put64s].
    apply put64s_inj in E3; [|done..].
    peel_field H E4. apply put32_inj in E4; [|done..]. unfold size in E4.
    split_and!; [done..|]. eapply write_segments_iff; eauto; lia.
  - intros (-> & -> & -> & H). pose proof (list.Forall2_length _ _ _ H) as Hlen.
    unfold size. rewrite Hlen. do 6 f_equal. by apply write_segments_iff.
Qed.
