(* ===== verification/Authority.v ===== *)
(** * Authority table

    [include/srf/authority.hpp] and [src/authority.cpp]: the coordinator epoch, the
    live publishers and the permanently fenced boots.  Each method runs under the
    table's own mutex, so it is one function on the table. *)

From stdpp Require Import relations.
From S2P Require Import Prelude.
From S2P Require Import Ids.
From S2P Require Import Reason.

Record CallerIdentity := {
  ci_epoch : CoordinatorEpoch;
  ci_publisher : PublisherId;
  ci_boot : WorkerBootId;
  ci_scope : ScopeId;
  ci_attempt : MutationAttemptId;
}.

Record PublisherState := {
  ps_id : PublisherId;
  ps_boot : WorkerBootId;
  ps_scope : ScopeId;
  ps_epoch : CoordinatorEpoch;
  ps_alive : bool;
  ps_fenced : bool;
}.

#[global] Instance PublisherState_eq_dec : EqDecision PublisherState.
Proof. solve_decision. Defined.

Record AuthorityTable := {
  at_epoch : CoordinatorEpoch;
  at_publishers : list PublisherState;
  at_fenced_boots : list WorkerBootId;
}.

Definition initial_authority : AuthorityTable := {|
  at_epoch := Generation.initial; at_publishers := []; at_fenced_boots := [];
|}.

Module AuthorityTable.

Definition advance_epoch (t : AuthorityTable) : bool * AuthorityTable :=
  match Generation.next (at_epoch t) with
  | None => (false, t)
  | Some e => (true, {| t with at_epoch := e |})
  end.

Definition restore_epoch (e : CoordinatorEpoch) (t : AuthorityTable)
  : bool * AuthorityTable :=
  if negb (valid e) || (e <? at_epoch t) then (false, t)
  else (true, {| t with at_epoch := e |}).

Definition find (id : PublisherId) (t : AuthorityTable) : option PublisherState :=
  find_key ps_id id (at_publishers t).

Definition is_fenced (boot : WorkerBootId) (t : AuthorityTable) : bool :=
  zmem boot (at_fenced_boots t).

Definition is_alive (id : PublisherId) (t : AuthorityTable) : bool :=
  match find id t with
  | Some p => ps_alive p && negb (ps_fenced p)
  | None => false
  end.

Definition register_publisher (id : PublisherId) (boot : WorkerBootId) (scope : ScopeId)
    (epoch : CoordinatorEpoch) (limits : Limits) (t : AuthorityTable)
  : ValidationResult * AuthorityTable :=
  let result := set_limits (Some limits) empty_result in
  if negb (valid id) then (add CallerMissingPublisher 0 0 result, t)
  else if negb (valid boot) then (add CallerMissingWorkerBoot 0 0 result, t)
  else if negb (valid scope) then (add CallerMissingScope 0 0 result, t)
  else if negb (valid epoch) then (add EpochInvalid 0 0 result, t)
  else if negb (epoch =? at_epoch t) then (add EpochStale 0 epoch result, t)
  else if zmem boot (at_fenced_boots t) then (add BootAlreadyFenced 0 boot result, t)
  else
    match find_key ps_id id (at_publishers t) with
    | Some p =>
        if negb (ps_boot p =? boot) then (add CallerStaleWorkerBoot 0 (ps_boot p) result, t)
        else (result, {| t with at_publishers :=
          update_key ps_id id
            (fun p => {| p with ps_scope := scope; ps_epoch := epoch;
                                ps_alive := true; ps_fenced := false |})
            (at_publishers t) |})
    | None =>
        if max_publishers limits <=? size (at_publishers t)
        then (add LimitMaxPublishers 0 (max_publishers limits) result, t)
        else (result, {| t with at_publishers := at_publishers t ++ [
          {| ps_id := id; ps_boot := boot; ps_scope := scope; ps_epoch := epoch;
             ps_alive := true; ps_fenced := false |}] |})
    end.

Definition heartbeat (id : PublisherId) (boot : WorkerBootId) (epoch : CoordinatorEpoch)
    (t : AuthorityTable) : ValidationResult * AuthorityTable :=
  let result := empty_result in
  if negb (valid id) then (add CallerMissingPublisher 0 0 result, t)
  else if negb (valid boot) then (add CallerMissingWorkerBoot 0 0 result, t)
  else if negb (epoch =? at_epoch t) then (add EpochStale 0 epoch result, t)
  else
    match find_key ps_id id (at_publishers t) with
    | Some p =>
        if negb (ps_boot p =? boot) then (add CallerStaleWorkerBoot 0 (ps_boot p) result, t)
        else if ps_fenced p || zmem boot (at_fenced_boots t)
        then (add CallerFencedPublisher 0 boot result, t)
        else (result, {| t with at_publishers :=
          update_key ps_id id (fun p => {| p with ps_alive := true |}) (at_publishers t) |})
    | None => (add CallerUnknownPublisher 0 id result, t)
    end.

Definition kill (p : PublisherState) : PublisherState :=
  {| p with ps_alive := false; ps_fenced := true |}.

Definition mark_dead (id : PublisherId) (t : AuthorityTable)
  : ValidationResult * AuthorityTable :=
  match find_key ps_id id (at_publishers t) with
  | Some p =>
      (empty_result,
       {| t with at_publishers := update_key ps_id id kill (at_publishers t);
                 at_fenced_boots := push_unique (ps_boot p) (at_fenced_boots t) |})
  | None => (add CallerUnknownPublisher 0 id empty_result, t)
  end.

Definition fence_boot (boot : WorkerBootId) (t : AuthorityTable)
  : ValidationResult * AuthorityTable :=
  if negb (valid boot) then (add CallerMissingWorkerBoot 0 0 empty_result, t)
  else
    (empty_result,
     {| t with at_fenced_boots := push_unique boot (at_fenced_boots t);
               at_publishers := map (fun p => if ps_boot p =? boot then kill p else p)
                                  (at_publishers t) |}).

Definition restore_publisher (s : PublisherState) (t : AuthorityTable) : AuthorityTable :=
  {| t with at_publishers := put_key ps_id s (at_publishers t) |}.

Definition restore_fenced_boot (boot : WorkerBootId) (t : AuthorityTable) : AuthorityTable :=
  {| t with at_fenced_boots := push_unique boot (at_fenced_boots t) |}.

Definition fence_all_on_recovery (t : AuthorityTable) : AuthorityTable :=
  {| t with
     at_publishers := map kill (at_publishers t);
     at_fenced_boots :=
       fold_left (fun fb p => push_unique (ps_boot p) fb) (at_publishers t)
         (at_fenced_boots t) |}.

End AuthorityTable.

(** A point-in-time copy of the table ([AuthorityView] of [validation.hpp]). *)
Record AuthorityView := {
  av_epoch : CoordinatorEpoch;
  av_publishers : list PublisherState;
  av_fenced_boots : list WorkerBootId;
}.

Definition view_of (t : AuthorityTable) : AuthorityView := {|
  av_epoch := at_epoch t; av_publishers := at_publishers t;
  av_fenced_boots := at_fenced_boots t;
|}.

Definition view_find (id : PublisherId) (v : AuthorityView) : option PublisherState :=
  find_key ps_id id (av_publishers v).

Definition view_boot_fenced (boot : WorkerBootId) (v : AuthorityView) : bool :=
  if negb (valid boot) then false else zmem boot (av_fenced_boots v).

(** ** Steps of the table *)

Inductive authority_step : AuthorityTable -> AuthorityTable -> Prop :=
  | step_advance_epoch t : authority_step t (AuthorityTable.advance_epoch t).2
  | step_restore_epoch e t :
      fits 64 e -> authority_step t (AuthorityTable.restore_epoch e t).2
  | step_register id boot scope e l t :
      authority_step t (AuthorityTable.register_publisher id boot scope e l t).2
  | step_heartbeat id boot e t : authority_step t (AuthorityTable.heartbeat id boot e t).2
  | step_mark_dead id t : authority_step t (AuthorityTable.mark_dead id t).2
  | step_fence_boot b t : authority_step t (AuthorityTable.fence_boot b t).2
  | step_restore_fenced b t : authority_step t (AuthorityTable.restore_fenced_boot b t)
  | step_fence_all t : authority_step t (AuthorityTable.fence_all_on_recovery t)
  | step_restore_dead p t :
      ps_alive p = false -> ps_fenced p = true ->
      authority_step t (AuthorityTable.restore_publisher p t).

Definition authority_reachable : relation AuthorityTable := rtc authority_step.

(** ** The invariant: identities are unique and nobody is both alive and fenced *)
Definition authority_inv (t : AuthorityTable) : Prop :=
  NoDup (keys ps_id (at_publishers t)) /\ NoDup (at_fenced_boots t) /\
  Forall (fun p => ps_alive p = true -> ps_fenced p = false) (at_publishers t) /\
  fits 64 (at_epoch t) /\ valid (at_epoch t) = true.

Lemma elem_of_fence_fold b ps fb :
  b ∈ fold_left (fun fb p => push_unique (ps_boot p) fb) ps fb <->
  b ∈ fb \/ b ∈ map ps_boot ps.
Proof.
  revert fb. induction ps as [|p ps IH]; cbn; intros fb.
  - split; [by left|]. intros [?|?%not_elem_of_nil]; done.
  - rewrite IH, elem_of_push_unique, elem_of_cons. tauto.
Qed.

Lemma NoDup_fence_fold ps fb :
  NoDup fb -> NoDup (fold_left (fun fb p => push_unique (ps_boot p) fb) ps fb).
Proof. revert fb. induction ps; cbn; auto using NoDup_push_unique. Qed.

Lemma initial_authority_inv : authority_inv initial_authority.
Proof. split_and!; try constructor; vm_compute; congruence. Qed.

Lemma keys_map_same (f : PublisherState -> PublisherState) l :
  (forall p, ps_id (f p) = ps_id p) -> keys ps_id (map f l) = keys ps_id l.
Proof. intros Hf. unfold keys. rewrite map_map. by apply map_ext. Qed.

Lemma authority_step_inv t t' :
  authority_step t t' -> authority_inv t -> authority_inv t'.
Proof.
  intros Hstep (Hn & Hf & Ha & He & Hv).
  destruct Hstep as [t|e t He'|id b sc e l t|id b e t|id t|b t|b t|t|p t Hp1 Hp2]; cbn in *.
  - unfold AuthorityTable.advance_epoch in *. destruct (Generation.next _) as [g|] eqn:E;
      [|done]. destruct (Generation.next_Some _ _ He E) as (_ & ? & ?). by split_and!.
  - unfold AuthorityTable.restore_epoch in *. destruct (_ || _) eqn:E; [done|].
    simpl_bools. by split_and!.
  - unfold AuthorityTable.register_publisher. repeat case_goal; try done; cbn.
    + split_and!; try done; cbn.
      * by rewrite keys_update_key.
      * by apply Forall_update_key.
    + split_and!; try done; cbn.
      * by apply NoDup_snoc_key.
      * apply Forall_app. split; [done|]. by constructor.
  - unfold AuthorityTable.heartbeat. repeat case_goal; try done; cbn.
    split_and!; try done; cbn; [by rewrite keys_update_key|].
    simpl_bools. apply find_key_Some in E2 as E2'. destruct E2' as [_ Hid].
    assert (forall q, q ∈ at_publishers t -> ps_id q = id -> q = p) as Huniq.
    { intros q Hq Hqid. pose proof (find_key_elem ps_id _ _ Hn Hq) as Hfq. congruence. }
    apply Forall_update_key; [done|]. intros q Hq Hqid _ _. cbn.
    by rewrite (Huniq q).
  - unfold AuthorityTable.mark_dead. case_goal; [|done].
    split_and!; cbn; auto using NoDup_push_unique.
    + by rewrite keys_update_key.
    + by apply Forall_update_key.
  - unfold AuthorityTable.fence_boot. case_goal; [done|].
    split_and!; cbn; auto using NoDup_push_unique.
    + rewrite keys_map_same; [done|]. intros q. by destruct (ps_boot q =? b).
    + apply List.Forall_map. eapply list.Forall_impl; [exact Ha|]. cbn. intros q Hq.
      by destruct (ps_boot q =? b).
  - split_and!; cbn; auto using NoDup_push_unique.
  - split_and!; cbn; auto using NoDup_fence_fold.
    + by rewrite keys_map_same.
    + apply List.Forall_map. by apply list.Forall_true.
  - split_and!; cbn; auto using NoDup_put_key.
    apply Forall_put_key; [done|]. congruence.
Qed.

(** ** Fencing is permanent and the epoch never goes back *)

Definition authority_le (t t' : AuthorityTable) : Prop :=
  (forall b, b ∈ at_fenced_boots t -> b ∈ at_fenced_boots t') /\
  at_epoch t <= at_epoch t'.

#[global] Instance authority_le_preorder : PreOrder authority_le.
Proof.
  split.
  - by split.
  - intros t u v [H1 H2] [H3 H4]. split; [auto|lia].
Qed.

Lemma authority_step_le t t' :
  authority_step t t' -> fits 64 (at_epoch t) -> authority_le t t'.
Proof.
  intros Hstep He.
  destruct Hstep as [t|e t He'|id b sc e l t|id b e t|id t|b t|b t|t|p t Hp1 Hp2]; cbn in *.
  - unfold AuthorityTable.advance_epoch. destruct (Generation.next _) as [g|] eqn:E; [|done].
    destruct (Generation.next_Some _ _ He E) as (-> & _ & _). split; cbn; [done|lia].
  - unfold AuthorityTable.restore_epoch. destruct (_ || _) eqn:E; [done|].
    simpl_bools. split; cbn; [done|lia].
  - unfold AuthorityTable.register_publisher. repeat case_goal; done.
  - unfold AuthorityTable.heartbeat. repeat case_goal; done.
  - unfold AuthorityTable.mark_dead. case_goal; [|done]. split; cbn; [|lia].
    intros. rewrite elem_of_push_unique. by left.
  - unfold AuthorityTable.fence_boot. case_goal; [done|]. split; cbn; [|lia].
    intros. rewrite elem_of_push_unique. by left.
  - split; cbn; [|lia]. intros. rewrite elem_of_push_unique. by left.
  - split; cbn; [|lia]. intros. rewrite elem_of_fence_fold. by left.
  - split; cbn; [done|lia].
Qed.

Lemma authority_reachable_le t t' :
  authority_reachable t t' -> authority_inv t -> authority_le t t' /\ authority_inv t'.
Proof.
  induction 1 as [t|t u t' Hs _ IH]; intros Hinv; [done|].
  destruct IH as [Hle Hi]; [by eapply authority_step_inv|].
  split; [|done]. etransitivity; [|done].
  apply authority_step_le; [done|]. by destruct Hinv as (_ & _ & _ & ? & _).
Qed.

(** Every reachable table satisfies the invariant. *)
Theorem authority_reachable_inv t : authority_reachable initial_authority t -> authority_inv t.
Proof. intros H. by apply (authority_reachable_le _ _ H), initial_authority_inv. Qed.

(** C38: A fenced boot is fenced forever: after any further activity of the table it can
    neither be registered nor send a heartbeat, and the table ignores the attempt. *)
Theorem fenced_boot_forever t t' id boot scope e limits :
  authority_inv t -> boot ∈ at_fenced_boots t -> authority_reachable t t' ->
  0 < max_reasons limits ->
  result_ok (AuthorityTable.register_publisher id boot scope e limits t').1 = false /\
  (AuthorityTable.register_publisher id boot scope e limits t').2 = t' /\
  result_ok (AuthorityTable.heartbeat id boot e t').1 = false /\
  (AuthorityTable.heartbeat id boot e t').2 = t'.
Proof.
  intros Hinv Hb Hr Hl. destruct (authority_reachable_le _ _ Hr Hinv) as [[Hmono _] _].
  apply Hmono, zmem_spec in Hb. clear Hr Hmono Hinv.
  unfold AuthorityTable.register_publisher, AuthorityTable.heartbeat.
  rewrite Hb.
  split_and!; repeat case_goal; rewrite ?orb_true_r in *; try done;
    cbn [fst]; rewrite add_result_ok; done.
Qed.

(** A successful registration leaves exactly the registered publisher alive under
    its identifier, at the current epoch, and touches nobody else. *)
Theorem register_publisher_spec id boot scope e limits t :
  0 < max_reasons limits ->
  result_ok (AuthorityTable.register_publisher id boot scope e limits t).1 = true ->
  let t' := (AuthorityTable.register_publisher id boot scope e limits t).2 in
  e = at_epoch t /\ boot ∉ at_fenced_boots t /\
  AuthorityTable.find id t' =
    Some {| ps_id := id; ps_boot := boot; ps_scope := scope; ps_epoch := e;
            ps_alive := true; ps_fenced := false |} /\
  (forall id', id' <> id -> AuthorityTable.find id' t' = AuthorityTable.find id' t) /\
  size (at_publishers t') <= Z.max (size (at_publishers t)) (max_publishers limits).
Proof.
  intros Hl. unfold AuthorityTable.register_publisher, AuthorityTable.find.
  assert (forall c i d, c <> ReasonOk ->
    result_ok (add c i d (set_limits (Some limits) empty_result)) = false) as Hadd.
  { intros c i d Hc. rewrite add_result_ok by done. cbn.
    apply not_true_iff_false. by rewrite code_eqb_eq. }
  repeat case_goal; cbn [fst snd]; rewrite ?Hadd by done; try done; cbn; intros _;
    simpl_bools.
  - apply find_key_Some in E5 as E5'. destruct E5' as [_ Hid].
    split_and!; [done|by apply zmem_false| | |rewrite size_update_key; lia].
    + rewrite find_update_key_eq by done. rewrite E5. cbn.
      by destruct p; cbn in *; subst.
    + intros id' Hne. by apply find_update_key_ne.
  - split_and!; [done|by apply zmem_false| | |rewrite size_snoc; lia].
    + rewrite find_key_app, E5. cbn. by rewrite Z.eqb_refl.
    + intros id' Hne. rewrite find_key_app. cbn.
      destruct (Z.eqb_spec id id'); [congruence|]. by destruct (find_key ps_id id' (at_publishers t)).
Qed.

(** After recovery nobody is alive and every registered boot is fenced. *)
Theorem fence_all_on_recovery_spec t :
  let t' := AuthorityTable.fence_all_on_recovery t in
  (forall id, AuthorityTable.is_alive id t' = false) /\
  Forall (fun p => AuthorityTable.is_fenced (ps_boot p) t' = true) (at_publishers t').
Proof.
  cbn. split.
  - intros id. unfold AuthorityTable.is_alive, AuthorityTable.find. cbn.
    destruct (find_key _ _ _) as [p|] eqn:E; [|done].
    apply find_key_Some in E as [Hp _]. apply list_elem_of_fmap in Hp as (q & -> & _).
    done.
  - apply List.Forall_map, list.Forall_forall. intros p Hp.
    unfold AuthorityTable.is_fenced. cbn. apply zmem_spec, elem_of_fence_fold.
    right. by apply list_elem_of_fmap_2.
Qed.

(** ** What serving keeps

    No call a server makes after its recovery gives a publisher another boot. *)
Definition boots_kept (t t' : AuthorityTable) : Prop :=
  forall id p, AuthorityTable.find id t = Some p ->
    exists p', AuthorityTable.find id t' = Some p' /\ ps_boot p' = ps_boot p.

Definition authority_grows (t t' : AuthorityTable) : Prop := authority_le t t' /\ boots_kept t t'.

#[global] Instance boots_kept_preorder : PreOrder boots_kept.
Proof.
  split.
  - intros t id p Hp. by exists p.
  - intros t u v H1 H2 id p Hp. destruct (H1 _ _ Hp) as (q & Hq & Hb).
    destruct (H2 _ _ Hq) as (r & Hr & Hb'). exists r. split; [done|congruence].
Qed.

#[global] Instance authority_grows_preorder : PreOrder authority_grows.
Proof.
  split.
  - by split.
  - intros t u v [H1 H2] [H3 H4]. split; by etransitivity.
Qed.

(** An update of one publisher that keeps its identifier and boot. *)
Lemma boots_kept_update id f t t' :
  (forall p, ps_id (f p) = ps_id p) -> (forall p, ps_boot (f p) = ps_boot p) ->
  at_publishers t' = update_key ps_id id f (at_publishers t) -> boots_kept t t'.
Proof.
  intros Hid Hb Ht id' p. unfold AuthorityTable.find. rewrite Ht. intros Hp.
  destruct (decide (id' = id)) as [->|Hne].
  - rewrite find_update_key_eq, Hp by (intros ? <-; apply Hid). exists (f p). split; [done|apply Hb].
  - rewrite find_update_key_ne by (done || (intros ? <-; apply Hid)). by exists p.
Qed.

Lemma register_publisher_grows id boot scope e limits t :
  authority_grows t (AuthorityTable.register_publisher id boot scope e limits t).2.
Proof.
  split.
  - unfold AuthorityTable.register_publisher. repeat case_goal; done.
  - unfold AuthorityTable.register_publisher. repeat case_goal; try done; cbn [snd].
    + by eapply boots_kept_update; [| |reflexivity].
    + intros id' p. unfold AuthorityTable.find. cbn. rewrite find_key_app. intros ->. by exists p.
Qed.

Lemma heartbeat_grows id boot e t : authority_grows t (AuthorityTable.heartbeat id boot e t).2.
Proof.
  split.
  - unfold AuthorityTable.heartbeat. repeat case_goal; done.
  - unfold AuthorityTable.heartbeat. repeat case_goal; try done; cbn [snd].
    by eapply boots_kept_update; [| |reflexivity].
Qed.

Lemma mark_dead_grows id t : authority_grows t (AuthorityTable.mark_dead id t).2.
Proof.
  unfold AuthorityTable.mark_dead. case_goal; [|done]. split.
  - split; cbn; [|lia]. intros. rewrite elem_of_push_unique. by left.
  - by eapply boots_kept_update; [| |reflexivity].
Qed.

(** The publishers after one is marked dead. *)
Lemma mark_dead_find id id' t :
  AuthorityTable.find id' (AuthorityTable.mark_dead id t).2 =
  if decide (id' = id) then AuthorityTable.kill <$> AuthorityTable.find id' t
  else AuthorityTable.find id' t.
Proof.
  unfold AuthorityTable.mark_dead, AuthorityTable.find. destruct (find_key ps_id id _) as [p|] eqn:E;
    cbn [snd at_publishers]; destruct (decide (id' = id)) as [->|Hne].
  - by rewrite find_update_key_eq.
  - by rewrite find_update_key_ne.
  - by rewrite E.
  - done.
Qed.

Lemma mark_dead_fences id p t :
  AuthorityTable.find id t = Some p -> ps_boot p ∈ at_fenced_boots (AuthorityTable.mark_dead id t).2.
Proof.
  unfold AuthorityTable.mark_dead, AuthorityTable.find. intros ->. cbn.
  apply elem_of_push_unique. by right.
Qed.
