(* ===== verification/Registries.v ===== *)
(** * Profile and policy registry

    [include/srf/registry.hpp] and [src/registry.cpp].  Registering a revision of a
    known identifier requires a strictly greater generation; every successful change
    advances the registry revision. *)

From stdpp Require Import relations.
From S2P Require Import Prelude.
From S2P Require Import Ids.
From S2P Require Import Reason.
From S2P Require Import Governance.

Record Registry := {
  rg_profiles : list SegmentProfile;
  rg_policies : list SegmentPolicy;
  rg_revision : Z;
}.

Definition empty_registry : Registry :=
  {| rg_profiles := []; rg_policies := []; rg_revision := 0 |}.

Module Registry.

Definition bump (g : Registry) : Registry :=
  {| g with rg_revision := u64 (rg_revision g + 1) |}.

Definition register_profile (p : SegmentProfile) (limits : Limits) (g : Registry)
  : ValidationResult * Registry :=
  let result := set_limits (Some limits) empty_result in
  if negb (valid (pr_id p)) then (add ProfileIdInvalid 0 0 result, g)
  else if negb (valid (pr_generation p)) then (add ProfileGenerationInvalid 0 0 result, g)
  else if (pr_payload_width p =? 0) || (pr_max_depth p =? 0)
  then (add ProfileIdInvalid 0 (pr_id p) result, g)
  else
    match find_key pr_id (pr_id p) (rg_profiles g) with
    | Some q =>
        if pr_generation p <=? pr_generation q
        then (add ProfileGenerationInvalid 0 (pr_generation q) result, g)
        else (result, bump {| g with rg_profiles :=
                update_key pr_id (pr_id p) (fun _ => p) (rg_profiles g) |})
    | None =>
        if max_profiles limits <=? size (rg_profiles g)
        then (add LimitMaxProfiles 0 (max_profiles limits) result, g)
        else (result, bump {| g with rg_profiles := rg_profiles g ++ [p] |})
    end.

Definition register_policy (p : SegmentPolicy) (limits : Limits) (g : Registry)
  : ValidationResult * Registry :=
  let result := set_limits (Some limits) empty_result in
  if negb (valid (po_id p)) then (add PolicyIdInvalid 0 0 result, g)
  else if negb (valid (po_generation p)) then (add PolicyGenerationInvalid 0 0 result, g)
  else
    match find_key po_id (po_id p) (rg_policies g) with
    | Some q =>
        if po_generation p <=? po_generation q
        then (add PolicyGenerationInvalid 0 (po_generation q) result, g)
        else (result, bump {| g with rg_policies :=
                update_key po_id (po_id p) (fun _ => p) (rg_policies g) |})
    | None =>
        if max_policies limits <=? size (rg_policies g)
        then (add LimitMaxPolicies 0 (max_policies limits) result, g)
        else (result, bump {| g with rg_policies := rg_policies g ++ [p] |})
    end.

Definition advance_profile_generation (id : SegmentProfileId) (g : Registry)
  : ValidationResult * Registry :=
  match find_key pr_id id (rg_profiles g) with
  | Some p =>
      match Generation.next (pr_generation p) with
      | None => (add ProfileGenerationInvalid 0 (pr_generation p) empty_result, g)
      | Some n =>
          (empty_result, bump {| g with rg_profiles :=
             update_key pr_id id (fun p => {| p with pr_generation := n |})
               (rg_profiles g) |})
      end
  | None => (add ProfileUnknown 0 id empty_result, g)
  end.

Definition advance_policy_generation (id : SegmentPolicyId) (g : Registry)
  : ValidationResult * Registry :=
  match find_key po_id id (rg_policies g) with
  | Some p =>
      match Generation.next (po_generation p) with
      | None => (add PolicyGenerationInvalid 0 (po_generation p) empty_result, g)
      | Some n =>
          (empty_result, bump {| g with rg_policies :=
             update_key po_id id (fun p => {| p with po_generation := n |})
               (rg_policies g) |})
      end
  | None => (add PolicyUnknown 0 id empty_result, g)
  end.

(** [find_profile(id, out)]: [Some] is a [true] return with [out] set. *)
Definition find_profile (id : SegmentProfileId) (g : Registry) : option SegmentProfile :=
  find_key pr_id id (rg_profiles g).

Definition find_policy (id : SegmentPolicyId) (g : Registry) : option SegmentPolicy :=
  find_key po_id id (rg_policies g).

(** The return value, with [out] when it was written. *)
Definition find_profile_exact (id : SegmentProfileId) (gen : SegmentProfileGeneration)
    (g : Registry) : bool * option SegmentProfile :=
  match find_key pr_id id (rg_profiles g) with
  | Some p => (negb (valid gen) || (pr_generation p =? gen), Some p)
  | None => (false, None)
  end.

Definition find_policy_exact (id : SegmentPolicyId) (gen : SegmentPolicyGeneration)
    (g : Registry) : bool * option SegmentPolicy :=
  match find_key po_id id (rg_policies g) with
  | Some p => (negb (valid gen) || (po_generation p =? gen), Some p)
  | None => (false, None)
  end.

Definition restore_profile (p : SegmentProfile) (g : Registry) : Registry :=
  {| g with rg_profiles := put_key pr_id p (rg_profiles g) |}.

Definition restore_policy (p : SegmentPolicy) (g : Registry) : Registry :=
  {| g with rg_policies := put_key po_id p (rg_policies g) |}.

End Registry.

(** ** Steps and invariant *)

Inductive registry_step (limits : Limits) : Registry -> Registry -> Prop :=
  | rstep_profile p g :
      fits 64 (pr_generation p) ->
      registry_step limits g (Registry.register_profile p limits g).2
  | rstep_policy p g :
      fits 64 (po_generation p) ->
      registry_step limits g (Registry.register_policy p limits g).2
  | rstep_advance_profile id g :
      registry_step limits g (Registry.advance_profile_generation id g).2
  | rstep_advance_policy id g :
      registry_step limits g (Registry.advance_policy_generation id g).2.

Definition registry_inv (limits : Limits) (g : Registry) : Prop :=
  NoDup (keys pr_id (rg_profiles g)) /\ NoDup (keys po_id (rg_policies g)) /\
  size (rg_profiles g) <= Z.max 0 (max_profiles limits) /\
  size (rg_policies g) <= Z.max 0 (max_policies limits) /\
  Forall (fun p => valid (pr_id p) = true /\ fits 64 (pr_generation p) /\
                   valid (pr_generation p) = true /\
                   pr_payload_width p <> 0 /\ pr_max_depth p <> 0) (rg_profiles g) /\
  Forall (fun p => valid (po_id p) = true /\ fits 64 (po_generation p) /\
                   valid (po_generation p) = true) (rg_policies g).

(** Generations of every identifier only grow, and identifiers never disappear. *)
Definition registry_le (g g' : Registry) : Prop :=
  (forall id p, Registry.find_profile id g = Some p ->
     exists p', Registry.find_profile id g' = Some p' /\
                pr_generation p <= pr_generation p') /\
  (forall id p, Registry.find_policy id g = Some p ->
     exists p', Registry.find_policy id g' = Some p' /\
                po_generation p <= po_generation p').

#[global] Instance registry_le_preorder : PreOrder registry_le.
Proof.
  split.
  - intros g. split; intros id p H; exists p; (split; [done|lia]).
  - intros g h k [H1 H2] [H3 H4]. split; intros id p H.
    + destruct (H1 _ _ H) as (q & Hq & ?). destruct (H3 _ _ Hq) as (r & ? & ?).
      exists r. split; [done|lia].
    + destruct (H2 _ _ H) as (q & Hq & ?). destruct (H4 _ _ Hq) as (r & ? & ?).
      exists r. split; [done|lia].
Qed.

(** Replacing the entry of a key by one of a greater generation, shared by the
    profile and the policy half. *)
Section KeyedGeneration.
Context {A : Type} (key gen : A -> Z).

Definition gen_le (l l' : list A) : Prop :=
  forall id p, find_key key id l = Some p ->
    exists p', find_key key id l' = Some p' /\ gen p <= gen p'.

Lemma gen_le_refl l : gen_le l l.
Proof. intros id p H. exists p. split; [done|lia]. Qed.

Lemma gen_le_snoc l x : gen_le l (l ++ [x]).
Proof. intros id p H. exists p. rewrite find_key_app, H. split; [done|lia]. Qed.

Lemma gen_le_update k f l :
  (forall x, key x = k -> key (f x) = k) ->
  (forall x, find_key key k l = Some x -> gen x <= gen (f x)) ->
  gen_le l (update_key key k f l).
Proof.
  intros Hf Hg id p H. destruct (decide (k = id)) as [<-|Hne].
  - exists (f p). rewrite find_update_key_eq, H by done. split; [done|by apply Hg].
  - exists p. rewrite find_update_key_ne by done. split; [done|lia].
Qed.
End KeyedGeneration.

Lemma registry_le_gen g g' :
  gen_le pr_id pr_generation (rg_profiles g) (rg_profiles g') ->
  gen_le po_id po_generation (rg_policies g) (rg_policies g') ->
  registry_le g g'.
Proof. by split. Qed.

Lemma register_profile_le p limits g :
  registry_le g (Registry.register_profile p limits g).2.
Proof.
  unfold Registry.register_profile.
  repeat case_goal; cbn; try done; apply registry_le_gen; cbn;
    auto using gen_le_refl, gen_le_snoc.
  apply gen_le_update; [done|]. intros x Hx. simpl_bools. simplify_eq. lia.
Qed.

Lemma register_policy_le p limits g :
  registry_le g (Registry.register_policy p limits g).2.
Proof.
  unfold Registry.register_policy.
  repeat case_goal; cbn; try done; apply registry_le_gen; cbn;
    auto using gen_le_refl, gen_le_snoc.
  apply gen_le_update; [done|]. intros x Hx. simpl_bools. simplify_eq. lia.
Qed.

Lemma advance_profile_le id limits g :
  registry_inv limits g -> registry_le g (Registry.advance_profile_generation id g).2.
Proof.
  intros (_ & _ & _ & _ & Hp & _). unfold Registry.advance_profile_generation.
  repeat case_goal; cbn; try done; apply registry_le_gen; cbn; auto using gen_le_refl.
  apply gen_le_update; [done|]. intros x Hx. cbn. simplify_eq.
  apply find_key_Some in E as [Hin _].
  destruct (proj1 (list.Forall_forall _ _) Hp _ Hin) as (_ & Hfit & _).
  destruct (Generation.next_Some _ _ Hfit E0) as (-> & _). lia.
Qed.

Lemma advance_policy_le id limits g :
  registry_inv limits g -> registry_le g (Registry.advance_policy_generation id g).2.
Proof.
  intros (_ & _ & _ & _ & _ & Hp). unfold Registry.advance_policy_generation.
  repeat case_goal; cbn; try done; apply registry_le_gen; cbn; auto using gen_le_refl.
  apply gen_le_update; [done|]. intros x Hx. cbn. simplify_eq.
  apply find_key_Some in E as [Hin _].
  destruct (proj1 (list.Forall_forall _ _) Hp _ Hin) as (_ & Hfit & _).
  destruct (Generation.next_Some _ _ Hfit E0) as (-> & _). lia.
Qed.

Lemma registry_step_le limits g g' :
  registry_step limits g g' -> registry_inv limits g -> registry_le g g'.
Proof.
  intros [p h ?|p h ?|id h|id h] Hinv; eauto using register_profile_le,
    register_policy_le, advance_profile_le, advance_policy_le.
Qed.

Lemma registry_step_inv limits g g' :
  registry_step limits g g' -> registry_inv limits g -> registry_inv limits g'.
Proof.
  intros Hstep (Hn1 & Hn2 & Hs1 & Hs2 & Hp & Hq).
  destruct Hstep as [p g Hf|p g Hf|id g|id g].
  - unfold Registry.register_profile. repeat case_goal; try done; cbn; simpl_bools;
      split_and!; cbn; try done.
    + by rewrite keys_update_key.
    + by rewrite size_update_key.
    + apply Forall_update_key; [done|]. intros. by split_and!.
    + by apply NoDup_snoc_key.
    + rewrite size_snoc. lia.
    + apply Forall_app. split; [done|]. apply list.Forall_singleton. by split_and!.
  - unfold Registry.register_policy. repeat case_goal; try done; cbn; simpl_bools;
      split_and!; cbn; try done.
    + by rewrite keys_update_key.
    + by rewrite size_update_key.
    + apply Forall_update_key; [done|]. intros. by split_and!.
    + by apply NoDup_snoc_key.
    + rewrite size_snoc. lia.
    + apply Forall_app. split; [done|]. apply list.Forall_singleton. by split_and!.
  - unfold Registry.advance_profile_generation. repeat case_goal; try done; cbn.
    apply find_key_Some in E as [Hin _].
    destruct (proj1 (list.Forall_forall _ _) Hp _ Hin) as (_ & Hfit & _).
    destruct (Generation.next_Some _ _ Hfit E0) as (_ & ? & ?).
    split_and!; cbn; try done.
    + by rewrite keys_update_key.
    + by rewrite size_update_key.
    + apply Forall_update_key; [done|]. intros x _ _ (? & ? & ? & ? & ?). by split_and!.
  - unfold Registry.advance_policy_generation. repeat case_goal; try done; cbn.
    apply find_key_Some in E as [Hin _].
    destruct (proj1 (list.Forall_forall _ _) Hq _ Hin) as (_ & Hfit & _).
    destruct (Generation.next_Some _ _ Hfit E0) as (_ & ? & ?).
    split_and!; cbn; try done.
    + by rewrite keys_update_key.
    + by rewrite size_update_key.
    + apply Forall_update_key; [done|]. intros x _ _ (? & ? & ?). by split_and!.
Qed.

(** Over any history of registrations and advances the registry stays well formed
    and within its bounds, and the generation of every profile and policy only
    grows. *)
Theorem registry_history limits g g' :
  rtc (registry_step limits) g g' -> registry_inv limits g ->
  registry_inv limits g' /\ registry_le g g'.
Proof.
  induction 1 as [g|g h g' Hs _ IH]; intros Hinv; [done|].
  destruct IH as [Hi Hle]; [by eapply registry_step_inv|].
  split; [done|]. etransitivity; [by eapply registry_step_le|done].
Qed.

(** Every change of the registry is visible in its revision. *)
Lemma registry_step_revision limits g g' :
  registry_step limits g g' -> g' = g \/ rg_revision g' = u64 (rg_revision g + 1).
Proof.
  intros [p h ?|p h ?|id h|id h].
  - unfold Registry.register_profile. repeat case_goal; cbn; auto.
  - unfold Registry.register_policy. repeat case_goal; cbn; auto.
  - unfold Registry.advance_profile_generation. repeat case_goal; cbn; auto.
  - unfold Registry.advance_policy_generation. repeat case_goal; cbn; auto.
Qed.
