(* ===== verification/Evidence.v ===== *)
(** * Fabric evidence

    [include/srf/evidence.hpp] and [src/evidence.cpp].  [EvidenceSource] is the
    interface [IEvidenceSource] promises to the store: a consistent snapshot and a
    watermark that moves whenever the evidence does.  [SyntheticEvidence] is the
    shipped implementation and is proved to keep that promise. *)

From S2P Require Import Prelude.
From S2P Require Import Ids.
From S2P Require Import Segment.

(** ** Records *)
Record CapabilityRecord := {
  cap_key : CapabilityKey; cap_generation : CapabilityGeneration; cap_supported : bool }.
Record SegmentRecord := {
  sr_id : SegmentId; sr_kind : SegmentKind; sr_generation : SegmentGeneration;
  sr_scope : ScopeId }.
Record NodeRecord := { nr_id : NodeId; nr_scope : ScopeId }.
Record AdjacencyRecord := {
  ar_id : AdjacencyId; ar_topology : TopologyGeneration; ar_from : NodeId; ar_to : NodeId;
  ar_scope : ScopeId }.
Record EndpointRecord := { er_id : EndpointId; er_node : NodeId; er_scope : ScopeId }.
Record BindingRecord := { br_id : BindingId; br_bound : SegmentId; br_scope : ScopeId }.
Record PathRecord := {
  par_id : PathId; par_authority : PathAuthorityGeneration; par_scope : ScopeId }.
Record RouteRecord := {
  ror_id : RouteId; ror_generation : RouteGeneration; ror_list : SegmentListId;
  ror_list_generation : SegmentListGeneration; ror_scope : ScopeId }.
Record ConstraintRecord := {
  cor_id : ConstraintEvaluationId; cor_generation : ConstraintGeneration;
  cor_scope : ScopeId }.

Record EvidenceWatermark := {
  wm_topology : TopologyGeneration;
  wm_capability : CapabilityGeneration;
  wm_path_authority : PathAuthorityGeneration;
  wm_route : RouteGeneration;
  wm_constraint : ConstraintGeneration;
  wm_revision : Z;
}.

#[global] Instance EvidenceWatermark_eq_dec : EqDecision EvidenceWatermark.
Proof. solve_decision. Defined.

(** [EvidenceWatermark{}] *)
Definition empty_watermark : EvidenceWatermark := {|
  wm_topology := 0; wm_capability := 0; wm_path_authority := 0; wm_route := 0;
  wm_constraint := 0; wm_revision := 0 |}.

Definition watermark_eqb (a b : EvidenceWatermark) : bool :=
  (wm_topology a =? wm_topology b) && (wm_capability a =? wm_capability b) &&
  (wm_path_authority a =? wm_path_authority b) && (wm_route a =? wm_route b) &&
  (wm_constraint a =? wm_constraint b) && (wm_revision a =? wm_revision b).

Lemma watermark_eqb_eq a b : watermark_eqb a b = true <-> a = b.
Proof.
  destruct a, b. unfold watermark_eqb. cbn. rewrite !andb_true_iff, !Z.eqb_eq.
  split; [intros; destruct_and!; congruence|intros H; injection H; tauto].
Qed.

Record FabricEvidence := {
  ev_topology : TopologyGeneration;
  ev_capability : CapabilityGeneration;
  ev_path_authority : PathAuthorityGeneration;
  ev_route : RouteGeneration;
  ev_constraint : ConstraintGeneration;
  ev_capabilities : list CapabilityRecord;
  ev_segments : list SegmentRecord;
  ev_nodes : list NodeRecord;
  ev_adjacencies : list AdjacencyRecord;
  ev_endpoints : list EndpointRecord;
  ev_bindings : list BindingRecord;
  ev_paths : list PathRecord;
  ev_routes : list RouteRecord;
  ev_constraints : list ConstraintRecord;
}.

(** [FabricEvidence{}] *)
Definition empty_evidence : FabricEvidence := {|
  ev_topology := 0; ev_capability := 0; ev_path_authority := 0; ev_route := 0;
  ev_constraint := 0; ev_capabilities := []; ev_segments := []; ev_nodes := [];
  ev_adjacencies := []; ev_endpoints := []; ev_bindings := []; ev_paths := [];
  ev_routes := []; ev_constraints := [];
|}.

Definition find_capability (e : FabricEvidence) (k : CapabilityKey) :=
  find_key cap_key k (ev_capabilities e).
Definition find_segment (e : FabricEvidence) (id : SegmentId) :=
  find_key sr_id id (ev_segments e).
Definition find_node (e : FabricEvidence) (id : NodeId) := find_key nr_id id (ev_nodes e).
Definition find_adjacency (e : FabricEvidence) (id : AdjacencyId) :=
  find_key ar_id id (ev_adjacencies e).
Definition find_endpoint (e : FabricEvidence) (id : EndpointId) :=
  find_key er_id id (ev_endpoints e).
Definition find_binding (e : FabricEvidence) (id : BindingId) :=
  find_key br_id id (ev_bindings e).
Definition find_path (e : FabricEvidence) (id : PathId) := find_key par_id id (ev_paths e).
Definition find_route (e : FabricEvidence) (id : RouteId) := find_key ror_id id (ev_routes e).
Definition find_constraint (e : FabricEvidence) (id : ConstraintEvaluationId) :=
  find_key cor_id id (ev_constraints e).

(** ** The interface *)

(** What [IEvidenceSource] offers, and the operations by which its owner moves it;
    [ev_ticks] counts how often an operation advances the watermark. *)
Class EvidenceSource (E : Type) := {
  ev_snapshot : E -> FabricEvidence;
  ev_watermark : E -> EvidenceWatermark;
  ev_op : Type;
  ev_apply : ev_op -> E -> E;
  ev_ticks : ev_op -> E -> Z;
}.

Section Moves.
Context {E} `{EvidenceSource E}.

(** [moves n e e']: [e'] is reached from [e] by owner operations that advanced the
    watermark [n] times in total. *)
Inductive moves : Z -> E -> E -> Prop :=
  | moves_refl e : moves 0 e e
  | moves_step n e e' op :
      moves n e e' -> moves (n + ev_ticks op e') e (ev_apply op e').
End Moves.

(** The contract: an operation that does not advance the watermark changes nothing,
    and within the range of the revision counter a watermark never repeats. *)
Class EvidenceSourceLaws (E : Type) `{EvidenceSource E} := {
  ev_valid : E -> Prop;
  ev_valid_apply op e : ev_valid e -> ev_valid (ev_apply op e);
  ev_ticks_nonneg op e : ev_valid e -> 0 <= ev_ticks op e;
  ev_idle op e : ev_valid e -> ev_ticks op e = 0 -> ev_snapshot (ev_apply op e) = ev_snapshot e;
  ev_watermark_fresh n e e' :
    ev_valid e -> moves n e e' -> n < 2 ^ 64 -> ev_watermark e = ev_watermark e' -> n = 0;
}.

Section Contract.
Context {E} `{EvidenceSourceLaws E}.

Lemma moves_valid n e e' : ev_valid e -> moves n e e' -> ev_valid e' /\ 0 <= n.
Proof.
  intros He. induction 1 as [e|n e e' op Hm IH]; [split; [done|lia]|].
  destruct (IH He) as [He' Hn]. split; [by apply ev_valid_apply|].
  pose proof (ev_ticks_nonneg op e' He'). lia.
Qed.

Lemma moves_idle n e e' : ev_valid e -> moves n e e' -> n = 0 -> ev_snapshot e = ev_snapshot e'.
Proof.
  intros He. induction 1 as [e|n e e' op Hm IH]; [done|]. intros Hn.
  destruct (moves_valid _ _ _ He Hm) as [He' Hn0].
  pose proof (ev_ticks_nonneg op e' He'). rewrite ev_idle by (done || lia).
  apply IH; [done|lia].
Qed.

Lemma moves_trans n n' e e' e'' :
  moves n e e' -> moves n' e' e'' -> moves (n + n') e e''.
Proof.
  intros H1. induction 1 as [e'|n' e' e'' op Hm IH]; [by rewrite Z.add_0_r|].
  rewrite Z.add_assoc. by constructor; apply IH.
Qed.

(** A snapshot taken at [e1], between two reads of the same watermark at [e] and
    [e2], is still the evidence at [e2]. *)
Lemma snapshot_between n1 n2 e e1 e2 :
  ev_valid e -> moves n1 e e1 -> moves n2 e1 e2 -> n1 + n2 < 2 ^ 64 ->
  ev_watermark e = ev_watermark e2 -> ev_snapshot e1 = ev_snapshot e2.
Proof.
  intros He H1 H2 Hn Hw.
  assert (n1 + n2 = 0) as Hz.
  { eapply ev_watermark_fresh; [exact He|by eapply moves_trans|done|done]. }
  destruct (moves_valid _ _ _ He H1) as [He1 ?].
  destruct (moves_valid _ _ _ He1 H2) as [_ ?].
  eapply moves_idle; [exact He1|exact H2|lia].
Qed.
End Contract.

(** ** SyntheticEvidence *)
Record SyntheticEvidence := { se_evidence : FabricEvidence; se_revision : Z }.

Definition new_synthetic : SyntheticEvidence :=
  {| se_evidence := empty_evidence; se_revision := 0 |}.

Module SyntheticEvidence.

Definition snapshot (s : SyntheticEvidence) : FabricEvidence := se_evidence s.

Definition watermark (s : SyntheticEvidence) : EvidenceWatermark := {|
  wm_topology := ev_topology (se_evidence s);
  wm_capability := ev_capability (se_evidence s);
  wm_path_authority := ev_path_authority (se_evidence s);
  wm_route := ev_route (se_evidence s);
  wm_constraint := ev_constraint (se_evidence s);
  wm_revision := se_revision s;
|}.

(** [++revision_] after a change of the evidence. *)
Definition commit (e : FabricEvidence) (s : SyntheticEvidence) : SyntheticEvidence :=
  {| se_evidence := e; se_revision := u64 (se_revision s + 1) |}.

(** Update the first record of a key in place, or append a new one. *)
Definition upsert {A} (key : A -> Z) (k : Z) (f : A -> A) (x : A) (l : list A) : list A :=
  match find_key key k l with
  | Some _ => update_key key k f l
  | None => l ++ [x]
  end.

Definition without {A} (key : A -> Z) (k : Z) (l : list A) : list A :=
  List.filter (fun x => negb (key x =? k)) l.

Definition has_key {A} (key : A -> Z) (k : Z) (l : list A) : bool :=
  existsb (fun x => key x =? k) l.

Definition set_topology_generation g s :=
  commit {| (se_evidence s) with ev_topology := g |} s.
Definition set_capability_generation g s :=
  commit {| (se_evidence s) with ev_capability := g |} s.
Definition set_path_authority_generation g s :=
  commit {| (se_evidence s) with ev_path_authority := g |} s.
Definition set_route_generation g s :=
  commit {| (se_evidence s) with ev_route := g |} s.

Definition add_capability k g b s :=
  commit {| (se_evidence s) with ev_capabilities :=
    upsert cap_key k (fun r => {| r with cap_generation := g; cap_supported := b |})
      {| cap_key := k; cap_generation := g; cap_supported := b |}
      (ev_capabilities (se_evidence s)) |} s.

Definition remove_capability k s :=
  if has_key cap_key k (ev_capabilities (se_evidence s)) then
    commit {| (se_evidence s) with ev_capabilities :=
      without cap_key k (ev_capabilities (se_evidence s)) |} s
  else s.

Definition add_segment id kind g sc s :=
  commit {| (se_evidence s) with ev_segments :=
    upsert sr_id id
      (fun r => {| r with sr_kind := kind; sr_generation := g; sr_scope := sc |})
      {| sr_id := id; sr_kind := kind; sr_generation := g; sr_scope := sc |}
      (ev_segments (se_evidence s)) |} s.

Definition remove_segment id s :=
  if has_key sr_id id (ev_segments (se_evidence s)) then
    commit {| (se_evidence s) with ev_segments :=
      without sr_id id (ev_segments (se_evidence s)) |} s
  else s.

Definition add_node id sc s :=
  commit {| (se_evidence s) with ev_nodes :=
    upsert nr_id id (fun r => {| r with nr_scope := sc |})
      {| nr_id := id; nr_scope := sc |} (ev_nodes (se_evidence s)) |} s.

Definition add_adjacency id topo from to sc s :=
  commit {| (se_evidence s) with ev_adjacencies :=
    upsert ar_id id
      (fun r => {| r with ar_topology := topo; ar_from := from; ar_to := to;
                          ar_scope := sc |})
      {| ar_id := id; ar_topology := topo; ar_from := from; ar_to := to; ar_scope := sc |}
      (ev_adjacencies (se_evidence s)) |} s.

Definition remove_adjacency id s :=
  if has_key ar_id id (ev_adjacencies (se_evidence s)) then
    commit {| (se_evidence s) with ev_adjacencies :=
      without ar_id id (ev_adjacencies (se_evidence s)) |} s
  else s.

Definition add_endpoint id node sc s :=
  commit {| (se_evidence s) with ev_endpoints :=
    upsert er_id id (fun r => {| r with er_node := node; er_scope := sc |})
      {| er_id := id; er_node := node; er_scope := sc |}
      (ev_endpoints (se_evidence s)) |} s.

Definition add_binding id bound sc s :=
  commit {| (se_evidence s) with ev_bindings :=
    upsert br_id id (fun r => {| r with br_bound := bound; br_scope := sc |})
      {| br_id := id; br_bound := bound; br_scope := sc |}
      (ev_bindings (se_evidence s)) |} s.

Definition add_path id auth sc s :=
  commit {| (se_evidence s) with ev_paths :=
    upsert par_id id (fun r => {| r with par_authority := auth; par_scope := sc |})
      {| par_id := id; par_authority := auth; par_scope := sc |}
      (ev_paths (se_evidence s)) |} s.

Definition set_path_authority id auth s := add_path id auth 0 s.

Definition remove_path id s :=
  if has_key par_id id (ev_paths (se_evidence s)) then
    commit {| (se_evidence s) with ev_paths :=
      without par_id id (ev_paths (se_evidence s)) |} s
  else s.

Definition add_route id g lst lg sc s :=
  commit {| (se_evidence s) with ev_routes :=
    upsert ror_id id
      (fun r => {| r with ror_generation := g; ror_list := lst;
                          ror_list_generation := lg; ror_scope := sc |})
      {| ror_id := id; ror_generation := g; ror_list := lst; ror_list_generation := lg;
         ror_scope := sc |}
      (ev_routes (se_evidence s)) |} s.

(** Every route of the list is updated; the revision advances once per route. *)
Definition set_route_matches (lst : SegmentListId) (s : SyntheticEvidence) : Z :=
  size (List.filter (fun r => ror_list r =? lst) (ev_routes (se_evidence s))).

Definition set_route lst lg s : SyntheticEvidence :=
  {| se_evidence := {| (se_evidence s) with ev_routes :=
       map (fun r => if ror_list r =? lst then {| r with ror_list_generation := lg |} else r)
         (ev_routes (se_evidence s)) |};
     se_revision := u64 (se_revision s + set_route_matches lst s) |}.

Definition add_constraint id g sc s :=
  commit {| (se_evidence s) with ev_constraints :=
    upsert cor_id id (fun r => {| r with cor_generation := g; cor_scope := sc |})
      {| cor_id := id; cor_generation := g; cor_scope := sc |}
      (ev_constraints (se_evidence s)) |} s.

Definition set_constraint_generation id g s :=
  commit {| (se_evidence s) with ev_constraints :=
    upsert cor_id id (fun r => {| r with cor_generation := g |})
      {| cor_id := id; cor_generation := g; cor_scope := 0 |}
      (ev_constraints (se_evidence s)) |} s.

End SyntheticEvidence.

Module SE := SyntheticEvidence.

(** The owner's operations as data. *)
Inductive SyntheticOp :=
  | OpSetTopology (g : TopologyGeneration)
  | OpSetCapability (g : CapabilityGeneration)
  | OpSetPathAuthority (g : PathAuthorityGeneration)
  | OpSetRoute (g : RouteGeneration)
  | OpAddCapability (k : CapabilityKey) (g : CapabilityGeneration) (b : bool)
  | OpRemoveCapability (k : CapabilityKey)
  | OpAddSegment (id : SegmentId) (k : SegmentKind) (g : SegmentGeneration) (sc : ScopeId)
  | OpRemoveSegment (id : SegmentId)
  | OpAddNode (id : NodeId) (sc : ScopeId)
  | OpAddAdjacency (id : AdjacencyId) (t : TopologyGeneration) (from to : NodeId) (sc : ScopeId)
  | OpRemoveAdjacency (id : AdjacencyId)
  | OpAddEndpoint (id : EndpointId) (n : NodeId) (sc : ScopeId)
  | OpAddBinding (id : BindingId) (b : SegmentId) (sc : ScopeId)
  | OpAddPath (id : PathId) (a : PathAuthorityGeneration) (sc : ScopeId)
  | OpSetPath (id : PathId) (a : PathAuthorityGeneration)
  | OpRemovePath (id : PathId)
  | OpAddRoute (id : RouteId) (g : RouteGeneration) (l : SegmentListId)
      (lg : SegmentListGeneration) (sc : ScopeId)
  | OpSetListRoute (l : SegmentListId) (lg : SegmentListGeneration)
  | OpAddConstraint (id : ConstraintEvaluationId) (g : ConstraintGeneration) (sc : ScopeId)
  | OpSetConstraint (id : ConstraintEvaluationId) (g : ConstraintGeneration).

Definition synthetic_apply (op : SyntheticOp) (s : SyntheticEvidence) : SyntheticEvidence :=
  match op with
  | OpSetTopology g => SE.set_topology_generation g s
  | OpSetCapability g => SE.set_capability_generation g s
  | OpSetPathAuthority g => SE.set_path_authority_generation g s
  | OpSetRoute g => SE.set_route_generation g s
  | OpAddCapability k g b => SE.add_capability k g b s
  | OpRemoveCapability k => SE.remove_capability k s
  | OpAddSegment id k g sc => SE.add_segment id k g sc s
  | OpRemoveSegment id => SE.remove_segment id s
  | OpAddNode id sc => SE.add_node id sc s
  | OpAddAdjacency id t from to sc => SE.add_adjacency id t from to sc s
  | OpRemoveAdjacency id => SE.remove_adjacency id s
  | OpAddEndpoint id n sc => SE.add_endpoint id n sc s
  | OpAddBinding id b sc => SE.add_binding id b sc s
  | OpAddPath id a sc => SE.add_path id a sc s
  | OpSetPath id a => SE.set_path_authority id a s
  | OpRemovePath id => SE.remove_path id s
  | OpAddRoute id g l lg sc => SE.add_route id g l lg sc s
  | OpSetListRoute l lg => SE.set_route l lg s
  | OpAddConstraint id g sc => SE.add_constraint id g sc s
  | OpSetConstraint id g => SE.set_constraint_generation id g s
  end.

Definition synthetic_ticks (op : SyntheticOp) (s : SyntheticEvidence) : Z :=
  match op with
  | OpRemoveCapability k => bool_byte (SE.has_key cap_key k (ev_capabilities (se_evidence s)))
  | OpRemoveSegment id => bool_byte (SE.has_key sr_id id (ev_segments (se_evidence s)))
  | OpRemoveAdjacency id => bool_byte (SE.has_key ar_id id (ev_adjacencies (se_evidence s)))
  | OpRemovePath id => bool_byte (SE.has_key par_id id (ev_paths (se_evidence s)))
  | OpSetListRoute l _ => SE.set_route_matches l s
  | _ => 1
  end.

#[global] Instance synthetic_source : EvidenceSource SyntheticEvidence := {|
  ev_snapshot := SE.snapshot;
  ev_watermark := SE.watermark;
  ev_op := SyntheticOp;
  ev_apply := synthetic_apply;
  ev_ticks := synthetic_ticks;
|}.

(** ** [make_synthetic_fabric] *)
Definition kSyntheticScope : Z := 0x100.
Definition kSyntheticPath : Z := 0x4001.
Definition kSyntheticRoute : Z := 0x5001.
Definition kSyntheticConstraint : Z := 0x6001.

Definition synthetic_node_ops (n : Z) : list SyntheticOp := [
  OpAddNode (0x2000 + n) kSyntheticScope;
  OpAddSegment (0x3000 + n) KNode 1 kSyntheticScope;
  OpAddSegment (0x3000 + 100 + n) KAdjacency 1 kSyntheticScope;
  OpAddSegment (0x3000 + 200 + n) KEndpoint 1 kSyntheticScope;
  OpAddSegment (0x3000 + 300 + n) KBinding 1 kSyntheticScope;
  OpAddSegment (0x3000 + 400 + n) KPolicy 1 kSyntheticScope;
  OpAddAdjacency (0x7000 + n) 1 (0x2000 + n) (0x2000 + n + 1) kSyntheticScope;
  OpAddEndpoint (0x8000 + n) (0x2000 + n) kSyntheticScope;
  OpAddBinding (0xA000 + n) (0x3000 + n) kSyntheticScope;
  OpAddConstraint kSyntheticConstraint 1 kSyntheticScope ].

Definition make_synthetic_fabric (node_count : nat) : SyntheticEvidence :=
  fold_left (fun s op => synthetic_apply op s)
    ([OpSetTopology 1; OpSetCapability 1; OpSetPathAuthority 1; OpSetRoute 1;
      OpAddCapability 0x1001 1 true; OpAddCapability 0x1002 1 true]
     ++ concat (map (fun n => synthetic_node_ops (Z.of_nat n)) (seq 1 node_count))
     ++ [OpAddPath kSyntheticPath 1 kSyntheticScope;
         OpAddRoute kSyntheticRoute 1 0 0 kSyntheticScope])
    new_synthetic.

(** ** The implementation keeps the contract *)

Lemma has_key_false {A} (key : A -> Z) k l : SE.has_key key k l = false -> SE.without key k l = l.
Proof.
  unfold SE.has_key, SE.without. induction l as [|x l IH]; cbn; [done|].
  intros H. simpl_bools. destruct (Z.eqb_spec (key x) k); [done|]. cbn. by rewrite IH.
Qed.

Lemma synthetic_ticks_nonneg op s : 0 <= synthetic_ticks op s.
Proof.
  destruct op; cbn; try lia; try (destruct (SE.has_key _ _ _); cbn; lia).
  apply size_nonneg.
Qed.

Lemma synthetic_apply_revision op s :
  fits 64 (se_revision s) ->
  se_revision (synthetic_apply op s) = u64 (se_revision s + synthetic_ticks op s).
Proof.
  intros Hs. destruct op; cbn; try done;
    unfold SE.remove_capability, SE.remove_segment, SE.remove_adjacency, SE.remove_path;
    destruct (SE.has_key _ _ _); cbn; rewrite ?Z.add_0_r, ?wrap_small by done; done.
Qed.

Lemma set_route_none l lg s : SE.set_route_matches l s = 0 ->
  fits 64 (se_revision s) -> SE.set_route l lg s = s.
Proof.
  unfold SE.set_route, SE.set_route_matches. intros Hm Hs. rewrite Hm, Z.add_0_r.
  rewrite wrap_small by done. destruct s as [e r]. cbn in *. f_equal.
  assert (map (fun r => if ror_list r =? l then {| r with ror_list_generation := lg |} else r)
    (ev_routes e) = ev_routes e) as ->; [|by destruct e].
  induction (ev_routes e) as [|x rs IH]; cbn in *; [done|].
  destruct (ror_list x =? l); cbn in Hm.
  - rewrite size_cons in Hm.
    pose proof (size_nonneg (List.filter (fun r => ror_list r =? l) rs)). lia.
  - by rewrite IH.
Qed.

Lemma synthetic_apply_idle op s :
  fits 64 (se_revision s) -> synthetic_ticks op s = 0 -> synthetic_apply op s = s.
Proof.
  intros Hs. destruct op; cbn; try done;
    unfold SE.remove_capability, SE.remove_segment, SE.remove_adjacency, SE.remove_path;
    try (by destruct (SE.has_key _ _ _)).
  intros. by apply set_route_none.
Qed.

Lemma u64_add_u64 a b : u64 (u64 a + b) = u64 (a + b).
Proof. unfold wrap. by rewrite Zplus_mod_idemp_l. Qed.

Lemma synthetic_moves n s s' :
  fits 64 (se_revision s) -> moves n s s' ->
  0 <= n /\ se_revision s' = u64 (se_revision s + n) /\ fits 64 (se_revision s') /\
  (n = 0 -> s' = s).
Proof.
  intros Hs. induction 1 as [s|n s s' op Hm IH].
  - split_and!; [lia|by rewrite Z.add_0_r, wrap_small|done|done].
  - destruct (IH Hs) as (Hn & Hr & Hf & Hz). cbn [ev_ticks ev_apply synthetic_source].
    pose proof (synthetic_ticks_nonneg op s').
    split_and!; [lia| | |].
    + rewrite synthetic_apply_revision by done. by rewrite Hr, u64_add_u64, Z.add_assoc.
    + rewrite synthetic_apply_revision by done. apply wrap_fits. lia.
    + intros H0. rewrite synthetic_apply_idle by (done || lia). apply Hz. lia.
Qed.

Lemma synthetic_watermark_fresh n s s' :
  fits 64 (se_revision s) -> moves n s s' -> n < 2 ^ 64 ->
  SE.watermark s = SE.watermark s' -> n = 0.
Proof.
  intros Hs Hm Hn Hw. destruct (synthetic_moves _ _ _ Hs Hm) as (H0 & Hr & _ & Hz).
  apply (f_equal wm_revision) in Hw. cbn in Hw. rewrite Hr in Hw.
  destruct (decide (n = 0)) as [->|Hne]; [done|]. exfalso.
  unfold wrap, fits in *.
  destruct (decide (se_revision s + n < 2 ^ 64)).
  - rewrite Z.mod_small in Hw by lia. lia.
  - assert ((se_revision s + n) mod 2 ^ 64 = se_revision s + n - 2 ^ 64) as E.
    { symmetry. apply Z.mod_unique with 1; lia. }
    lia.
Qed.

#[global] Program Instance synthetic_laws : EvidenceSourceLaws SyntheticEvidence := {|
  ev_valid s := fits 64 (se_revision s);
|}.
Next Obligation.
  intros op s Hs. cbn. rewrite synthetic_apply_revision by done. apply wrap_fits. lia.
Qed.
Next Obligation. intros op s _. apply synthetic_ticks_nonneg. Qed.
Next Obligation. intros op s Hs H0. cbn. by rewrite synthetic_apply_idle. Qed.
Next Obligation. intros n s s'. apply synthetic_watermark_fresh. Qed.

(** C36: An unchanged watermark of the synthetic source means unchanged evidence, over
    any history of fewer than 2^64 revisions. *)
Theorem synthetic_watermark_complete n s s' :
  fits 64 (se_revision s) -> moves n s s' -> n < 2 ^ 64 ->
  SE.watermark s = SE.watermark s' -> SE.snapshot s = SE.snapshot s'.
Proof.
  intros Hs Hm Hn Hw.
  exact (snapshot_between 0 n s s s' Hs (moves_refl s) Hm Hn Hw).
Qed.
