(* ===== verification/Validation.v ===== *)
(** * Validation of a mutation request

    [include/srf/validation.hpp] and [src/validation.cpp].  A check never reads the
    result it reports into, so each [check_*] is the list of its [out.add] calls in
    program order, and [validate_request] runs them through [emit] in the order of
    the source. *)

From S2P Require Import Prelude.
From S2P Require Import Ids.
From S2P Require Import Bytes.
From S2P Require Import Digest.
From S2P Require Import Segment.
From S2P Require Import Reason.
From S2P Require Import Lifecycle.
From S2P Require Import Governance.
From S2P Require Import Authority.
From S2P Require Import Evidence.

Record ValidationRequest := {
  vr_limits : option Limits;
  vr_caller : option CallerIdentity;
  vr_authority : option AuthorityView;
  vr_list_id : SegmentListId;
  vr_scope : ScopeId;
  vr_existing : option SegmentList;
  vr_expected_generation : SegmentListGeneration;
  vr_intent : LifecycleEvent;
  vr_profile_id : SegmentProfileId;
  vr_profile_generation : SegmentProfileGeneration;
  vr_profile : option SegmentProfile;
  vr_profile_found : bool;
  vr_policy_id : SegmentPolicyId;
  vr_policy_generation : SegmentPolicyGeneration;
  vr_policy : option SegmentPolicy;
  vr_policy_found : bool;
  vr_policy_required : bool;
  vr_strictness : Strictness;
  vr_topology : TopologyGeneration;
  vr_capability : CapabilityGeneration;
  vr_path : PathId;
  vr_path_authority : PathAuthorityGeneration;
  vr_route : RouteId;
  vr_route_generation : RouteGeneration;
  vr_constraint : ConstraintEvaluationId;
  vr_constraint_generation : ConstraintGeneration;
  vr_segments : list Segment;
  vr_derived : bool;
  vr_evidence : option FabricEvidence;
  vr_full : bool;
  vr_require_absent : bool;
  vr_require_existing : bool;
}.

(** [ValidationRequest{}] *)
Definition empty_request : ValidationRequest := {|
  vr_limits := None; vr_caller := None; vr_authority := None; vr_list_id := 0;
  vr_scope := 0; vr_existing := None; vr_expected_generation := 0;
  vr_intent := EvInvalid; vr_profile_id := 0; vr_profile_generation := 0;
  vr_profile := None; vr_profile_found := false; vr_policy_id := 0;
  vr_policy_generation := 0; vr_policy := None; vr_policy_found := false;
  vr_policy_required := false; vr_strictness := Strict; vr_topology := 0;
  vr_capability := 0; vr_path := 0; vr_path_authority := 0; vr_route := 0;
  vr_route_generation := 0; vr_constraint := 0; vr_constraint_generation := 0;
  vr_segments := []; vr_derived := false; vr_evidence := None; vr_full := true;
  vr_require_absent := false; vr_require_existing := false;
|}.

(** ** Reporting *)

(** [if (b) out.add(code, index, detail);] *)
Definition report (b : bool) (code : ReasonCode) (index detail : Z) : list Reason :=
  if b then [mkReason code index detail] else [].

Definition kNoIndex : Z := 0.

(** [for (i = 0; i < n; ++i)] over a vector, and the loop over the pairs [j < i]. *)
Definition for_each {A} (f : Z -> A -> list Reason) (l : list A) : list Reason :=
  flat_map (fun i => match l !! i with Some x => f (u32 (Z.of_nat i)) x | None => [] end)
    (seq 0 (length l)).

Definition for_pairs {A} (f : nat -> nat -> A -> A -> list Reason) (l : list A)
  : list Reason :=
  flat_map (fun i =>
    flat_map (fun j =>
      match l !! j, l !! i with Some a, Some b => f j i a b | _, _ => [] end)
      (seq 0 i))
    (seq 1 (length l - 1)).

(** The index of the first element that satisfies [p]. *)
Fixpoint first_index {A} (p : A -> bool) (l : list A) : option nat :=
  match l with
  | [] => None
  | x :: l' => if p x then Some 0%nat else S <$> first_index p l'
  end.

(** ** Phases 2 and 3 *)
Definition check_caller_identity (r : ValidationRequest) : list Reason :=
  match vr_caller r with
  | None => []
  | Some caller =>
      report (negb (valid (ci_publisher caller))) CallerMissingPublisher kNoIndex 0 ++
      report (negb (valid (ci_boot caller))) CallerMissingWorkerBoot kNoIndex 0 ++
      report (negb (valid (ci_attempt caller))) CallerMissingMutationAttempt kNoIndex 0 ++
      report (negb (valid (ci_scope caller))) CallerMissingScope kNoIndex 0 ++
      match vr_authority r with
      | None => []
      | Some view =>
          match view_find (ci_publisher caller) view with
          | None => report (valid (ci_publisher caller)) CallerUnknownPublisher kNoIndex
                      (ci_publisher caller)
          | Some state =>
              report (negb (ps_boot state =? ci_boot caller)) CallerStaleWorkerBoot
                kNoIndex (ps_boot state) ++
              report (ps_fenced state || negb (ps_alive state)
                      || view_boot_fenced (ci_boot caller) view)
                CallerFencedPublisher kNoIndex (ci_boot caller) ++
              report (valid (ci_scope caller) && negb (ps_scope state =? ci_scope caller))
                CallerScopeMismatch kNoIndex (ps_scope state)
          end
      end
  end.

Definition check_epoch_boot_scope (r : ValidationRequest) : list Reason :=
  match vr_caller r with
  | None => []
  | Some caller =>
      if negb (valid (ci_epoch caller)) then [mkReason EpochInvalid kNoIndex 0]
      else
        match vr_authority r with
        | None => []
        | Some view =>
            report (negb (ci_epoch caller =? av_epoch view)) EpochStale kNoIndex
              (av_epoch view) ++
            report (Generation.exhausted (av_epoch view)) EpochExhausted kNoIndex
              (av_epoch view)
        end
  end.

(** ** Phase 4 *)
Definition check_list_lifecycle (r : ValidationRequest) : list Reason :=
  report (negb (valid (vr_list_id r))) ListIdInvalid kNoIndex 0 ++
  match vr_existing r with
  | None =>
      report (vr_require_existing r) ListNotFound kNoIndex (vr_list_id r) ++
      report (valid (vr_expected_generation r)) ListNotFound kNoIndex (vr_list_id r)
  | Some e =>
      let gen := sl_generation e in
      report (vr_require_absent r) ListAlreadyExists kNoIndex (vr_list_id r) ++
      report (negb (vr_expected_generation r =? gen)) ListGenerationConflict kNoIndex gen ++
      report (negb (valid (vr_expected_generation r))) ListGenerationInvalid kNoIndex 0 ++
      report (Generation.exhausted gen) ListGenerationExhausted kNoIndex gen ++
      if negb (allowed (lifecycle_transition (sl_state e) (vr_intent r))) then
        match sl_state e with
        | Retired => [mkReason ListRetired kNoIndex gen]
        | Revoked => [mkReason ListRevoked kNoIndex gen]
        | Superseded => [mkReason ListSuperseded kNoIndex gen]
        | Withdrawn => [mkReason ListWithdrawn kNoIndex gen]
        | _ => []
        end ++
        [mkReason LifecycleTransitionDenied kNoIndex
           (Z.lor (Z.shiftl (state_value (sl_state e)) 8) (event_value (vr_intent r)))]
      else []
  end.

Definition is_empty {A} (l : list A) : bool := match l with [] => true | _ => false end.

Definition check_list_content_lifecycle (r : ValidationRequest) : list Reason :=
  report (is_empty (vr_segments r) &&
          match vr_profile r with None => true | Some p => negb (pr_allow_empty p) end)
    ListEmptyNotPermitted kNoIndex 0.

(** The bounded scan of the profile and structural phases. *)
Definition scan (r : ValidationRequest) : list Segment :=
  match vr_limits r with
  | Some l => take (Z.to_nat (max_segments_per_list l + 1)) (vr_segments r)
  | None => vr_segments r
  end.

(** ** Phase 5 *)
Definition check_profile (r : ValidationRequest) : list Reason :=
  match vr_profile r with
  | None =>
      if valid (vr_profile_id r)
      then [mkReason ProfileUnknown kNoIndex (vr_profile_id r)]
      else [mkReason ProfileIdInvalid kNoIndex 0]
  | Some p =>
      if negb (vr_profile_found r) then [mkReason ProfileUnknown kNoIndex (vr_profile_id r)]
      else
        report (negb (pr_id p =? vr_profile_id r)) ProfileUnknown kNoIndex
          (vr_profile_id r) ++
        report (negb (valid (pr_generation p))) ProfileGenerationInvalid kNoIndex 0 ++
        report (valid (vr_profile_generation r)
                && negb (vr_profile_generation r =? pr_generation p))
          ProfileGenerationMismatch kNoIndex (pr_generation p) ++
        report (negb (pr_allow_empty p) && is_empty (vr_segments r))
          ProfileEmptyNotPermitted kNoIndex 0 ++
        report (strictness_eqb (vr_strictness r) Loose && negb (pr_allow_loose p))
          ProfileStrictnessUnsupported kNoIndex 0 ++
        report (pr_max_depth p <? size (vr_segments r)) ProfileMaxDepthExceeded kNoIndex
          (pr_max_depth p) ++
        for_each (fun index s =>
          report (negb (allows_kind p (seg_kind s))) ProfileKindNotAllowed index
            (kind_value (seg_kind s)) ++
          report (encoding_eqb (expected_encoding_for (seg_kind s)) EInvalid)
            ProfileKindMismatch index (kind_value (seg_kind s)) ++
          report (pr_payload_width p <? size (seg_payload s)) ProfilePayloadWidthExceeded
            index (pr_payload_width p)) (scan r) ++
        if negb (pr_allow_consecutive_repeats p) || negb (pr_allow_nonconsecutive_repeats p)
        then
          for_pairs (fun j i a b =>
            if negb (segment_semantic_equal a b (pr_payload_width p)) then []
            else
              let consecutive := Nat.eqb (j + 1) i in
              report (consecutive && negb (pr_allow_consecutive_repeats p))
                ProfileRepeatNotPermitted (u32 (Z.of_nat i)) (seg_id b) ++
              report (negb consecutive && negb (pr_allow_nonconsecutive_repeats p))
                ProfileRepeatNotPermitted (u32 (Z.of_nat i)) (seg_id b)) (scan r)
        else []
  end.

(** ** Phase 6 *)
Definition check_policy (r : ValidationRequest) : list Reason :=
  match vr_policy r with
  | None =>
      if vr_policy_required r then
        if valid (vr_policy_id r)
        then [mkReason PolicyUnknown kNoIndex (vr_policy_id r)]
        else [mkReason PolicyIdInvalid kNoIndex 0]
      else []
  | Some p =>
      if negb (vr_policy_found r) then [mkReason PolicyUnknown kNoIndex (vr_policy_id r)]
      else
        report (negb (valid (po_generation p))) PolicyGenerationInvalid kNoIndex 0 ++
        report (valid (vr_policy_generation r)
                && negb (vr_policy_generation r =? po_generation p))
          PolicyGenerationMismatch kNoIndex (po_generation p) ++
        report (valid (po_owner_scope p) && negb (po_owner_scope p =? vr_scope r))
          PolicyOwnershipMismatch kNoIndex (po_owner_scope p) ++
        report (negb (is_empty (po_allowed_profiles p))
                && negb (zmem (vr_profile_id r) (po_allowed_profiles p)))
          PolicyDeniedProfile kNoIndex (vr_profile_id r) ++
        report (negb (po_max_depth p =? 0) && (po_max_depth p <? size (vr_segments r)))
          PolicyMaxDepthExceeded kNoIndex (po_max_depth p) ++
        report (match vr_existing r with Some _ => true | None => false end
                && negb (po_allow_replacement p)) PolicyReplacementDenied kNoIndex 0 ++
        report (vr_derived r && negb (po_allow_derivation p)) PolicyDerivationDenied
          kNoIndex 0 ++
        report (po_require_strict p && negb (strictness_eqb (vr_strictness r) Strict))
          PolicyStrictnessRequired kNoIndex 0 ++
        flat_map (fun required =>
          report (negb (existsb (fun s => seg_id s =? required) (vr_segments r)))
            PolicyRequiredEntityMissing kNoIndex required) (po_required_segments p) ++
        flat_map (fun forbidden =>
          match first_index (fun s => seg_id s =? forbidden) (vr_segments r) with
          | Some i => [mkReason PolicyForbiddenEntityPresent (u32 (Z.of_nat i)) forbidden]
          | None => []
          end) (po_forbidden_segments p) ++
        if negb (po_allowed_kinds_mask p =? 0) then
          for_each (fun index s =>
            if kind_eqb (seg_kind s) KInvalid then []
            else report (Z.land (po_allowed_kinds_mask p) (kind_bit (seg_kind s)) =? 0)
                   PolicyDeniedSegmentKind index (kind_value (seg_kind s)))
            (vr_segments r)
        else []
  end.

(** ** Phase 7 *)

(** The required references of a kind are present. *)
Definition binding_complete (s : Segment) : bool :=
  match seg_kind s with
  | KNode => valid (seg_node s)
  | KAdjacency => valid (seg_adjacency s) && valid (seg_topology s)
  | KEndpoint => valid (seg_endpoint s)
  | KBinding => valid (seg_binding s)
  | KPolicy => valid (seg_policy s) && valid (seg_policy_generation s)
  | KInvalid => true
  end.

(** Some reference that is reserved for the kind is set. *)
Definition reserved_field_set (s : Segment) : bool :=
  let has_node := valid (seg_node s) in
  let has_adjacency := valid (seg_adjacency s) in
  let has_endpoint := valid (seg_endpoint s) in
  let has_binding := valid (seg_binding s) in
  let has_policy := valid (seg_policy s) in
  let has_topology := valid (seg_topology s) in
  let has_policy_generation := valid (seg_policy_generation s) in
  match seg_kind s with
  | KNode => has_adjacency || has_endpoint || has_binding || has_policy || has_topology
             || has_policy_generation
  | KAdjacency => has_node || has_endpoint || has_binding || has_policy
                  || has_policy_generation
  | KEndpoint => has_node || has_adjacency || has_binding || has_policy || has_topology
                 || has_policy_generation
  | KBinding => has_node || has_adjacency || has_endpoint || has_policy || has_topology
                || has_policy_generation
  | KPolicy => has_node || has_adjacency || has_endpoint || has_binding || has_topology
  | KInvalid => false
  end.

Definition missing_binding (s : Segment) : bool :=
  negb (valid (seg_node s)) && negb (valid (seg_adjacency s)) &&
  negb (valid (seg_endpoint s)) && negb (valid (seg_binding s)) &&
  negb (valid (seg_policy s)) && negb (kind_eqb (seg_kind s) KInvalid).

Definition is_none {A} (o : option A) : bool := match o with None => true | _ => false end.

Definition check_segment_evidence (e : FabricEvidence) (index : Z) (s : Segment)
  : list Reason :=
  match find_segment e (seg_id s) with
  | None => [mkReason SegmentEntityUnknown index (seg_id s)]
  | Some record =>
      report (negb (kind_eqb (sr_kind record) (seg_kind s))) SegmentEntityKindMismatch
        index (kind_value (sr_kind record)) ++
      report (negb (sr_generation record =? seg_generation s))
        SegmentEntityGenerationMismatch index (sr_generation record)
  end ++
  match seg_kind s with
  | KNode => report (valid (seg_node s) && is_none (find_node e (seg_node s)))
               SegmentEntityUnknown index (seg_node s)
  | KEndpoint => report (valid (seg_endpoint s) && is_none (find_endpoint e (seg_endpoint s)))
                   SegmentEntityUnknown index (seg_endpoint s)
  | KBinding => report (valid (seg_binding s) && is_none (find_binding e (seg_binding s)))
                  SegmentEntityUnknown index (seg_binding s)
  | _ => []
  end.

Definition check_segment (evidence : option FabricEvidence) (index : Z) (s : Segment)
  : list Reason :=
  if kind_eqb (seg_kind s) KInvalid then [mkReason SegmentKindInvalid index 0]
  else
    report (negb (valid (seg_id s))) SegmentIdInvalid index 0 ++
    report (negb (valid (seg_generation s))) SegmentGenerationInvalid index 0 ++
    report (negb (encoding_eqb (seg_encoding s) EInvalid)
            && negb (encoding_eqb (seg_encoding s) (expected_encoding_for (seg_kind s))))
      SegmentEncodingMismatch index (encoding_value (seg_encoding s)) ++
    report (negb (binding_complete s)) SegmentBindingIncomplete index 0 ++
    report (reserved_field_set s) SegmentReservedFieldSet index 0 ++
    report (missing_binding s) SegmentMissingBinding index 0 ++
    match evidence with
    | None => []
    | Some e => check_segment_evidence e index s
    end.

Definition check_structural (r : ValidationRequest) (payload_width : Z) : list Reason :=
  let forbid_consecutive :=
    match vr_profile r with None => true | Some p => negb (pr_allow_consecutive_repeats p) end in
  let forbid_nonconsecutive :=
    match vr_profile r with None => true | Some p => negb (pr_allow_nonconsecutive_repeats p) end in
  for_each (check_segment (vr_evidence r)) (scan r) ++
  for_pairs (fun j i a b =>
    if negb (segment_semantic_equal a b payload_width) then []
    else if Nat.eqb (j + 1) i then
      report forbid_consecutive SegmentDuplicateConsecutive (u32 (Z.of_nat i)) (seg_id b)
    else
      report forbid_nonconsecutive SegmentDuplicateNonConsecutive (u32 (Z.of_nat i))
        (seg_id b)) (scan r).

(** ** Phases 8 to 13 *)
Definition check_capability (r : ValidationRequest) : list Reason :=
  match vr_profile r with
  | None => []
  | Some p =>
      match vr_evidence r with
      | None => report (negb (is_empty (pr_required_capabilities p)))
                  CapabilityEvidenceUnavailable kNoIndex 0
      | Some e =>
          report (valid (vr_capability r) && negb (vr_capability r =? ev_capability e))
            CapabilityGenerationMismatch kNoIndex (ev_capability e) ++
          flat_map (fun key =>
            if negb (valid key) then [mkReason CapabilityKeyInvalid kNoIndex 0]
            else
              match find_capability e key with
              | None => [mkReason CapabilityMissing kNoIndex key]
              | Some record =>
                  report (negb (cap_supported record)) CapabilityUnsupported kNoIndex key ++
                  report (negb (cap_generation record =? ev_capability e))
                    CapabilityGenerationMismatch kNoIndex (cap_generation record)
              end) (pr_required_capabilities p)
      end
  end.

Definition check_topology (r : ValidationRequest) : list Reason :=
  match vr_evidence r with
  | None =>
      report (existsb (fun s => kind_eqb (seg_kind s) KAdjacency) (vr_segments r))
        TopologyEvidenceUnavailable kNoIndex 0
  | Some e =>
      report (valid (vr_topology r) && negb (valid (ev_topology e)))
        TopologyGenerationInvalid kNoIndex 0 ++
      report (valid (vr_topology r) && valid (ev_topology e)
              && negb (vr_topology r =? ev_topology e))
        TopologyGenerationMismatch kNoIndex (ev_topology e) ++
      for_each (fun index s =>
        if negb (kind_eqb (seg_kind s) KAdjacency) then []
        else
          match find_adjacency e (seg_adjacency s) with
          | None => [mkReason TopologyAdjacencyUnknown index (seg_adjacency s)]
          | Some record =>
              report (negb (ar_topology record =? seg_topology s)) TopologyAdjacencyStale
                index (ar_topology record)
          end) (vr_segments r)
  end.

Definition check_path_authority (r : ValidationRequest) : list Reason :=
  if negb (valid (vr_path r)) then
    report (valid (vr_path_authority r)) PathBindingMissing kNoIndex (vr_path_authority r)
  else
    report (negb (valid (vr_path_authority r))) PathAuthorityGenerationInvalid kNoIndex
      (vr_path r) ++
    match vr_evidence r with
    | None => []
    | Some e =>
        match find_path e (vr_path r) with
        | None => [mkReason PathUnknown kNoIndex (vr_path r)]
        | Some record =>
            report (negb (par_authority record =? vr_path_authority r))
              PathAuthorityGenerationStale kNoIndex (par_authority record) ++
            report (valid (par_scope record) && valid (vr_scope r)
                    && negb (par_scope record =? vr_scope r))
              PathBelongsToOtherScope kNoIndex (par_scope record)
        end
    end.

Definition check_route_binding (r : ValidationRequest) : list Reason :=
  if negb (valid (vr_route r)) then []
  else
    report (negb (valid (vr_route_generation r))) RouteBindingInvalid kNoIndex (vr_route r) ++
    match vr_evidence r with
    | None => []
    | Some e =>
        match find_route e (vr_route r) with
        | None => [mkReason RouteBindingUnknown kNoIndex (vr_route r)]
        | Some record =>
            report (negb (ror_generation record =? vr_route_generation r))
              RouteBindingGenerationStale kNoIndex (ror_generation record) ++
            report (valid (ror_list record) && negb (ror_list record =? vr_list_id r))
              RouteBindingInvalid kNoIndex (ror_list record)
        end
    end.

Definition check_constraint_binding (r : ValidationRequest) : list Reason :=
  if negb (valid (vr_constraint r)) then []
  else
    report (negb (valid (vr_constraint_generation r))) ConstraintBindingInvalid kNoIndex
      (vr_constraint r) ++
    match vr_evidence r with
    | None => []
    | Some e =>
        match find_constraint e (vr_constraint r) with
        | None => [mkReason ConstraintBindingUnknown kNoIndex (vr_constraint r)]
        | Some record =>
            report (negb (cor_generation record =? vr_constraint_generation r))
              ConstraintBindingGenerationStale kNoIndex (cor_generation record)
        end
    end.

Definition check_resource_limits (r : ValidationRequest) : list Reason :=
  match vr_limits r with
  | None => []
  | Some l =>
      report (max_segments_per_list l <? size (vr_segments r)) LimitMaxSegmentsPerList
        kNoIndex (max_segments_per_list l) ++
      for_each (fun index s =>
        report (max_segment_payload_bytes l <? size (seg_payload s))
          LimitMaxSegmentPayloadBytes index (max_segment_payload_bytes l))
        (vr_segments r)
  end.

(** ** Whole requests *)
Definition request_width (r : ValidationRequest) : Z :=
  match vr_profile r with Some p => pr_payload_width p | None => 0 end.

(** The checks in the order [validate_request] runs them. *)
Definition mutation_checks (r : ValidationRequest) : list (list Reason) :=
  [check_caller_identity r; check_epoch_boot_scope r; check_list_lifecycle r].

Definition content_checks (r : ValidationRequest) : list (list Reason) :=
  [check_list_content_lifecycle r; check_profile r; check_policy r;
   check_structural r (request_width r); check_capability r; check_topology r;
   check_path_authority r; check_route_binding r; check_constraint_binding r;
   check_resource_limits r].

Definition request_checks (r : ValidationRequest) : list (list Reason) :=
  mutation_checks r ++ if vr_full r then content_checks r else [].

Definition run_checks (checks : list (list Reason)) (out : ValidationResult)
  : ValidationResult :=
  fold_left (fun o c => emit c o) checks out.

Definition validate_request (r : ValidationRequest) : ValidationResult :=
  run_checks (request_checks r) (set_limits (vr_limits r) empty_result).

Definition sequence_request (limits : option Limits) (profile : option SegmentProfile)
    (segments : list Segment) (evidence : option FabricEvidence)
    (topology : TopologyGeneration) : ValidationRequest :=
  {| empty_request with
     vr_limits := limits; vr_profile := profile;
     vr_profile_found := negb (is_none profile);
     vr_profile_id := match profile with Some p => pr_id p | None => 0 end;
     vr_segments := segments; vr_evidence := evidence; vr_topology := topology |}.

Definition validate_segment_sequence (limits : option Limits)
    (profile : option SegmentProfile) (segments : list Segment)
    (evidence : option FabricEvidence) (topology : TopologyGeneration)
  : ValidationResult :=
  let r := sequence_request limits profile segments evidence topology in
  run_checks
    [check_list_content_lifecycle r; check_profile r;
     check_structural r (request_width r); check_capability r; check_topology r;
     check_resource_limits r]
    (set_limits limits empty_result).

(** ** [evaluate_currentness] *)
Definition evaluate_currentness (l : SegmentList) (profile : option SegmentProfile)
    (policy : option SegmentPolicy) (w : EvidenceWatermark) (epoch : CoordinatorEpoch)
  : Currentness :=
  let c := sl_content l in
  if state_eqb (sl_state l) Retired || state_eqb (sl_state l) Withdrawn ||
     state_eqb (sl_state l) Superseded || state_eqb (sl_state l) Revoked then CUnknown
  else if valid epoch && valid (au_epoch (sl_authority l))
          && negb (epoch =? au_epoch (sl_authority l)) then StaleEpoch
  else match profile with
  | None => StaleProfile
  | Some p =>
  if negb (pr_generation p =? c_profile_generation c) then StaleProfile
  else if valid (c_policy c) && match policy with
          | None => true | Some q => negb (po_generation q =? c_policy_generation c) end
  then StalePolicy
  else if valid (c_capability c) && valid (wm_capability w)
          && negb (c_capability c =? wm_capability w) then StaleCapability
  else if valid (c_topology c) && valid (wm_topology w)
          && negb (c_topology c =? wm_topology w) then StaleTopology
  else if valid (c_path c) && valid (c_path_authority c) && valid (wm_path_authority w)
          && negb (c_path_authority c =? wm_path_authority w) then StalePathAuthority
  else if valid (c_route c) && valid (c_route_generation c) && valid (wm_route w)
          && negb (c_route_generation c =? wm_route w) then StaleRouteBinding
  else if valid (c_constraint c) && valid (c_constraint_generation c)
          && valid (wm_constraint w)
          && negb (c_constraint_generation c =? wm_constraint w)
  then StaleConstraintBinding
  else if state_eqb (sl_state l) RevalidationRequired then CRevalidationRequired
  else if state_eqb (sl_state l) Active then Current
  else CUnknown
  end.
