(* ===== verification/ValidationProps.v ===== *)
(** * Correctness of validation

    The phases of [Validation.v] against a declarative statement of what an
    admissible request is, the fixed precedence of the phases under truncation, and
    the specification of [evaluate_currentness]. *)

From S2P Require Import Prelude.
From S2P Require Import Ids.
From S2P Require Import Bytes.
From S2P Require Import Segment.
From S2P Require Import Reason.
From S2P Require Import Lifecycle.
From S2P Require Import Governance.
From S2P Require Import Authority.
From S2P Require Import Evidence.
From S2P Require Import Validation.

(** ** Reports *)

Lemma report_nil b c i d : report b c i d = [] <-> b = false.
Proof. unfold report. destruct b; naive_solver. Qed.

Lemma cons_not_nil {A} (x : A) l : x :: l = [] <-> False.
Proof. done. Qed.

Lemma flat_map_nil {A B} (f : A -> list B) l :
  flat_map f l = [] <-> Forall (fun x => f x = []) l.
Proof.
  induction l as [|x l IH]; cbn; [done|].
  by rewrite app_nil, IH, list.Forall_cons.
Qed.

Lemma flat_map_seq_nil {B} (f : nat -> list B) n m :
  flat_map f (seq n m) = [] <-> forall i, (n <= i < n + m)%nat -> f i = [].
Proof.
  rewrite flat_map_nil, list.Forall_forall. setoid_rewrite elem_of_seq. done.
Qed.

Lemma for_each_nil {A} (f : Z -> A -> list Reason) l :
  for_each f l = [] <-> forall i x, l !! i = Some x -> f (u32 (Z.of_nat i)) x = [].
Proof.
  unfold for_each. rewrite flat_map_seq_nil. split.
  - intros H i x Hx. specialize (H i). rewrite Hx in H. apply H.
    apply lookup_lt_Some in Hx. lia.
  - intros H i Hi. destruct (l !! i) eqn:E; [by apply H|done].
Qed.

(** When emptiness does not depend on the index, it is a condition on each element. *)
Lemma for_each_Forall {A} (f : Z -> A -> list Reason) (P : A -> Prop) l :
  (forall i x, f i x = [] <-> P x) -> for_each f l = [] <-> Forall P l.
Proof.
  intros Hf. rewrite for_each_nil, Forall_lookup. by setoid_rewrite Hf.
Qed.

Lemma for_pairs_nil {A} (f : nat -> nat -> A -> A -> list Reason) l :
  for_pairs f l = [] <->
  forall j i a b, (j < i)%nat -> l !! j = Some a -> l !! i = Some b -> f j i a b = [].
Proof.
  unfold for_pairs. rewrite flat_map_seq_nil. split.
  - intros H j i a b Hji Ha Hb. specialize (H i).
    rewrite flat_map_seq_nil in H. pose proof (lookup_lt_Some _ _ _ Hb).
    specialize (H ltac:(lia) j ltac:(lia)). by rewrite Ha, Hb in H.
  - intros H i Hi. apply flat_map_seq_nil. intros j Hj.
    destruct (l !! j) eqn:Ea, (l !! i) eqn:Eb; try done. apply (H j i); [lia|done..].
Qed.

Lemma is_empty_true {A} (l : list A) : is_empty l = true <-> l = [].
Proof. by destruct l. Qed.
Lemma is_empty_false {A} (l : list A) : is_empty l = false <-> l <> [].
Proof. by destruct l. Qed.
Lemma is_none_false {A} (o : option A) : is_none o = false <-> is_Some o.
Proof. destruct o; cbn; [split; [by eexists|done]|]. by split; [|intros []]. Qed.

(** ** The phase of every report *)

Definition in_phase (p : ValidationPhase) (rs : list Reason) : Prop :=
  Forall (fun r => phase_of (r_code r) = p) rs.

Lemma in_phase_report p b c i d : phase_of c = p -> in_phase p (report b c i d).
Proof. intros. unfold report. destruct b; repeat constructor. done. Qed.

Lemma in_phase_app p rs rs' : in_phase p rs -> in_phase p rs' -> in_phase p (rs ++ rs').
Proof. intros. by apply Forall_app. Qed.

Lemma in_phase_flat_map {A} p (f : A -> list Reason) l :
  (forall x, in_phase p (f x)) -> in_phase p (flat_map f l).
Proof. intros Hf. induction l; cbn; [constructor|by apply in_phase_app]. Qed.

Lemma in_phase_for_each {A} p (f : Z -> A -> list Reason) l :
  (forall i x, in_phase p (f i x)) -> in_phase p (for_each f l).
Proof. intros Hf. apply in_phase_flat_map. intros i. case_match; [done|constructor]. Qed.

Lemma in_phase_for_pairs {A} p (f : nat -> nat -> A -> A -> list Reason) l :
  (forall j i a b, in_phase p (f j i a b)) -> in_phase p (for_pairs f l).
Proof.
  intros Hf. do 2 (apply in_phase_flat_map; intros ?). repeat case_match; done || constructor.
Qed.

(** Decide the phase of a check by following its shape. *)
Ltac phase_of_check :=
  repeat first
    [ progress cbv zeta
    | apply in_phase_app
    | apply in_phase_report; vm_compute; reflexivity
    | apply in_phase_for_each; intros ? ?
    | apply in_phase_for_pairs; intros ? ? ? ?
    | apply in_phase_flat_map; intros ?
    | match goal with
      | |- in_phase _ [] => apply list.Forall_nil_2
      | |- in_phase _ (_ :: _) => apply list.Forall_cons; split
      | |- phase_of _ = _ => vm_compute; reflexivity
      | |- in_phase _ (match ?x with _ => _ end) => destruct x
      | |- in_phase _ (check_segment _ _ _) => unfold check_segment
      | |- in_phase _ (check_segment_evidence _ _ _) => unfold check_segment_evidence
      | |- Forall _ [] => apply list.Forall_nil_2
      end ].

(** The checks of [validate_request] with the phase each reports under. *)
Definition phased_checks (r : ValidationRequest) : list (ValidationPhase * list Reason) :=
  [(PhCallerIdentity, check_caller_identity r);
   (PhEpochBootScope, check_epoch_boot_scope r);
   (PhListLifecycleGeneration, check_list_lifecycle r)] ++
  if vr_full r then
    [(PhListLifecycleGeneration, check_list_content_lifecycle r); (PhProfile, check_profile r);
     (PhPolicy, check_policy r); (PhStructuralSegment, check_structural r (request_width r));
     (PhCapabilityEvidence, check_capability r); (PhTopologyEvidence, check_topology r);
     (PhPathAuthority, check_path_authority r); (PhRouteBinding, check_route_binding r);
     (PhConstraintBinding, check_constraint_binding r);
     (PhResourceLimits, check_resource_limits r)]
  else [].

Lemma phased_checks_snd r : map snd (phased_checks r) = request_checks r.
Proof. unfold phased_checks, request_checks. by destruct (vr_full r). Qed.

Lemma phased_checks_phase r :
  Forall (fun pc => in_phase pc.1 pc.2) (phased_checks r).
Proof.
  unfold phased_checks. destruct (vr_full r); cbn [app];
    repeat apply list.Forall_cons_2; try apply list.Forall_nil_2; cbn [fst snd].
  all: unfold check_caller_identity, check_epoch_boot_scope, check_list_lifecycle,
    check_list_content_lifecycle, check_profile, check_policy, check_structural,
    check_capability, check_topology, check_path_authority, check_route_binding,
    check_constraint_binding, check_resource_limits; phase_of_check.
Qed.

(** ** Precedence *)

Lemma run_checks_emit cs o : run_checks cs o = emit (concat cs) o.
Proof.
  unfold run_checks. revert o. induction cs as [|c cs IH]; intros o; cbn; [done|].
  by rewrite IH, emit_app.
Qed.

Lemma phase_value_inj p q : phase_value p = phase_value q -> p = q.
Proof. destruct p, q; cbn; congruence. Qed.

Lemma in_phase_no_ok p rs : p <> PhOk -> in_phase p rs -> no_ok rs.
Proof.
  intros Hp H. eapply list.Forall_impl; [exact H|]. intros r <- Hr. cbn in Hp.
  by rewrite Hr in Hp.
Qed.

(** The phase of the first check that reports anything. *)
Fixpoint first_failing (pcs : list (ValidationPhase * list Reason)) : ValidationPhase :=
  match pcs with
  | [] => PhOk
  | (p, []) :: pcs' => first_failing pcs'
  | (p, _ :: _) :: _ => p
  end.

Definition phases_ascend (pcs : list (ValidationPhase * list Reason)) : Prop :=
  StronglySorted (fun a b => phase_value a.1 <= phase_value b.1) pcs /\
  Forall (fun pc => 0 < phase_value pc.1 <= phase_value PhResourceLimits /\
                    in_phase pc.1 pc.2) pcs.

Lemma in_phase_at_least p q rs :
  in_phase q rs -> phase_value p <= phase_value q ->
  Forall (fun x => phase_value p <= reason_phase x) rs.
Proof.
  intros H Hpq. eapply list.Forall_impl; [exact H|]. intros x Hx. cbn in Hx.
  unfold reason_phase. by rewrite Hx.
Qed.

Lemma emit_first_failing pcs o :
  2 <= reason_cap o -> reasons o = [] -> phases_ascend pcs ->
  primary_phase (emit (concat (map snd pcs)) o) = first_failing pcs.
Proof.
  intros Hcap Ho [Hs Hp]. induction pcs as [|[p [|x rs]] pcs IH].
  - cbn. unfold primary_phase. by rewrite Ho.
  - cbn. apply IH; [by apply StronglySorted_inv in Hs as [? _]|by inversion Hp].
  - cbn [map concat snd first_failing app]. apply phase_value_inj.
    apply list.Forall_cons in Hp as [[Hb Hph] Hp]. cbn [fst snd] in *.
    pose proof Hph as Hph'. apply list.Forall_cons in Hph' as [Hx Hrs].
    assert (reason_phase x = phase_value p) as Hpx by (unfold reason_phase; by rewrite Hx).
    rewrite <-Hpx. apply emit_primary_phase; [done|done| |lia|].
    + intros Hok. rewrite Hok in Hx. change (phase_of ReasonOk) with PhOk in Hx.
      subst p. cbn in Hb. lia.
    + rewrite Hpx. apply Forall_app. split; [by apply (in_phase_at_least p p)|].
      apply StronglySorted_inv in Hs as [_ Hs]. clear -Hs Hp.
      induction pcs as [|[q c] pcs IH]; cbn; [apply list.Forall_nil_2|].
      apply list.Forall_cons in Hs as [Hq Hs]. apply list.Forall_cons in Hp as [[_ Hc] Hp].
      apply Forall_app. split; [by apply (in_phase_at_least p q)|by apply IH].
Qed.

Lemma phased_checks_ascend r : phases_ascend (phased_checks r).
Proof.
  split.
  - unfold phased_checks. destruct (vr_full r); cbn [app];
      repeat (apply SSorted_cons || apply SSorted_nil || apply list.Forall_cons_2
              || apply list.Forall_nil_2); cbn; lia.
  - pose proof (phased_checks_phase r) as H. revert H. unfold phased_checks.
    destruct (vr_full r); cbn [app]; intros H;
      repeat (apply list.Forall_cons in H as [? H]);
      repeat (apply list.Forall_cons_2 || apply list.Forall_nil_2); cbn [fst snd] in *;
      split; try done; cbn; lia.
Qed.

Lemma validate_request_emit r :
  validate_request r =
  emit (concat (map snd (phased_checks r))) (set_limits (vr_limits r) empty_result).
Proof. unfold validate_request. by rewrite run_checks_emit, phased_checks_snd. Qed.

Lemma validate_request_no_ok r : no_ok (reasons (validate_request r)).
Proof. rewrite validate_request_emit. apply emit_no_ok. constructor. Qed.

(** The number of reasons a request may report. *)
Definition request_cap (r : ValidationRequest) : Z :=
  reason_cap (set_limits (vr_limits r) empty_result).

(** C35: Precedence of the phases.  When at least two reasons may be reported, the primary
    phase of the result is the first phase, in the documented order, one of whose checks
    fails, whatever later phases report; it is no phase at all when no check fails. *)
Theorem validate_request_precedence r :
  2 <= request_cap r ->
  primary_phase (validate_request r) = first_failing (phased_checks r).
Proof.
  intros. rewrite validate_request_emit. apply emit_first_failing; [done|done|].
  apply phased_checks_ascend.
Qed.

Lemma phased_checks_no_ok r : no_ok (concat (map snd (phased_checks r))).
Proof.
  pose proof (phased_checks_ascend r) as [_ H]. unfold no_ok.
  induction H as [|[p c] pcs [Hb Hp] H IH]; cbn; [apply list.Forall_nil_2|].
  apply Forall_app. split; [|done]. apply (in_phase_no_ok p); [|done].
  intros ->. cbn in Hb. lia.
Qed.

(** With room for one reason, a request is admitted exactly when no check reports. *)
Lemma validate_request_silent r :
  0 < request_cap r ->
  result_ok (validate_request r) = true <-> Forall (fun c => c = []) (request_checks r).
Proof.
  intros Hcap. rewrite validate_request_emit.
  rewrite emit_result_ok; [|done|apply phased_checks_no_ok].
  rewrite phased_checks_snd, concat_nil_Forall. naive_solver.
Qed.

(** ** Admissible requests *)

(** A condition on the value of an option, when there is one. *)
Definition given {A} (o : option A) (P : A -> Prop) : Prop :=
  match o with Some x => P x | None => True end.

Create HintDb reports.
#[export] Hint Rewrite @report_nil @app_nil @cons_not_nil @flat_map_nil
  @negb_false_iff @negb_true_iff @andb_false_iff @orb_false_iff
  @Z.eqb_eq @Z.eqb_neq @Z.ltb_ge @is_empty_true @is_empty_false @is_none_false
  @zmem_spec valid_true valid_false : reports.

(** Turn "the check reports nothing" into a proposition. *)
Ltac silent := autorewrite with reports.

Lemma kind_eqb_false a b : kind_eqb a b = false <-> a <> b.
Proof. rewrite <-not_true_iff_false, kind_eqb_eq. done. Qed.

Lemma encoding_eqb_false a b : encoding_eqb a b = false <-> a <> b.
Proof. rewrite <-not_true_iff_false, encoding_eqb_eq. done. Qed.

#[export] Hint Rewrite kind_eqb_eq kind_eqb_false encoding_eqb_eq encoding_eqb_false
  strictness_eqb_eq : reports.

(** The caller is a live publisher on its own boot, in its own scope. *)
Definition caller_admissible (r : ValidationRequest) : Prop :=
  given (vr_caller r) (fun caller =>
    ci_publisher caller <> 0 /\ ci_boot caller <> 0 /\ ci_attempt caller <> 0 /\
    ci_scope caller <> 0 /\
    given (vr_authority r) (fun view => exists st,
      view_find (ci_publisher caller) view = Some st /\ ps_boot st = ci_boot caller /\
      ps_alive st = true /\ ps_fenced st = false /\
      view_boot_fenced (ci_boot caller) view = false /\ ps_scope st = ci_scope caller)).

Definition epoch_admissible (r : ValidationRequest) : Prop :=
  given (vr_caller r) (fun caller =>
    ci_epoch caller <> 0 /\
    given (vr_authority r) (fun view =>
      ci_epoch caller = av_epoch view /\ av_epoch view <> Generation.max_value)).

(** The mutation names the current generation of a list whose state permits it. *)
Definition lifecycle_admissible (r : ValidationRequest) : Prop :=
  vr_list_id r <> 0 /\
  match vr_existing r with
  | None => vr_require_existing r = false /\ vr_expected_generation r = 0
  | Some e =>
      vr_require_absent r = false /\ vr_expected_generation r = sl_generation e /\
      sl_generation e <> 0 /\ sl_generation e <> Generation.max_value /\
      allowed (lifecycle_transition (sl_state e) (vr_intent r)) = true
  end.

Lemma caller_silent r : check_caller_identity r = [] <-> caller_admissible r.
Proof.
  unfold check_caller_identity, caller_admissible, given.
  destruct (vr_caller r) as [c|]; [|done]. silent.
  destruct (vr_authority r) as [view|]; [|tauto].
  destruct (view_find _ view) as [st|]; silent.
  - split.
    + intros H. split_and!; try tauto. exists st. intuition congruence.
    + intros (? & ? & ? & ? & st' & [= <-] & H). intuition congruence.
  - split; [tauto|]. by intros (? & ? & ? & ? & st' & ? & _).
Qed.

Lemma epoch_silent r : check_epoch_boot_scope r = [] <-> epoch_admissible r.
Proof.
  unfold check_epoch_boot_scope, epoch_admissible, given, Generation.exhausted.
  destruct (vr_caller r) as [c|]; [|done].
  destruct (valid (ci_epoch c)) eqn:Hv; cbn [negb].
  - apply valid_true in Hv. destruct (vr_authority r); silent; tauto.
  - apply valid_false in Hv. naive_solver.
Qed.

Lemma lifecycle_silent r : check_list_lifecycle r = [] <-> lifecycle_admissible r.
Proof.
  unfold check_list_lifecycle, lifecycle_admissible, Generation.exhausted.
  destruct (vr_existing r) as [e|]; silent; [|tauto].
  destruct (allowed _); cbn [negb]; silent; intuition congruence.
Qed.

Definition content_admissible (r : ValidationRequest) : Prop :=
  vr_segments r = [] -> exists p, vr_profile r = Some p /\ pr_allow_empty p = true.

Lemma content_silent r : check_list_content_lifecycle r = [] <-> content_admissible r.
Proof.
  unfold check_list_content_lifecycle, content_admissible. silent.
  destruct (vr_segments r); [|intuition congruence].
  destruct (vr_profile r) as [p|]; silent.
  - split; [intros [|]; [done|by exists p]|]. intros H. right.
    destruct (H eq_refl) as (? & [= <-] & ?). done.
  - split; [intuition congruence|]. intros H. by destruct (H eq_refl) as (? & ? & _).
Qed.

(** A repeat is a later segment with the semantics of an earlier one; adjacent and
    distant repeats are permitted separately. *)
Definition repeats_permitted (w : Z) (consecutive nonconsecutive : bool)
    (ss : list Segment) : Prop :=
  forall j i a b, (j < i)%nat -> ss !! j = Some a -> ss !! i = Some b ->
    segment_semantic_equal a b w = true ->
    if Nat.eqb (j + 1) i then consecutive = true else nonconsecutive = true.

Definition segment_in_profile (p : SegmentProfile) (s : Segment) : Prop :=
  allows_kind p (seg_kind s) = true /\ size (seg_payload s) <= pr_payload_width p.

Definition profile_admissible (r : ValidationRequest) (ss : list Segment) : Prop :=
  exists p, vr_profile r = Some p /\ vr_profile_found r = true /\
    pr_id p = vr_profile_id r /\ pr_generation p <> 0 /\
    (vr_profile_generation r = 0 \/ vr_profile_generation r = pr_generation p) /\
    (vr_segments r = [] -> pr_allow_empty p = true) /\
    (vr_strictness r = Loose -> pr_allow_loose p = true) /\
    size (vr_segments r) <= pr_max_depth p /\
    Forall (segment_in_profile p) ss /\
    repeats_permitted (pr_payload_width p) (pr_allow_consecutive_repeats p)
      (pr_allow_nonconsecutive_repeats p) ss.

Lemma allows_kind_encoding p k :
  allows_kind p k = true -> expected_encoding_for k <> EInvalid.
Proof. by destruct k. Qed.

Lemma segment_in_profile_silent p (i : Z) s :
  report (negb (allows_kind p (seg_kind s))) ProfileKindNotAllowed i
    (kind_value (seg_kind s)) ++
  report (encoding_eqb (expected_encoding_for (seg_kind s)) EInvalid)
    ProfileKindMismatch i (kind_value (seg_kind s)) ++
  report (pr_payload_width p <? size (seg_payload s)) ProfilePayloadWidthExceeded i
    (pr_payload_width p) = [] <-> segment_in_profile p s.
Proof.
  silent. unfold segment_in_profile. pose proof (allows_kind_encoding p (seg_kind s)). tauto.
Qed.

Lemma for_pairs_repeats w c n (F : nat -> nat -> Segment -> list Reason) ss :
  (forall j i b, F j i b = [] <-> if Nat.eqb (j + 1) i then c = true else n = true) ->
  for_pairs (fun j i a b =>
    if negb (segment_semantic_equal a b w) then [] else F j i b) ss = [] <->
  repeats_permitted w c n ss.
Proof.
  intros HF. rewrite for_pairs_nil. unfold repeats_permitted.
  split; intros H j i a b Hji Ha Hb; specialize (H j i a b Hji Ha Hb).
  - intros Hs. rewrite Hs in H. by apply (proj1 (HF j i b)).
  - destruct (segment_semantic_equal a b w); [|done].
    by apply (proj2 (HF j i b)), H.
Qed.

Lemma repeats_permitted_all w ss : repeats_permitted w true true ss.
Proof. intros j i a b _ _ _ _. by destruct (Nat.eqb _ _). Qed.

Lemma profile_silent r : check_profile r = [] <-> profile_admissible r (scan r).
Proof.
  unfold check_profile, profile_admissible.
  destruct (vr_profile r) as [p|].
  2: { destruct (valid (vr_profile_id r)); silent; split; try done;
       by intros (? & ? & _). }
  destruct (vr_profile_found r); cbn [negb]; silent.
  2: { split; [done|]. by intros (? & _ & ? & _). }
  rewrite (for_each_Forall _ (segment_in_profile p)) by apply segment_in_profile_silent.
  match goal with
  | |- context [if ?b || ?c then ?x else []] => set (pairs := if b || c then x else [])
  end.
  assert (pairs = [] <-> repeats_permitted (pr_payload_width p)
    (pr_allow_consecutive_repeats p) (pr_allow_nonconsecutive_repeats p) (scan r)) as ->.
  { subst pairs. destruct (negb _ || negb _) eqn:E; simpl_bools.
    - apply for_pairs_repeats. intros j i b. cbv zeta. destruct (Nat.eqb _ _); cbn [andb negb]; silent; tauto.
    - rewrite H, H0. split; [intros; apply repeats_permitted_all|done]. }
  assert (strictness_eqb (vr_strictness r) Loose = false <-> vr_strictness r <> Loose) as ->.
  { by destruct (vr_strictness r). }
  split.
  - intros (? & ? & ? & He & Hl & ? & ? & ?). exists p. split_and!; try done.
    + intros. by destruct He.
    + intros. by destruct Hl.
  - intros (? & [= <-] & _ & ? & ? & ? & He & Hl & ? & ? & ?). split_and!; try done.
    + destruct (vr_segments r); [left; by apply He|by right].
    + destruct (vr_strictness r); [by left|right; by apply Hl].
Qed.

Definition policy_admissible (r : ValidationRequest) : Prop :=
  match vr_policy r with
  | None => vr_policy_required r = false
  | Some p =>
      vr_policy_found r = true /\ po_generation p <> 0 /\
      (vr_policy_generation r = 0 \/ vr_policy_generation r = po_generation p) /\
      (po_owner_scope p = 0 \/ po_owner_scope p = vr_scope r) /\
      (po_allowed_profiles p = [] \/ vr_profile_id r ∈ po_allowed_profiles p) /\
      (po_max_depth p = 0 \/ size (vr_segments r) <= po_max_depth p) /\
      (vr_existing r = None \/ po_allow_replacement p = true) /\
      (vr_derived r = false \/ po_allow_derivation p = true) /\
      (po_require_strict p = false \/ vr_strictness r = Strict) /\
      Forall (fun id => id ∈ map seg_id (vr_segments r)) (po_required_segments p) /\
      Forall (fun id => id ∉ map seg_id (vr_segments r)) (po_forbidden_segments p) /\
      (po_allowed_kinds_mask p = 0 \/
       Forall (fun s => seg_kind s = KInvalid \/
                 Z.land (po_allowed_kinds_mask p) (kind_bit (seg_kind s)) <> 0)
         (vr_segments r))
  end.

Lemma required_silent id ss :
  existsb (fun s => seg_id s =? id) ss = true <-> id ∈ map seg_id ss.
Proof.
  rewrite existsb_exists. setoid_rewrite Z.eqb_eq. rewrite list_elem_of_In, in_map_iff.
  split; intros (x & ? & ?); exists x; auto.
Qed.

Lemma first_index_None {A} (p : A -> bool) l :
  first_index p l = None <-> Forall (fun x => p x = false) l.
Proof.
  induction l as [|x l IH]; cbn; [done|]. rewrite list.Forall_cons.
  destruct (p x); [split; [done|by intros []]|].
  destruct (first_index p l); cbn; [split; [done|]|tauto].
  intros [_ H]. by apply IH in H.
Qed.

Lemma forbidden_silent id ss :
  first_index (fun s => seg_id s =? id) ss = None <-> id ∉ map seg_id ss.
Proof.
  rewrite first_index_None. induction ss as [|s ss IH]; cbn.
  - split; [intros _; apply not_elem_of_nil|done].
  - rewrite list.Forall_cons, IH, not_elem_of_cons, Z.eqb_neq. intuition congruence.
Qed.

Lemma Forall_iff' {A} (P Q : A -> Prop) l :
  (forall x, P x <-> Q x) -> Forall P l <-> Forall Q l.
Proof. intros H. split; intros Hl; (eapply list.Forall_impl; [exact Hl|apply H]). Qed.

Lemma all_required ss ids :
  Forall (fun id => report (negb (existsb (fun s => seg_id s =? id) ss))
            PolicyRequiredEntityMissing kNoIndex id = []) ids <->
  Forall (fun id => id ∈ map seg_id ss) ids.
Proof. apply Forall_iff'. intros id. silent. apply required_silent. Qed.

Lemma all_forbidden ss ids :
  Forall (fun id =>
    match first_index (fun s => seg_id s =? id) ss with
    | Some i => [mkReason PolicyForbiddenEntityPresent (u32 (Z.of_nat i)) id]
    | None => []
    end = []) ids <->
  Forall (fun id => id ∉ map seg_id ss) ids.
Proof.
  apply Forall_iff'. intros id. rewrite <-forbidden_silent.
  destruct (first_index _ _); split; congruence.
Qed.

Lemma kinds_mask_silent mask ss :
  (if negb (mask =? 0) then
     for_each (fun index s =>
       if kind_eqb (seg_kind s) KInvalid then []
       else report (Z.land mask (kind_bit (seg_kind s)) =? 0) PolicyDeniedSegmentKind index
              (kind_value (seg_kind s))) ss
   else []) = [] <->
  mask = 0 \/
  Forall (fun s => seg_kind s = KInvalid \/ Z.land mask (kind_bit (seg_kind s)) <> 0) ss.
Proof.
  destruct (Z.eqb_spec mask 0) as [->|Hm]; cbn [negb]; [silent; tauto|].
  rewrite (for_each_Forall _
    (fun s => seg_kind s = KInvalid \/ Z.land mask (kind_bit (seg_kind s)) <> 0)).
  - tauto.
  - intros i s. destruct (kind_eqb _ _) eqn:E.
    + apply kind_eqb_eq in E. tauto.
    + apply kind_eqb_false in E. silent. tauto.
Qed.

Lemma policy_silent r : check_policy r = [] <-> policy_admissible r.
Proof.
  unfold check_policy, policy_admissible. destruct (vr_policy r) as [p|].
  2: { destruct (vr_policy_required r), (valid (vr_policy_id r)); silent; done. }
  destruct (vr_policy_found r); cbn [negb]; silent; [|split; [done|by intros [? _]]].
  rewrite all_required, all_forbidden.
  rewrite kinds_mask_silent.
  assert (match vr_existing r with Some _ => true | None => false end = false <->
          vr_existing r = None) as -> by by destruct (vr_existing r).
  tauto.
Qed.

(** *** Structure *)

(** A segment carries the references of its kind and no other. *)
Definition references_exact (s : Segment) : Prop :=
  match seg_kind s with
  | KInvalid => False
  | KNode =>
      seg_node s <> 0 /\ seg_adjacency s = 0 /\ seg_endpoint s = 0 /\ seg_binding s = 0 /\
      seg_policy s = 0 /\ seg_topology s = 0 /\ seg_policy_generation s = 0
  | KAdjacency =>
      seg_adjacency s <> 0 /\ seg_topology s <> 0 /\ seg_node s = 0 /\
      seg_endpoint s = 0 /\ seg_binding s = 0 /\ seg_policy s = 0 /\
      seg_policy_generation s = 0
  | KEndpoint =>
      seg_endpoint s <> 0 /\ seg_node s = 0 /\ seg_adjacency s = 0 /\ seg_binding s = 0 /\
      seg_policy s = 0 /\ seg_topology s = 0 /\ seg_policy_generation s = 0
  | KBinding =>
      seg_binding s <> 0 /\ seg_node s = 0 /\ seg_adjacency s = 0 /\ seg_endpoint s = 0 /\
      seg_policy s = 0 /\ seg_topology s = 0 /\ seg_policy_generation s = 0
  | KPolicy =>
      seg_policy s <> 0 /\ seg_policy_generation s <> 0 /\ seg_node s = 0 /\
      seg_adjacency s = 0 /\ seg_endpoint s = 0 /\ seg_binding s = 0 /\ seg_topology s = 0
  end.

(** The evidence knows the segment at its generation, and the entity it names. *)
Definition evidence_confirms (e : FabricEvidence) (s : Segment) : Prop :=
  (exists record, find_segment e (seg_id s) = Some record /\
     sr_kind record = seg_kind s /\ sr_generation record = seg_generation s) /\
  match seg_kind s with
  | KNode => is_Some (find_node e (seg_node s))
  | KEndpoint => is_Some (find_endpoint e (seg_endpoint s))
  | KBinding => is_Some (find_binding e (seg_binding s))
  | _ => True
  end.

Definition segment_well_formed (evidence : option FabricEvidence) (s : Segment) : Prop :=
  seg_id s <> 0 /\ seg_generation s <> 0 /\
  (seg_encoding s = EInvalid \/ seg_encoding s = expected_encoding_for (seg_kind s)) /\
  references_exact s /\ given evidence (fun e => evidence_confirms e s).

Lemma references_silent s :
  seg_kind s <> KInvalid ->
  (binding_complete s = true /\ reserved_field_set s = false /\ missing_binding s = false)
  <-> references_exact s.
Proof.
  intros Hk. unfold binding_complete, reserved_field_set, missing_binding, references_exact.
  cbv zeta. rewrite !andb_false_iff, !negb_false_iff, kind_eqb_eq.
  destruct (seg_kind s); rewrite ?orb_false_iff, ?andb_true_iff, ?negb_false_iff,
    ?valid_true, ?valid_false; tauto.
Qed.

Lemma segment_evidence_silent e i s :
  references_exact s ->
  check_segment_evidence e i s = [] <-> evidence_confirms e s.
Proof.
  unfold check_segment_evidence, evidence_confirms, references_exact. intros Href.
  rewrite app_nil. apply Morphisms_Prop.and_iff_morphism.
  - destruct (find_segment e (seg_id s)) as [record|].
    + silent. split; [intros []; by exists record|by intros (? & [= <-] & ? & ?)].
    + split; [done|by intros (? & ? & _)].
  - destruct (seg_kind s); try done; silent; intuition.
Qed.

Lemma segment_silent evidence i s :
  check_segment evidence i s = [] <-> segment_well_formed evidence s.
Proof.
  unfold check_segment, segment_well_formed. destruct (kind_eqb (seg_kind s) KInvalid) eqn:E.
  - apply kind_eqb_eq in E. unfold references_exact. rewrite E. silent. tauto.
  - apply kind_eqb_false in E. pose proof (references_silent s E) as Href. silent.
    rewrite <-Href. destruct evidence as [e|]; cbn [given].
    + pose proof (segment_evidence_silent e i s). tauto.
    + tauto.
Qed.

(** Without a profile every repeat is a duplicate. *)
Definition structural_admissible (r : ValidationRequest) (w : Z) (ss : list Segment) : Prop :=
  Forall (segment_well_formed (vr_evidence r)) ss /\
  match vr_profile r with
  | None => repeats_permitted w false false ss
  | Some p => repeats_permitted w (pr_allow_consecutive_repeats p)
                (pr_allow_nonconsecutive_repeats p) ss
  end.

Lemma structural_silent r w :
  check_structural r w = [] <-> structural_admissible r w (scan r).
Proof.
  unfold check_structural, structural_admissible. cbv zeta. rewrite app_nil.
  apply Morphisms_Prop.and_iff_morphism.
  - apply for_each_Forall. intros. apply segment_silent.
  - destruct (vr_profile r); apply for_pairs_repeats; intros j i b;
      destruct (Nat.eqb _ _); silent; done.
Qed.

(** *** Evidence bindings *)

Definition capability_admissible (r : ValidationRequest) : Prop :=
  given (vr_profile r) (fun p =>
    match vr_evidence r with
    | None => pr_required_capabilities p = []
    | Some e =>
        (vr_capability r = 0 \/ vr_capability r = ev_capability e) /\
        Forall (fun key => key <> 0 /\ exists record,
          find_capability e key = Some record /\ cap_supported record = true /\
          cap_generation record = ev_capability e) (pr_required_capabilities p)
    end).

Lemma capability_silent r : check_capability r = [] <-> capability_admissible r.
Proof.
  unfold check_capability, capability_admissible, given.
  destruct (vr_profile r) as [p|]; [|done]. destruct (vr_evidence r) as [e|]; [|by silent].
  rewrite app_nil, flat_map_nil. apply Morphisms_Prop.and_iff_morphism; [by silent|].
  apply Forall_iff'. intros key. destruct (valid key) eqn:Hv; cbn [negb].
  - apply valid_true in Hv. destruct (find_capability e key) as [record|]; silent.
    + split; [intros []; split; [done|by exists record]|].
      by intros (_ & ? & [= <-] & ?).
    + split; [done|by intros (_ & ? & ? & _)].
  - apply valid_false in Hv. silent. tauto.
Qed.

Definition topology_admissible (r : ValidationRequest) : Prop :=
  match vr_evidence r with
  | None => Forall (fun s => seg_kind s <> KAdjacency) (vr_segments r)
  | Some e =>
      (vr_topology r = 0 \/ vr_topology r = ev_topology e) /\
      Forall (fun s => seg_kind s = KAdjacency -> exists record,
        find_adjacency e (seg_adjacency s) = Some record /\
        ar_topology record = seg_topology s) (vr_segments r)
  end.

Lemma existsb_false {A} (f : A -> bool) l :
  existsb f l = false <-> Forall (fun x => f x = false) l.
Proof.
  induction l as [|x l IH]; cbn; [done|]. by rewrite orb_false_iff, IH, list.Forall_cons.
Qed.

Lemma topology_silent r : check_topology r = [] <-> topology_admissible r.
Proof.
  unfold check_topology, topology_admissible. destruct (vr_evidence r) as [e|].
  - rewrite app_assoc, app_nil. apply Morphisms_Prop.and_iff_morphism.
    + silent. destruct (Z.eq_dec (vr_topology r) 0), (Z.eq_dec (ev_topology e) 0);
        intuition congruence.
    + apply for_each_Forall. intros i s. destruct (kind_eqb _ _) eqn:E; cbn [negb].
      * apply kind_eqb_eq in E. destruct (find_adjacency e _) as [record|]; silent.
        -- split; [by exists record|]. intros H. by destruct (H E) as (? & [= <-] & ?).
        -- split; [done|]. intros H. by destruct (H E) as (? & ? & _).
      * apply kind_eqb_false in E. done.
  - silent. rewrite existsb_false. apply Forall_iff'. intros s. by silent.
Qed.

Definition path_admissible (r : ValidationRequest) : Prop :=
  if decide (vr_path r = 0) then vr_path_authority r = 0
  else vr_path_authority r <> 0 /\
    given (vr_evidence r) (fun e => exists record,
      find_path e (vr_path r) = Some record /\
      par_authority record = vr_path_authority r /\
      (par_scope record = 0 \/ vr_scope r = 0 \/ par_scope record = vr_scope r)).

Lemma found_silent {A} (o : option A) (f : A -> list Reason) (missing : Reason) (P : A -> Prop) :
  (forall x, f x = [] <-> P x) ->
  match o with None => [missing] | Some x => f x end = [] <->
  exists x, o = Some x /\ P x.
Proof.
  intros Hf. destruct o as [x|].
  - rewrite Hf. split; [by exists x|by intros (? & [= <-] & ?)].
  - split; [done|by intros (? & ? & _)].
Qed.

Ltac valid_case x :=
  let H := fresh "Hv" in
  destruct (valid x) eqn:H; cbn [negb];
  [apply valid_true in H|apply valid_false in H];
  destruct (decide (x = 0)); try done.

Lemma path_silent r : check_path_authority r = [] <-> path_admissible r.
Proof.
  unfold check_path_authority, path_admissible. valid_case (vr_path r); [|by silent].
  rewrite app_nil, report_nil, negb_false_iff, valid_true.
  destruct (vr_evidence r) as [e|]; cbn [given]; [|tauto].
  apply Morphisms_Prop.and_iff_morphism; [done|]. apply found_silent.
  intros record. silent. tauto.
Qed.

Definition route_admissible (r : ValidationRequest) : Prop :=
  vr_route r <> 0 -> vr_route_generation r <> 0 /\
    given (vr_evidence r) (fun e => exists record,
      find_route e (vr_route r) = Some record /\
      ror_generation record = vr_route_generation r /\
      (ror_list record = 0 \/ ror_list record = vr_list_id r)).

Lemma premise_true (P Q : Prop) : P -> (P -> Q) <-> Q.
Proof. tauto. Qed.

Lemma route_silent r : check_route_binding r = [] <-> route_admissible r.
Proof.
  unfold check_route_binding, route_admissible. valid_case (vr_route r).
  rewrite (premise_true _ _ Hv), app_nil, report_nil, negb_false_iff, valid_true.
  destruct (vr_evidence r) as [e|]; cbn [given]; [|tauto].
  apply Morphisms_Prop.and_iff_morphism; [done|]. apply found_silent.
  intros record. silent. tauto.
Qed.

Definition constraint_admissible (r : ValidationRequest) : Prop :=
  vr_constraint r <> 0 -> vr_constraint_generation r <> 0 /\
    given (vr_evidence r) (fun e => exists record,
      find_constraint e (vr_constraint r) = Some record /\
      cor_generation record = vr_constraint_generation r).

Lemma constraint_silent r : check_constraint_binding r = [] <-> constraint_admissible r.
Proof.
  unfold check_constraint_binding, constraint_admissible. valid_case (vr_constraint r).
  rewrite (premise_true _ _ Hv), app_nil, report_nil, negb_false_iff, valid_true.
  destruct (vr_evidence r) as [e|]; cbn [given]; [|tauto].
  apply Morphisms_Prop.and_iff_morphism; [done|]. apply found_silent.
  intros record. by silent.
Qed.

Definition limits_admissible (r : ValidationRequest) : Prop :=
  given (vr_limits r) (fun l =>
    size (vr_segments r) <= max_segments_per_list l /\
    Forall (fun s => size (seg_payload s) <= max_segment_payload_bytes l) (vr_segments r)).

Lemma limits_silent r : check_resource_limits r = [] <-> limits_admissible r.
Proof.
  unfold check_resource_limits, limits_admissible, given. destruct (vr_limits r); [|done].
  rewrite app_nil, report_nil, Z.ltb_ge. apply Morphisms_Prop.and_iff_morphism; [done|].
  apply for_each_Forall. intros. by silent.
Qed.

(** Within the limits the bounded scan is the whole sequence. *)
Lemma scan_complete r : limits_admissible r -> scan r = vr_segments r.
Proof.
  unfold limits_admissible, scan. destruct (vr_limits r) as [l|]; cbn [given]; [|done].
  intros [Hl _]. apply take_ge. unfold size in Hl. lia.
Qed.

(** *** The specification of a request *)
Definition mutation_admissible (r : ValidationRequest) : Prop :=
  caller_admissible r /\ epoch_admissible r /\ lifecycle_admissible r.

Definition full_admissible (r : ValidationRequest) : Prop :=
  content_admissible r /\ profile_admissible r (vr_segments r) /\ policy_admissible r /\
  structural_admissible r (request_width r) (vr_segments r) /\ capability_admissible r /\
  topology_admissible r /\ path_admissible r /\ route_admissible r /\
  constraint_admissible r /\ limits_admissible r.

Definition admissible (r : ValidationRequest) : Prop :=
  mutation_admissible r /\ (vr_full r = true -> full_admissible r).

Lemma mutation_silent r :
  Forall (fun c => c = []) (mutation_checks r) <-> mutation_admissible r.
Proof.
  unfold mutation_checks, mutation_admissible.
  rewrite !list.Forall_cons, list.Forall_nil, caller_silent, epoch_silent,
    lifecycle_silent. tauto.
Qed.

Lemma content_checks_silent r :
  Forall (fun c => c = []) (content_checks r) <-> full_admissible r.
Proof.
  unfold content_checks, full_admissible.
  rewrite !list.Forall_cons, list.Forall_nil, content_silent, profile_silent, policy_silent,
    structural_silent, capability_silent, topology_silent, path_silent, route_silent,
    constraint_silent, limits_silent.
  split; intros H.
  - assert (scan r = vr_segments r) as Hs by (apply scan_complete; tauto).
    rewrite Hs in H. tauto.
  - assert (scan r = vr_segments r) as -> by (apply scan_complete; tauto). tauto.
Qed.

Lemma validate_request_ok r :
  0 < request_cap r -> result_ok (validate_request r) = true <-> admissible r.
Proof.
  intros Hcap. rewrite validate_request_silent by done.
  unfold request_checks, admissible. rewrite Forall_app, mutation_silent.
  apply Morphisms_Prop.and_iff_morphism; [done|].
  destruct (vr_full r); [by rewrite content_checks_silent; intuition|].
  rewrite list.Forall_nil. intuition discriminate.
Qed.

(** C23: A request is admitted exactly when it is admissible, and then nothing is reported;
    a request that is not admitted names a reason. *)
Theorem validate_request_spec r :
  0 < request_cap r ->
  (result_ok (validate_request r) = true <-> admissible r) /\
  (admissible r -> validate_request r = set_limits (vr_limits r) empty_result) /\
  (~ admissible r -> exists x, x ∈ reasons (validate_request r) /\ r_code x <> ReasonOk).
Proof.
  intros Hcap. split_and!; [by apply validate_request_ok| |].
  - intros Ha. apply validate_request_ok, validate_request_silent in Ha; [|done..].
    unfold validate_request. rewrite run_checks_emit.
    by apply concat_nil_Forall in Ha as ->.
  - intros Hn. destruct (reasons (validate_request r)) as [|x l] eqn:E.
    + exfalso. apply Hn, validate_request_ok; [done|]. by apply result_ok_spec.
    + exists x. split; [left|]. pose proof (validate_request_no_ok r) as Ho.
      rewrite E in Ho. by apply list.Forall_cons in Ho as [? _].
Qed.

(** [validate_segment_sequence] accepts a sequence exactly when the content, profile,
    structure, capability, topology and limit conditions, those that need no caller, hold of
    it, under a nonzero reason bound. *)
Theorem validate_segment_sequence_spec limits profile ss evidence topology :
  0 < match limits with Some l => max_reasons l | None => 32 end ->
  let r := sequence_request limits profile ss evidence topology in
  result_ok (validate_segment_sequence limits profile ss evidence topology) = true <->
  content_admissible r /\ profile_admissible r ss /\
  structural_admissible r (request_width r) ss /\ capability_admissible r /\
  topology_admissible r /\ limits_admissible r.
Proof.
  intros Hcap r. unfold validate_segment_sequence. cbv zeta. fold r.
  rewrite run_checks_emit, emit_result_ok; [|done|].
  - rewrite concat_nil_Forall, !list.Forall_cons, list.Forall_nil, content_silent,
      profile_silent, structural_silent, capability_silent, topology_silent, limits_silent.
    split; intros H.
    + assert (scan r = ss) as Hs by (apply scan_complete; tauto). rewrite Hs in H. tauto.
    + assert (scan r = ss) as -> by (apply scan_complete; tauto). split; [done|]. tauto.
  - pose proof (phased_checks_no_ok r) as H. unfold phased_checks in H.
    change (vr_full r) with true in H. unfold no_ok in *.
    cbn [map snd concat app] in *. rewrite !Forall_app in *. tauto.
Qed.

(** Whatever a request reports is in precedence order, without duplicates and within
    the bound. *)
Theorem validate_request_bounded r :
  reasons_ordered (reasons (validate_request r)) /\
  size (reasons (validate_request r)) <= Z.max 0 (request_cap r).
Proof.
  rewrite validate_request_emit. split.
  - apply (emit_invariant (fun o => reasons_ordered (reasons o))); [apply add_ordered|].
    split; constructor.
  - pose proof (emit_invariant result_bounded (concat (map snd (phased_checks r)))
      (set_limits (vr_limits r) empty_result) add_bounded) as H.
    unfold result_bounded in H at 2. rewrite emit_cap in H. apply H.
    unfold result_bounded. cbn. rewrite size_nil. lia.
Qed.

(** A zero reason bound admits every request, whatever its checks report. *)
Theorem validate_request_zero_cap r :
  request_cap r = 0 -> result_ok (validate_request r) = true.
Proof.
  intros Hcap. rewrite validate_request_emit. apply result_ok_spec.
  by rewrite emit_zero_cap.
Qed.

(** ** The reasons of a terminal state *)

(** The codes that name the terminal state of the list a request is refused for. *)
Definition names_terminal_state (c : ReasonCode) : bool :=
  match c with
  | ListRetired | ListRevoked | ListWithdrawn | ListSuperseded => true
  | _ => false
  end.

Lemma report_code x b c i d : x ∈ report b c i d -> r_code x = c.
Proof.
  unfold report. destruct b; [|by intros ?%not_elem_of_nil].
  by intros ->%list_elem_of_singleton.
Qed.

(** A terminal state is only named beside the denial of the transition. *)
Lemma terminal_state_denied x r :
  x ∈ check_list_lifecycle r -> names_terminal_state (r_code x) = true ->
  exists y, y ∈ check_list_lifecycle r /\ r_code y = LifecycleTransitionDenied.
Proof.
  intros Hx Ht. unfold check_list_lifecycle in *. cbv zeta in *.
  destruct (vr_existing r) as [e|]; rewrite !elem_of_app in Hx; cycle 1.
  { by destruct_or! Hx; rewrite (report_code _ _ _ _ _ Hx) in Ht. }
  do 5 (destruct Hx as [Hx|Hx]; [by rewrite (report_code _ _ _ _ _ Hx) in Ht|]).
  destruct (negb (allowed _)) eqn:E; [|by apply not_elem_of_nil in Hx].
  eexists (mkReason LifecycleTransitionDenied _ _). split; [|done].
  do 6 (apply elem_of_app; right). by left.
Qed.

Lemma terminal_reason_source x r :
  x ∈ concat (map snd (phased_checks r)) -> names_terminal_state (r_code x) = true ->
  x ∈ check_list_lifecycle r.
Proof.
  intros Hx Ht. apply list_elem_of_In, in_concat in Hx as (c & Hc & Hx).
  apply list_elem_of_In in Hx.
  apply in_map_iff in Hc as ([p c'] & <- & Hc%list_elem_of_In). cbn [snd] in *.
  pose proof (proj1 (list.Forall_forall _ _) (phased_checks_phase r) _ Hc) as Hp.
  pose proof (proj1 (list.Forall_forall _ _) Hp _ Hx) as Hxp. cbn in Hxp.
  assert (p = PhListLifecycleGeneration) as -> by (by destruct (r_code x); vm_compute in Hxp).
  unfold phased_checks in Hc. destruct (vr_full r); cbn [app] in Hc;
    repeat (apply elem_of_cons in Hc as [[=]|Hc]); subst;
    try done; try (by apply not_elem_of_nil in Hc); by rewrite (report_code _ _ _ _ _ Hx) in Ht.
Qed.

(** When nothing was dropped, the primary reason never names a terminal state: the denied
    transition is reported with it and precedes it. *)
Theorem terminal_state_never_primary r :
  size (concat (request_checks r)) <= request_cap r ->
  names_terminal_state (r_code (primary (validate_request r))) = false.
Proof.
  intros Hs. apply not_true_iff_false. intros Ht.
  rewrite validate_request_emit, emit_exact in Ht;
    [|apply phased_checks_no_ok|split; constructor|by rewrite phased_checks_snd].
  unfold primary in Ht. cbn [reasons set_limits empty_result app] in Ht.
  destruct (sort_and_dedup _) as [|x l] eqn:E; [done|].
  pose proof (sort_and_dedup_ordered (concat (map snd (phased_checks r)))) as [Hord _].
  rewrite E in Hord. apply StronglySorted_inv in Hord as [_ Hord].
  assert (x ∈ concat (map snd (phased_checks r))) as Hxc
    by (apply elem_of_sort_and_dedup; rewrite E; by left).
  destruct (terminal_state_denied x r (terminal_reason_source x r Hxc Ht) Ht)
    as (y & Hy & Hyc).
  assert (y ∈ sort_and_dedup (concat (map snd (phased_checks r)))) as Hyl.
  { apply elem_of_sort_and_dedup. unfold phased_checks. cbn [map snd app concat].
    rewrite !elem_of_app. auto. }
  rewrite E in Hyl. apply elem_of_cons in Hyl as [->|Hyl]; [by rewrite Hyc in Ht|].
  pose proof (proj1 (list.Forall_forall _ _) Hord y Hyl) as Hlt.
  apply not_after_spec in Hlt. unfold reason_rank in Hlt. rewrite Hyc in Hlt.
  destruct (r_code x); try discriminate Ht; vm_compute in Hlt; naive_solver.
Qed.

(** ** Currentness *)

(** A binding is stale when the list names it, the watermark knows it, and they
    disagree. *)
Definition binding_current (bound observed : Z) : Prop :=
  bound = 0 \/ observed = 0 \/ bound = observed.

(** Everything an active list binds is what the fabric and the registry hold now. *)
Definition bindings_current (l : SegmentList) (profile : option SegmentProfile)
    (policy : option SegmentPolicy) (w : EvidenceWatermark) (epoch : CoordinatorEpoch)
  : Prop :=
  let c := sl_content l in
  binding_current (au_epoch (sl_authority l)) epoch /\
  (exists p, profile = Some p /\ pr_generation p = c_profile_generation c) /\
  (c_policy c = 0 \/ exists q, policy = Some q /\ po_generation q = c_policy_generation c) /\
  binding_current (c_capability c) (wm_capability w) /\
  binding_current (c_topology c) (wm_topology w) /\
  (c_path c = 0 \/ binding_current (c_path_authority c) (wm_path_authority w)) /\
  (c_route c = 0 \/ binding_current (c_route_generation c) (wm_route w)) /\
  (c_constraint c = 0 \/ binding_current (c_constraint_generation c) (wm_constraint w)).

Lemma stale_false a b : valid a && valid b && negb (a =? b) = false <-> binding_current a b.
Proof.
  unfold binding_current. rewrite !andb_false_iff, negb_false_iff, !valid_false, Z.eqb_eq.
  tauto.
Qed.

Lemma stale_ref_false r a b :
  valid r && valid a && valid b && negb (a =? b) = false <-> r = 0 \/ binding_current a b.
Proof.
  unfold binding_current. rewrite !andb_false_iff, negb_false_iff, !valid_false, Z.eqb_eq.
  tauto.
Qed.

Lemma evaluate_step (b : bool) (stale k : Currentness) :
  stale <> Current -> (if b then stale else k) = Current <-> b = false /\ k = Current.
Proof. destruct b; intuition congruence. Qed.

(** A list is current exactly when it is active and every binding is current: no
    other state is ever reported usable. *)
Theorem evaluate_currentness_current l profile policy w epoch :
  evaluate_currentness l profile policy w epoch = Current <->
  sl_state l = Active /\ bindings_current l profile policy w epoch.
Proof.
  unfold evaluate_currentness, bindings_current. cbv zeta.
  set (c := sl_content l). rewrite !evaluate_step by done.
  rewrite (andb_comm (valid epoch)), (Z.eqb_sym epoch), stale_false.
  assert ((c_policy c = 0 \/ exists q, policy = Some q /\
             po_generation q = c_policy_generation c) <->
    valid (c_policy c) && match policy with
      | None => true | Some q => negb (po_generation q =? c_policy_generation c) end = false)
    as ->.
  { rewrite andb_false_iff, valid_false. destruct policy as [q|].
    - rewrite negb_false_iff, Z.eqb_eq. split; intros [|H]; auto; [|right; by exists q].
      destruct H as (? & [= <-] & ?). by right.
    - split; intros [|H]; auto; [by destruct H as (? & ? & _)|done]. }
  destruct profile as [p|].
  - rewrite !evaluate_step, !stale_false, !stale_ref_false, negb_false_iff, Z.eqb_eq by done.
    assert ((if state_eqb (sl_state l) Active then Current else CUnknown) = Current <->
      sl_state l = Active) as ->.
    { destruct (sl_state l); vm_compute; split; congruence. }
    assert ((exists p0, Some p = Some p0 /\ pr_generation p0 = c_profile_generation c) <->
      pr_generation p = c_profile_generation c) as ->.
    { split; [by intros (? & [= <-] & ?)|by exists p]. }
    destruct (sl_state l); vm_compute (state_eqb _ _); intuition congruence.
  - split; [by intros (_ & _ & ?)|]. by intros (_ & _ & (? & ? & _) & _).
Qed.
