(* ===== verification/Codec.v ===== *)
(** * The decoder of persisted records

    [class Decoder] of [src/persistence.cpp]: a [ByteReader] over one record body whose
    every failure reports one reason.  It is an error monad over the reader; the
    relation [decodes m bs x] says that [m] reads back [x] from the bytes [bs] and
    nothing more, and composes along [mbind]. *)

From coqutil Require Import Word.LittleEndianList.
From S2P Require Import Prelude.
From S2P Require Import Ids.
From S2P Require Import Bytes.
From S2P Require Import Reason.

(** A decoder over a reader, with errors of type [E]. *)
Definition DecE (E A : Type) : Type := ByteReader -> (A * ByteReader) + E.

#[global] Instance dec_ret {E} : MRet (DecE E) := fun A x r => inl (x, r).
#[global] Instance dec_bind {E} : MBind (DecE E) := fun A B f m r =>
  match m r with
  | inl (x, r') => f x r'
  | inr e => inr e
  end.

Definition fail_with {E A} (e : E) : DecE E A := fun _ => inr e.

(** [if (!condition) return fail;] *)
Definition require_with {E} (condition : bool) (e : E) : DecE E unit :=
  if condition then mret tt else fail_with e.

Definition of_read_with {E} (e : E) (read : ByteReader -> option Z * ByteReader) : DecE E Z :=
  fun r =>
    match read r with
    | (Some v, r') => inl (v, r')
    | (None, _) => inr e
    end.

(** [if (!at_end()) return fail;]; the error may report what remains. *)
Definition done_reading_with {E} (e : Z -> E) : DecE E unit := fun r =>
  if at_end r then inl (tt, r) else inr (e (remaining r)).

(** A counted loop that pushes back what each iteration decodes. *)
Fixpoint repeat_dec {E A} (n : nat) (m : DecE E A) : DecE E (list A) :=
  match n with
  | O => mret []
  | S n' => x ← m; xs ← repeat_dec n' m; mret (x :: xs)
  end.

(** ** The decoder of a persisted record *)

(** What [fail] reports: the code and the detail; the index is the record's. *)
Definition DecodeError : Type := ReasonCode * Z.

Abbreviation Dec := (DecE DecodeError).

Abbreviation fail code detail := (fail_with (code, detail)).
Abbreviation require condition code detail := (require_with condition (code, detail)).

Definition of_read : (ByteReader -> option Z * ByteReader) -> Dec Z :=
  of_read_with (PersistTruncated, 0).

Definition d_u8 : Dec Z := of_read read_u8.
Definition d_u16 : Dec Z := of_read read_u16.
Definition d_u32 : Dec Z := of_read read_u32.
Definition d_u64 : Dec Z := of_read read_u64.

Definition flag : Dec bool :=
  raw ← d_u8; require (raw <=? 1) PersistCorrupt raw;; mret (negb (raw =? 0)).

Definition blob (length : Z) : Dec (list Byte.byte) := fun r =>
  if remaining r <? length then inr (PersistTruncated, length)
  else if length =? 0 then inl ([], r)
  else match read_raw length r with
       | (Some bs, r') => inl (bs, r')
       | (None, _) => inr (PersistTruncated, 0)
       end.

(** [Decoder::done] *)
Definition done_reading : Dec unit := done_reading_with (fun n => (PersistTrailingBytes, n)).

Definition d_u64s (n : Z) : Dec (list Z) := repeat_dec (Z.to_nat n) d_u64.

(** ** Reading back what was written *)

(** The reader is healthy and in front of the bytes [bs]. *)
Definition in_front (r : ByteReader) (bs : list Byte.byte) : Prop :=
  reader_wf r /\ ok r = true /\ rest r = bs.

Lemma in_front_reader bs : in_front (reader bs) bs.
Proof. split_and!; [apply reader_reader_wf|done..]. Qed.

Definition decodes {E A} (m : DecE E A) (bs : list Byte.byte) (x : A) : Prop :=
  forall r tl, in_front r (bs ++ tl) -> exists r', m r = inl (x, r') /\ in_front r' tl.

(** The same when nothing may follow. *)
Definition decodes_all {E A} (m : DecE E A) (bs : list Byte.byte) (x : A) : Prop :=
  forall r, in_front r bs -> exists r', m r = inl (x, r').

Create HintDb codec discriminated.

Section Decodes.
Context {E A B : Type}.

Lemma decodes_ret (x : A) : decodes (E := E) (mret x) [] x.
Proof. intros r tl Hr. by exists r. Qed.

Lemma decodes_bind (m : DecE E A) (f : A -> DecE E B) bs bs' x y :
  decodes m bs x -> decodes (f x) bs' y -> decodes (m ≫= f) (bs ++ bs') y.
Proof.
  intros Hm Hf r tl Hr. rewrite <-app_assoc in Hr.
  destruct (Hm r _ Hr) as (r1 & Er & Hr1). destruct (Hf r1 tl Hr1) as (r2 & E2 & Hr2).
  exists r2. split; [|done]. unfold mbind, dec_bind. by rewrite Er.
Qed.

(** The last field of a record. *)
Lemma decodes_last (m : DecE E A) (f : A -> DecE E B) bs x y :
  decodes m bs x -> decodes (f x) [] y -> decodes (m ≫= f) bs y.
Proof. intros. rewrite <-(app_nil_r bs). by eapply decodes_bind. Qed.

Lemma decodes_require (f : unit -> DecE E B) condition (e : E) bs y :
  condition = true -> decodes (f tt) bs y ->
  decodes (require_with condition e ≫= f) bs y.
Proof. intros -> Hf. exact Hf. Qed.

Lemma decodes_all_bind (m : DecE E A) (f : A -> DecE E B) bs bs' x y :
  decodes m bs x -> decodes_all (f x) bs' y -> decodes_all (m ≫= f) (bs ++ bs') y.
Proof.
  intros Hm Hf r Hr. destruct (Hm r _ Hr) as (r1 & Er & Hr1).
  destruct (Hf r1 Hr1) as (r2 & E2). exists r2. unfold mbind, dec_bind. by rewrite Er.
Qed.

Lemma decodes_all_last (m : DecE E A) (f : A -> DecE E B) bs x y :
  decodes m bs x -> decodes_all (f x) [] y -> decodes_all (m ≫= f) bs y.
Proof. intros. rewrite <-(app_nil_r bs). by eapply decodes_all_bind. Qed.

Lemma decodes_all_require (f : unit -> DecE E B) condition (e : E) bs y :
  condition = true -> decodes_all (f tt) bs y ->
  decodes_all (require_with condition e ≫= f) bs y.
Proof. intros -> Hf. exact Hf. Qed.

Lemma decodes_all_done (f : unit -> DecE E B) e y :
  decodes_all (f tt) [] y -> decodes_all (done_reading_with e ≫= f) [] y.
Proof.
  intros Hf r Hr. destruct (Hf r Hr) as (r' & Er). exists r'.
  unfold mbind, dec_bind, done_reading_with. destruct Hr as (Hwf & _ & Hrest).
  apply at_end_rest in Hrest as ->; done.
Qed.

Lemma decodes_all_ret (x : A) bs : decodes_all (E := E) (mret x) bs x.
Proof. intros r Hr. by exists r. Qed.
End Decodes.

Lemma decodes_of_read {E} (e : E) n v :
  fits (8 * Z.of_nat n) v -> decodes (of_read_with e (read_uint (Z.of_nat n))) (le_split n v) v.
Proof.
  intros Hv r tl (Hwf & Hok & Hr).
  destruct (read_uint_app n v tl r Hv Hwf Hok Hr) as (r' & Er & ? & ? & ?).
  exists r'. split; [|done]. unfold of_read_with. by rewrite Er.
Qed.

Lemma decodes_u8 v : fits 8 v -> decodes d_u8 (put8 v) v.
Proof. apply (decodes_of_read _ 1). Qed.
Lemma decodes_u16 v : fits 16 v -> decodes d_u16 (put16 v) v.
Proof. apply (decodes_of_read _ 2). Qed.
Lemma decodes_u32 v : fits 32 v -> decodes d_u32 (put32 v) v.
Proof. apply (decodes_of_read _ 4). Qed.
Lemma decodes_u64 v : fits 64 v -> decodes d_u64 (put64 v) v.
Proof. apply (decodes_of_read _ 8). Qed.

Lemma decodes_flag b : decodes flag (put8 (bool_byte b)) b.
Proof.
  unfold flag. eapply decodes_last; [apply decodes_u8; auto with srf|].
  - apply fits_bool_byte. lia.
  - apply decodes_require; [by destruct b|]. destruct b; apply decodes_ret.
Qed.

Lemma decodes_blob bs : decodes (blob (size bs)) bs bs.
Proof.
  intros r tl (Hwf & Hok & Hr). unfold blob.
  pose proof (size_rest r Hwf) as Hs. rewrite Hr, size_app in Hs.
  pose proof (size_nonneg tl). destruct (Z.ltb_spec (remaining r) (size bs)); [lia|].
  destruct (Z.eqb_spec (size bs) 0) as [E|E].
  - assert (bs = []) as -> by (unfold size in E; by destruct bs).
    by exists r.
  - destruct (read_raw_app bs tl r Hwf Hok Hr) as (r' & E' & ? & ? & ?).
    exists r'. by rewrite E'.
Qed.

Lemma decodes_repeat {E A} (m : DecE E A) (enc : A -> list Byte.byte) xs :
  Forall (fun x => decodes m (enc x) x) xs ->
  decodes (repeat_dec (length xs) m) (concat (map enc xs)) xs.
Proof.
  intros H. induction H as [|x xs Hx H IH]; cbn [map concat length repeat_dec].
  - apply decodes_ret.
  - eapply decodes_bind; [exact Hx|]. eapply decodes_last; [exact IH|]. apply decodes_ret.
Qed.

Lemma decodes_u64s zs :
  Forall (fits 64) zs -> decodes (d_u64s (size zs)) (concat (map put64 zs)) zs.
Proof.
  intros H. unfold d_u64s, size. rewrite Nat2Z.id. apply decodes_repeat.
  eapply list.Forall_impl; [exact H|]. apply decodes_u64.
Qed.

#[export] Hint Resolve decodes_u8 decodes_u16 decodes_u32 decodes_u64 decodes_flag
  decodes_blob decodes_u64s : codec.

(** One field or one check of a decoder. *)
Ltac decode_step :=
  lazymatch goal with
  | |- decodes (require_with _ _ ≫= _) _ _ => apply decodes_require
  | |- decodes_all (require_with _ _ ≫= _) _ _ => apply decodes_all_require
  | |- decodes_all (done_reading ≫= _) [] _ => apply decodes_all_done
  | |- decodes_all (done_reading_with _ ≫= _) [] _ => apply decodes_all_done
  | |- decodes (mret _) [] _ => apply decodes_ret
  | |- decodes_all (mret _) _ _ => apply decodes_all_ret
  | |- decodes (_ ≫= _) (_ ++ _) _ => eapply decodes_bind; [solve [auto with codec]|]
  | |- decodes_all (_ ≫= _) (_ ++ _) _ => eapply decodes_all_bind; [solve [auto with codec]|]
  | |- decodes (_ ≫= _) _ _ => eapply decodes_last; [solve [auto with codec]|]
  | |- decodes_all (_ ≫= _) _ _ => eapply decodes_all_last; [solve [auto with codec]|]
  end.

Ltac decode_fields := repeat (decode_step; cbn beta).

(** ** What an accepting decoder has consumed

    [parses m Q]: whenever [m] accepts, it has consumed some bytes [bs] with [Q bs x]. *)
Definition parses {E A} (m : DecE E A) (Q : list Byte.byte -> A -> Prop) : Prop :=
  forall r x r', reader_wf r -> ok r = true -> m r = inl (x, r') ->
    exists bs, in_front r (bs ++ rest r') /\ reader_wf r' /\ ok r' = true /\ Q bs x.

Section Parses.
Context {E A B : Type}.
Implicit Types (e : E).

Lemma parses_ret (x : A) (Q : list Byte.byte -> A -> Prop) :
  Q [] x -> parses (E := E) (mret x) Q.
Proof. intros HQ r y r' Hwf Hok [= <- <-]. by exists []. Qed.

Lemma parses_bind (m : DecE E A) (f : A -> DecE E B) Q1 Q :
  parses m Q1 ->
  (forall bs x, Q1 bs x -> parses (f x) (fun bs' y => Q (bs ++ bs') y)) ->
  parses (m ≫= f) Q.
Proof.
  intros Hm Hf r y r' Hwf Hok H. unfold mbind, dec_bind in H.
  destruct (m r) as [[x r1]|] eqn:Hr; [|done].
  destruct (Hm _ _ _ Hwf Hok Hr) as (bs & (_ & _ & H1) & Hwf1 & Hok1 & HQ1).
  destruct (Hf _ _ HQ1 _ _ _ Hwf1 Hok1 H) as (bs' & (_ & _ & H2) & ? & ? & HQ).
  exists (bs ++ bs'). split_and!; try done. unfold in_front. split_and!; try done.
  by rewrite H1, H2, app_assoc.
Qed.

Lemma parses_require (f : unit -> DecE E B) condition e Q :
  (condition = true -> parses (f tt) Q) -> parses (require_with condition e ≫= f) Q.
Proof.
  unfold require_with. destruct condition; intros Hf; [by apply Hf|].
  by intros r y r' _ _.
Qed.

(** The same when the decoder ends by checking that nothing is left. *)
Definition parses_all (m : DecE E A) (Q : list Byte.byte -> A -> Prop) : Prop :=
  forall r x r', reader_wf r -> ok r = true -> m r = inl (x, r') -> Q (rest r) x.

Lemma parses_all_end (e : Z -> E) (x : A) (Q : list Byte.byte -> A -> Prop) :
  Q [] x -> parses_all (done_reading_with e;; mret x) Q.
Proof.
  intros HQ r y r' Hwf Hok. unfold mbind, dec_bind, done_reading_with.
  destruct (at_end r) eqn:He; [|done]. intros [= <- <-]. by apply at_end_rest in He as ->.
Qed.
End Parses.

Lemma parses_all_bind {E A B} (m : DecE E A) (f : A -> DecE E B) Q1 Q :
  parses m Q1 ->
  (forall bs x, Q1 bs x -> parses_all (f x) (fun bs' y => Q (bs ++ bs') y)) ->
  parses_all (m ≫= f) Q.
Proof.
  intros Hm Hf r y r' Hwf Hok H. unfold mbind, dec_bind in H.
  destruct (m r) as [[x r1]|] eqn:Hr; [|done].
  destruct (Hm _ _ _ Hwf Hok Hr) as (bs & (_ & _ & ->) & Hwf1 & Hok1 & HQ1).
  exact (Hf _ _ HQ1 _ _ _ Hwf1 Hok1 H).
Qed.

Lemma parses_all_require {E A} (f : unit -> DecE E A) condition (e : E) Q :
  (condition = true -> parses_all (f tt) Q) -> parses_all (require_with condition e ≫= f) Q.
Proof.
  unfold require_with. destruct condition; intros Hf; [by apply Hf|].
  by intros r y r' _ _.
Qed.

Lemma parses_weaken {E A} (m : DecE E A) (Q Q' : list Byte.byte -> A -> Prop) :
  parses m Q -> (forall bs x, Q bs x -> Q' bs x) -> parses m Q'.
Proof.
  intros Hm HQ r x r' Hwf Hok H. destruct (Hm _ _ _ Hwf Hok H) as (bs & ? & ? & ? & ?).
  exists bs. auto.
Qed.

Lemma read_raw_parses n bs r r' :
  0 <= n -> reader_wf r -> ok r = true -> read_raw n r = (Some bs, r') ->
  size bs = n /\ in_front r (bs ++ rest r') /\ reader_wf r' /\ ok r' = true.
Proof.
  intros Hn Hwf Hok H. pose proof (read_raw_wf n r Hn Hwf) as Hwf'. rewrite H in Hwf'.
  unfold read_raw in H. rewrite Hok in H. cbn [negb orb] in H.
  destruct (Z.ltb_spec (remaining r) n); [done|]. injection H as <- <-. cbn [snd] in Hwf'.
  pose proof (size_rest r Hwf) as Hs.
  split; [|split; [split; [done|split; [done|]]|done]].
  - unfold size in *. rewrite length_take. lia.
  - unfold rest at 3. cbn [data pos]. rewrite Z2Nat.inj_add by (unfold reader_wf in Hwf; lia).
    rewrite <-drop_drop. symmetry. apply take_drop.
Qed.

Lemma parses_of_read {E} (e : E) n :
  parses (of_read_with e (read_uint (Z.of_nat n)))
    (fun bs v => bs = le_split n v /\ fits (8 * Z.of_nat n) v).
Proof.
  intros r v r' Hwf Hok H. unfold of_read_with in H.
  destruct (read_uint (Z.of_nat n) r) as [[v'|] r1] eqn:Hr; [|done]. injection H as -> ->.
  pose proof (read_uint_fits (Z.of_nat n) r v r' ltac:(lia) Hwf Hr) as Hv. unfold read_uint in Hr.
  destruct (read_raw (Z.of_nat n) r) as [[bs|] r1] eqn:Hraw; [|done]. injection Hr as <- <-.
  destruct (read_raw_parses (Z.of_nat n) bs r r1 ltac:(lia) Hwf Hok Hraw) as (Hn & ? & ? & ?).
  exists bs. split_and!; try done.
  assert (length bs = n) as <- by (unfold size in Hn; lia). symmetry. apply split_le_combine.
Qed.

Lemma parses_repeat {E A} (m : DecE E A) (enc : A -> list Byte.byte) (P : A -> Prop) n :
  parses m (fun bs x => bs = enc x /\ P x) ->
  parses (repeat_dec n m)
    (fun bs xs => bs = concat (map enc xs) /\ length xs = n /\ Forall P xs).
Proof.
  intros Hm. induction n as [|n IH]; cbn [repeat_dec].
  - by apply parses_ret.
  - eapply parses_bind; [exact Hm|]. intros ? x [-> Hx]. eapply parses_bind; [exact IH|].
    intros ? xs (-> & <- & Hxs). apply parses_ret. rewrite app_nil_r. split_and!; try done.
    by constructor.
Qed.
