(* ===== verification/Persistence.v ===== *)
(** * Durable state and its encoding

    [include/srf/persistence.hpp] and [src/persistence.cpp]: the records a coordinator
    survives a restart with, their framed encoding, the decoder, and the two backends.
    The file backend runs against a small model of one directory entry and its
    temporary sibling, in which each library call succeeds or fails as told. *)

From S2P Require Import Prelude.
From S2P Require Import Ids.
From S2P Require Import Bytes.
From S2P Require Import Digest.
From S2P Require Import Segment.
From S2P Require Import Reason.
From S2P Require Import Lifecycle.
From S2P Require Import Governance.
From S2P Require Import Authority.
From S2P Require Import Codec.

Record DurableAttemptRecord := {
  da_attempt : MutationAttemptId;
  da_list : SegmentListId;
  da_payload : Digest128;
  da_generation : SegmentListGeneration;
  da_committed : bool;
}.

Record DurableHistoryEntry := {
  dh_id : HistoryId;
  dh_list : SegmentListId;
  dh_generation : SegmentListGeneration;
  dh_state : LifecycleState;
  dh_currentness : Currentness;
  dh_digest : Digest128;
  dh_revision : Z;
}.

Definition kPersistenceFormatVersion : Z := 1.

Record DurableState := {
  ds_format_version : Z;
  ds_epoch : CoordinatorEpoch;
  ds_revision : Z;
  ds_profiles : list SegmentProfile;
  ds_policies : list SegmentPolicy;
  ds_lists : list SegmentList;
  ds_history : list DurableHistoryEntry;
  ds_attempts : list DurableAttemptRecord;
  ds_publishers : list PublisherState;
  ds_fenced_boots : list WorkerBootId;
}.

(** [DurableState{}] *)
Definition empty_durable : DurableState := {|
  ds_format_version := kPersistenceFormatVersion; ds_epoch := 0; ds_revision := 0;
  ds_profiles := []; ds_policies := []; ds_lists := []; ds_history := [];
  ds_attempts := []; ds_publishers := []; ds_fenced_boots := [];
|}.

Record LoadReport := {
  lr_loaded : bool;
  lr_empty : bool;
  lr_result : ValidationResult;
  lr_state : DurableState;
  lr_lists_recovered : Z;
  lr_lists_requiring_revalidation : Z;
  lr_publishers_fenced : Z;
  lr_history_entries : Z;
}.

(** [LoadReport{}] *)
Definition empty_report : LoadReport := {|
  lr_loaded := false; lr_empty := false; lr_result := empty_result;
  lr_state := empty_durable; lr_lists_recovered := 0;
  lr_lists_requiring_revalidation := 0; lr_publishers_fenced := 0;
  lr_history_entries := 0;
|}.

#[global] Instance DurableAttemptRecord_eq_dec : EqDecision DurableAttemptRecord.
Proof. solve_decision. Defined.
#[global] Instance DurableHistoryEntry_eq_dec : EqDecision DurableHistoryEntry.
Proof. solve_decision. Defined.
#[global] Instance DurableState_eq_dec : EqDecision DurableState.
Proof. solve_decision. Defined.

(** ** Framing *)
Definition kMagic : list Byte.byte := text "SRFL".
Definition kHeaderBytes : Z := 24.
Definition kTrailerBytes : Z := 4.

Inductive RecordType :=
  | RtInvalid | Meta | Profile | Policy | List | History | Attempt | Publisher | FencedBoot.

Definition record_value (t : RecordType) : Z :=
  match t with
  | RtInvalid => 0 | Meta => 1 | Profile => 2 | Policy => 3 | List => 4 | History => 5
  | Attempt => 6 | Publisher => 7 | FencedBoot => 8
  end.

Definition record_of_value (v : Z) : RecordType :=
  match v with
  | 1 => Meta | 2 => Profile | 3 => Policy | 4 => List | 5 => History | 6 => Attempt
  | 7 => Publisher | 8 => FencedBoot | _ => RtInvalid
  end.

(** ** Encoding *)

(** [struct Encoder]; its [limits] is never null in the source. *)
Record Encoder := {
  en_records : list Byte.byte;
  en_count : Z;
  en_result : ValidationResult;
  en_failed : bool;
}.

(** [Encoder::emit] *)
Definition emit_record (limits : Limits) (enc : Encoder) (r : RecordType * ByteBuffer)
  : Encoder :=
  let '(type, body) := r in
  if en_failed enc then enc
  else if max_persistence_record_bytes limits <? size body then
    {| enc with
       en_result := add LimitMaxPersistenceRecordBytes (en_count enc)
                      (max_persistence_record_bytes limits) (en_result enc);
       en_failed := true |}
  else
    {| enc with
       en_records := en_records enc ++ put16 (record_value type) ++ put32 (size body) ++ body;
       en_count := u32 (en_count enc + 1) |}.

Definition write_segment (s : Segment) : list Byte.byte :=
  put16 (kind_value (seg_kind s)) ++
  put16 (encoding_value (seg_encoding s)) ++
  put64 (seg_id s) ++ put64 (seg_generation s) ++ put64 (seg_node s) ++
  put64 (seg_adjacency s) ++ put64 (seg_endpoint s) ++ put64 (seg_binding s) ++
  put64 (seg_policy s) ++ put64 (seg_policy_generation s) ++ put64 (seg_topology s) ++
  put16 (size (seg_payload s)) ++
  seg_payload s.

Definition bound_payload_width (state : DurableState) (id : SegmentProfileId) : Z :=
  match find_key pr_id id (ds_profiles state) with
  | Some p => if pr_payload_width p =? 0 then 1 else pr_payload_width p
  | None => 0
  end.

(** The width a list is encoded with. *)
Definition encoded_width (state : DurableState) (c : SegmentListContent) : Z :=
  let width := bound_payload_width state (c_profile c) in
  let width :=
    if width =? 0 then
      let width := fold_left (fun width s =>
        if u32 (size (seg_payload s)) <? width then width else u32 (size (seg_payload s)))
        (c_segments c) width in
      if width =? 0 then 1 else width
    else width in
  if 0xFFFF <? width then 1 else width.

Definition encode_meta (state : DurableState) : ByteBuffer :=
  put64 (ds_epoch state) ++ put64 (ds_revision state).

Definition encode_profile (p : SegmentProfile) : ByteBuffer :=
  put64 (pr_id p) ++ put64 (pr_generation p) ++
  put8 (support_value AbstractSynthetic) ++ put16 (pr_allowed_kinds_mask p) ++
  put32 (pr_max_depth p) ++ put32 (pr_payload_width p) ++
  put8 (bool_byte (pr_allow_empty p)) ++
  put8 (bool_byte (pr_allow_consecutive_repeats p)) ++
  put8 (bool_byte (pr_allow_nonconsecutive_repeats p)) ++
  put8 (bool_byte (pr_allow_loose p)) ++
  put16 (size (pr_name p)) ++ pr_name p ++
  put16 (size (pr_required_capabilities p)) ++ put64s (pr_required_capabilities p).

Definition encode_policy (p : SegmentPolicy) : ByteBuffer :=
  put64 (po_id p) ++ put64 (po_generation p) ++ put64 (po_owner_scope p) ++
  put32 (size (po_allowed_profiles p)) ++ put64s (po_allowed_profiles p) ++
  put16 (po_allowed_kinds_mask p) ++ put32 (po_max_depth p) ++
  put32 (size (po_required_segments p)) ++ put64s (po_required_segments p) ++
  put32 (size (po_forbidden_segments p)) ++ put64s (po_forbidden_segments p) ++
  put8 (bool_byte (po_allow_replacement p)) ++
  put8 (bool_byte (po_allow_derivation p)) ++
  put8 (bool_byte (po_require_strict p)).

Definition encode_list (state : DurableState) (l : SegmentList) : ByteBuffer :=
  let c := sl_content l in
  let ln := sl_lineage l in
  let au := sl_authority l in
  let pv := sl_provenance l in
  put64 (c_id c) ++ put64 (c_scope c) ++ put64 (c_profile c) ++
  put64 (c_profile_generation c) ++ put64 (c_policy c) ++ put64 (c_policy_generation c) ++
  put8 (strictness_value (c_strictness c)) ++ put16 (encoded_width state c) ++
  put64 (c_topology c) ++ put64 (c_capability c) ++ put64 (c_path c) ++
  put64 (c_path_authority c) ++ put64 (c_route c) ++ put64 (c_route_generation c) ++
  put64 (c_constraint c) ++ put64 (c_constraint_generation c) ++
  put64 (sl_generation l) ++
  put64 (ln_supersedes ln) ++ put64 (ln_superseded_by ln) ++ put64 (ln_history ln) ++
  put64 (au_publisher au) ++ put64 (au_boot au) ++ put64 (au_epoch au) ++
  put64 (au_attempt au) ++
  put64 (pv_source_path pv) ++ put64 (pv_source_path_authority pv) ++
  put64 (pv_source_route pv) ++ put64 (pv_source_route_generation pv) ++
  put64 (pv_source_constraint pv) ++ put64 (pv_source_constraint_generation pv) ++
  put64 (pv_derivation_policy pv) ++ put64 (pv_observed_topology pv) ++
  put64 (pv_observed_capability pv) ++ put64 (pv_publisher pv) ++ put64 (pv_boot pv) ++
  put64 (pv_epoch pv) ++
  put8 (state_value (sl_state l)) ++ put8 (currentness_value (sl_currentness l)) ++
  put64 (hi (sl_content_digest l)) ++ put64 (lo (sl_content_digest l)) ++
  put64 (hi (sl_sequence_digest l)) ++ put64 (lo (sl_sequence_digest l)) ++
  put64 (sl_committed_revision l) ++ put32 (size (c_segments c)) ++
  concat (map write_segment (c_segments c)).

Definition encode_history (h : DurableHistoryEntry) : ByteBuffer :=
  put64 (dh_id h) ++ put64 (dh_list h) ++ put64 (dh_generation h) ++
  put8 (state_value (dh_state h)) ++ put8 (currentness_value (dh_currentness h)) ++
  put64 (hi (dh_digest h)) ++ put64 (lo (dh_digest h)) ++ put64 (dh_revision h).

Definition encode_attempt (a : DurableAttemptRecord) : ByteBuffer :=
  put64 (da_attempt a) ++ put64 (da_list a) ++ put64 (hi (da_payload a)) ++
  put64 (lo (da_payload a)) ++ put64 (da_generation a) ++ put8 (bool_byte (da_committed a)).

Definition encode_publisher (p : PublisherState) : ByteBuffer :=
  put64 (ps_id p) ++ put64 (ps_boot p) ++ put64 (ps_scope p) ++ put64 (ps_epoch p) ++
  put8 (bool_byte (ps_alive p)) ++ put8 (bool_byte (ps_fenced p)).

Definition encode_boot (b : WorkerBootId) : ByteBuffer := put64 b.

(** The records in the order [encode_durable_state] emits them. *)
Definition durable_records (state : DurableState) : list (RecordType * ByteBuffer) :=
  (Meta, encode_meta state) ::
  map (fun p => (Profile, encode_profile p)) (ds_profiles state) ++
  map (fun p => (Policy, encode_policy p)) (ds_policies state) ++
  map (fun l => (List, encode_list state l)) (ds_lists state) ++
  map (fun h => (History, encode_history h)) (ds_history state) ++
  map (fun a => (Attempt, encode_attempt a)) (ds_attempts state) ++
  map (fun p => (Publisher, encode_publisher p)) (ds_publishers state) ++
  map (fun b => (FencedBoot, encode_boot b)) (ds_fenced_boots state).

(** Header without its checksum. *)
Definition frame_head (payload_length count : Z) : list Byte.byte :=
  kMagic ++ put16 kPersistenceFormatVersion ++ put16 0 ++ put64 payload_length ++ put32 count.

Definition frame (records : list Byte.byte) (count : Z) : list Byte.byte :=
  let head := frame_head (size records) count in
  head ++ put32 (crc32c head) ++ records ++ put32 (crc32c records).

Definition encode_durable_state (state : DurableState) (limits : Limits)
    (result : ValidationResult) : ByteBuffer * ValidationResult :=
  let enc := fold_left (emit_record limits) (durable_records state)
    {| en_records := []; en_count := 0; en_result := set_limits (Some limits) result;
       en_failed := false |} in
  if en_failed enc then ([], en_result enc)
  else (frame (en_records enc) (en_count enc), en_result enc).

(** ** Decoding *)
Definition kind_of_value (v : Z) : SegmentKind :=
  match v with
  | 1 => KNode | 2 => KAdjacency | 3 => KEndpoint | 4 => KBinding | 5 => KPolicy
  | _ => KInvalid
  end.

Definition encoding_of_value (v : Z) : SegmentEncodingId :=
  match v with
  | 1 => AbstractNodeV1 | 2 => AbstractAdjacencyV1 | 3 => AbstractEndpointV1
  | 4 => AbstractBindingV1 | 5 => AbstractPolicyV1 | _ => EInvalid
  end.

Definition strictness_of_value (v : Z) : Strictness :=
  if v =? strictness_value Loose then Loose else Strict.

Definition decode_segment (limits : Limits) : Dec Segment :=
  kind ← d_u16;
  encoding ← d_u16;
  require (negb ((kind =? 0) || (kind_value KPolicy <? kind))) PersistKindInvalid kind;;
  require (negb ((encoding =? 0) || (encoding_value AbstractPolicyV1 <? encoding)))
    PersistEncodingInvalid encoding;;
  id ← d_u64;
  generation ← d_u64;
  node ← d_u64;
  adjacency ← d_u64;
  endpoint ← d_u64;
  binding ← d_u64;
  policy ← d_u64;
  policy_generation ← d_u64;
  topology ← d_u64;
  payload_length ← d_u16;
  require (negb (max_segment_payload_bytes limits <? payload_length)) PersistAbsurdCount
    payload_length;;
  payload ← blob payload_length;
  mret {| seg_kind := kind_of_value kind; seg_encoding := encoding_of_value encoding;
          seg_id := id; seg_generation := generation; seg_node := node;
          seg_adjacency := adjacency; seg_endpoint := endpoint; seg_binding := binding;
          seg_policy := policy; seg_policy_generation := policy_generation;
          seg_topology := topology; seg_payload := payload |}.

Definition decode_profile : Dec SegmentProfile :=
  id ← d_u64;
  generation ← d_u64;
  support ← d_u8;
  kinds_mask ← d_u16;
  max_depth ← d_u32;
  payload_width ← d_u32;
  allow_empty ← flag;
  allow_consecutive_repeats ← flag;
  allow_nonconsecutive_repeats ← flag;
  allow_loose ← flag;
  name_length ← d_u16;
  require (support =? support_value AbstractSynthetic) PersistProfileInvalid support;;
  require (negb (256 <? name_length)) PersistAbsurdCount name_length;;
  name ← blob name_length;
  capability_count ← d_u16;
  require (negb (64 <? capability_count)) PersistAbsurdCount capability_count;;
  required_capabilities ← d_u64s capability_count;
  require (negb (negb (valid id) || negb (valid generation) || (payload_width =? 0)
                 || (max_depth =? 0))) PersistProfileInvalid id;;
  done_reading;;
  mret {| pr_id := id; pr_generation := generation; pr_name := name;
          pr_support := AbstractSynthetic; pr_allowed_kinds_mask := kinds_mask;
          pr_max_depth := max_depth; pr_payload_width := payload_width;
          pr_allow_empty := allow_empty;
          pr_allow_consecutive_repeats := allow_consecutive_repeats;
          pr_allow_nonconsecutive_repeats := allow_nonconsecutive_repeats;
          pr_allow_loose := allow_loose;
          pr_required_capabilities := required_capabilities |}.

Definition decode_policy : Dec SegmentPolicy :=
  id ← d_u64;
  generation ← d_u64;
  owner ← d_u64;
  profile_count ← d_u32;
  require (negb (64 <? profile_count)) PersistAbsurdCount profile_count;;
  allowed_profiles ← d_u64s profile_count;
  kinds_mask ← d_u16;
  max_depth ← d_u32;
  required_count ← d_u32;
  require (negb (256 <? required_count)) PersistAbsurdCount required_count;;
  required_segments ← d_u64s required_count;
  forbidden_count ← d_u32;
  require (negb (256 <? forbidden_count)) PersistAbsurdCount forbidden_count;;
  forbidden_segments ← d_u64s forbidden_count;
  allow_replacement ← flag;
  allow_derivation ← flag;
  require_strict ← flag;
  require (negb (negb (valid id) || negb (valid generation))) PersistProfileInvalid id;;
  done_reading;;
  mret {| po_id := id; po_generation := generation; po_owner_scope := owner;
          po_allowed_profiles := allowed_profiles; po_allowed_kinds_mask := kinds_mask;
          po_max_depth := max_depth; po_required_segments := required_segments;
          po_forbidden_segments := forbidden_segments;
          po_allow_replacement := allow_replacement;
          po_allow_derivation := allow_derivation; po_require_strict := require_strict |}.

(** [state == 0 || state > Retired], [currentness > FencedPublisher] *)
Definition require_state (state : Z) : Dec unit :=
  require (negb ((state =? 0) || (state_value Retired <? state))) PersistCorrupt state.

Definition require_currentness (currentness : Z) : Dec unit :=
  require (negb (currentness_value FencedPublisher <? currentness)) PersistCorrupt currentness.

Definition decode_list (limits : Limits) (profiles : list SegmentProfile) : Dec SegmentList :=
  id ← d_u64;
  scope ← d_u64;
  profile ← d_u64;
  profile_generation ← d_u64;
  policy ← d_u64;
  policy_generation ← d_u64;
  strictness ← d_u8;
  payload_width ← d_u16;
  require ((strictness =? strictness_value Strict) || (strictness =? strictness_value Loose))
    PersistCorrupt strictness;;
  require (negb ((payload_width =? 0) || (max_segment_payload_bytes limits <? payload_width)))
    PersistProfileInvalid payload_width;;
  topology ← d_u64;
  capability ← d_u64;
  path ← d_u64;
  path_authority ← d_u64;
  route ← d_u64;
  route_generation ← d_u64;
  constraint ← d_u64;
  constraint_generation ← d_u64;
  generation ← d_u64;
  supersedes ← d_u64;
  superseded_by ← d_u64;
  history ← d_u64;
  publisher ← d_u64;
  boot ← d_u64;
  epoch ← d_u64;
  attempt ← d_u64;
  source_path ← d_u64;
  source_path_authority ← d_u64;
  source_route ← d_u64;
  source_route_generation ← d_u64;
  source_constraint ← d_u64;
  source_constraint_generation ← d_u64;
  derivation_policy ← d_u64;
  observed_topology ← d_u64;
  observed_capability ← d_u64;
  provenance_publisher ← d_u64;
  provenance_boot ← d_u64;
  provenance_epoch ← d_u64;
  state ← d_u8;
  currentness ← d_u8;
  require_state state;;
  require_currentness currentness;;
  content_hi ← d_u64;
  content_lo ← d_u64;
  sequence_hi ← d_u64;
  sequence_lo ← d_u64;
  committed_revision ← d_u64;
  segment_count ← d_u32;
  require (negb (max_segments_per_list limits <? segment_count)) PersistDepthInvalid
    segment_count;;
  require (valid generation) PersistImpossibleGeneration generation;;
  segments ← repeat_dec (Z.to_nat segment_count) (decode_segment limits);
  done_reading;;
  let c := {|
    c_id := id; c_scope := scope; c_profile := profile;
    c_profile_generation := profile_generation; c_policy := policy;
    c_policy_generation := policy_generation;
    c_strictness := strictness_of_value strictness; c_topology := topology;
    c_capability := capability; c_path := path; c_path_authority := path_authority;
    c_route := route; c_route_generation := route_generation; c_constraint := constraint;
    c_constraint_generation := constraint_generation; c_segments := segments |} in
  require (negb (valid profile) || existsb (fun p => pr_id p =? profile) profiles)
    PersistDanglingReference profile;;
  require (bool_decide (sequence_digest segments payload_width = mkDigest sequence_hi sequence_lo)
           && bool_decide (content_digest c payload_width = mkDigest content_hi content_lo))
    PersistDigestMismatch generation;;
  mret {|
    sl_content := c; sl_generation := generation;
    sl_lineage := {| ln_supersedes := supersedes; ln_superseded_by := superseded_by;
                     ln_history := history |};
    sl_authority := {| au_publisher := publisher; au_boot := boot; au_epoch := epoch;
                       au_attempt := attempt |};
    sl_provenance := {|
      pv_source_path := source_path; pv_source_path_authority := source_path_authority;
      pv_source_route := source_route;
      pv_source_route_generation := source_route_generation;
      pv_source_constraint := source_constraint;
      pv_source_constraint_generation := source_constraint_generation;
      pv_derivation_policy := derivation_policy;
      pv_observed_topology := observed_topology;
      pv_observed_capability := observed_capability;
      pv_publisher := provenance_publisher; pv_boot := provenance_boot;
      pv_epoch := provenance_epoch |};
    sl_state := state_of_value state; sl_currentness := currentness_of_value currentness;
    sl_content_digest := mkDigest content_hi content_lo;
    sl_sequence_digest := mkDigest sequence_hi sequence_lo;
    sl_committed_revision := committed_revision |}.

Definition decode_history : Dec DurableHistoryEntry :=
  id ← d_u64;
  list ← d_u64;
  generation ← d_u64;
  state ← d_u8;
  currentness ← d_u8;
  digest_hi ← d_u64;
  digest_lo ← d_u64;
  revision ← d_u64;
  require_state state;;
  require_currentness currentness;;
  require (valid id && valid generation) PersistImpossibleGeneration generation;;
  done_reading;;
  mret {| dh_id := id; dh_list := list; dh_generation := generation;
          dh_state := state_of_value state;
          dh_currentness := currentness_of_value currentness;
          dh_digest := mkDigest digest_hi digest_lo; dh_revision := revision |}.

Definition decode_attempt : Dec DurableAttemptRecord :=
  attempt ← d_u64;
  list ← d_u64;
  payload_hi ← d_u64;
  payload_lo ← d_u64;
  generation ← d_u64;
  committed ← flag;
  require (valid attempt) PersistImpossibleGeneration attempt;;
  done_reading;;
  mret {| da_attempt := attempt; da_list := list;
          da_payload := mkDigest payload_hi payload_lo; da_generation := generation;
          da_committed := committed |}.

Definition decode_publisher : Dec PublisherState :=
  id ← d_u64;
  boot ← d_u64;
  scope ← d_u64;
  epoch ← d_u64;
  alive ← flag;
  fenced ← flag;
  require (valid id && valid boot) PersistImpossibleGeneration id;;
  done_reading;;
  mret {| ps_id := id; ps_boot := boot; ps_scope := scope; ps_epoch := epoch;
          ps_alive := alive; ps_fenced := fenced |}.

Definition decode_meta : Dec (CoordinatorEpoch * Z) :=
  epoch ← d_u64; revision ← d_u64; done_reading;; mret (epoch, revision).

Definition decode_boot : Dec WorkerBootId :=
  boot ← d_u64; done_reading;; mret boot.

(** Why decoding stops: [result.add(r); return false;], or a record body that failed,
    after which the loop adds [PersistBadRecord] when the result is still empty. *)
Inductive DecodeFailure :=
  | FailAt (r : Reason)
  | FailBody (r : Reason) (parsed : Z).

Definition apply_failure (f : DecodeFailure) (result : ValidationResult) : ValidationResult :=
  match f with
  | FailAt r => add_reason r result
  | FailBody r parsed =>
      let result := add_reason r result in
      if result_ok result then add PersistBadRecord parsed 0 result else result
  end.

(** A decoder of one record body at index [parsed]. *)
Definition run_body {A} (m : Dec A) (body : list Byte.byte) (parsed : Z)
  : A + DecodeFailure :=
  match m (reader body) with
  | inl (x, _) => inl x
  | inr (code, detail) => inr (FailBody (mkReason code parsed detail) parsed)
  end.

(** The [switch] on the record type. *)
Definition decode_record (limits : Limits) (type : RecordType) (raw_type : Z)
    (body : list Byte.byte) (parsed : Z) (decoded : DurableState)
  : DurableState + DecodeFailure :=
  let duplicate id := inr (FailAt (mkReason PersistDuplicateIdentity parsed id)) in
  match type with
  | Meta =>
      match run_body decode_meta body parsed with
      | inl (epoch, revision) =>
          inl {| decoded with ds_epoch := epoch; ds_revision := revision |}
      | inr f => inr f
      end
  | Profile =>
      match run_body decode_profile body parsed with
      | inl p =>
          if existsb (fun e => pr_id e =? pr_id p) (ds_profiles decoded)
          then duplicate (pr_id p)
          else inl {| decoded with ds_profiles := ds_profiles decoded ++ [p] |}
      | inr f => inr f
      end
  | Policy =>
      match run_body decode_policy body parsed with
      | inl p =>
          if existsb (fun e => po_id e =? po_id p) (ds_policies decoded)
          then duplicate (po_id p)
          else inl {| decoded with ds_policies := ds_policies decoded ++ [p] |}
      | inr f => inr f
      end
  | List =>
      match run_body (decode_list limits (ds_profiles decoded)) body parsed with
      | inl l =>
          if existsb (fun e => sl_id e =? sl_id l) (ds_lists decoded)
          then duplicate (sl_id l)
          else inl {| decoded with ds_lists := ds_lists decoded ++ [l] |}
      | inr f => inr f
      end
  | History =>
      match run_body decode_history body parsed with
      | inl h => inl {| decoded with ds_history := ds_history decoded ++ [h] |}
      | inr f => inr f
      end
  | Attempt =>
      match run_body decode_attempt body parsed with
      | inl a => inl {| decoded with ds_attempts := ds_attempts decoded ++ [a] |}
      | inr f => inr f
      end
  | Publisher =>
      match run_body decode_publisher body parsed with
      | inl p => inl {| decoded with ds_publishers := ds_publishers decoded ++ [p] |}
      | inr f => inr f
      end
  | FencedBoot =>
      match run_body decode_boot body parsed with
      | inl boot =>
          if negb (valid boot)
          then inr (FailAt (mkReason PersistImpossibleGeneration parsed boot))
          else inl {| decoded with ds_fenced_boots := ds_fenced_boots decoded ++ [boot] |}
      | inr f => inr f
      end
  | RtInvalid => inr (FailAt (mkReason PersistBadRecord parsed raw_type))
  end.

(** One turn of [while (!r.at_end())]: the framed record under the cursor. *)
Definition next_record (limits : Limits) (parsed : Z) (r : ByteReader)
  : (Z * list Byte.byte * ByteReader) + DecodeFailure :=
  let failed code detail := inr (FailAt (mkReason code parsed detail)) in
  match read_u16 r with
  | (None, _) => failed PersistTruncated 0
  | (Some raw_type, r) =>
  match read_u32 r with
  | (None, _) => failed PersistTruncated 0
  | (Some length, r) =>
      if (raw_type <? record_value Meta) || (record_value FencedBoot <? raw_type)
      then failed PersistBadRecord raw_type
      else if max_persistence_record_bytes limits <? length
      then failed PersistAbsurdCount length
      else if remaining r <? length then failed PersistTruncated 0
      else
        let body := take (Z.to_nat length) (rest r) in
        match skip length r with
        | (true, r) => inl (raw_type, body, r)
        | (false, _) => failed PersistTruncated 0
        end
  end
  end.

(** The loop; [None] when the fuel ran out before the end of the records. *)
Fixpoint decode_records (fuel : nat) (limits : Limits) (r : ByteReader) (parsed : Z)
    (decoded : DurableState) : option ((DurableState * Z) + DecodeFailure) :=
  if at_end r then Some (inl (decoded, parsed))
  else
    match fuel with
    | O => None
    | S fuel =>
        match next_record limits parsed r with
        | inr f => Some (inr f)
        | inl (raw_type, body, r) =>
            match decode_record limits (record_of_value raw_type) raw_type body parsed
                    decoded with
            | inr f => Some (inr f)
            | inl decoded => decode_records fuel limits r (u32 (parsed + 1)) decoded
            end
        end
    end.

(** The checked counts after the loop. *)
Definition check_counts (limits : Limits) (record_count parsed : Z) (s : DurableState)
  : option Reason :=
  let absurd n := Some (mkReason PersistAbsurdCount 0 n) in
  if negb (parsed =? record_count) then Some (mkReason PersistCountMismatch 0 record_count)
  else if max_history limits <? size (ds_history s) then absurd (size (ds_history s))
  else if max_attempt_records limits <? size (ds_attempts s)
  then absurd (size (ds_attempts s))
  else if max_lists limits <? size (ds_lists s) then absurd (size (ds_lists s))
  else if max_profiles limits <? size (ds_profiles s) then absurd (size (ds_profiles s))
  else if max_policies limits <? size (ds_policies s) then absurd (size (ds_policies s))
  else if max_publishers limits <? size (ds_publishers s)
  then absurd (size (ds_publishers s))
  else None.

Definition plausible_records (limits : Limits) : Z :=
  u64 (max_lists limits + max_profiles limits + max_policies limits + max_history limits +
       max_attempt_records limits + max_publishers limits + 1).

(** The framing checks, up to the record payload. *)
Definition check_frame (bytes : list Byte.byte) (limits : Limits)
  : (Z * list Byte.byte) + Reason :=
  let failed code detail := inr (mkReason code 0 detail) in
  if match bytes with [] => true | _ => false end then failed PersistEmpty 0
  else if size bytes <? kHeaderBytes + kTrailerBytes
  then failed PersistTruncated (size bytes)
  else if negb (bool_decide (take 4 bytes = kMagic)) then failed PersistBadMagic 0
  else
    let header := take (Z.to_nat kHeaderBytes) bytes in
    match (version ← d_u16; flags ← d_u16; payload_length ← d_u64; record_count ← d_u32;
           header_crc ← d_u32; mret (version, flags, payload_length, record_count, header_crc))
          (skip 4 (reader header)).2 with
    | inr _ => failed PersistTruncated 0
    | inl (version, flags, payload_length, record_count, header_crc, _) =>
        if negb (header_crc =? crc32c (take (Z.to_nat (kHeaderBytes - 4)) bytes))
        then failed PersistBadIntegrity 0
        else if negb (version =? kPersistenceFormatVersion) || negb (flags =? 0)
        then failed PersistBadVersion version
        else if size bytes <? payload_length then failed PersistOverflow payload_length
        else
          let expected := u64 (kHeaderBytes + payload_length + kTrailerBytes) in
          if size bytes <? expected then failed PersistTruncated (size bytes)
          else if expected <? size bytes then failed PersistTrailingBytes (size bytes - expected)
          else
            let records :=
              take (Z.to_nat payload_length) (drop (Z.to_nat kHeaderBytes) bytes) in
            match read_u32 (reader (take (Z.to_nat kTrailerBytes)
                    (drop (Z.to_nat (kHeaderBytes + payload_length)) bytes))) with
            | (None, _) => failed PersistTruncated 0
            | (Some payload_crc, _) =>
                if negb (payload_crc =? crc32c records) then failed PersistBadIntegrity 0
                else if plausible_records limits <? record_count
                then failed PersistAbsurdCount record_count
                else inl (record_count, records)
            end
    end.

Definition decode_durable_state (bytes : list Byte.byte) (limits : Limits)
    (result : ValidationResult) : option DurableState * ValidationResult :=
  let result := set_limits (Some limits) result in
  match check_frame bytes limits with
  | inr reason => (None, add_reason reason result)
  | inl (record_count, records) =>
      match decode_records (length records) limits (reader records) 0 empty_durable with
      | None => (None, result)
      | Some (inr failure) => (None, apply_failure failure result)
      | Some (inl (decoded, parsed)) =>
          match check_counts limits record_count parsed decoded with
          | Some reason => (None, add_reason reason result)
          | None => (Some decoded, result)
          end
      end
  end.

(** ** Backends *)

(** [IPersistence]: the operations a store calls.  [p_image] is the durable image an
    observer of the backend would find, empty when there is none. *)
Class IPersistence (P : Type) := {
  p_save : DurableState -> Limits -> ValidationResult -> P -> bool * ValidationResult * P;
  p_load : LoadReport -> Limits -> P -> bool * LoadReport;
  p_erase : P -> bool * P;
  p_image : P -> list Byte.byte;
}.

(** The tail of [load] that both backends share. *)
Definition load_bytes (bytes : list Byte.byte) (limits : Limits) (report : LoadReport)
  : bool * LoadReport :=
  match decode_durable_state bytes limits (lr_result report) with
  | (None, result) => (false, {| report with lr_loaded := false; lr_result := result |})
  | (Some state, result) =>
      (true, {| report with lr_loaded := true; lr_empty := false; lr_result := result;
                lr_state := state; lr_lists_recovered := size (ds_lists state);
                lr_history_entries := size (ds_history state) |})
  end.

(** What a store relies on: a save that returns [true] has replaced the image by the
    encoding of the state, one that returns [false] has left it and says why, and a
    load that is not disturbed decodes the image. *)
Class PersistenceLaws (P : Type) `{IPersistence P} := {
  p_undisturbed : P -> Prop;
  p_save_true : forall state limits out p out' p',
    p_save state limits out p = (true, out', p') ->
    p_image p' = (encode_durable_state state limits (set_limits (Some limits) out)).1 /\
    p_image p' <> [] /\ result_ok out' = true;
  p_save_false : forall state limits out p out' p',
    p_save state limits out p = (false, out', p') ->
    p_image p' = p_image p /\ (0 < max_reasons limits -> result_ok out' = false);
  p_load_image : forall report limits p,
    p_undisturbed p -> p_image p <> [] ->
    p_load report limits p =
      load_bytes (p_image p) limits
        {| report with lr_result := set_limits (Some limits) (lr_result report) |};
}.

(** The head of [save] that both backends share: the encoding, or the failure. *)
Definition encode_for_save (state : DurableState) (limits : Limits) (out : ValidationResult)
  : option ByteBuffer * ValidationResult :=
  let '(bytes, out) := encode_durable_state state limits out in
  if failed out || match bytes with [] => true | _ => false end
  then (None, if result_ok out then add PersistBadRecord 0 0 out else out)
  else (Some bytes, out).

(** *** [MemoryPersistence] *)
Record MemoryPersistence := {
  mp_bytes : list Byte.byte;
  mp_save_count : Z;
  mp_fail_next : bool;
}.

Definition new_memory : MemoryPersistence :=
  {| mp_bytes := []; mp_save_count := 0; mp_fail_next := false |}.

Module MemoryPersistence.
Definition save (state : DurableState) (limits : Limits) (out : ValidationResult)
    (m : MemoryPersistence) : bool * ValidationResult * MemoryPersistence :=
  let out := set_limits (Some limits) out in
  let m := {| m with mp_save_count := u64 (mp_save_count m + 1) |} in
  if mp_fail_next m then
    (false, add CommitPersistenceFailure 0 0 out, {| m with mp_fail_next := false |})
  else
    match encode_for_save state limits out with
    | (None, out) => (false, out, m)
    | (Some bytes, out) => (true, out, {| m with mp_bytes := bytes |})
    end.

Definition load (report : LoadReport) (limits : Limits) (m : MemoryPersistence)
  : bool * LoadReport :=
  let report := {| report with lr_result := set_limits (Some limits) (lr_result report) |} in
  match mp_bytes m with
  | [] => (true, {| report with lr_empty := true; lr_loaded := false |})
  | _ => load_bytes (mp_bytes m) limits report
  end.

Definition erase (m : MemoryPersistence) : bool * MemoryPersistence :=
  (true, {| m with mp_bytes := [] |}).

Definition fail_next_save (m : MemoryPersistence) : MemoryPersistence :=
  {| m with mp_fail_next := true |}.

Definition corrupt_byte (offset xor_mask : Z) (m : MemoryPersistence)
  : bool * MemoryPersistence :=
  if size (mp_bytes m) <=? offset then (false, m)
  else (true, {| m with mp_bytes :=
    alter (fun b => byte.of_Z (Z.lxor (byte.unsigned b) xor_mask)) (Z.to_nat offset)
      (mp_bytes m) |}).

Definition set_bytes (bytes : list Byte.byte) (m : MemoryPersistence) : MemoryPersistence :=
  {| m with mp_bytes := bytes |}.

Definition has_content (m : MemoryPersistence) : bool :=
  match mp_bytes m with [] => false | _ => true end.
End MemoryPersistence.

#[global] Instance memory_persistence : IPersistence MemoryPersistence := {|
  p_save := MemoryPersistence.save;
  p_load := MemoryPersistence.load;
  p_erase := MemoryPersistence.erase;
  p_image := mp_bytes;
|}.

(** *** [FilePersistence] *)

(** How the library calls of one operation turn out: an error code (zero is success) of
    [create_directories], [rename] and [remove], whether the streams open, how many
    bytes reach the temporary file and whether the flush succeeds. *)
Record FileOutcomes := {
  fo_has_parent : bool;
  fo_mkdir : Z;
  fo_open : bool;
  fo_written : nat;
  fo_flush : bool;
  fo_rename : Z;
  fo_open_read : bool;
  fo_read : bool;
  fo_remove : Z;
}.

Record FilePersistence := {
  fp_target : option (list Byte.byte);
  fp_temp : option (list Byte.byte);
  fp_outcomes : FileOutcomes;
}.

Module FilePersistence.
(** The result of [save] and the states of the directory it goes through, the last
    one first. *)
Definition save_trace (state : DurableState) (limits : Limits) (out : ValidationResult)
    (f : FilePersistence) : bool * ValidationResult * list FilePersistence :=
  let o := fp_outcomes f in
  match encode_for_save state limits (set_limits (Some limits) out) with
  | (None, out) => (false, out, [f])
  | (Some bytes, out) =>
      if fo_has_parent o && negb (fo_mkdir o =? 0)
      then (false, add PersistIoError 0 (fo_mkdir o) out, [f])
      else if negb (fo_open o) then (false, add PersistIoError 0 0 out, [f])
      else
        let opened := {| f with fp_temp := Some [] |} in
        let written := {| f with fp_temp := Some (take (fo_written o) bytes) |} in
        if negb (fo_flush o) then
          let removed := {| f with fp_temp := None |} in
          (false, add PersistIoError 0 0 out, [removed; written; opened; f])
        else
          let flushed := {| f with fp_temp := Some bytes |} in
          if negb (fo_rename o =? 0) then
            let removed := {| f with fp_temp := None |} in
            (false, add PersistIoError 0 (fo_rename o) out,
             [removed; flushed; written; opened; f])
          else
            let renamed := {| f with fp_target := Some bytes; fp_temp := None |} in
            (true, out, [renamed; flushed; written; opened; f])
  end.

Definition save (state : DurableState) (limits : Limits) (out : ValidationResult)
    (f : FilePersistence) : bool * ValidationResult * FilePersistence :=
  let '(ok, out, trace) := save_trace state limits out f in
  (ok, out, hd f trace).

Definition load (report : LoadReport) (limits : Limits) (f : FilePersistence)
  : bool * LoadReport :=
  let o := fp_outcomes f in
  let report := {| report with lr_result := set_limits (Some limits) (lr_result report) |} in
  match fp_target f with
  | None => (true, {| report with lr_empty := true; lr_loaded := false |})
  | Some bytes =>
      let io_error :=
        (false, {| report with lr_result := add PersistIoError 0 0 (lr_result report) |}) in
      if negb (fo_open_read o) then io_error
      else if (0 <? size bytes) && negb (fo_read o) then io_error
      else load_bytes bytes limits report
  end.

Definition erase (f : FilePersistence) : bool * FilePersistence :=
  if fo_remove (fp_outcomes f) =? 0 then (true, {| f with fp_target := None |})
  else (false, f).
End FilePersistence.

#[global] Instance file_persistence : IPersistence FilePersistence := {|
  p_save := FilePersistence.save;
  p_load := FilePersistence.load;
  p_erase := FilePersistence.erase;
  p_image := fun f => match fp_target f with Some bytes => bytes | None => [] end;
|}.
