(* ===== verification/PersistenceProps.v ===== *)
(** * Correctness of persistence

    Round trip of every record and of a whole image, rejection of every corrupted
    image, totality of the decoding loop, and the laws of the two backends with the
    atomicity of replace-by-rename. *)

From coqutil Require Import Word.LittleEndianList.
From S2P Require Import Prelude.
From S2P Require Import Ids.
From S2P Require Import Bytes.
From S2P Require Import Digest.
From S2P Require Import Segment.
From S2P Require Import Reason.
From S2P Require Import Lifecycle.
From S2P Require Import Governance.
From S2P Require Import Authority.
From S2P Require Import Codec.
From S2P Require Import Persistence.

(** ** Records *)

Lemma decodes_put64s n zs :
  n = size zs -> Forall (fits 64) zs -> decodes (d_u64s n) (put64s zs) zs.
Proof. intros ->. apply decodes_u64s. Qed.

Lemma kind_of_value_kind k : kind_of_value (kind_value k) = k.
Proof. by destruct k. Qed.
Lemma encoding_of_value_encoding e : encoding_of_value (encoding_value e) = e.
Proof. by destruct e. Qed.
Lemma strictness_of_value_strictness s : strictness_of_value (strictness_value s) = s.
Proof. by destruct s. Qed.
Lemma state_of_value_state s : state_of_value (state_value s) = s.
Proof. by destruct s. Qed.
Lemma currentness_of_value_currentness c : currentness_of_value (currentness_value c) = c.
Proof. by destruct c. Qed.

Lemma fits_kind k : fits 16 (kind_value k).
Proof. destruct k; vm_compute; split; congruence. Qed.
Lemma fits_encoding e : fits 16 (encoding_value e).
Proof. destruct e; vm_compute; split; congruence. Qed.
Lemma fits_strictness s : fits 8 (strictness_value s).
Proof. destruct s; vm_compute; split; congruence. Qed.
Lemma fits_state s : fits 8 (state_value s).
Proof. destruct s; vm_compute; split; congruence. Qed.
Lemma fits_currentness c : fits 8 (currentness_value c).
Proof. destruct c; vm_compute; split; congruence. Qed.
Lemma fits_support s : fits 8 (support_value s).
Proof. destruct s; vm_compute; split; congruence. Qed.

#[export] Hint Resolve decodes_put64s fits_kind fits_encoding fits_strictness fits_state
  fits_currentness fits_support : codec.

(** A segment the decoder accepts. *)
Definition segment_storable (limits : Limits) (s : Segment) : Prop :=
  seg_kind s <> KInvalid /\ seg_encoding s <> EInvalid /\ segment_fits s /\
  size (seg_payload s) <= max_segment_payload_bytes limits /\ fits 16 (size (seg_payload s)).

Lemma storable_kind k : k <> KInvalid ->
  negb ((kind_value k =? 0) || (kind_value KPolicy <? kind_value k)) = true.
Proof. by destruct k. Qed.
Lemma storable_encoding e : e <> EInvalid ->
  negb ((encoding_value e =? 0) || (encoding_value AbstractPolicyV1 <? encoding_value e)) = true.
Proof. by destruct e. Qed.
Lemma storable_state s : s <> SInvalid ->
  negb ((state_value s =? 0) || (state_value Retired <? state_value s)) = true.
Proof. by destruct s. Qed.
Lemma storable_currentness c :
  negb (currentness_value FencedPublisher <? currentness_value c) = true.
Proof. by destruct c. Qed.
Lemma not_above m n : n <= m -> negb (m <? n) = true.
Proof. intros. apply negb_true_iff, Z.ltb_ge. lia. Qed.

Lemma both_valid a b : a <> 0 -> b <> 0 -> valid a && valid b = true.
Proof. intros. by rewrite andb_true_iff, !valid_true. Qed.

Lemma fits_size {A} w (l : list A) n : 0 <= w -> size l <= n -> n <? 2 ^ w = true -> fits w (size l).
Proof. intros Hw Hl Hn. pose proof (size_nonneg l). simpl_bools. unfold fits. lia. Qed.

#[export] Hint Resolve storable_kind storable_encoding storable_state storable_currentness
  not_above both_valid : codec.

(** Discharge the check of a decoder from the storability of what was written. *)
Ltac storable :=
  lazymatch goal with
  | |- _ = true =>
      solve [ auto with codec
            | rewrite ?negb_orb, ?andb_true_iff, ?negb_involutive, ?negb_true_iff,
                ?valid_true, ?Z.eqb_neq, ?Z.eqb_eq; tauto ]
  end.

Lemma decode_segment_write limits s :
  segment_storable limits s -> decodes (decode_segment limits) (write_segment s) s.
Proof.
  intros (Hk & He & (? & ? & ? & ? & ? & ? & ? & ? & ?) & Hp & Hp').
  unfold decode_segment, write_segment. decode_fields; try storable.
  rewrite kind_of_value_kind, encoding_of_value_encoding. destruct s. apply decodes_ret.
Qed.

Definition profile_storable (p : SegmentProfile) : Prop :=
  fits 64 (pr_id p) /\ pr_id p <> 0 /\ fits 64 (pr_generation p) /\ pr_generation p <> 0 /\
  pr_support p = AbstractSynthetic /\ fits 16 (pr_allowed_kinds_mask p) /\
  fits 32 (pr_max_depth p) /\ pr_max_depth p <> 0 /\
  fits 32 (pr_payload_width p) /\ pr_payload_width p <> 0 /\
  size (pr_name p) <= 256 /\ size (pr_required_capabilities p) <= 64 /\
  Forall (fits 64) (pr_required_capabilities p).

Lemma decode_profile_encode p :
  profile_storable p -> decodes_all decode_profile (encode_profile p) p.
Proof.
  intros (? & ? & ? & ? & Hs & ? & ? & ? & ? & ? & Hn & Hc & ?).
  pose proof (fits_size 16 (pr_name p) 256 ltac:(lia) Hn ltac:(done)).
  pose proof (fits_size 16 (pr_required_capabilities p) 64 ltac:(lia) Hc ltac:(done)).
  unfold decode_profile, encode_profile. decode_fields; try storable.
  rewrite <-Hs. destruct p. apply decodes_all_ret.
Qed.

Definition policy_storable (p : SegmentPolicy) : Prop :=
  fits 64 (po_id p) /\ po_id p <> 0 /\ fits 64 (po_generation p) /\ po_generation p <> 0 /\
  fits 64 (po_owner_scope p) /\ fits 16 (po_allowed_kinds_mask p) /\
  fits 32 (po_max_depth p) /\
  size (po_allowed_profiles p) <= 64 /\ Forall (fits 64) (po_allowed_profiles p) /\
  size (po_required_segments p) <= 256 /\ Forall (fits 64) (po_required_segments p) /\
  size (po_forbidden_segments p) <= 256 /\ Forall (fits 64) (po_forbidden_segments p).

Lemma decode_policy_encode p :
  policy_storable p -> decodes_all decode_policy (encode_policy p) p.
Proof.
  intros (? & ? & ? & ? & ? & ? & ? & Ha & ? & Hr & ? & Hf & ?).
  pose proof (fits_size 32 (po_allowed_profiles p) 64 ltac:(lia) Ha ltac:(done)).
  pose proof (fits_size 32 (po_required_segments p) 256 ltac:(lia) Hr ltac:(done)).
  pose proof (fits_size 32 (po_forbidden_segments p) 256 ltac:(lia) Hf ltac:(done)).
  unfold decode_policy, encode_policy. decode_fields; try storable.
  destruct p. apply decodes_all_ret.
Qed.

Definition history_storable (h : DurableHistoryEntry) : Prop :=
  fits 64 (dh_id h) /\ dh_id h <> 0 /\ fits 64 (dh_list h) /\
  fits 64 (dh_generation h) /\ dh_generation h <> 0 /\ dh_state h <> SInvalid /\
  fits 64 (hi (dh_digest h)) /\ fits 64 (lo (dh_digest h)) /\ fits 64 (dh_revision h).

Lemma decode_history_encode h :
  history_storable h -> decodes_all decode_history (encode_history h) h.
Proof.
  intros (? & ? & ? & ? & ? & ? & ? & ? & ?).
  unfold decode_history, encode_history, require_state, require_currentness. decode_fields; try storable.
  rewrite state_of_value_state, currentness_of_value_currentness.
  destruct h as [?????[]?]. apply decodes_all_ret.
Qed.

Definition attempt_storable (a : DurableAttemptRecord) : Prop :=
  fits 64 (da_attempt a) /\ da_attempt a <> 0 /\ fits 64 (da_list a) /\
  fits 64 (hi (da_payload a)) /\ fits 64 (lo (da_payload a)) /\ fits 64 (da_generation a).

Lemma decode_attempt_encode a :
  attempt_storable a -> decodes_all decode_attempt (encode_attempt a) a.
Proof.
  intros (? & ? & ? & ? & ? & ?).
  unfold decode_attempt, encode_attempt. decode_fields; try storable.
  destruct a as [??[]??]. apply decodes_all_ret.
Qed.

Definition publisher_storable (p : PublisherState) : Prop :=
  fits 64 (ps_id p) /\ ps_id p <> 0 /\ fits 64 (ps_boot p) /\ ps_boot p <> 0 /\
  fits 64 (ps_scope p) /\ fits 64 (ps_epoch p).

Lemma decode_publisher_encode p :
  publisher_storable p -> decodes_all decode_publisher (encode_publisher p) p.
Proof.
  intros (? & ? & ? & ? & ? & ?).
  unfold decode_publisher, encode_publisher. decode_fields; try storable.
  destruct p. apply decodes_all_ret.
Qed.

(** A list the decoder accepts, given the profiles and the width it is encoded with. *)
Definition list_storable (limits : Limits) (profiles : list SegmentProfile) (w : Z)
    (l : SegmentList) : Prop :=
  let c := sl_content l in
  let ln := sl_lineage l in
  let au := sl_authority l in
  let pv := sl_provenance l in
  0 < w <= max_segment_payload_bytes limits /\ fits 16 w /\
  (c_profile c = 0 \/ c_profile c ∈ map pr_id profiles) /\
  Forall (fits 64) (content_head c) /\ Forall (fits 64) (content_bindings c) /\
  Forall (fits 64) [sl_generation l; ln_supersedes ln; ln_superseded_by ln; ln_history ln;
    au_publisher au; au_boot au; au_epoch au; au_attempt au] /\
  Forall (fits 64) [pv_source_path pv; pv_source_path_authority pv; pv_source_route pv;
    pv_source_route_generation pv; pv_source_constraint pv;
    pv_source_constraint_generation pv; pv_derivation_policy pv; pv_observed_topology pv;
    pv_observed_capability pv; pv_publisher pv; pv_boot pv; pv_epoch pv] /\
  Forall (fits 64) [hi (sl_content_digest l); lo (sl_content_digest l);
    hi (sl_sequence_digest l); lo (sl_sequence_digest l); sl_committed_revision l] /\
  sl_generation l <> 0 /\ sl_state l <> SInvalid /\
  size (c_segments c) <= max_segments_per_list limits /\ fits 32 (size (c_segments c)) /\
  Forall (segment_storable limits) (c_segments c) /\
  sl_sequence_digest l = sequence_digest (c_segments c) w /\
  sl_content_digest l = content_digest c w.

Lemma decodes_segments limits n ss :
  n = size ss -> Forall (segment_storable limits) ss ->
  decodes (repeat_dec (Z.to_nat n) (decode_segment limits)) (concat (map write_segment ss)) ss.
Proof.
  intros -> H. unfold size. rewrite Nat2Z.id. apply decodes_repeat.
  eapply list.Forall_impl; [exact H|]. apply decode_segment_write.
Qed.

#[export] Hint Resolve decodes_segments : codec.

Lemma existsb_profile id profiles :
  existsb (fun p => pr_id p =? id) profiles = true <-> id ∈ map pr_id profiles.
Proof.
  rewrite existsb_exists. setoid_rewrite Z.eqb_eq. rewrite list_elem_of_In, in_map_iff.
  split; intros (x & ? & ?); exists x; auto.
Qed.

Lemma strictness_check s :
  (strictness_value s =? strictness_value Strict)
  || (strictness_value s =? strictness_value Loose) = true.
Proof. by destruct s. Qed.

Lemma width_check limits w :
  0 < w <= max_segment_payload_bytes limits ->
  negb ((w =? 0) || (max_segment_payload_bytes limits <? w)) = true.
Proof.
  intros. rewrite negb_orb, andb_true_iff, !negb_true_iff, Z.eqb_neq, Z.ltb_ge. lia.
Qed.

Lemma dangling_check profile profiles :
  profile = 0 \/ profile ∈ map pr_id profiles ->
  negb (valid profile) || existsb (fun p => pr_id p =? profile) profiles = true.
Proof. rewrite orb_true_iff, negb_true_iff, valid_false, existsb_profile. done. Qed.

#[export] Hint Resolve strictness_check width_check dangling_check : codec.

Ltac forall_fits :=
  repeat match goal with H : Forall (fits _) (_ :: _) |- _ =>
    apply list.Forall_cons in H as [? H] end.

Lemma digest_eta d : {| hi := hi d; lo := lo d |} = d.
Proof. by destruct d. Qed.

Lemma content_eta c : {|
  c_id := c_id c; c_scope := c_scope c; c_profile := c_profile c;
  c_profile_generation := c_profile_generation c; c_policy := c_policy c;
  c_policy_generation := c_policy_generation c; c_strictness := c_strictness c;
  c_topology := c_topology c; c_capability := c_capability c; c_path := c_path c;
  c_path_authority := c_path_authority c; c_route := c_route c;
  c_route_generation := c_route_generation c; c_constraint := c_constraint c;
  c_constraint_generation := c_constraint_generation c; c_segments := c_segments c |} = c.
Proof. by destruct c. Qed.

Lemma decode_list_encode limits s profiles l :
  list_storable limits profiles (encoded_width s (sl_content l)) l ->
  decodes_all (decode_list limits profiles) (encode_list s l) l.
Proof.
  unfold list_storable. cbv zeta.
  intros (Hw & ? & Hp & Hh & Hb & Ho & Hv & Hd & ? & ? & Hn & ? & Hs & Hsd & Hcd).
  unfold content_head, content_bindings in *. forall_fits.
  unfold decode_list, encode_list, require_state, require_currentness. cbv zeta.
  decode_fields; try storable.
  - rewrite strictness_of_value_strictness, andb_true_iff, !bool_decide_eq_true.
    rewrite (digest_eta (sl_sequence_digest l)), (digest_eta (sl_content_digest l)),
      (content_eta (sl_content l)). done.
  - rewrite strictness_of_value_strictness, state_of_value_state,
      currentness_of_value_currentness.
    destruct l as [[] ? [] [] [] ? ? [] [] ?]. apply decodes_all_ret.
Qed.

(** ** The records of an image *)

Definition frame_record (r : RecordType * ByteBuffer) : list Byte.byte :=
  put16 (record_value r.1) ++ put32 (size r.2) ++ r.2.

(** Every record fits the record bound, so the encoder does not fail. *)
Definition records_within (limits : Limits) (recs : list (RecordType * ByteBuffer)) : Prop :=
  Forall (fun r => size r.2 <= max_persistence_record_bytes limits) recs.

Lemma emit_records limits recs enc :
  en_failed enc = false -> records_within limits recs ->
  fits 32 (en_count enc) -> fits 32 (en_count enc + size recs) ->
  fold_left (emit_record limits) recs enc =
    {| enc with en_records := en_records enc ++ concat (map frame_record recs);
                en_count := en_count enc + size recs |}.
Proof.
  intros Hf Hw. revert enc Hf. induction Hw as [|[t b] recs Hr Hw IH]; intros enc Hf Hc Hs.
  - cbn. rewrite app_nil_r, size_nil, Z.add_0_r. by destruct enc.
  - rewrite size_cons in Hs. pose proof (size_nonneg recs). cbn [fold_left emit_record].
    rewrite Hf. destruct (Z.ltb_spec (max_persistence_record_bytes limits) (size b));
      [cbn in Hr; lia|].
    assert (u32 (en_count enc + 1) = en_count enc + 1) as Hu.
    { apply wrap_small. unfold fits in *. lia. }
    rewrite Hu, IH; cbn [en_failed en_count en_records]; [|done|unfold fits in *; lia|].
    + rewrite size_cons. cbn [map concat frame_record fst snd]. f_equal; [|lia].
      unfold frame_record. cbn [fst snd]. by rewrite <-!app_assoc.
    + by rewrite <-Z.add_assoc.
Qed.

(** A record whose decoding extends the state. *)
Definition extends (limits : Limits) (r : RecordType * ByteBuffer) (s s' : DurableState)
  : Prop :=
  r.1 <> RtInvalid /\
  forall raw parsed, decode_record limits r.1 raw r.2 parsed s = inl s'.

Inductive extends_all (limits : Limits)
  : list (RecordType * ByteBuffer) -> DurableState -> DurableState -> Prop :=
  | extends_nil s : extends_all limits [] s s
  | extends_cons r recs s s' s'' :
      extends limits r s s' -> extends_all limits recs s' s'' ->
      extends_all limits (r :: recs) s s''.

Lemma extends_app limits recs recs' s s' s'' :
  extends_all limits recs s s' -> extends_all limits recs' s' s'' ->
  extends_all limits (recs ++ recs') s s''.
Proof. induction 1; cbn; intros; [done|]. by econstructor; [|apply IHextends_all]. Qed.

Lemma record_of_value_record t : t <> RtInvalid -> record_of_value (record_value t) = t.
Proof. by destruct t. Qed.

Lemma fits_record t : fits 16 (record_value t).
Proof. destruct t; vm_compute; split; congruence. Qed.

Lemma record_in_range t : t <> RtInvalid ->
  (record_value t <? record_value Meta) || (record_value FencedBoot <? record_value t) = false.
Proof. by destruct t. Qed.

Lemma read_value n v r tl :
  fits (8 * Z.of_nat n) v -> in_front r (le_split n v ++ tl) ->
  exists r', read_uint (Z.of_nat n) r = (Some v, r') /\ in_front r' tl.
Proof.
  intros Hv (Hwf & Hok & Hr). destruct (read_uint_app n v tl r Hv Hwf Hok Hr) as (r' & ? & ?).
  by exists r'.
Qed.

Lemma in_front_skip r bs tl :
  in_front r (bs ++ tl) ->
  take (Z.to_nat (size bs)) (rest r) = bs /\ size bs <= remaining r /\
  exists r', skip (size bs) r = (true, r') /\ in_front r' tl.
Proof.
  intros (Hwf & Hok & Hr). pose proof (size_rest r Hwf) as Hs.
  rewrite Hr, size_app in Hs. pose proof (size_nonneg tl).
  split_and!; [|lia|].
  - rewrite Hr. unfold size. by rewrite Nat2Z.id, take_app_length.
  - destruct (read_raw_app bs tl r Hwf Hok Hr) as (r' & E & Hr').
    exists r'. split; [|done]. unfold read_raw in E. unfold skip.
    destruct (negb (ok r) || (remaining r <? size bs)); [done|]. by injection E as _ <-.
Qed.

Lemma next_record_frame limits parsed t body r tl :
  t <> RtInvalid -> size body <= max_persistence_record_bytes limits ->
  fits 32 (size body) -> in_front r (frame_record (t, body) ++ tl) ->
  exists r', next_record limits parsed r = inl (record_value t, body, r') /\ in_front r' tl.
Proof.
  intros Ht Hb Hf Hr. unfold frame_record in Hr. cbn [fst snd] in Hr.
  rewrite <-!app_assoc in Hr.
  destruct (read_value 2 _ r _ (fits_record t) Hr) as (r1 & E1 & Hr1).
  destruct (read_value 4 _ r1 _ Hf Hr1) as (r2 & E2 & Hr2).
  destruct (in_front_skip r2 body tl Hr2) as (Htake & Hrem & r3 & E3 & Hr3).
  exists r3. split; [|done]. unfold next_record.
  change (read_u16 r) with (read_uint (Z.of_nat 2) r). rewrite E1.
  change (read_u32 r1) with (read_uint (Z.of_nat 4) r1). rewrite E2.
  rewrite record_in_range by done.
  destruct (Z.ltb_spec (max_persistence_record_bytes limits) (size body)); [lia|].
  destruct (Z.ltb_spec (remaining r2) (size body)); [lia|]. by rewrite Htake, E3.
Qed.

(** The loop reads back every framed record, in order. *)
Lemma decode_records_frames limits recs s s' :
  extends_all limits recs s s' -> records_within limits recs ->
  Forall (fun r => fits 32 (size r.2)) recs ->
  forall fuel r parsed, (length recs <= fuel)%nat -> in_front r (concat (map frame_record recs)) ->
  fits 32 parsed -> fits 32 (parsed + size recs) ->
  decode_records fuel limits r parsed s = Some (inl (s', parsed + size recs)).
Proof.
  induction 1 as [s|[t body] recs s s' s'' [Ht Hd] H IH]; intros Hw Hf fuel r parsed Hfuel Hr Hp Hs.
  - destruct Hr as (Hwf & _ & Hr). apply at_end_rest in Hr; [|done].
    rewrite size_nil, Z.add_0_r. destruct fuel; cbn; by rewrite Hr.
  - apply list.Forall_cons in Hw as [Hb Hw]. apply list.Forall_cons in Hf as [Hf1 Hf].
    cbn [map concat] in Hr. rewrite size_cons in *. pose proof (size_nonneg recs).
    destruct fuel as [|fuel]; [cbn in Hfuel; lia|].
    destruct (next_record_frame limits parsed t body r _ Ht Hb Hf1 Hr) as (r' & E & Hr').
    assert (at_end r = false) as Hend.
    { apply not_true_iff_false. destruct Hr as (Hwf & _ & Hr). rewrite at_end_rest by done.
      rewrite Hr. unfold frame_record. cbn. by destruct (put16 (record_value t)) eqn:E16. }
    cbn [decode_records]. rewrite Hend, E. cbn [fst snd] in *.
    rewrite record_of_value_record, Hd by done.
    assert (u32 (parsed + 1) = parsed + 1) as ->.
    { apply wrap_small. unfold fits in *. lia. }
    rewrite IH; [|done|done|cbn in Hfuel; lia|done|unfold fits in *; lia|].
    + do 3 f_equal. lia.
    + by rewrite <-Z.add_assoc.
Qed.

(** ** Sections of an image *)
Section Sections.
Context {A : Type} (limits : Limits) (record : A -> RecordType * ByteBuffer)
  (with_section : list A -> DurableState) (P : list A -> A -> Prop).

(** Each element may be appended after those before it. *)
Fixpoint appendable (seen xs : list A) : Prop :=
  match xs with
  | [] => True
  | x :: xs' => P seen x /\ appendable (seen ++ [x]) xs'
  end.

Hypothesis append_one : forall seen x,
  P seen x -> extends limits (record x) (with_section seen) (with_section (seen ++ [x])).

Lemma extends_section seen xs :
  appendable seen xs ->
  extends_all limits (map record xs) (with_section seen) (with_section (seen ++ xs)).
Proof.
  revert seen. induction xs as [|x xs IH]; intros seen H; cbn.
  - rewrite app_nil_r. constructor.
  - destruct H as [Hx H]. econstructor; [by apply append_one|].
    replace (seen ++ x :: xs) with ((seen ++ [x]) ++ xs) by by rewrite <-app_assoc.
    by apply IH.
Qed.
End Sections.

Lemma appendable_Forall {A} (P : A -> Prop) seen xs :
  Forall P xs -> appendable (fun _ x => P x) seen xs.
Proof. intros H. revert seen. induction H; cbn; auto. Qed.

Lemma appendable_NoDup {A} (key : A -> Z) (P : A -> Prop) seen xs :
  Forall P xs -> NoDup (map key (seen ++ xs)) ->
  appendable (fun seen x => P x /\ key x ∉ map key seen) seen xs.
Proof.
  intros H. revert seen. induction H as [|x xs Hx H IH]; intros seen Hnd; cbn; [done|].
  split_and!; [done| |].
  - rewrite map_app in Hnd. apply list.NoDup_app in Hnd as (_ & Hd & _).
    intros Hin. apply (Hd (key x)); [done|]. left.
  - apply IH. by rewrite <-app_assoc.
Qed.

Lemma existsb_key {A} (key : A -> Z) k xs :
  k ∉ map key xs -> existsb (fun e => key e =? k) xs = false.
Proof.
  induction xs as [|x xs IH]; cbn; [done|]. rewrite not_elem_of_cons. intros [? ?].
  rewrite IH by done. by destruct (Z.eqb_spec (key x) k).
Qed.

Lemma run_body_all {A} (m : Dec A) bs x parsed :
  decodes_all m bs x -> run_body m bs parsed = inl x.
Proof.
  intros H. destruct (H _ (in_front_reader bs)) as (r' & E). unfold run_body. by rewrite E.
Qed.

Lemma decode_meta_encode s :
  fits 64 (ds_epoch s) -> fits 64 (ds_revision s) ->
  decodes_all decode_meta (encode_meta s) (ds_epoch s, ds_revision s).
Proof. intros. unfold decode_meta, encode_meta. decode_fields. Qed.

Lemma decode_boot_encode b : fits 64 b -> decodes_all decode_boot (encode_boot b) b.
Proof. intros. unfold decode_boot, encode_boot. decode_fields. Qed.

Ltac extend_record H :=
  split; [done|]; intros raw parsed; cbn [decode_record fst snd];
  rewrite (run_body_all _ _ _ _ H).

(** ** Storable states *)
Definition durable_storable (limits : Limits) (s : DurableState) : Prop :=
  ds_format_version s = kPersistenceFormatVersion /\
  fits 64 (ds_epoch s) /\ fits 64 (ds_revision s) /\
  Forall profile_storable (ds_profiles s) /\ NoDup (map pr_id (ds_profiles s)) /\
  Forall policy_storable (ds_policies s) /\ NoDup (map po_id (ds_policies s)) /\
  Forall (fun l => list_storable limits (ds_profiles s) (encoded_width s (sl_content l)) l)
    (ds_lists s) /\ NoDup (map sl_id (ds_lists s)) /\
  Forall history_storable (ds_history s) /\ Forall attempt_storable (ds_attempts s) /\
  Forall publisher_storable (ds_publishers s) /\
  Forall (fun b => fits 64 b /\ b <> 0) (ds_fenced_boots s).

Definition counts_within (limits : Limits) (s : DurableState) : Prop :=
  size (ds_history s) <= max_history limits /\
  size (ds_attempts s) <= max_attempt_records limits /\
  size (ds_lists s) <= max_lists limits /\ size (ds_profiles s) <= max_profiles limits /\
  size (ds_policies s) <= max_policies limits /\
  size (ds_publishers s) <= max_publishers limits.

(** What the framing requires of the records: each within the record bound, and no more
    of them than the decoder finds plausible. *)
Definition image_storable (limits : Limits) (s : DurableState) : Prop :=
  let recs := durable_records s in
  fits 32 (max_persistence_record_bytes limits) /\ records_within limits recs /\
  fits 32 (size recs) /\ size recs <= plausible_records limits /\
  size (frame (concat (map frame_record recs)) (size recs)) < 2 ^ 64.

Lemma extends_durable limits s :
  durable_storable limits s ->
  extends_all limits (durable_records s) empty_durable s.
Proof.
  intros (Hv & He & Hr & Hp & Hpn & Hq & Hqn & Hl & Hln & Hh & Ha & Hu & Hb).
  destruct s as [v e r ps qs ls hs aas us bs]. cbn [ds_format_version] in Hv. subst v.
  set (st ps qs ls hs aas us bs := {| ds_format_version := kPersistenceFormatVersion;
    ds_epoch := e; ds_revision := r; ds_profiles := ps; ds_policies := qs; ds_lists := ls;
    ds_history := hs; ds_attempts := aas; ds_publishers := us; ds_fenced_boots := bs |}).
  change (extends_all limits (durable_records (st ps qs ls hs aas us bs)) empty_durable
    (st ps qs ls hs aas us bs)).
  set (whole := st ps qs ls hs aas us bs) in *. unfold durable_records.
  apply (extends_cons _ _ _ _ (st [] [] [] [] [] [] [])).
  { extend_record (decode_meta_encode whole He Hr). done. }
  apply (extends_app _ _ _ _ (st ps [] [] [] [] [] [])).
  { apply (extends_section _ _ (fun ps => st ps [] [] [] [] [] [])
      (fun seen x => profile_storable x /\ pr_id x ∉ map pr_id seen)) with (seen := []).
    - intros seen x [Hx Hn]. extend_record (decode_profile_encode x Hx).
      cbn [ds_profiles]. by rewrite existsb_key.
    - by apply appendable_NoDup. }
  apply (extends_app _ _ _ _ (st ps qs [] [] [] [] [])).
  { apply (extends_section _ _ (fun qs => st ps qs [] [] [] [] [])
      (fun seen x => policy_storable x /\ po_id x ∉ map po_id seen)) with (seen := []).
    - intros seen x [Hx Hn]. extend_record (decode_policy_encode x Hx).
      cbn [ds_policies]. by rewrite existsb_key.
    - by apply appendable_NoDup. }
  apply (extends_app _ _ _ _ (st ps qs ls [] [] [] [])).
  { apply (extends_section _ _ (fun ls => st ps qs ls [] [] [] [])
      (fun seen x => list_storable limits ps (encoded_width whole (sl_content x)) x /\
        sl_id x ∉ map sl_id seen)) with (seen := []).
    - intros seen x [Hx Hn]. extend_record (decode_list_encode limits whole ps x Hx).
      cbn [ds_lists]. by rewrite existsb_key.
    - by apply appendable_NoDup. }
  apply (extends_app _ _ _ _ (st ps qs ls hs [] [] [])).
  { apply (extends_section _ _ (fun hs => st ps qs ls hs [] [] [])
      (fun _ x => history_storable x)) with (seen := []); [|by apply appendable_Forall].
    intros seen x Hx. by extend_record (decode_history_encode x Hx). }
  apply (extends_app _ _ _ _ (st ps qs ls hs aas [] [])).
  { apply (extends_section _ _ (fun aas => st ps qs ls hs aas [] [])
      (fun _ x => attempt_storable x)) with (seen := []); [|by apply appendable_Forall].
    intros seen x Hx. by extend_record (decode_attempt_encode x Hx). }
  apply (extends_app _ _ _ _ (st ps qs ls hs aas us [])).
  { apply (extends_section _ _ (fun us => st ps qs ls hs aas us [])
      (fun _ x => publisher_storable x)) with (seen := []); [|by apply appendable_Forall].
    intros seen x Hx. by extend_record (decode_publisher_encode x Hx). }
  apply (extends_section _ _ (fun bs => st ps qs ls hs aas us bs)
    (fun _ x => fits 64 x /\ x <> 0)) with (seen := []); [|by apply appendable_Forall].
  intros seen x [Hf Hx]. extend_record (decode_boot_encode x Hf).
  apply valid_true in Hx. by rewrite Hx.
Qed.

(** ** The frame *)

Definition field (offset width : nat) (bytes : list Byte.byte) : Z :=
  le_combine (take width (drop offset bytes)).

(** A reader that stands at [offset] of [bytes] and has [n] more bytes reads them. *)
Lemma read_field n offset bytes :
  (offset + n <= length bytes)%nat ->
  read_uint (Z.of_nat n) (mkReader bytes (Z.of_nat offset) true) =
    (Some (field offset n bytes), mkReader bytes (Z.of_nat (offset + n)) true).
Proof.
  intros H. unfold read_uint, read_raw, remaining, rest, size. cbn [ok data pos negb orb].
  destruct (Z.ltb_spec (Z.of_nat (length bytes) - Z.of_nat offset) (Z.of_nat n)); [lia|].
  rewrite !Nat2Z.id. unfold field. do 2 f_equal. lia.
Qed.

Lemma of_read_field n offset bytes :
  (offset + n <= length bytes)%nat ->
  of_read (read_uint (Z.of_nat n)) (mkReader bytes (Z.of_nat offset) true) =
    inl (field offset n bytes, mkReader bytes (Z.of_nat (offset + n)) true).
Proof. intros. unfold of_read, of_read_with. by rewrite read_field. Qed.

Lemma field_take n offset width bytes :
  (offset + width <= n)%nat -> field offset width (take n bytes) = field offset width bytes.
Proof.
  intros H. unfold field. rewrite skipn_firstn_comm, take_take. do 2 f_equal. lia.
Qed.

(** The header fields at their offsets. *)
Lemma decode_header bytes :
  24 <= size bytes ->
  exists r, (version ← d_u16; flags ← d_u16; payload_length ← d_u64; record_count ← d_u32;
     header_crc ← d_u32; mret (version, flags, payload_length, record_count, header_crc))
    (skip 4 (reader (take (Z.to_nat kHeaderBytes) bytes))).2 =
  inl (field 4 2 bytes, field 6 2 bytes, field 8 8 bytes, field 16 4 bytes,
       field 20 4 bytes, r).
Proof.
  unfold size. intros H. change (Z.to_nat kHeaderBytes) with 24%nat.
  assert (length (take 24 bytes) = 24%nat) as Hl by (rewrite length_take; lia).
  assert ((skip 4 (reader (take 24 bytes))).2 = mkReader (take 24 bytes) (Z.of_nat 4) true)
    as ->.
  { unfold skip, reader, remaining, size. cbn [data pos ok negb orb]. rewrite Hl. done. }
  unfold mbind, dec_bind, d_u16, d_u32, d_u64, read_u16, read_u32, read_u64.
  change 2 with (Z.of_nat 2). change 8 with (Z.of_nat 8).
  change (read_uint 4) with (read_uint (Z.of_nat 4)).
  rewrite !of_read_field, !field_take by lia. by eexists.
Qed.

(** What an accepted frame satisfies. *)
Definition frame_valid (bytes : list Byte.byte) : Prop :=
  let n := Z.to_nat (field 8 8 bytes) in
  take 4 bytes = kMagic /\ field 20 4 bytes = crc32c (take 20 bytes) /\
  field 4 2 bytes = kPersistenceFormatVersion /\ field 6 2 bytes = 0 /\
  size bytes = 28 + Z.of_nat n /\
  field (24 + n) 4 bytes = crc32c (take n (drop 24 bytes)).

Lemma field_fits offset width bytes : fits (8 * Z.of_nat width) (field offset width bytes).
Proof.
  unfold field. pose proof (le_combine_bound (take width (drop offset bytes))) as [H0 H].
  split; [done|]. eapply Z.lt_le_trans; [exact H|].
  apply Z.pow_le_mono_r; [lia|]. rewrite length_take. lia.
Qed.

Ltac reject :=
  split; [intros [(? & ? & ? & ? & ? & ?) [? ?]]; exfalso; (lia || congruence)|done].

(** Acceptance of a frame is exactly its validity and a plausible count. *)
Lemma check_frame_spec bytes limits x :
  size bytes < 2 ^ 64 ->
  frame_valid bytes /\ field 16 4 bytes <= plausible_records limits /\
    x = (field 16 4 bytes, take (Z.to_nat (field 8 8 bytes)) (drop 24 bytes)) <->
  check_frame bytes limits = inl x.
Proof.
  intros Hbound. unfold frame_valid, check_frame.
  pose proof (field_fits 8 8 bytes) as Hf. unfold fits in Hf.
  destruct bytes as [|b bytes']; [by split; [intros [[] _]|]|]. set (bytes := b :: bytes') in *.
  destruct (Z.ltb_spec (size bytes) (kHeaderBytes + kTrailerBytes)) as [Hs|Hs];
    unfold kHeaderBytes, kTrailerBytes in *; [reject|].
  case_bool_decide as Hm; cbn [negb]; [|reject].
  destruct (decode_header bytes) as [r Hr]; [lia|]. cbv zeta.
  unfold kHeaderBytes in Hr. rewrite Hr. change (Z.to_nat (24 - 4)) with 20%nat.
  destruct (Z.eqb_spec (field 20 4 bytes) (crc32c (take 20 bytes))); cbn [negb]; [|reject].
  destruct (Z.eqb_spec (field 4 2 bytes) kPersistenceFormatVersion); cbn [negb orb]; [|reject].
  destruct (Z.eqb_spec (field 6 2 bytes) 0); cbn [negb orb]; [|reject].
  destruct (Z.ltb_spec (size bytes) (field 8 8 bytes)); [reject|].
  set (n := field 8 8 bytes) in *.
  destruct (Z_lt_le_dec (24 + n + 4) (2 ^ 64)) as [Hw|Hw].
  - rewrite (wrap_small 64) by (unfold fits; lia).
    destruct (Z.ltb_spec (size bytes) (24 + n + 4)); [reject|].
    destruct (Z.ltb_spec (24 + n + 4) (size bytes)); [reject|].
    assert (read_u32 (reader (take (Z.to_nat 4) (drop (Z.to_nat (24 + n)) bytes))) =
      (Some (field (24 + Z.to_nat n) 4 bytes),
       mkReader (take 4 (drop (24 + Z.to_nat n) bytes)) 4 true)) as ->.
    { change (Z.to_nat 4) with 4%nat. rewrite Z2Nat.inj_add by lia.
      change (Z.to_nat 24) with 24%nat. unfold size in *.
      pose proof (read_field 4 0 (take 4 (drop (24 + Z.to_nat n) bytes))) as Hrd.
      rewrite length_take, length_drop in Hrd. specialize (Hrd ltac:(lia)).
      unfold field in *. rewrite drop_0, take_take in Hrd. exact Hrd. }
    change (Z.to_nat 24) with 24%nat.
    destruct (Z.eqb_spec (field (24 + Z.to_nat n) 4 bytes)
      (crc32c (take (Z.to_nat n) (drop 24 bytes)))); cbn [negb]; [|reject].
    destruct (Z.ltb_spec (plausible_records limits) (field 16 4 bytes)); [reject|].
    split; [by intros (_ & _ & ->)|]. intros [= <-]. split_and!; try done. lia.
  - assert (u64 (24 + n + 4) = 24 + n + 4 - 2 ^ 64) as ->.
    { unfold wrap. rewrite <-(Z_mod_plus_full _ (-1)), Z.mod_small; lia. }
    destruct (Z.ltb_spec (size bytes) (24 + n + 4 - 2 ^ 64)); [reject|].
    destruct (Z.ltb_spec (24 + n + 4 - 2 ^ 64) (size bytes)); [reject|lia].
Qed.


(** A frame built by the encoder is accepted and gives back its parts. *)
Lemma length_frame_head n c : length (frame_head n c) = 20%nat.
Proof.
  unfold frame_head. rewrite !length_app, !length_put16, length_put64, length_put32. done.
Qed.

Lemma field_app offset width pre v post :
  length pre = offset -> length v = width ->
  field offset width (pre ++ v ++ post) = le_combine v.
Proof.
  intros <- <-. unfold field. by rewrite drop_app_length, take_app_length.
Qed.

Lemma le_combine_put n v : fits (8 * Z.of_nat n) v -> le_combine (le_split n v) = v.
Proof. intros Hv. by rewrite le_combine_split, Z.mul_comm, Z.mod_small. Qed.

Lemma frame_parts records count :
  fits 32 count -> size (frame records count) < 2 ^ 64 ->
  frame_valid (frame records count) /\ field 16 4 (frame records count) = count /\
  take (Z.to_nat (field 8 8 (frame records count))) (drop 24 (frame records count)) = records.
Proof.
  intros Hc Hs.
  assert (size (frame records count) = 28 + size records) as Hsz.
  { unfold frame, size. cbv zeta.
    rewrite !length_app, length_frame_head, !length_put32. lia. }
  pose proof (size_nonneg records).
  set (head := frame_head (size records) count).
  set (hcrc := put32 (crc32c head)). set (tcrc := put32 (crc32c records)).
  assert (frame records count = head ++ hcrc ++ records ++ tcrc) as Hfr by done.
  assert (length head = 20%nat) as Hlh by apply length_frame_head.
  assert (length hcrc = 4%nat) as Hlc by apply length_put32.
  assert (length tcrc = 4%nat) as Hlt by apply length_put32.
  assert (field 8 8 (frame records count) = size records) as Hn.
  { rewrite Hfr. unfold head, frame_head. rewrite <-!app_assoc.
    rewrite !(app_assoc kMagic), !(app_assoc (kMagic ++ _)).
    rewrite field_app by (by rewrite ?length_app, ?length_put16, ?length_put64).
    apply (le_combine_put 8). unfold fits. lia. }
  assert (field 16 4 (frame records count) = count) as Hcnt.
  { rewrite Hfr. unfold head, frame_head. rewrite <-!app_assoc.
    rewrite !(app_assoc kMagic), !(app_assoc (kMagic ++ _)), !(app_assoc ((kMagic ++ _) ++ _)).
    rewrite field_app by (by rewrite ?length_app, ?length_put16, ?length_put64, ?length_put32).
    by apply (le_combine_put 4). }
  assert (drop 24 (frame records count) = records ++ tcrc) as Hd.
  { rewrite Hfr, app_assoc. apply drop_app_length'. rewrite length_app. lia. }
  assert (Z.to_nat (size records) = length records) as Hnat by (unfold size; lia).
  unfold frame_valid. rewrite Hn, Hnat, Hd, Hcnt, take_app_length.
  split_and!; [| | | | | |reflexivity..].
  - rewrite Hfr. unfold head, frame_head. rewrite <-!app_assoc.
    by apply (take_app_length' kMagic).
  - rewrite Hfr, (take_app_length' _ _ 20) by done.
    rewrite field_app by done. apply (le_combine_put 4), crc32c_fits.
  - rewrite Hfr. unfold head, frame_head. rewrite <-!app_assoc, field_app by done.
    vm_compute. reflexivity.
  - rewrite Hfr. unfold head, frame_head. rewrite <-!app_assoc, (app_assoc kMagic).
    rewrite field_app by done. vm_compute. reflexivity.
  - rewrite Hsz. unfold size. lia.
  - rewrite Hfr. replace (head ++ hcrc ++ records ++ tcrc) with
      ((head ++ hcrc ++ records) ++ tcrc ++ []) by (by rewrite app_nil_r, <-!app_assoc).
    rewrite field_app by (rewrite ?length_app; lia). apply (le_combine_put 4), crc32c_fits.
Qed.

(** ** Round trip *)

Lemma length_frames recs : (length recs <= length (concat (map frame_record recs)))%nat.
Proof.
  induction recs as [|r recs IH]; cbn [map concat length]; [lia|].
  unfold frame_record at 1. rewrite !length_app, length_put16. lia.
Qed.

Lemma records_fit limits recs :
  fits 32 (max_persistence_record_bytes limits) -> records_within limits recs ->
  Forall (fun r => fits 32 (size r.2)) recs.
Proof.
  intros Hm H. eapply list.Forall_impl; [exact H|]. intros r Hr. cbn in Hr.
  pose proof (size_nonneg r.2). unfold fits in *. lia.
Qed.

Lemma encode_durable_frame limits s result :
  image_storable limits s ->
  encode_durable_state s limits result =
    (frame (concat (map frame_record (durable_records s))) (size (durable_records s)),
     set_limits (Some limits) result).
Proof.
  intros (_ & Hw & Hc & _ & _). unfold encode_durable_state.
  rewrite emit_records; [done|done|done|by vm_compute|done].
Qed.

Lemma check_counts_none limits s n : counts_within limits s -> check_counts limits n n s = None.
Proof.
  intros (? & ? & ? & ? & ? & ?). unfold check_counts. rewrite Z.eqb_refl. cbn [negb].
  repeat match goal with
  | |- context [?a <? ?b] => destruct (Z.ltb_spec a b); [lia|]
  end. done.
Qed.

Lemma decode_durable_frame limits s result :
  durable_storable limits s -> counts_within limits s -> image_storable limits s ->
  decode_durable_state
    (frame (concat (map frame_record (durable_records s))) (size (durable_records s)))
    limits result = (Some s, set_limits (Some limits) result).
Proof.
  intros Hd Hc (Hm & Hw & Hn & Hp & Hs). unfold decode_durable_state.
  destruct (frame_parts _ _ Hn Hs) as (Hv & Hcnt & Htake).
  set (bytes := frame _ _) in *. cbv zeta.
  assert (check_frame bytes limits =
    inl (size (durable_records s), concat (map frame_record (durable_records s)))) as ->.
  { apply check_frame_spec; [done|]. rewrite Hcnt, Htake. done. }
  rewrite (decode_records_frames limits _ _ s (extends_durable limits s Hd) Hw);
    [|by eapply records_fit|apply length_frames|apply in_front_reader|by vm_compute|done].
  by rewrite check_counts_none.
Qed.

(** C25: Round trip of the durable image.  Encoding a state whose fields fit their widths and
    whose counts are within the limits succeeds, and decoding the bytes yields exactly that
    state: profiles, policies, lists, history, attempts, publishers and fenced boots. *)
Theorem durable_round_trip limits s result result' :
  durable_storable limits s -> counts_within limits s -> image_storable limits s ->
  let '(bytes, out) := encode_durable_state s limits result in
  out = set_limits (Some limits) result /\ bytes <> [] /\
  decode_durable_state bytes limits result' = (Some s, set_limits (Some limits) result').
Proof.
  intros Hd Hc Hi. rewrite encode_durable_frame by done. split_and!; [done|done|].
  by apply decode_durable_frame.
Qed.

(** ** Corruption *)

Lemma insert_app_cases {A} (l k : list A) i x :
  (i < length (l ++ k))%nat ->
  ((i < length l)%nat /\ <[i:=x]> (l ++ k) = <[i:=x]> l ++ k) \/
  ((length l <= i)%nat /\ (i - length l < length k)%nat /\
   <[i:=x]> (l ++ k) = l ++ <[(i - length l)%nat:=x]> k).
Proof.
  rewrite length_app. intros Hi. destruct (decide (i < length l)%nat).
  - left. split; [done|]. by apply insert_app_l.
  - right. split_and!; [lia|lia|]. apply insert_app_r_alt. lia.
Qed.

Lemma insert_split {A} (l : list A) i x y :
  l !! i = Some y -> l = take i l ++ y :: drop (S i) l /\
  <[i:=x]> l = take i l ++ x :: drop (S i) l.
Proof.
  intros H. split; [by rewrite take_drop_middle|].
  apply insert_take_drop. by eapply lookup_lt_Some.
Qed.

(** The checksum of any run of bytes detects a change of one byte of it. *)
Lemma crc_detects l i x y :
  l !! i = Some y -> x <> y -> crc32c (<[i:=x]> l) <> crc32c l.
Proof.
  intros H Hxy. destruct (insert_split l i x y H) as [H1 H2].
  rewrite H2. rewrite H1 at 3. by apply crc32c_one_byte.
Qed.

Lemma le_combine_changed l i x y :
  l !! i = Some y -> x <> y -> le_combine (<[i:=x]> l) <> le_combine l.
Proof.
  intros H Hxy E. apply (f_equal (le_split (length l))) in E.
  rewrite <-(length_insert l i x) in E at 1. rewrite !split_le_combine in E.
  apply Hxy. apply (f_equal (fun l => l !! i)) in E. rewrite H in E.
  rewrite list_lookup_insert_eq in E by (by eapply lookup_lt_Some). congruence.
Qed.

(** A frame cut at its four parts. *)
Section Parts.
Context (head crc records trailer : list Byte.byte).
Hypothesis Hhead : length head = 20%nat.
Hypothesis Hcrc : length crc = 4%nat.
Hypothesis Htrailer : length trailer = 4%nat.

Let bytes := head ++ crc ++ records ++ trailer.

Lemma parts_length_field : field 8 8 bytes = field 8 8 head.
Proof.
  unfold field, bytes. rewrite drop_app_le, take_app_le by (rewrite ?length_drop; lia).
  done.
Qed.

Lemma parts_valid :
  frame_valid bytes ->
  le_combine crc = crc32c head /\
  (field 8 8 head = size records -> le_combine trailer = crc32c records).
Proof.
  intros (_ & Hh & _ & _ & _ & Ht). split.
  - unfold bytes in Hh. rewrite field_app, (take_app_length' head) in Hh by done. done.
  - intros Hn. rewrite parts_length_field, Hn in Ht.
    unfold size in Ht. rewrite Nat2Z.id in Ht.
    assert (drop 24 bytes = records ++ trailer) as Hd.
    { unfold bytes. rewrite app_assoc. apply drop_app_length'. rewrite length_app. lia. }
    rewrite Hd, take_app_length in Ht. rewrite <-Ht. unfold field.
    rewrite <-drop_drop, Hd, drop_app_length. symmetry. f_equal.
    apply take_ge. lia.
Qed.
End Parts.

(** One changed byte makes a valid frame invalid, wherever it is. *)
Lemma corrupt_frame_invalid records count i b b' :
  fits 32 count -> size (frame records count) < 2 ^ 64 ->
  frame records count !! i = Some b -> b' <> b ->
  ~ frame_valid (<[i:=b']> (frame records count)).
Proof.
  intros Hc Hs Hi Hb Hbad.
  destruct (frame_parts records count Hc Hs) as (Hgood & _ & _).
  set (head := frame_head (size records) count).
  pose proof (length_frame_head (size records) count : length head = 20%nat) as Hlh.
  set (hcrc := put32 (crc32c head)). set (tcrc := put32 (crc32c records)).
  change (frame records count) with (head ++ hcrc ++ records ++ tcrc) in *.
  assert (length hcrc = 4%nat) as Hlc by apply length_put32.
  assert (length tcrc = 4%nat) as Hlt by apply length_put32.
  assert (field 8 8 head = size records) as Hn.
  { rewrite <-(parts_length_field head hcrc records tcrc Hlh Hlc Hlt).
    destruct Hgood as (_ & _ & _ & _ & Hsz & _). revert Hsz.
    pose proof (field_fits 8 8 (head ++ hcrc ++ records ++ tcrc)) as [? _].
    unfold size. rewrite !length_app, Hlh, Hlc, Hlt. lia. }
  destruct (parts_valid head hcrc records tcrc Hlh Hlc Hlt Hgood) as [Hg1 Hg2].
  specialize (Hg2 Hn). pose proof (lookup_lt_Some _ _ _ Hi) as Hlen.
  destruct (insert_app_cases head (hcrc ++ records ++ tcrc) i b' Hlen) as [[Hl E]|(Hl & Hl2 & E)].
  { rewrite E in Hbad. assert (length (<[i:=b']> head) = 20%nat) as Hl' by by rewrite length_insert.
    destruct (parts_valid _ _ _ _ Hl' Hlc Hlt Hbad) as [H _].
    rewrite lookup_app_l in Hi by done. rewrite Hg1 in H. symmetry in H. revert H.
    by apply (crc_detects _ _ _ b). }
  rewrite lookup_app_r in Hi by done. rewrite E in Hbad. set (j := (i - length head)%nat) in *.
  destruct (insert_app_cases hcrc (records ++ tcrc) j b' Hl2) as [[Hk E2]|(Hk & Hk2 & E2)].
  { rewrite E2 in Hbad.
    assert (length (<[j:=b']> hcrc) = 4%nat) as Hl' by by rewrite length_insert.
    destruct (parts_valid _ _ _ _ Hlh Hl' Hlt Hbad) as [H _].
    rewrite lookup_app_l in Hi by done. rewrite <-Hg1 in H. revert H.
    by apply (le_combine_changed _ _ _ b). }
  rewrite lookup_app_r in Hi by done. rewrite E2 in Hbad. set (k := (j - length hcrc)%nat) in *.
  destruct (insert_app_cases records tcrc k b' Hk2) as [[Hm E3]|(Hm & Hm2 & E3)];
    rewrite E3 in Hbad.
  - destruct (parts_valid _ _ _ _ Hlh Hlc Hlt Hbad) as [_ H]. rewrite lookup_app_l in Hi by done.
    specialize (H ltac:(unfold size; rewrite length_insert; exact Hn)).
    rewrite Hg2 in H. symmetry in H. revert H. by apply (crc_detects _ _ _ b).
  - rewrite lookup_app_r in Hi by done.
    assert (length (<[(k - length records)%nat:=b']> tcrc) = 4%nat) as Hl'
      by by rewrite length_insert.
    destruct (parts_valid _ _ _ _ Hlh Hlc Hl' Hbad) as [_ H].
    specialize (H Hn). rewrite <-Hg2 in H. revert H. by apply (le_combine_changed _ _ _ b).
Qed.

Lemma size_insert {A} i (x : A) l : size (<[i:=x]> l) = size l.
Proof. unfold size. by rewrite length_insert. Qed.

Lemma check_frame_code bytes limits reason :
  check_frame bytes limits = inr reason -> r_code reason <> ReasonOk.
Proof.
  unfold check_frame. intros H. repeat case_hyp H; simplify_eq; done.
Qed.

Lemma check_frame_invalid bytes limits :
  size bytes < 2 ^ 64 -> ~ frame_valid bytes ->
  exists reason, check_frame bytes limits = inr reason /\ r_code reason <> ReasonOk.
Proof.
  intros Hs Hv. destruct (check_frame bytes limits) as [x|reason] eqn:E.
  - by apply check_frame_spec in E as [? _].
  - exists reason. split; [done|]. by apply check_frame_code in E.
Qed.

(** What the encoder returns is empty or a frame. *)
Lemma emit_record_count limits enc r :
  fits 32 (en_count enc) -> fits 32 (en_count (emit_record limits enc r)).
Proof.
  intros H. unfold emit_record. destruct r as [t b]. repeat case_match; try done.
  cbn. apply wrap_fits. lia.
Qed.

Lemma encode_durable_cases state limits result :
  (encode_durable_state state limits result).1 = [] \/
  exists records count, fits 32 count /\
    (encode_durable_state state limits result).1 = frame records count.
Proof.
  unfold encode_durable_state. set (enc0 := {| en_records := [] |}).
  assert (fits 32 (en_count enc0)) as H0 by by vm_compute.
  assert (forall recs enc, fits 32 (en_count enc) ->
    fits 32 (en_count (fold_left (emit_record limits) recs enc))) as Hfold.
  { induction recs as [|r recs IH]; cbn; intros; [done|]. by apply IH, emit_record_count. }
  specialize (Hfold (durable_records state) enc0 H0).
  destruct (en_failed _); [by left|]. right. eauto.
Qed.

(** An image with one byte changed is refused, under any limits, and the result says
    why unless it may hold no reason. *)
Lemma decode_corrupt state limits limits' result i b b' :
  size (encode_durable_state state limits result).1 < 2 ^ 64 ->
  (encode_durable_state state limits result).1 !! i = Some b -> b' <> b ->
  forall result', exists out,
    decode_durable_state (<[i:=b']> (encode_durable_state state limits result).1) limits'
      result' = (None, out) /\
    (0 < max_reasons limits' -> result_ok out = false).
Proof.
  intros Hs Hb Hne result'.
  destruct (encode_durable_cases state limits result) as [E|(records & count & Hc & E)];
    rewrite E in *; [by rewrite lookup_nil in Hb|].
  pose proof (corrupt_frame_invalid _ _ i b b' Hc Hs Hb Hne) as Hv.
  rewrite <-(size_insert i b') in Hs.
  destruct (check_frame_invalid _ limits' Hs Hv) as (reason & Ef & Hcode).
  unfold decode_durable_state. cbv zeta. rewrite Ef. eexists. split; [done|].
  intros Hcap. unfold add_reason. rewrite add_result_ok by done.
  by rewrite code_eqb_ok_false, andb_false_r.
Qed.

(** ** Backends *)

Lemma encode_set_limits state limits out :
  encode_durable_state state limits (set_limits (Some limits) out) =
  encode_durable_state state limits out.
Proof. done. Qed.

Lemma encode_for_save_some state limits out bytes out' :
  encode_for_save state limits out = (Some bytes, out') ->
  bytes = (encode_durable_state state limits out).1 /\ bytes <> [] /\ result_ok out' = true.
Proof.
  unfold encode_for_save. destruct (encode_durable_state state limits out) as [bs o] eqn:E.
  destruct (failed o || _) eqn:Hf; [done|]. intros [= <- <-].
  apply orb_false_iff in Hf as [Ho Hb]. unfold failed in Ho.
  apply negb_false_iff in Ho. split_and!; [done| |done]. by destruct bs.
Qed.

Lemma set_limits_cap limits out : reason_cap (set_limits (Some limits) out) = max_reasons limits.
Proof. done. Qed.

Lemma emit_record_limits limits enc r :
  limits_ (en_result (emit_record limits enc r)) = limits_ (en_result enc).
Proof.
  unfold emit_record. destruct r as [t b]. destruct (en_failed enc); [done|].
  destruct (_ <? _); [apply add_limits|done].
Qed.

Lemma encode_limits state limits out :
  limits_ (encode_durable_state state limits out).2 = Some limits.
Proof.
  unfold encode_durable_state.
  assert (forall recs enc, limits_ (en_result (fold_left (emit_record limits) recs enc)) =
    limits_ (en_result enc)) as H.
  { induction recs as [|r recs IH]; intros enc; [done|]. cbn [fold_left].
    by rewrite IH, emit_record_limits. }
  destruct (en_failed _); cbn [snd]; by rewrite H.
Qed.

Lemma encode_for_save_none state limits out out' :
  encode_for_save state limits out = (None, out') ->
  0 < max_reasons limits -> result_ok out' = false.
Proof.
  unfold encode_for_save. pose proof (encode_limits state limits out) as Hl.
  destruct (encode_durable_state state limits out) as [bs o]. cbn [snd] in Hl.
  destruct (failed o || _) eqn:Hf; [|done]. intros [= <-] Hcap.
  destruct (result_ok o) eqn:Ho; [|done].
  rewrite add_result_ok; [by rewrite andb_false_r|]. unfold reason_cap. by rewrite Hl.
Qed.

#[global] Instance memory_laws : PersistenceLaws MemoryPersistence.
Proof.
  refine {| p_undisturbed := fun _ => True |}; cbn.
  - intros state limits out m out' m'. unfold MemoryPersistence.save. cbn [mp_fail_next].
    destruct (mp_fail_next m); [done|].
    destruct (encode_for_save _ _ _) as [[bytes|] o] eqn:E; [|done]. intros [= <- <-].
    apply encode_for_save_some in E as (-> & ? & ?). done.
  - intros state limits out m out' m'. unfold MemoryPersistence.save. cbn [mp_fail_next].
    destruct (mp_fail_next m).
    + intros [= <- <-]. split; [done|]. intros.
      by rewrite add_result_ok, andb_false_r.
    + destruct (encode_for_save _ _ _) as [[bytes|] o] eqn:E; [done|]. intros [= <- <-].
      split; [done|]. intros. by eapply encode_for_save_none.
  - intros report limits m _ Hm. unfold MemoryPersistence.load. by destruct (mp_bytes m).
Defined.

(** Every directory state a file save goes through holds the old image or the whole new
    one, and only a save that returns [true] replaces it. *)
Lemma file_save_trace_target state limits out f r out' trace :
  FilePersistence.save_trace state limits out f = (r, out', trace) ->
  let image := (encode_durable_state state limits (set_limits (Some limits) out)).1 in
  exists final older, trace = final :: older /\
    Forall (fun g => fp_target g = fp_target f) older /\
    fp_target final = (if r then Some image else fp_target f) /\
    (r = true -> image <> [] /\ result_ok out' = true) /\
    (r = false -> 0 < max_reasons limits -> result_ok out' = false).
Proof.
  intros H image. unfold FilePersistence.save_trace in H. cbv zeta in H.
  destruct (encode_for_save _ _ _) as [[bytes|] o] eqn:E.
  - pose proof E as E'. apply encode_for_save_some in E' as (-> & Hne & Hok).
    assert (limits_ o = Some limits) as Hl.
    { unfold encode_for_save in E.
      pose proof (encode_limits state limits (set_limits (Some limits) out)) as Hl.
      destruct (encode_durable_state _ _ _) as [bs o']. cbn [snd] in Hl.
      destruct (failed o' || _); [done|]. by simplify_eq. }
    assert (forall d, 0 < max_reasons limits -> result_ok (add PersistIoError 0 d o) = false) as Hio.
    { intros d Hcap. rewrite add_result_ok; [by rewrite andb_false_r|].
      unfold reason_cap. by rewrite Hl. }
    repeat case_match; simplify_eq; do 2 eexists; (split; [reflexivity|]);
      repeat split; auto; try done; repeat (apply list.Forall_cons_2 || apply list.Forall_nil_2);
      done.
  - injection H as <- <- <-. exists f, []. split_and!; [done|apply list.Forall_nil_2|done|done|].
    intros _ ?. by eapply encode_for_save_none.
Qed.

#[global] Instance file_laws : PersistenceLaws FilePersistence.
Proof.
  refine {| p_undisturbed := fun f => fo_open_read (fp_outcomes f) = true /\
                                      fo_read (fp_outcomes f) = true |}; cbn.
  - intros state limits out f out' f'. unfold FilePersistence.save.
    destruct (FilePersistence.save_trace state limits out f) as [[r o] trace] eqn:E.
    intros [= -> <- <-]. apply file_save_trace_target in E as (g & older & -> & _ & Hg & Ht & _).
    destruct (Ht eq_refl) as [Hne Hok]. cbn. rewrite Hg. done.
  - intros state limits out f out' f'. unfold FilePersistence.save.
    destruct (FilePersistence.save_trace state limits out f) as [[r o] trace] eqn:E.
    intros [= -> <- <-]. apply file_save_trace_target in E as (g & older & -> & _ & Hg & _ & Hf).
    cbn. rewrite Hg. split; [done|]. by apply Hf.
  - intros report limits f [Ho Hr] Hne. unfold FilePersistence.load.
    destruct (fp_target f); [|done]. by rewrite Ho, Hr, andb_false_r.
Defined.

(** ** The decoding loop ends *)

Lemma read_uint_progress n v r r' :
  0 <= n -> reader_wf r -> read_uint n r = (Some v, r') ->
  reader_wf r' /\ remaining r' = remaining r - n.
Proof.
  unfold read_uint, read_raw, reader_wf, remaining. intros Hn Hr H.
  destruct (negb (ok r) || (size (data r) - pos r <? n)) eqn:E; [done|].
  simpl_bools. injection H as _ <-. cbn [data pos]. lia.
Qed.

Lemma next_record_progress limits parsed r raw body r' :
  reader_wf r -> next_record limits parsed r = inl (raw, body, r') ->
  reader_wf r' /\ remaining r' < remaining r.
Proof.
  intros Hr H. unfold next_record in H.
  destruct (read_u16 r) as [[raw'|] r1] eqn:E1; [|done].
  destruct (read_uint_progress 2 _ _ _ ltac:(lia) Hr E1) as [Hr1 Hm1].
  destruct (read_u32 r1) as [[length|] r2] eqn:E2; [|done].
  pose proof (read_uint_fits 4 _ _ _ ltac:(lia) Hr1 E2) as Hlen.
  destruct (read_uint_progress 4 _ _ _ ltac:(lia) Hr1 E2) as [Hr2 Hm2].
  destruct (_ || _); [done|]. destruct (_ <? _); [done|].
  destruct (Z.ltb_spec (remaining r2) length) as [|Hrem]; [done|].
  destruct (skip length r2) as [[] r3] eqn:E3; [|done]. injection H as <- <- <-.
  unfold skip in E3. destruct (negb (ok r2) || (remaining r2 <? length)); [done|].
  injection E3 as <-. unfold reader_wf, remaining, fits in *. cbn [data pos]. lia.
Qed.

(** Every turn consumes at least the six bytes of a record frame, so the length of the
    records is fuel enough. *)
Theorem decode_records_total fuel limits r parsed s :
  reader_wf r -> remaining r <= Z.of_nat fuel ->
  decode_records fuel limits r parsed s <> None.
Proof.
  revert r parsed s. induction fuel as [|fuel IH]; intros r parsed s Hr Hf; cbn.
  - assert (at_end r = true) as ->; [|done].
    unfold at_end, remaining, reader_wf in *. apply Z.eqb_eq. lia.
  - destruct (at_end r); [done|].
    destruct (next_record limits parsed r) as [[[raw body] r']|] eqn:E; [|done].
    apply next_record_progress in E as [Hr' Hm]; [|done].
    destruct (decode_record _ _ _ _ _ _); [|done]. apply IH; [done|lia].
Qed.

(** ** What an accepted image holds *)

Definition dec_post {A} (m : Dec A) (Q : A -> Prop) : Prop :=
  forall r x r', m r = inl (x, r') -> Q x.

Section Post.
Context {A B : Type}.

Lemma post_bind_with (P : A -> Prop) (m : Dec A) (f : A -> Dec B) Q :
  dec_post m P -> (forall x, P x -> dec_post (f x) Q) -> dec_post (m ≫= f) Q.
Proof.
  intros Hm Hf r y r' H. unfold mbind, dec_bind in H.
  destruct (m r) as [[x r1]|] eqn:E; [|done]. apply Hm in E. by eapply Hf.
Qed.

Lemma post_bind (m : Dec A) (f : A -> Dec B) Q :
  (forall x, dec_post (f x) Q) -> dec_post (m ≫= f) Q.
Proof. intros Hf. by apply (post_bind_with (fun _ => True)). Qed.

Lemma post_require (f : unit -> Dec B) condition code detail Q :
  (condition = true -> dec_post (f tt) Q) -> dec_post (require condition code detail ≫= f) Q.
Proof. intros Hf r y r' H. destruct condition; [|done]. by apply (Hf eq_refl r y r'). Qed.

Lemma post_ret (x : A) (Q : A -> Prop) : Q x -> dec_post (mret x) Q.
Proof. intros HQ r y r' H. by injection H as <- <-. Qed.
End Post.

Lemma of_read_nonneg n : dec_post (of_read (read_uint n)) (fun v => 0 <= v).
Proof.
  intros r v r' H. unfold of_read, of_read_with, read_uint in H.
  destruct (read_raw n r) as [[bs|] r1]; [|done]. injection H as <- _.
  apply le_combine_bound.
Qed.

Lemma repeat_dec_length {A} n (m : Dec A) : dec_post (repeat_dec n m) (fun l => length l = n).
Proof.
  induction n as [|n IH]; cbn; [by apply post_ret|].
  apply post_bind. intros x. apply (post_bind_with _ _ _ _ IH). intros xs Hxs.
  apply post_ret. cbn. by rewrite Hxs.
Qed.

(** Walk through a decoder, keeping what its checks establish. *)
Ltac post_step :=
  cbv zeta; cbn beta;
  lazymatch goal with
  | |- dec_post (require_with _ _ ≫= _) _ => apply post_require; intros ?
  | |- dec_post (d_u8 ≫= _) _ => apply (post_bind_with _ _ _ _ (of_read_nonneg 1)); intros ? ?
  | |- dec_post (d_u16 ≫= _) _ => apply (post_bind_with _ _ _ _ (of_read_nonneg 2)); intros ? ?
  | |- dec_post (d_u32 ≫= _) _ => apply (post_bind_with _ _ _ _ (of_read_nonneg 4)); intros ? ?
  | |- dec_post (repeat_dec ?n ?m ≫= _) _ =>
      apply (post_bind_with _ _ _ _ (repeat_dec_length n m)); intros ? ?
  | |- dec_post (_ ≫= _) _ => apply post_bind; intros ?
  | |- dec_post (mret _) _ => apply post_ret
  end.

Definition profile_valid (p : SegmentProfile) : Prop :=
  pr_id p <> 0 /\ pr_generation p <> 0 /\ pr_payload_width p <> 0 /\ pr_max_depth p <> 0.

Definition list_valid (limits : Limits) (profiles : list SegmentProfile) (l : SegmentList)
  : Prop :=
  let c := sl_content l in
  sl_generation l <> 0 /\ sl_state l <> SInvalid /\
  size (c_segments c) <= max_segments_per_list limits /\
  (c_profile c = 0 \/ c_profile c ∈ map pr_id profiles) /\
  exists w, 0 < w <= max_segment_payload_bytes limits /\
    sl_sequence_digest l = sequence_digest (c_segments c) w /\
    sl_content_digest l = content_digest c w.

Lemma decode_profile_valid : dec_post decode_profile profile_valid.
Proof.
  unfold decode_profile. repeat post_step. unfold profile_valid. cbn.
  rewrite !negb_orb, !andb_true_iff, !negb_involutive, !negb_true_iff, !valid_true,
    !Z.eqb_neq in *. tauto.
Qed.

Lemma state_of_value_valid v :
  negb ((v =? 0) || (state_value Retired <? v)) = true -> 0 <= v -> state_of_value v <> SInvalid.
Proof.
  rewrite negb_orb, andb_true_iff, !negb_true_iff, Z.eqb_neq, Z.ltb_ge. cbn. intros [? ?] ?.
  assert (v = 1 \/ v = 2 \/ v = 3 \/ v = 4 \/ v = 5 \/ v = 6 \/ v = 7 \/ v = 8 \/ v = 9)
    as Hv by lia.
  repeat destruct Hv as [->|Hv]; subst; done.
Qed.

Ltac checks :=
  rewrite ?negb_orb, ?andb_true_iff, ?orb_true_iff, ?negb_involutive, ?negb_true_iff,
    ?valid_true, ?valid_false, ?Z.eqb_neq, ?Z.eqb_eq, ?Z.ltb_ge, ?bool_decide_eq_true in *.

Lemma decode_list_valid limits profiles :
  dec_post (decode_list limits profiles) (list_valid limits profiles).
Proof.
  unfold decode_list, require_state, require_currentness. repeat post_step.
  unfold list_valid. cbv zeta. cbn [sl_content sl_generation sl_state c_segments c_profile
    sl_sequence_digest sl_content_digest].
  split_and!.
  - by apply valid_true.
  - by apply state_of_value_valid.
  - unfold size. checks. lia.
  - checks. by rewrite existsb_profile in *.
  - checks. destruct_and?. eexists. split; [|split; symmetry; eassumption]. lia.
Qed.

Definition decoded_valid (limits : Limits) (s : DurableState) : Prop :=
  ds_format_version s = kPersistenceFormatVersion /\
  Forall profile_valid (ds_profiles s) /\ NoDup (map pr_id (ds_profiles s)) /\
  NoDup (map po_id (ds_policies s)) /\
  Forall (list_valid limits (ds_profiles s)) (ds_lists s) /\ NoDup (map sl_id (ds_lists s)) /\
  Forall (fun h => dh_id h <> 0 /\ dh_generation h <> 0) (ds_history s) /\
  Forall (fun a => da_attempt a <> 0) (ds_attempts s) /\
  Forall (fun p => ps_id p <> 0 /\ ps_boot p <> 0) (ds_publishers s) /\
  Forall (fun b => b <> 0) (ds_fenced_boots s).

Lemma run_body_post {A} (m : Dec A) Q body parsed x :
  dec_post m Q -> run_body m body parsed = inl x -> Q x.
Proof.
  intros Hm. unfold run_body. destruct (m (reader body)) as [[y r]|[]] eqn:E; [|done].
  intros [= <-]. by eapply Hm.
Qed.

Lemma existsb_key_false {A} (key : A -> Z) k xs :
  existsb (fun e => key e =? k) xs = false -> k ∉ map key xs.
Proof.
  induction xs as [|x xs IH]; cbn; [intros _; apply not_elem_of_nil|].
  rewrite orb_false_iff, Z.eqb_neq, not_elem_of_cons. intros [? ?]. split; [congruence|auto].
Qed.

Lemma NoDup_map_snoc {A} (key : A -> Z) x xs :
  NoDup (map key xs) -> key x ∉ map key xs -> NoDup (map key (xs ++ [x])).
Proof.
  intros Hn Hx. rewrite map_app. apply list.NoDup_app. split_and!; [done| |apply NoDup_singleton].
  intros k Hk Hin. cbn in Hin. apply list_elem_of_singleton in Hin as ->. done.
Qed.

Lemma list_valid_more limits ps p l :
  list_valid limits ps l -> list_valid limits (ps ++ [p]) l.
Proof.
  unfold list_valid. cbv zeta. rewrite map_app, elem_of_app. tauto.
Qed.

Lemma Forall_snoc {A} (P : A -> Prop) x l : Forall P l -> P x -> Forall P (l ++ [x]).
Proof. intros. apply Forall_app. split; [done|]. by apply list.Forall_singleton. Qed.

Lemma decode_history_valid : dec_post decode_history (fun h => dh_id h <> 0 /\ dh_generation h <> 0).
Proof.
  unfold decode_history, require_state, require_currentness. repeat post_step. cbn.
  checks. tauto.
Qed.

Lemma decode_attempt_valid : dec_post decode_attempt (fun a => da_attempt a <> 0).
Proof. unfold decode_attempt. repeat post_step. cbn. by checks. Qed.

Lemma decode_publisher_valid :
  dec_post decode_publisher (fun p => ps_id p <> 0 /\ ps_boot p <> 0).
Proof. unfold decode_publisher. repeat post_step. cbn. checks. tauto. Qed.

(** Each record keeps the state valid. *)
Lemma decode_record_valid limits t raw body parsed s s' :
  decoded_valid limits s -> decode_record limits t raw body parsed s = inl s' ->
  decoded_valid limits s'.
Proof.
  intros (Hv & Hp & Hpn & Hqn & Hl & Hln & Hh & Ha & Hu & Hb) H.
  unfold decoded_valid. destruct t; cbn [decode_record] in H; [done|..];
    destruct (run_body _ body parsed) as [x|] eqn:E; try done.
  - destruct x. injection H as <-. done.
  - apply (run_body_post _ _ _ _ _ decode_profile_valid) in E.
    destruct (existsb _ _) eqn:Ex; [done|]. injection H as <-. apply existsb_key_false in Ex.
    cbn. split_and!; auto using Forall_snoc, NoDup_map_snoc.
    eapply list.Forall_impl; [exact Hl|]. intros. by apply list_valid_more.
  - destruct (existsb _ _) eqn:Ex; [done|]. injection H as <-. apply existsb_key_false in Ex.
    cbn. split_and!; auto using NoDup_map_snoc.
  - apply (run_body_post _ _ _ _ _ (decode_list_valid _ _)) in E.
    destruct (existsb _ _) eqn:Ex; [done|]. injection H as <-. apply existsb_key_false in Ex.
    cbn. split_and!; auto using Forall_snoc, NoDup_map_snoc.
  - apply (run_body_post _ _ _ _ _ decode_history_valid) in E. injection H as <-.
    cbn. split_and!; auto using Forall_snoc.
  - apply (run_body_post _ _ _ _ _ decode_attempt_valid) in E. injection H as <-.
    cbn. split_and!; auto using Forall_snoc.
  - apply (run_body_post _ _ _ _ _ decode_publisher_valid) in E. injection H as <-.
    cbn. split_and!; auto using Forall_snoc.
  - destruct (valid x) eqn:Ev; [|done]. apply valid_true in Ev. injection H as <-.
    cbn. split_and!; auto using Forall_snoc.
Qed.

Lemma decode_records_valid fuel limits r parsed s s' n :
  decoded_valid limits s -> decode_records fuel limits r parsed s = Some (inl (s', n)) ->
  decoded_valid limits s'.
Proof.
  revert r parsed s. induction fuel as [|fuel IH]; intros r parsed s Hs H; cbn in H.
  - destruct (at_end r); [|done]. by injection H as <- _.
  - destruct (at_end r); [by injection H as <- _|].
    destruct (next_record limits parsed r) as [[[raw body] r']|]; [|done].
    destruct (decode_record _ _ _ _ _ _) eqn:E; [|done].
    apply decode_record_valid in E; [|done]. by eapply IH.
Qed.

Lemma check_counts_none_inv limits c p s :
  check_counts limits c p s = None -> p = c /\ counts_within limits s.
Proof.
  unfold check_counts, counts_within. intros H.
  destruct (Z.eqb_spec p c); [|done]. cbn [negb] in H. split; [done|].
  repeat match type of H with
  | (if ?a <? ?b then _ else _) = _ => destruct (Z.ltb_spec a b); [done|]
  end. done.
Qed.

(** C26: Decoder soundness.  Whatever bytes are accepted, magic, version, flags, lengths and
    both checksums of the frame are right, every record of the decoded state is well formed,
    its counts are within the limits, and no reason is reported. *)
Theorem decode_durable_sound bytes limits result s out :
  size bytes < 2 ^ 64 ->
  decode_durable_state bytes limits result = (Some s, out) ->
  frame_valid bytes /\ decoded_valid limits s /\ counts_within limits s /\
  out = set_limits (Some limits) result.
Proof.
  intros Hs H. unfold decode_durable_state in H. cbv zeta in H.
  destruct (check_frame bytes limits) as [[count records]|] eqn:Ef; [|done].
  apply check_frame_spec in Ef as [Hv _]; [|done].
  destruct (decode_records _ _ _ _ _) as [[[s' n]|]|] eqn:E; [|done..].
  destruct (check_counts limits count n s') eqn:Ec; [done|]. injection H as <- <-.
  apply check_counts_none_inv in Ec as [_ Hc]. split_and!; [done| |done..].
  eapply decode_records_valid; [|exact E].
  unfold decoded_valid. cbn. split_and!; constructor || done.
Qed.

(** ** The backends end to end *)

Lemma alter_as_insert {A} (f : A -> A) (l : list A) (i : nat) x :
  l !! i = Some x -> alter f i l = <[i:=f x]> l.
Proof.
  revert i. induction l as [|y l IH]; intros [|i] H; try done; cbn in *.
  - by simplify_eq.
  - f_equal. by apply IH.
Qed.

Lemma xor_byte_changes b mask :
  0 < mask < 256 -> byte.of_Z (Z.lxor (byte.unsigned b) mask) <> b.
Proof.
  intros Hmask E. apply (f_equal byte.unsigned) in E.
  rewrite byte.unsigned_of_Z in E. unfold byte.wrap in E.
  pose proof (byte_fits 8 b ltac:(lia)) as Hb.
  pose proof (lxor_fits 8 _ mask ltac:(lia) Hb ltac:(unfold fits; lia)) as Hx.
  rewrite Z.mod_small in E by exact Hx.
  rewrite <-(Z.lxor_0_r (byte.unsigned b)) in E at 2. apply lxor_cancel_l in E. lia.
Qed.

(** C27: Flipping any bits of any one byte of a saved image makes the next load fail and
    load nothing. *)
Theorem memory_corruption_detected state limits limits' out m out' m' offset mask m'' report :
  size (encode_durable_state state limits out).1 < 2 ^ 64 ->
  MemoryPersistence.save state limits out m = (true, out', m') ->
  0 < mask < 256 -> 0 <= offset ->
  MemoryPersistence.corrupt_byte offset mask m' = (true, m'') ->
  exists report', MemoryPersistence.load report limits' m'' = (false, report') /\
    lr_loaded report' = false /\ lr_state report' = lr_state report /\
    (0 < max_reasons limits' -> result_ok (lr_result report') = false).
Proof.
  intros Hs Hsave Hmask Hoff Hcor.
  pose proof (p_save_true (P := MemoryPersistence) _ _ _ _ _ _ Hsave) as (Himg & Hne & _).
  cbn [p_image memory_persistence] in Himg, Hne. rewrite encode_set_limits in Himg.
  unfold MemoryPersistence.corrupt_byte in Hcor.
  destruct (Z.leb_spec (size (mp_bytes m')) offset) as [|Hlt]; [done|]. injection Hcor as <-.
  destruct (mp_bytes m' !! Z.to_nat offset) as [b|] eqn:Hb.
  2: { apply lookup_ge_None in Hb. unfold size in Hlt. lia. }
  unfold MemoryPersistence.load. cbn [mp_bytes]. rewrite (alter_as_insert _ _ _ _ Hb).
  set (b' := byte.of_Z _). rewrite Himg in Hb.
  destruct (decode_corrupt state limits limits' out _ b b' Hs Hb (xor_byte_changes b mask Hmask)
    (set_limits (Some limits') (lr_result report))) as (o & E & Ho).
  rewrite <-Himg in E. unfold load_bytes. cbn [lr_result]. rewrite E.
  destruct (<[_:=b']> (mp_bytes m')) as [|c bytes] eqn:Ei.
  { apply (f_equal length) in Ei. rewrite length_insert in Ei. by destruct (mp_bytes m'). }
  eexists. split; [reflexivity|]. done.
Qed.

(** C28: At every point of a file save an observer finds the old image or the whole new one;
    the new one is there exactly when the save returns [true]. *)
Theorem file_save_atomic state limits out f r out' trace :
  FilePersistence.save_trace state limits out f = (r, out', trace) ->
  let image := (encode_durable_state state limits (set_limits (Some limits) out)).1 in
  Forall (fun g => fp_target g = fp_target f \/ fp_target g = Some image) trace /\
  fp_target (hd f trace) = (if r then Some image else fp_target f) /\
  (r = true -> image <> []).
Proof.
  intros H image.
  destruct (file_save_trace_target _ _ _ _ _ _ _ H) as (g & older & -> & Ho & Hg & Ht & _).
  split_and!.
  - apply list.Forall_cons. split; [destruct r; auto|].
    eapply list.Forall_impl; [exact Ho|]. auto.
  - exact Hg.
  - intros Hr. by destruct (Ht Hr).
Qed.
