(* ===== verification/Store.v ===== *)
(** * The governed segment-list store

    [include/srf/store.hpp] and [src/store.cpp].  A method of [SegmentListStore] is a
    function on the store; where the source releases its mutex, an [Interference] says
    what the rest of the program does to the store (its evidence, registry and
    authority included) before the method goes on.  The phases between two such
    points are single steps. *)

From S2P Require Import Prelude.
From S2P Require Import Ids.
From S2P Require Import Bytes.
From S2P Require Import Digest.
From S2P Require Import Segment.
From S2P Require Import Reason.
From S2P Require Import Lifecycle.
From S2P Require Import Governance.
From S2P Require Import Authority.
From S2P Require Import Registries.
From S2P Require Import Evidence.
From S2P Require Import Validation.
From S2P Require Import Persistence.

(** ** Outcomes *)
Inductive StatusCode :=
  | StOk | StRejected | StConflict | StNotFound | StPersistenceFailed | StLimitExceeded
  | StExhausted | StInternal.

#[global] Instance StatusCode_eq_dec : EqDecision StatusCode.
Proof. solve_decision. Defined.

Definition status_code_name (code : StatusCode) : string :=
  match code with
  | StOk => "Ok" | StRejected => "Rejected" | StConflict => "Conflict"
  | StNotFound => "NotFound" | StPersistenceFailed => "PersistenceFailed"
  | StLimitExceeded => "LimitExceeded" | StExhausted => "Exhausted"
  | StInternal => "Internal"
  end%string.

Definition status_for (result : ValidationResult) : StatusCode :=
  if result_ok result then StOk
  else
    match r_code (primary result) with
    | CommitPersistenceFailure | CommitNotDurable => StPersistenceFailed
    | CommitGenerationExhausted | ListGenerationExhausted | EpochExhausted => StExhausted
    | ListGenerationConflict | CommitConflict | CommitWatermarkChanged => StConflict
    | ListNotFound | ListSupersedesUnknown | CallerUnknownPublisher | ProfileUnknown
    | PolicyUnknown | PathUnknown | RouteBindingUnknown | ConstraintBindingUnknown
    | TopologyAdjacencyUnknown | SegmentEntityUnknown => StNotFound
    | _ =>
        match primary_phase result with
        | PhResourceLimits => StLimitExceeded
        | PhCommit => StConflict
        | _ => StRejected
        end
    end.

Record MutationOutcome := {
  mo_status : StatusCode;
  mo_result : ValidationResult;
  mo_list : SegmentListId;
  mo_generation : SegmentListGeneration;
  mo_digest : Digest128;
  mo_snapshot : SnapshotId;
  mo_idempotent_replay : bool;
  mo_durable : bool;
}.

(** [MutationOutcome outcome; outcome.result.set_limits(&limits_);] *)
Definition new_outcome (limits : Limits) : MutationOutcome := {|
  mo_status := StOk; mo_result := set_limits (Some limits) empty_result; mo_list := 0;
  mo_generation := 0; mo_digest := mkDigest 0 0; mo_snapshot := 0;
  mo_idempotent_replay := false; mo_durable := false;
|}.

Definition reject (status : StatusCode) (code : ReasonCode) (detail : Z)
    (o : MutationOutcome) : MutationOutcome :=
  {| o with mo_status := status; mo_result := add code 0 detail (mo_result o) |}.

(** [outcome.result.absorb(r); outcome.status = status_for(outcome.result);] *)
Definition reject_with (r : ValidationResult) (o : MutationOutcome) : MutationOutcome :=
  let result := absorb r (mo_result o) in
  {| o with mo_result := result; mo_status := status_for result |}.

(** ** Drafts *)
Record ListDraft := {
  ld_id : SegmentListId;
  ld_scope : ScopeId;
  ld_profile : SegmentProfileId;
  ld_profile_generation : SegmentProfileGeneration;
  ld_policy : SegmentPolicyId;
  ld_policy_generation : SegmentPolicyGeneration;
  ld_strictness : Strictness;
  ld_topology : TopologyGeneration;
  ld_capability : CapabilityGeneration;
  ld_path : PathId;
  ld_path_authority : PathAuthorityGeneration;
  ld_route : RouteId;
  ld_route_generation : RouteGeneration;
  ld_constraint : ConstraintEvaluationId;
  ld_constraint_generation : ConstraintGeneration;
  ld_segments : list Segment;
  ld_expected_generation : SegmentListGeneration;
  ld_supersedes : SegmentListId;
  ld_supersedes_generation : SegmentListGeneration;
  ld_derived : bool;
}.

(** [ListDraft{}] *)
Definition empty_draft : ListDraft := {|
  ld_id := 0; ld_scope := 0; ld_profile := 0; ld_profile_generation := 0; ld_policy := 0;
  ld_policy_generation := 0; ld_strictness := Strict; ld_topology := 0;
  ld_capability := 0; ld_path := 0; ld_path_authority := 0; ld_route := 0;
  ld_route_generation := 0; ld_constraint := 0; ld_constraint_generation := 0;
  ld_segments := []; ld_expected_generation := 0; ld_supersedes := 0;
  ld_supersedes_generation := 0; ld_derived := false;
|}.

Definition draft_width (d : ListDraft) : Z :=
  fold_left (fun width s => Z.max width (u32 (size (seg_payload s)))) (ld_segments d) 0.

Definition draft_payload_digest (d : ListDraft) : Digest128 :=
  let width := draft_width d in
  digest128 (
    put16 0xD101 ++
    put64s [ld_id d; ld_scope d; ld_profile d; ld_profile_generation d; ld_policy d;
            ld_policy_generation d] ++
    put8 (strictness_value (ld_strictness d)) ++
    put64s [ld_topology d; ld_capability d; ld_path d; ld_path_authority d; ld_route d;
            ld_route_generation d; ld_constraint d; ld_constraint_generation d] ++
    put8 (bool_byte (ld_derived d)) ++
    put64s [ld_expected_generation d; ld_supersedes d; ld_supersedes_generation d] ++
    put32 width ++ put32 (size (ld_segments d)) ++
    concat (map (fun s => canonical_segment_bytes (canonicalize_segment s)
                            (if width =? 0 then 1 else width)) (ld_segments d))).

(** The identity of a whole request. *)
Definition batch_payload_digest (drafts : list ListDraft) : Digest128 :=
  digest128 (put16 0xD102 ++
    concat (map (fun d => put64 (hi (draft_payload_digest d)) ++
                          put64 (lo (draft_payload_digest d))) drafts)).

(** ** The store *)
Record SegmentListStore {E P : Type} := {
  st_limits : Limits;
  st_evidence : option E;
  st_persistence : option P;
  st_authority : AuthorityTable;
  st_registry : Registry;
  st_state : DurableState;
  st_index : list (SegmentListId * nat);
  st_snapshot_counter : Z;
}.

#[global] Arguments SegmentListStore : clear implicits.

(** ** Lookup by identifier *)
Definition index_le (a b : SegmentListId * nat) : Prop := a.1 <= b.1.

#[global] Instance index_le_dec : RelDecision index_le.
Proof. intros a b. unfold index_le. apply _. Defined.

(** [rebuild_index_locked]: the pairs of identifier and position, sorted. *)
Definition build_index (lists : list SegmentList) : list (SegmentListId * nat) :=
  merge_sort index_le (imap (fun i l => (sl_id l, i)) lists).

(** [std::lower_bound]: the first entry that is not before [id], on a sorted range. *)
Fixpoint lower_bound (id : SegmentListId) (index : list (SegmentListId * nat))
  : option (SegmentListId * nat) :=
  match index with
  | [] => None
  | e :: index' => if e.1 <? id then lower_bound id index' else Some e
  end.

(** [index_consistent_locked] *)
Fixpoint index_consistent (index : list (SegmentListId * nat)) (lists : list SegmentList)
    (previous : option SegmentListId) : bool :=
  match index with
  | [] => true
  | (id, i) :: index' =>
      match lists !! i with
      | None => false
      | Some l =>
          (sl_id l =? id) &&
          match previous with Some p => p <? id | None => true end &&
          index_consistent index' lists (Some id)
      end
  end.

Definition advance_state (state : LifecycleState) (event : LifecycleEvent)
  : option LifecycleState :=
  let outcome := lifecycle_transition state event in
  if allowed outcome then Some (next outcome) else None.

Definition sequence_has_adjacency (ss : list Segment) : bool :=
  existsb (fun s => kind_eqb (seg_kind s) KAdjacency) ss.

Definition next_history_id (s : DurableState) : HistoryId :=
  match list.last (ds_history s) with
  | None => 1
  | Some h => if 0xFFFFFFFFFFFFFFFF <=? dh_id h then 0 else u64 (dh_id h + 1)
  end.

(** [append_history_locked]; the entry is stamped with one more than the revision of
    the state it is appended to. *)
Definition append_history (limits : Limits) (l : SegmentList) (s : DurableState)
  : DurableState :=
  let id := next_history_id s in
  if negb (valid id) then s
  else
    let kept := if max_history limits <=? size (ds_history s) then tail (ds_history s)
                else ds_history s in
    {| s with ds_history := kept ++ [
         {| dh_id := id; dh_list := sl_id l; dh_generation := sl_generation l;
            dh_state := sl_state l; dh_currentness := sl_currentness l;
            dh_digest := sl_content_digest l; dh_revision := u64 (ds_revision s + 1) |}] |}.

(** [record_attempt_locked] *)
Definition record_attempt (attempt : MutationAttemptId) (list : SegmentListId)
    (payload : Digest128) (generation : SegmentListGeneration) (s : DurableState)
  : DurableState :=
  {| s with ds_attempts :=
       put_key da_attempt {| da_attempt := attempt; da_list := list; da_payload := payload;
                             da_generation := generation; da_committed := true |}
         (ds_attempts s) |}.

Definition find_attempt (attempt : MutationAttemptId) (s : DurableState)
  : option DurableAttemptRecord := find_key da_attempt attempt (ds_attempts s).

(** [attempt_table_accepts_locked] *)
Definition attempt_table_accepts (limits : Limits) (attempt : MutationAttemptId)
    (s : DurableState) : bool :=
  negb (valid attempt) ||
  match find_attempt attempt s with Some _ => true | None => false end ||
  (size (ds_attempts s) <? max_attempt_records limits).

(** [find_in_state] *)
Definition find_in_state (id : SegmentListId) (s : DurableState) : option SegmentList :=
  find_key sl_id id (ds_lists s).

(** ** Preparing a mutation *)
Record Resolved := {
  rs_existing : option SegmentList;
  rs_profile : option SegmentProfile;
  rs_policy : option SegmentPolicy;
  rs_superseded : option SegmentList;
}.

Definition empty_resolved : Resolved :=
  {| rs_existing := None; rs_profile := None; rs_policy := None; rs_superseded := None |}.

Record PreparedContext := {
  cx_limits : Limits;
  cx_authority : AuthorityView;
  cx_epoch : CoordinatorEpoch;
  cx_registry_revision : Z;
  cx_store_revision : Z;
  cx_watermark : EvidenceWatermark;
  cx_evidence : FabricEvidence;
}.

Record PreparedMutation := {
  pm_id : SegmentListId;
  pm_existing_generation : option SegmentListGeneration;
  pm_superseded_id : SegmentListId;
  pm_superseded_generation : option SegmentListGeneration;
  pm_list : SegmentList;
}.

(** [build_request]; the pointers are never null where the store sets them. *)
Definition build_request (caller : CallerIdentity) (d : ListDraft) (intent : LifecycleEvent)
    (full : bool) (ctx : PreparedContext) (res : Resolved) : ValidationRequest := {|
  vr_limits := Some (cx_limits ctx);
  vr_caller := Some caller;
  vr_authority := Some (cx_authority ctx);
  vr_list_id := ld_id d;
  vr_scope := ld_scope d;
  vr_existing := rs_existing res;
  vr_expected_generation := ld_expected_generation d;
  vr_intent := intent;
  vr_profile_id := ld_profile d;
  vr_profile_generation := ld_profile_generation d;
  vr_profile := rs_profile res;
  vr_profile_found := negb (is_none (rs_profile res));
  vr_policy_id := ld_policy d;
  vr_policy_generation := ld_policy_generation d;
  vr_policy := rs_policy res;
  vr_policy_found := negb (is_none (rs_policy res));
  vr_policy_required := valid (ld_policy d);
  vr_strictness := ld_strictness d;
  vr_topology := ld_topology d;
  vr_capability := ld_capability d;
  vr_path := ld_path d;
  vr_path_authority := ld_path_authority d;
  vr_route := ld_route d;
  vr_route_generation := ld_route_generation d;
  vr_constraint := ld_constraint d;
  vr_constraint_generation := ld_constraint_generation d;
  vr_segments := ld_segments d;
  vr_derived := ld_derived d;
  vr_evidence := Some (cx_evidence ctx);
  vr_full := full;
  vr_require_absent := false;
  vr_require_existing := false;
|}.

(** The content a draft binds: an unbound generation that the content needs is the one
    observed, one it does not need stays unbound. *)
Definition make_content (d : ListDraft) (ctx : PreparedContext) (res : Resolved)
  : SegmentListContent :=
  let profile := default empty_profile (rs_profile res) in
  {|
    c_id := ld_id d; c_scope := ld_scope d; c_profile := pr_id profile;
    c_profile_generation := pr_generation profile; c_policy := ld_policy d;
    c_policy_generation := match rs_policy res with Some p => po_generation p | None => 0 end;
    c_strictness := ld_strictness d;
    c_topology := if valid (ld_topology d) then ld_topology d
                  else if sequence_has_adjacency (ld_segments d)
                  then ev_topology (cx_evidence ctx) else 0;
    c_capability := if valid (ld_capability d) then ld_capability d
                    else if negb (is_empty (pr_required_capabilities profile))
                    then ev_capability (cx_evidence ctx) else 0;
    c_path := ld_path d; c_path_authority := ld_path_authority d; c_route := ld_route d;
    c_route_generation := ld_route_generation d; c_constraint := ld_constraint d;
    c_constraint_generation := ld_constraint_generation d;
    c_segments := canonicalize_segments (ld_segments d);
  |}.

Definition make_list (caller : CallerIdentity) (d : ListDraft) (ctx : PreparedContext)
    (res : Resolved) (previous : option SegmentList) (epoch : CoordinatorEpoch)
    (committed_revision : Z) : SegmentList :=
  let content := make_content d ctx res in
  let width := pr_payload_width (default empty_profile (rs_profile res)) in
  {|
    sl_content := content;
    sl_generation := match previous with
                     | Some p => u64 (sl_generation p + 1)
                     | None => Generation.initial
                     end;
    sl_lineage := {|
      ln_supersedes := match previous with Some p => sl_generation p | None => 0 end;
      ln_superseded_by := 0; ln_history := 0 |};
    sl_authority := {| au_publisher := ci_publisher caller; au_boot := ci_boot caller;
                       au_epoch := epoch; au_attempt := ci_attempt caller |};
    sl_provenance := {|
      pv_source_path := ld_path d; pv_source_path_authority := ld_path_authority d;
      pv_source_route := ld_route d; pv_source_route_generation := ld_route_generation d;
      pv_source_constraint := ld_constraint d;
      pv_source_constraint_generation := ld_constraint_generation d;
      pv_derivation_policy := c_policy_generation content;
      pv_observed_topology := c_topology content;
      pv_observed_capability := c_capability content;
      pv_publisher := ci_publisher caller; pv_boot := ci_boot caller; pv_epoch := epoch |};
    sl_state :=
      match advance_state Declared ValidateBegin with
      | Some s => default Declared (advance_state s ValidateSucceed)
      | None => Declared
      end;
    sl_currentness := Current;
    sl_content_digest := content_digest content width;
    sl_sequence_digest := sequence_digest (c_segments content) width;
    sl_committed_revision := committed_revision;
  |}.

(** [drafts.empty()], [drafts.size() > max_batch_size] *)
Definition check_batch (limits : Limits) (drafts : list ListDraft) (o : MutationOutcome)
  : option MutationOutcome :=
  if is_empty drafts then Some (reject StRejected InvalidArgument 0 o)
  else if max_batch_size limits <? size drafts
  then Some (reject StLimitExceeded LimitMaxBatchSize (max_batch_size limits) o)
  else None.

Definition evidence_records (e : FabricEvidence) : Z :=
  size (ev_capabilities e) + size (ev_segments e) + size (ev_nodes e) +
  size (ev_adjacencies e) + size (ev_endpoints e) + size (ev_bindings e) +
  size (ev_paths e) + size (ev_routes e) + size (ev_constraints e).

(** The lifecycle part of superseding [other]. *)
Definition supersede_reports (other : SegmentList) : list Reason :=
  let gen := sl_generation other in
  if allowed (lifecycle_transition (sl_state other) SupersedeBegin) then []
  else
    match sl_state other with
    | Retired => [mkReason ListRetired 0 gen]
    | Revoked => [mkReason ListRevoked 0 gen]
    | _ => []
    end ++ [mkReason LifecycleTransitionDenied 0 gen].

(** What phase C adds to the result of [validate_request] for one draft. *)
Definition prepare_reports (d : ListDraft) (res : Resolved) : list Reason :=
  match rs_existing res with
  | Some e => report (negb (ld_expected_generation d =? sl_generation e))
                ListGenerationConflict 0 (sl_generation e)
  | None => []
  end ++
  if valid (ld_supersedes d) then
    match rs_superseded res with
    | None => [mkReason ListSupersedesUnknown 0 (ld_supersedes d)]
    | Some other =>
        report (negb (ld_supersedes_generation d =? sl_generation other))
          ListGenerationConflict 0 (sl_generation other) ++ supersede_reports other
    end
  else [].

(** One turn of phase C: the prepared mutation, or the result to absorb. *)
Definition prepare_one (caller : CallerIdentity) (intent : LifecycleEvent)
    (require_existing require_absent : bool) (ctx : PreparedContext)
    (dr : ListDraft * Resolved) : PreparedMutation + ValidationResult :=
  let '(d, res) := dr in
  let request := {| (build_request caller d intent true ctx res) with
                    vr_require_existing := require_existing;
                    vr_require_absent := require_absent |} in
  let result := emit (prepare_reports d res) (validate_request request) in
  if failed result then inr result
  else
    match rs_existing res with
    | Some p =>
        if Generation.exhausted (sl_generation p)
        then inr (failure ListGenerationExhausted 0 (sl_generation p))
        else
          let l := make_list caller d ctx res (Some p) (cx_epoch ctx)
                     (u64 (cx_store_revision ctx + 1)) in
          if sl_generation l =? 0 then inr (failure CommitGenerationExhausted 0 0)
          else inl {| pm_id := ld_id d; pm_existing_generation := Some (sl_generation p);
                      pm_superseded_id := ld_supersedes d;
                      pm_superseded_generation := sl_generation <$> rs_superseded res;
                      pm_list := l |}
    | None =>
        inl {| pm_id := ld_id d; pm_existing_generation := None;
               pm_superseded_id := ld_supersedes d;
               pm_superseded_generation := sl_generation <$> rs_superseded res;
               pm_list := make_list caller d ctx res None (cx_epoch ctx)
                            (u64 (cx_store_revision ctx + 1)) |}
    end.

(** [combined]: every draft's rejection, absorbed in order. *)
Definition combine (limits : Limits) (rs : list (PreparedMutation + ValidationResult))
  : ValidationResult :=
  fold_left (fun combined r => match r with inl _ => combined | inr v => absorb v combined end)
    rs (set_limits (Some limits) empty_result).

Fixpoint prepared_of (rs : list (PreparedMutation + ValidationResult)) : list PreparedMutation :=
  match rs with
  | [] => []
  | inl pm :: rs' => pm :: prepared_of rs'
  | inr _ :: rs' => prepared_of rs'
  end.

(** ** Committing *)

(** The superseded lineage after the event. *)
Definition superseded_list (pm : PreparedMutation) (revision : Z) (state : LifecycleState)
    (other : SegmentList) : SegmentList :=
  {| other with
     sl_state := state;
     sl_lineage := {| (sl_lineage other) with ln_superseded_by := pm_id pm |};
     sl_currentness := CUnknown;
     sl_committed_revision := revision |}.

(** The body of the commit loop for one mutation, or the lineage whose supersession the
    lifecycle refused. *)
Definition supersede_in (limits : Limits) (pm : PreparedMutation) (next : DurableState)
  : option DurableState :=
  match pm_superseded_generation pm with
  | None => Some next
  | Some _ =>
      match find_in_state (pm_superseded_id pm) next with
      | None => Some next
      | Some other =>
          match advance_state (sl_state other) SupersedeBegin with
          | None => None
          | Some state =>
              let other := superseded_list pm (ds_revision next) state other in
              Some (append_history limits other
                {| next with ds_lists :=
                     update_key sl_id (pm_superseded_id pm) (fun _ => other) (ds_lists next) |})
          end
      end
  end.

Definition place_list (limits : Limits) (pm : PreparedMutation) (next : DurableState)
  : DurableState :=
  match find_in_state (pm_id pm) next with
  | Some slot =>
      let replaced := {| slot with sl_state := Superseded; sl_currentness := CUnknown |} in
      let next := append_history limits replaced next in
      {| next with ds_lists :=
           update_key sl_id (pm_id pm) (fun _ => pm_list pm) (ds_lists next) |}
  | None => {| next with ds_lists := ds_lists next ++ [pm_list pm] |}
  end.

Definition commit_one (limits : Limits) (attempt : MutationAttemptId) (payload : Digest128)
    (pm : PreparedMutation) (next : DurableState) : DurableState + SegmentListId :=
  match supersede_in limits pm next with
  | None => inr (pm_superseded_id pm)
  | Some next =>
      let next := place_list limits pm next in
      let next := append_history limits (pm_list pm) next in
      inl (record_attempt attempt (pm_id pm) payload (sl_generation (pm_list pm)) next)
  end.

Fixpoint commit_all (limits : Limits) (attempt : MutationAttemptId) (payload : Digest128)
    (pms : list PreparedMutation) (next : DurableState) : DurableState + SegmentListId :=
  match pms with
  | [] => inl next
  | pm :: pms' =>
      match commit_one limits attempt payload pm next with
      | inl next => commit_all limits attempt payload pms' next
      | inr id => inr id
      end
  end.

Definition total_segments_of (lists : list SegmentList) : Z :=
  fold_left (fun total l => total + size (c_segments (sl_content l))) lists 0.

Definition new_mutations (pms : list PreparedMutation) : list PreparedMutation :=
  List.filter (fun pm => is_none (pm_existing_generation pm)) pms.

(** ** Refreshing currentness *)
Record CurrentnessChange := {
  cc_list : SegmentListId;
  cc_generation : SegmentListGeneration;
  cc_was : Currentness;
  cc_now : Currentness;
}.

Record CurrentnessReport := {
  cr_examined : Z;
  cr_invalidated : Z;
  cr_changes : list CurrentnessChange;
}.

(** The states the refresh skips. *)
Definition refresh_skips (state : LifecycleState) : bool :=
  match state with
  | Retired | Withdrawn | Superseded | Revoked => true
  | _ => false
  end.

(** [if (currentness == Current && condition) currentness = stale;] *)
Definition degrade (condition : bool) (stale : Currentness) (c : Currentness) : Currentness :=
  if currentness_eqb c Current && condition then stale else c.

Definition capabilities_stale (e : FabricEvidence) (p : SegmentProfile) : bool :=
  existsb (fun key =>
    match find_capability e key with
    | None => true
    | Some r => negb (cap_supported r) || negb (cap_generation r =? ev_capability e)
    end) (pr_required_capabilities p).

Definition adjacencies_stale (e : FabricEvidence) (ss : list Segment) : bool :=
  existsb (fun s =>
    kind_eqb (seg_kind s) KAdjacency &&
    match find_adjacency e (seg_adjacency s) with
    | None => true
    | Some r => negb (ar_topology r =? seg_topology s)
    end) ss.

(** [record == nullptr || record->generation != bound] *)
Definition record_stale {A} (record : option A) (generation : A -> Z) (bound : Z) : bool :=
  match record with None => true | Some r => negb (generation r =? bound) end.

(** The evidence part of the refresh. *)
Definition degrade_by_evidence (e : FabricEvidence) (p : SegmentProfile)
    (c : SegmentListContent) (cur : Currentness) : Currentness :=
  let cur := degrade ((valid (c_capability c) && negb (c_capability c =? ev_capability e))
                      || capabilities_stale e p) StaleCapability cur in
  let cur := degrade ((valid (c_topology c) && negb (c_topology c =? ev_topology e))
                      || adjacencies_stale e (c_segments c)) StaleTopology cur in
  let cur := degrade (valid (c_path c) &&
      record_stale (find_path e (c_path c)) par_authority (c_path_authority c))
      StalePathAuthority cur in
  let cur := degrade (valid (c_route c) &&
      record_stale (find_route e (c_route c)) ror_generation (c_route_generation c))
      StaleRouteBinding cur in
  degrade (valid (c_constraint c) &&
      record_stale (find_constraint e (c_constraint c)) cor_generation
        (c_constraint_generation c)) StaleConstraintBinding cur.

(** The currentness the refresh computes for one list. *)
Definition refreshed_currentness (registry : Registry) (authority : AuthorityTable)
    (evidence : option FabricEvidence) (epoch : CoordinatorEpoch) (l : SegmentList)
  : Currentness :=
  let c := sl_content l in
  let profile := Registry.find_profile (c_profile c) registry in
  let policy := if valid (c_policy c) then Registry.find_policy (c_policy c) registry
                else None in
  let cur :=
    if AuthorityTable.is_fenced (au_boot (sl_authority l)) authority then FencedPublisher
    else match profile with
    | None => StaleProfile
    | Some p =>
        if negb (pr_generation p =? c_profile_generation c) then StaleProfile
        else if valid (c_policy c) &&
                record_stale policy po_generation (c_policy_generation c) then StalePolicy
        else Current
    end in
  let cur := match evidence with
             | Some e => degrade_by_evidence e (default empty_profile profile) c cur
             | None => cur
             end in
  degrade (valid (au_epoch (sl_authority l)) && valid epoch &&
           negb (au_epoch (sl_authority l) =? epoch)) StaleEpoch cur.

(** What the refresh writes back. *)
Definition refresh_list (cur : Currentness) (l : SegmentList) : SegmentList :=
  {| l with
     sl_currentness := cur;
     sl_state := if negb (currentness_eqb cur Current) && state_eqb (sl_state l) Active
                 then RevalidationRequired else sl_state l |}.

(** One turn of the loop: the list, and its contribution to [changed] and the report. *)
Definition refresh_one (f : SegmentList -> Currentness) (l : SegmentList)
    (acc : list SegmentList * bool * CurrentnessReport)
  : list SegmentList * bool * CurrentnessReport :=
  let '(done, changed, report) := acc in
  if refresh_skips (sl_state l) then (done ++ [l], changed, report)
  else
    let cur := f l in
    let moved := negb (currentness_eqb cur (sl_currentness l)) in
    let dropped := negb (currentness_eqb cur Current) && state_eqb (sl_state l) Active in
    let was_current :=
      state_eqb (sl_state l) Active && currentness_eqb (sl_currentness l) Current in
    (done ++ [refresh_list cur l], changed || moved || dropped,
     {| cr_examined := cr_examined report + 1;
        cr_invalidated := cr_invalidated report +
          bool_byte (was_current && negb (currentness_eqb cur Current));
        cr_changes := cr_changes report ++
          if moved then [{| cc_list := sl_id l; cc_generation := sl_generation l;
                            cc_was := sl_currentness l; cc_now := cur |}] else [] |}).

Definition refresh_all (f : SegmentList -> Currentness) (lists : list SegmentList)
  : list SegmentList * bool * CurrentnessReport :=
  fold_left (fun acc l => refresh_one f l acc) lists
    ([], false, {| cr_examined := 0; cr_invalidated := 0; cr_changes := [] |}).

(** ** Recovery *)

(** The state and currentness of a list after a restart. *)
Definition recover_list (l : SegmentList) : SegmentList :=
  let outcome := lifecycle_transition (sl_state l) RecoveryLoad in
  let state := if allowed outcome then next outcome else RevalidationRequired in
  {| l with
     sl_state := state;
     sl_currentness := if state_eqb state RevalidationRequired then CRevalidationRequired
                       else CUnknown |}.

Definition count_requiring (lists : list SegmentList) : Z :=
  size (List.filter (fun l => state_eqb (sl_state l) RevalidationRequired) lists).

(** [dead.alive = false; dead.fenced = true;] restored with its boot fenced. *)
Definition restore_dead (p : PublisherState) (t : AuthorityTable) : AuthorityTable :=
  let t := AuthorityTable.restore_publisher (AuthorityTable.kill p) t in
  if valid (ps_boot p) then AuthorityTable.restore_fenced_boot (ps_boot p) t else t.

Definition restore_authority (s : DurableState) (t : AuthorityTable) : AuthorityTable :=
  let t := fold_left (fun t p => restore_dead p t) (ds_publishers s) t in
  fold_left (fun t b => AuthorityTable.restore_fenced_boot b t) (ds_fenced_boots s) t.

Definition restore_registry (s : DurableState) (g : Registry) : Registry :=
  let g := fold_left (fun g p => Registry.restore_profile p g) (ds_profiles s) g in
  fold_left (fun g p => Registry.restore_policy p g) (ds_policies s) g.

(** The epoch to restore before it is advanced. *)
Definition recovery_base (durable live : CoordinatorEpoch) : CoordinatorEpoch :=
  let base := if valid durable then durable else Generation.initial in
  if base <? live then live else base.

(** ** Views *)
Record SegmentListSnapshot := {
  ss_id : SnapshotId;
  ss_revision : Z;
  ss_epoch : CoordinatorEpoch;
  ss_list : option SegmentList;
  ss_digest : Digest128;
}.

Record HistoryReport := {
  hr_entries : list DurableHistoryEntry;
  hr_retained : Z;
  hr_limit : Z;
  hr_at_capacity : bool;
}.

Section Store.
Context {E P : Type} `{EvidenceSource E} `{IPersistence P}.
Implicit Types (s : SegmentListStore E P) (o : MutationOutcome) (caller : CallerIdentity).

Definition new_store (limits : Limits) (evidence : option E) (persistence : option P)
  : SegmentListStore E P := {|
  st_limits := limits; st_evidence := evidence; st_persistence := persistence;
  st_authority := (AuthorityTable.restore_epoch Generation.initial initial_authority).2;
  st_registry := empty_registry;
  st_state := {| empty_durable with ds_epoch := Generation.initial |};
  st_index := []; st_snapshot_counter := 1;
|}.

Definition rebuild_index_locked (s : SegmentListStore E P) : SegmentListStore E P :=
  {| s with st_index := build_index (ds_lists (st_state s)) |}.

Definition index_consistent_locked s : bool :=
  (size (st_index s) =? size (ds_lists (st_state s))) &&
  index_consistent (st_index s) (ds_lists (st_state s)) None.

(** The position and the list. *)
Definition find_locked (id : SegmentListId) s : option (nat * SegmentList) :=
  match lower_bound id (st_index s) with
  | Some (id', i) =>
      if id' =? id then l ← ds_lists (st_state s) !! i; Some (i, l) else None
  | None => None
  end.

Definition persist_locked (next : DurableState) (out : ValidationResult)
    (s : SegmentListStore E P) : bool * ValidationResult * SegmentListStore E P :=
  let out := set_limits (Some (st_limits s)) out in
  match st_persistence s with
  | None => (true, out, s)
  | Some p =>
      let '(saved, out, p) := p_save next (st_limits s) out p in
      let s := {| s with st_persistence := Some p |} in
      if saved then (true, out, s)
      else (false, if result_ok out then add CommitPersistenceFailure 0 0 out else out, s)
  end.

(** [state_ = std::move(next); rebuild_index_locked();] *)
Definition install (next : DurableState) (s : SegmentListStore E P) : SegmentListStore E P :=
  rebuild_index_locked {| s with st_state := next |}.

Definition authority_view s : AuthorityView := view_of (st_authority s).

Definition observed_watermark s : EvidenceWatermark :=
  match st_evidence s with Some e => ev_watermark e | None => empty_watermark end.

Definition observed_evidence s : FabricEvidence :=
  match st_evidence s with Some e => ev_snapshot e | None => empty_evidence end.

(** The dependency copies every durable write carries. *)
Definition with_dependencies s (next : DurableState) : DurableState :=
  {| next with
     ds_profiles := rg_profiles (st_registry s);
     ds_policies := rg_policies (st_registry s);
     ds_publishers := at_publishers (st_authority s);
     ds_fenced_boots := at_fenced_boots (st_authority s) |}.

(** *** Registration *)
Definition persist_registration (result : ValidationResult) (s : SegmentListStore E P)
  : ValidationResult * SegmentListStore E P :=
  let next := with_dependencies s (st_state s) in
  let '(saved, result, s) := persist_locked next result s in
  if negb saved then (result, s)
  else (result, install {| next with ds_revision := u64 (ds_revision (st_state s) + 1) |} s).

Definition register_profile (p : SegmentProfile) (s : SegmentListStore E P)
  : ValidationResult * SegmentListStore E P :=
  let '(result, registry) := Registry.register_profile p (st_limits s) (st_registry s) in
  let s := {| s with st_registry := registry |} in
  if failed result then (result, s) else persist_registration result s.

Definition register_policy (p : SegmentPolicy) (s : SegmentListStore E P)
  : ValidationResult * SegmentListStore E P :=
  let '(result, registry) := Registry.register_policy p (st_limits s) (st_registry s) in
  let s := {| s with st_registry := registry |} in
  if failed result then (result, s) else persist_registration result s.

(** *** [run_batch] *)

(** Phase B for one draft. *)
Definition resolve s (d : ListDraft) : Resolved := {|
  rs_existing := snd <$> find_locked (ld_id d) s;
  rs_profile := Registry.find_profile (ld_profile d) (st_registry s);
  rs_policy := if valid (ld_policy d)
               then Registry.find_policy (ld_policy d) (st_registry s) else None;
  rs_superseded := if valid (ld_supersedes d)
                   then snd <$> find_locked (ld_supersedes d) s else None;
|}.

Definition capture s (watermark : EvidenceWatermark) (evidence : FabricEvidence)
  : PreparedContext := {|
  cx_limits := st_limits s; cx_authority := authority_view s;
  cx_epoch := at_epoch (st_authority s);
  cx_registry_revision := rg_revision (st_registry s);
  cx_store_revision := ds_revision (st_state s);
  cx_watermark := watermark; cx_evidence := evidence;
|}.

(** [SnapshotId{snapshot_counter_.fetch_add(1)}] *)
Definition take_snapshot_id (s : SegmentListStore E P) : SnapshotId * SegmentListStore E P :=
  (st_snapshot_counter s, {| s with st_snapshot_counter := u64 (st_snapshot_counter s + 1) |}).

(** The outcome of an exact replay: what the drafts' lists are now. *)
Definition replay_outcome (drafts : list ListDraft) s o : MutationOutcome :=
  fold_left (fun o d =>
    match find_locked (ld_id d) s with
    | None => o
    | Some (_, l) => {| o with mo_list := ld_id d; mo_generation := sl_generation l;
                               mo_digest := sl_content_digest l |}
    end) drafts
    {| o with mo_status := StOk; mo_idempotent_replay := true;
              mo_durable := negb (is_none (st_persistence s)) |}.

(** The replay table: an outcome that ends the request, or nothing. *)
Definition check_attempt caller (payload : Digest128) (drafts : list ListDraft)
    (s : SegmentListStore E P) o : option (MutationOutcome * SegmentListStore E P) :=
  let limits := st_limits s in
  match (if valid (ci_attempt caller) then find_attempt (ci_attempt caller) (st_state s)
         else None) with
  | Some record =>
      if bool_decide (da_payload record = payload) then
        let '(id, s') := take_snapshot_id s in
        Some ({| (replay_outcome drafts s o) with mo_snapshot := id |}, s')
      else Some (reject StConflict CommitReplayPayloadMismatch (ci_attempt caller) o, s)
  | None =>
      if negb (attempt_table_accepts limits (ci_attempt caller) (st_state s))
      then Some (reject StLimitExceeded LimitMaxAttemptRecords
                   (max_attempt_records limits) o, s)
      else None
  end.

(** Phase E, the re-check: every generation and watermark captured before. *)
Definition verify_mutation s (pm : PreparedMutation) : list Reason :=
  let current := find_locked (pm_id pm) s in
  match pm_existing_generation pm with
  | Some g =>
      report match current with
             | None => true | Some (_, l) => negb (sl_generation l =? g) end
        ListGenerationConflict 0 (pm_id pm)
  | None => report (negb (is_none current)) ListAlreadyExists 0 (pm_id pm)
  end ++
  match pm_superseded_generation pm with
  | Some g =>
      report match find_locked (pm_superseded_id pm) s with
             | None => true | Some (_, l) => negb (sl_generation l =? g) end
        ListGenerationConflict 0 (pm_superseded_id pm)
  | None => []
  end.

Definition verify_epoch (ctx : PreparedContext) s : list Reason :=
  report (negb (at_epoch (st_authority s) =? cx_epoch ctx)) EpochStale 0
    (at_epoch (st_authority s)).

Definition verify_revision (ctx : PreparedContext) s : list Reason :=
  report (negb (ds_revision (st_state s) =? cx_store_revision ctx)) CommitWatermarkChanged 0
    (ds_revision (st_state s)).

Definition verify_watermark (ctx : PreparedContext) s : list Reason :=
  match st_evidence s with
  | Some e => report (negb (watermark_eqb (ev_watermark e) (cx_watermark ctx)))
                CommitWatermarkChanged 0 (wm_revision (ev_watermark e))
  | None => []
  end.

Definition verify_batch (ctx : PreparedContext) (pms : list PreparedMutation) s
  : ValidationResult :=
  emit (verify_revision ctx s ++
        report (negb (rg_revision (st_registry s) =? cx_registry_revision ctx))
          CommitWatermarkChanged 0 (rg_revision (st_registry s)) ++
        verify_epoch ctx s ++ verify_watermark ctx s ++
        flat_map (verify_mutation s) pms)
    (set_limits (Some (st_limits s)) empty_result).

Definition check_capacity (pms : list PreparedMutation) s o : option MutationOutcome :=
  let limits := st_limits s in
  let lists := ds_lists (st_state s) in
  let fresh := new_mutations pms in
  if max_lists limits <? size lists + size fresh
  then Some (reject StLimitExceeded LimitMaxLists (max_lists limits) o)
  else if max_total_segments limits <?
            u64 (total_segments_of lists + total_segments_of (map pm_list fresh))
  then Some (reject StLimitExceeded LimitMaxTotalSegments (max_total_segments limits) o)
  else None.

(** The successful outcome of a commit. *)
Definition committed_outcome (id : SegmentListId) (snapshot : SnapshotId) s o
  : MutationOutcome :=
  let o := {| o with mo_status := StOk; mo_durable := negb (is_none (st_persistence s));
                     mo_list := id; mo_snapshot := snapshot |} in
  match find_locked id s with
  | Some (_, l) => {| o with mo_generation := sl_generation l;
                             mo_digest := sl_content_digest l |}
  | None => o
  end.

Definition commit_batch caller (payload : Digest128) (ctx : PreparedContext)
    (pms : list PreparedMutation) (s : SegmentListStore E P) o
  : MutationOutcome * SegmentListStore E P :=
  let verify := verify_batch ctx pms s in
  if failed verify then (reject_with verify o, s)
  else
    match check_capacity pms s o with
    | Some o => (o, s)
    | None =>
        let '(snapshot, s) := take_snapshot_id s in
        let next := {| (st_state s) with
                       ds_revision := u64 (ds_revision (st_state s) + 1) |} in
        match commit_all (st_limits s) (ci_attempt caller) payload pms next with
        | inr id => (reject StRejected LifecycleTransitionDenied id o, s)
        | inl next =>
            let next := {| (with_dependencies s next) with ds_epoch := cx_epoch ctx |} in
            let '(saved, verify, s) := persist_locked next verify s in
            if negb saved then
              ({| o with mo_result := absorb verify (mo_result o);
                         mo_status := StPersistenceFailed |}, s)
            else
              let s := install next s in
              if negb (index_consistent_locked s)
              then (reject StInternal PersistIndexInconsistent 0 o, s)
              else (committed_outcome (default 0 (pm_id <$> list.last pms)) snapshot s o, s)
        end
    end.

(** What the rest of the program does while the store is unlocked: between reading the
    watermark and the evidence, before phase B takes the lock, and before phase E does
    (the pre-commit hook included). *)
Record Interference := {
  if_reading : SegmentListStore E P -> SegmentListStore E P;
  if_capture : SegmentListStore E P -> SegmentListStore E P;
  if_commit : SegmentListStore E P -> SegmentListStore E P;
}.

Definition undisturbed : Interference :=
  {| if_reading := fun s => s; if_capture := fun s => s; if_commit := fun s => s |}.

Definition run_batch (i : Interference) caller (drafts : list ListDraft)
    (existing_intent : LifecycleEvent) (require_existing require_absent : bool)
    (s : SegmentListStore E P) : MutationOutcome * SegmentListStore E P :=
  let limits := st_limits s in
  let o := {| (new_outcome limits) with mo_list := default 0 (ld_id <$> head drafts) |} in
  match check_batch limits drafts o with
  | Some o => (o, s)
  | None =>
      let watermark := observed_watermark s in
      let s := if_reading i s in
      let evidence := observed_evidence s in
      if max_evidence_records limits <? evidence_records evidence
      then (reject StLimitExceeded LimitMaxEvidenceRecords (max_evidence_records limits) o, s)
      else
        let payload := batch_payload_digest drafts in
        let s := if_capture i s in
        match check_attempt caller payload drafts s o with
        | Some result => result
        | None =>
            let ctx := capture s watermark evidence in
            let prepared :=
              map (prepare_one caller existing_intent require_existing require_absent ctx)
                (map (fun d => (d, resolve s d)) drafts) in
            let combined := combine limits prepared in
            if failed combined then (reject_with combined o, s)
            else commit_batch caller payload ctx (prepared_of prepared) (if_commit i s) o
        end
  end.

Definition create_list (i : Interference) caller (d : ListDraft) s :=
  run_batch i caller [d] ValidateBegin false true s.

Definition replace_list (i : Interference) caller (d : ListDraft) s :=
  run_batch i caller [d] ReplaceBegin true false s.

Definition batch (i : Interference) caller (drafts : list ListDraft) s :=
  run_batch i caller drafts ReplaceBegin false false s.

(** The draft of a revalidation: identities, never dependency generations. *)
Definition revalidation_draft (id : SegmentListId) (expected : SegmentListGeneration)
    (l : SegmentList) : ListDraft :=
  let c := sl_content l in
  {| empty_draft with
     ld_id := id; ld_scope := c_scope c; ld_profile := c_profile c; ld_policy := c_policy c;
     ld_strictness := c_strictness c; ld_path := c_path c; ld_route := c_route c;
     ld_constraint := c_constraint c; ld_segments := c_segments c;
     ld_expected_generation := if valid expected then expected else sl_generation l;
     ld_derived := valid (pv_source_constraint (sl_provenance l)) |}.

Definition revalidate (i : Interference) caller (id : SegmentListId)
    (expected : SegmentListGeneration) s : MutationOutcome * SegmentListStore E P :=
  match find_locked id s with
  | None => (reject StNotFound ListNotFound id (new_outcome (st_limits s)), s)
  | Some (_, l) =>
      run_batch i caller [revalidation_draft id expected l] RevalidateBegin true false s
  end.

(** *** [transition] *)
Definition verify_transition (ctx : PreparedContext) (id : SegmentListId)
    (expected : SegmentListGeneration) s : ValidationResult :=
  emit (verify_revision ctx s ++ verify_epoch ctx s ++ verify_watermark ctx s ++
        report match find_locked id s with
               | None => true | Some (_, l) => negb (sl_generation l =? expected) end
          ListGenerationConflict 0 id)
    (set_limits (Some (st_limits s)) empty_result).

(** The target of a transition after the event. *)
Definition transitioned caller (epoch : CoordinatorEpoch) (revision : Z)
    (state : LifecycleState) (l : SegmentList) : SegmentList :=
  {| l with
     sl_state := state;
     sl_currentness := if state_eqb state Active then Current else CUnknown;
     sl_committed_revision := revision;
     sl_authority := {| au_publisher := ci_publisher caller; au_boot := ci_boot caller;
                        au_epoch := epoch; au_attempt := ci_attempt caller |} |}.

(** The state a transition commits, given its target and the target's next state. *)
Definition transition_state caller (d : ListDraft) (ctx : PreparedContext)
    (state : LifecycleState) (target : SegmentList) s : DurableState :=
  let id := ld_id d in
  let revision := u64 (ds_revision (st_state s) + 1) in
  let target := transitioned caller (cx_epoch ctx) revision state target in
  let next := {| (st_state s) with
    ds_lists := update_key sl_id id (fun _ => target) (ds_lists (st_state s));
    ds_revision := revision |} in
  let next := append_history (st_limits s) target next in
  let next := {| (with_dependencies s next) with ds_epoch := cx_epoch ctx |} in
  if valid (ci_attempt caller)
  then record_attempt (ci_attempt caller) id (draft_payload_digest d)
         (sl_generation target) next
  else next.

Definition commit_transition caller (d : ListDraft) (event : LifecycleEvent)
    (ctx : PreparedContext) (s : SegmentListStore E P) o
  : MutationOutcome * SegmentListStore E P :=
  let id := ld_id d in
  let verify := verify_transition ctx id (ld_expected_generation d) s in
  if failed verify then (reject_with verify o, s)
  else
    match find_in_state id (st_state s) with
    | None => (reject StNotFound ListNotFound id o, s)
    | Some target =>
        match advance_state (sl_state target) event with
        | None => (reject StRejected LifecycleTransitionDenied id o, s)
        | Some state =>
            let next := transition_state caller d ctx state target s in
            let '(saved, verify, s) := persist_locked next verify s in
            if negb saved then
              ({| o with mo_result := absorb verify (mo_result o);
                         mo_status := StPersistenceFailed |}, s)
            else
              let s := install next s in
              let '(snapshot, s) := take_snapshot_id s in
              (committed_outcome id snapshot s
                 (if is_none (find_locked id s) then o
                  else {| o with mo_result := set_limits (Some (st_limits s)) empty_result |}),
               s)
        end
    end.

Definition transition (i : Interference) caller (id : SegmentListId)
    (expected : SegmentListGeneration) (event : LifecycleEvent) (s : SegmentListStore E P)
  : MutationOutcome * SegmentListStore E P :=
  let limits := st_limits s in
  let o := {| (new_outcome limits) with mo_list := id |} in
  let watermark := observed_watermark s in
  let s := if_reading i s in
  let evidence := observed_evidence s in
  let s := if_capture i s in
  if negb (attempt_table_accepts limits (ci_attempt caller) (st_state s))
  then (reject StLimitExceeded LimitMaxAttemptRecords (max_attempt_records limits) o, s)
  else
    let ctx := capture s watermark evidence in
    match find_locked id s with
    | None => (reject StNotFound ListNotFound id o, s)
    | Some (_, existing) =>
        if negb (valid expected) || negb (expected =? sl_generation existing)
        then (reject StConflict ListGenerationConflict (sl_generation existing) o, s)
        else
          let d := {| empty_draft with ld_id := id;
                      ld_scope := c_scope (sl_content existing);
                      ld_expected_generation := expected |} in
          let res := {| empty_resolved with rs_existing := Some existing |} in
          let result := validate_request (build_request caller d event false ctx res) in
          if failed result then (reject_with result o, s)
          else commit_transition caller d event ctx (if_commit i s) o
    end.

Definition withdraw i caller id expected s := transition i caller id expected WithdrawBegin s.
Definition withdraw_commit i caller id expected s :=
  transition i caller id expected WithdrawCommit s.
Definition revoke i caller id expected s := transition i caller id expected Revoke s.
Definition retire i caller id expected s := transition i caller id expected Retire s.

(** *** [persist_now] *)
Definition persist_now (s : SegmentListStore E P) : ValidationResult * SegmentListStore E P :=
  let result := set_limits (Some (st_limits s)) empty_result in
  match st_persistence s with
  | None => (result, s)
  | Some _ =>
      let next := {| (with_dependencies s (st_state s)) with
                     ds_epoch := at_epoch (st_authority s);
                     ds_revision := u64 (ds_revision (st_state s) + 1) |} in
      let '(saved, result, s) := persist_locked next result s in
      if negb saved then (result, s) else (result, install next s)
  end.

(** *** [refresh_currentness]; the evidence and the epoch are read before the lock. *)
Definition refresh_currentness (i : Interference) (s : SegmentListStore E P)
  : CurrentnessReport * SegmentListStore E P :=
  let evidence := ev_snapshot <$> st_evidence s in
  let epoch := at_epoch (st_authority s) in
  let s := if_capture i s in
  let '(lists, changed, report) :=
    refresh_all (refreshed_currentness (st_registry s) (st_authority s) evidence epoch)
      (ds_lists (st_state s)) in
  if negb changed then (report, s)
  else
    let next := {| (st_state s) with
      ds_lists := lists; ds_revision := u64 (ds_revision (st_state s) + 1) |} in
    let '(saved, _, s) :=
      persist_locked next (set_limits (Some (st_limits s)) empty_result) s in
    if saved then (report, install next s) else (report, s).

(** *** [load] *)
Definition recovered_state (durable : DurableState) s : DurableState :=
  {| (with_dependencies s durable) with
     ds_format_version := kPersistenceFormatVersion;
     ds_epoch := at_epoch (st_authority s);
     ds_revision := u64 (ds_revision (st_state s) + ds_revision durable + 1);
     ds_lists := map recover_list (ds_lists durable) |}.

Definition load (s : SegmentListStore E P) : LoadReport * SegmentListStore E P :=
  let report := {| empty_report with
                   lr_result := set_limits (Some (st_limits s)) empty_result |} in
  match st_persistence s with
  | None => ({| report with lr_empty := true |}, s)
  | Some p =>
      let '(read, report) := p_load report (st_limits s) p in
      if negb read then (report, s)
      else if negb (lr_loaded report) then ({| report with lr_empty := true |}, s)
      else
        let durable := lr_state report in
        let base := recovery_base (ds_epoch durable) (at_epoch (st_authority s)) in
        let refuse code := {| report with
          lr_result := add code 0 base (lr_result report); lr_loaded := false |} in
        let '(restored, authority) := AuthorityTable.restore_epoch base (st_authority s) in
        if negb restored then (refuse EpochStale, s)
        else
          let '(advanced, authority) := AuthorityTable.advance_epoch authority in
          if negb advanced then (refuse EpochExhausted, {| s with st_authority := authority |})
          else
            let s := {| s with
              st_registry := restore_registry durable (st_registry s);
              st_authority := restore_authority durable authority |} in
            let next := recovered_state durable s in
            let s := install next s in
            let report := {| report with
              lr_publishers_fenced := lr_publishers_fenced report + size (ds_publishers durable);
              lr_lists_recovered := size (ds_lists next);
              lr_lists_requiring_revalidation := count_requiring (ds_lists next);
              lr_history_entries := size (ds_history next) |} in
            let '(saved, persist_result, s) :=
              persist_locked next (set_limits (Some (st_limits s)) empty_result) s in
            (if saved then report
             else {| report with lr_result := absorb persist_result (lr_result report) |}, s)
  end.

(** *** Queries *)
Definition get (id : SegmentListId) s : option SegmentList := snd <$> find_locked id s.
Definition lists s : list SegmentList := ds_lists (st_state s).
Definition list_count s : Z := size (ds_lists (st_state s)).
Definition total_segments s : Z := total_segments_of (ds_lists (st_state s)).
Definition revision s : Z := ds_revision (st_state s).
Definition history s : list DurableHistoryEntry := ds_history (st_state s).
Definition export_state s : DurableState := st_state s.

Definition history_report s : HistoryReport := {|
  hr_entries := ds_history (st_state s);
  hr_retained := u32 (size (ds_history (st_state s)));
  hr_limit := max_history (st_limits s);
  hr_at_capacity := max_history (st_limits s) <=? size (ds_history (st_state s));
|}.

Definition snapshot (id : SegmentListId) (s : SegmentListStore E P)
  : SegmentListSnapshot * SegmentListStore E P :=
  match find_locked id s with
  | None => ({| ss_id := 0; ss_revision := 0; ss_epoch := 0; ss_list := None;
                ss_digest := mkDigest 0 0 |}, s)
  | Some (_, l) =>
      let '(n, s') := take_snapshot_id s in
      ({| ss_id := n; ss_revision := ds_revision (st_state s);
          ss_epoch := at_epoch (st_authority s); ss_list := Some l;
          ss_digest := sl_content_digest l |}, s')
  end.
End Store.
