(* ===== verification/StoreProps.v ===== *)
(** * Correctness of the store: lookup, commit and invariants *)

From S2P Require Import Prelude.
From S2P Require Import Ids.
From S2P Require Import Bytes.
From S2P Require Import Digest.
From S2P Require Import Segment.
From S2P Require Import Reason.
From S2P Require Import Lifecycle.
From S2P Require Import Governance.
From S2P Require Import Authority.
From S2P Require Import Registries.
From S2P Require Import Evidence.
From S2P Require Import Validation.
From S2P Require Import ValidationProps.
From S2P Require Import Persistence.
From S2P Require Import PersistenceProps.
From S2P Require Import Store.

(** ** The index *)

Definition by_position (lists : list SegmentList) : list (SegmentListId * nat) :=
  imap (fun i l => (sl_id l, i)) lists.

Lemma elem_of_by_position id i lists :
  (id, i) ∈ by_position lists <-> exists l, lists !! i = Some l /\ sl_id l = id.
Proof.
  unfold by_position. rewrite elem_of_lookup_imap. split.
  - intros (j & l & [= -> ->] & Hl). by exists l.
  - intros (l & Hl & <-). by exists i, l.
Qed.

#[global] Instance index_le_total : Total index_le.
Proof. intros a b. unfold index_le. lia. Qed.
#[global] Instance index_le_trans : Transitive index_le.
Proof. intros a b c. unfold index_le. lia. Qed.

Lemma elem_of_build_index e lists : e ∈ build_index lists <-> e ∈ by_position lists.
Proof. unfold build_index. by rewrite (merge_sort_Permutation index_le). Qed.

Lemma build_index_sorted lists : StronglySorted index_le (build_index lists).
Proof. apply StronglySorted_merge_sort; apply _. Qed.

Lemma length_build_index lists : length (build_index lists) = length lists.
Proof.
  unfold build_index. rewrite (merge_sort_Permutation index_le). by rewrite length_imap.
Qed.

(** [lower_bound] on a sorted index finds an entry for [id] when there is one. *)
Lemma lower_bound_Some id index e :
  lower_bound id index = Some e -> e ∈ index /\ id <= e.1.
Proof.
  induction index as [|x index IH]; cbn; [done|].
  destruct (Z.ltb_spec x.1 id); [|intros [= <-]; split; [left|lia]].
  intros He. destruct (IH He). split; [by right|done].
Qed.

Lemma lower_bound_least id index e i :
  StronglySorted index_le index -> lower_bound id index = e -> (id, i) ∈ index ->
  exists j, e = Some (id, j).
Proof.
  intros Hs <-. induction Hs as [|x index Hs IH Hx]; [by intros ?%not_elem_of_nil|].
  cbn. intros [<-|Hin]%elem_of_cons.
  - cbn. rewrite Z.ltb_irrefl. by exists i.
  - destruct (Z.ltb_spec x.1 id) as [Hlt|Hge]; [by apply IH|].
    pose proof (proj1 (list.Forall_forall _ _) Hx _ Hin) as Hle. unfold index_le in Hle.
    cbn in Hle. destruct x as [k j]. cbn in *. exists j. do 2 f_equal. lia.
Qed.

Lemma find_key_lookup {A} (key : A -> Z) l i x :
  NoDup (keys key l) -> l !! i = Some x -> find_key key (key x) l = Some x.
Proof. intros Hn Hx. apply find_key_elem; [done|]. by eapply list_elem_of_lookup_2. Qed.

Lemma index_entry id i lists :
  (id, i) ∈ build_index lists -> exists l, lists !! i = Some l /\ sl_id l = id.
Proof. by rewrite elem_of_build_index, elem_of_by_position. Qed.

(** The index is consistent: every entry points at the list it names, and there is one
    entry per list. *)
Lemma index_consistent_sorted index lists previous :
  StronglySorted index_le index -> NoDup (map fst index) ->
  (forall id i, (id, i) ∈ index -> exists l, lists !! i = Some l /\ sl_id l = id) ->
  (forall p id, previous = Some p -> id ∈ map fst index -> p < id) ->
  index_consistent index lists previous = true.
Proof.
  revert previous. induction index as [|[id i] index IH]; intros previous Hs Hn He Hp; [done|].
  cbn [index_consistent]. destruct (He id i ltac:(left)) as (l & -> & Hl).
  apply StronglySorted_inv in Hs as [Hs Hle]. cbn in Hn. apply list.NoDup_cons in Hn as [Hid Hn].
  rewrite Hl, Z.eqb_refl. cbn [andb].
  assert (match previous with Some p => p <? id | None => true end = true) as ->.
  { destruct previous as [p|]; [|done]. apply Z.ltb_lt, (Hp p id eq_refl). left. }
  apply IH; [done|done| |].
  - intros id' i' Hin. apply He. by right.
  - intros p id' [= <-] Hin. apply list_elem_of_fmap in Hin as ([k j] & -> & Hkj).
    pose proof (proj1 (list.Forall_forall _ _) Hle _ Hkj) as Hk. unfold index_le in Hk. cbn in *.
    assert (k <> id); [|lia]. intros ->. apply Hid. by apply (list_elem_of_fmap_2 fst) in Hkj.
Qed.

Lemma keys_by_position lists : map fst (by_position lists) = keys sl_id lists.
Proof.
  unfold by_position, keys. change (map fst ?l) with (fst <$> l). rewrite fmap_imap.
  apply (imap_const sl_id).
Qed.

Lemma build_index_consistent lists :
  NoDup (keys sl_id lists) -> index_consistent (build_index lists) lists None = true.
Proof.
  intros Hn. apply index_consistent_sorted; [apply build_index_sorted| |intros id i; apply index_entry|done].
  rewrite <-keys_by_position in Hn. unfold build_index.
  assert (map fst (merge_sort index_le (by_position lists)) ≡ₚ map fst (by_position lists))
    as Hp by (apply Permutation_map, merge_sort_Permutation).
  unfold by_position in Hp. by rewrite Hp.
Qed.

Section Lookup.
Context {E P : Type} `{EvidenceSource E} `{IPersistence P}.
Implicit Types s : SegmentListStore E P.

(** The index describes the lists, and identifiers are unique. *)
Definition index_ok s : Prop :=
  st_index s = build_index (ds_lists (st_state s)) /\
  NoDup (keys sl_id (ds_lists (st_state s))).

(** Looking up through the index is searching the vector. *)
Lemma find_locked_find id s :
  index_ok s -> snd <$> find_locked id s = find_in_state id (st_state s).
Proof.
  intros [Hi Hn]. unfold find_locked, find_in_state. rewrite Hi.
  set (lists := ds_lists (st_state s)) in *.
  destruct (find_key sl_id id lists) as [l|] eqn:Hf.
  - apply find_key_Some in Hf as Hl. destruct Hl as [Hin Hid].
    apply list_elem_of_lookup_1 in Hin as [i Hl].
    assert ((id, i) ∈ build_index lists) as Hix.
    { apply elem_of_build_index, elem_of_by_position. by exists l. }
    destruct (lower_bound_least id _ _ i (build_index_sorted lists) eq_refl Hix) as [j Hj].
    rewrite Hj, Z.eqb_refl. apply lower_bound_Some in Hj as [Hjx _].
    apply index_entry in Hjx as (l' & Hl' & Hid'). rewrite Hl'. cbn.
    rewrite <-Hf, <-Hid'. symmetry. by eapply find_key_lookup.
  - destruct (lower_bound id (build_index lists)) as [[id' j]|] eqn:Hj; [|done].
    destruct (Z.eqb_spec id' id) as [->|]; [|done].
    apply lower_bound_Some in Hj as [Hjx _].
    apply index_entry in Hjx as (l' & Hl' & Hid').
    apply find_key_None in Hf. exfalso. apply Hf. rewrite <-Hid'.
    apply list_elem_of_fmap_2. by eapply list_elem_of_lookup_2.
Qed.

Lemma find_locked_cases id s :
  index_ok s ->
  match find_locked id s with
  | Some (_, l) => find_in_state id (st_state s) = Some l
  | None => find_in_state id (st_state s) = None
  end.
Proof.
  intros Hi. pose proof (find_locked_find id s Hi) as <-.
  by destruct (find_locked id s) as [[]|].
Qed.

Lemma install_index_ok next s :
  NoDup (keys sl_id (ds_lists next)) -> index_ok (install next s).
Proof. intros Hn. by split. Qed.

Lemma index_ok_consistent s : index_ok s -> index_consistent_locked s = true.
Proof.
  intros [Hi Hn]. unfold index_consistent_locked. rewrite Hi.
  apply andb_true_iff. split; [|by apply build_index_consistent].
  unfold size. rewrite length_build_index. apply Z.eqb_refl.
Qed.
End Lookup.

(** ** The state invariant *)

(** History is bounded and its identifiers only grow. *)
Definition history_ok (limits : Limits) (s : DurableState) : Prop :=
  (0 < max_history limits -> size (ds_history s) <= max_history limits) /\
  StronglySorted Z.lt (map dh_id (ds_history s)) /\
  Forall (fun h => 0 < dh_id h < 2 ^ 64) (ds_history s).

(** The replay table is bounded and holds one record per attempt. *)
Definition attempts_ok (limits : Limits) (s : DurableState) : Prop :=
  NoDup (keys da_attempt (ds_attempts s)) /\
  size (ds_attempts s) <= Z.max 0 (max_attempt_records limits).

Definition state_ok (limits : Limits) (s : DurableState) : Prop :=
  NoDup (keys sl_id (ds_lists s)) /\ history_ok limits s /\ attempts_ok limits s.

Lemma empty_state_ok limits s :
  ds_lists s = [] -> ds_history s = [] -> ds_attempts s = [] -> state_ok limits s.
Proof.
  intros E1 E2 E3. unfold state_ok, history_ok, attempts_ok. rewrite E1, E2, E3.
  unfold size, keys. cbn. split_and!; try lia; constructor.
Qed.

Lemma StronglySorted_snoc {A} (R : relation A) l x :
  StronglySorted R l -> Forall (fun y => R y x) l -> StronglySorted R (l ++ [x]).
Proof.
  induction 1 as [|y l Hs IH Hy]; cbn; intros Hx.
  - constructor; constructor.
  - apply list.Forall_cons in Hx as [Hyx Hx]. constructor; [by apply IH|].
    apply Forall_app. split; [done|]. by apply list.Forall_singleton.
Qed.

Lemma StronglySorted_tail {A} (R : relation A) l : StronglySorted R l -> StronglySorted R (tail l).
Proof. destruct 1; [constructor|done]. Qed.

Lemma Forall_tail {A} (Q : A -> Prop) l : Forall Q l -> Forall Q (tail l).
Proof. destruct 1; [constructor|done]. Qed.

Lemma map_tail {A B} (f : A -> B) l : map f (tail l) = tail (map f l).
Proof. by destruct l. Qed.

(** A sorted history ends with its greatest identifier. *)
Lemma history_last_greatest (l : list DurableHistoryEntry) h :
  StronglySorted Z.lt (map dh_id l) -> list.last l = Some h ->
  Forall (fun y => y <= dh_id h) (map dh_id l).
Proof.
  intros Hs Hl. apply last_Some in Hl as [k ->]. rewrite map_app in *. cbn in *.
  apply Forall_app. split; [|constructor; [lia|constructor]].
  induction (map dh_id k) as [|x xs IH]; cbn in *; [constructor|].
  apply StronglySorted_inv in Hs as [Hs Hx]. constructor; [|by apply IH].
  apply Forall_app in Hx as [_ Hx]. rewrite list.Forall_singleton in Hx. lia.
Qed.

Lemma append_history_ok limits l s :
  history_ok limits s -> history_ok limits (append_history limits l s).
Proof.
  intros (Hb & Hs & Hf). unfold append_history.
  destruct (valid (next_history_id s)) eqn:Hv; cbn [negb]; [|done].
  set (kept := if _ <=? _ then _ else _).
  assert (0 < next_history_id s < 2 ^ 64 /\
          Forall (fun y => y < next_history_id s) (map dh_id (ds_history s))) as [Hn Hlt].
  { revert Hv. unfold next_history_id. destruct (list.last (ds_history s)) as [h|] eqn:E.
    - pose proof (history_last_greatest _ _ Hs E) as Hg.
      assert (0 < dh_id h < 2 ^ 64) as Hh.
      { apply (proj1 (list.Forall_forall _ _) Hf). apply last_Some in E as [k ->].
        apply elem_of_app. right. by apply list_elem_of_singleton. }
      destruct (Z.leb_spec 0xFFFFFFFFFFFFFFFF (dh_id h)); [done|].
      rewrite wrap_small by (unfold fits; lia). intros _. split; [lia|].
      eapply list.Forall_impl; [exact Hg|]. cbn. lia.
    - apply last_None in E. rewrite E. intros _. split; [lia|constructor]. }
  assert (kept = ds_history s \/ kept = tail (ds_history s)) as Hk.
  { subst kept. destruct (_ <=? _); auto. }
  split_and!; cbn [ds_history].
  - intros Hpos. specialize (Hb Hpos). rewrite size_snoc. subst kept.
    destruct (Z.leb_spec (max_history limits) (size (ds_history s))); [|lia].
    destruct (ds_history s) as [|h hs] eqn:E; unfold size in *; cbn [tail length] in *; lia.
  - rewrite map_app. apply StronglySorted_snoc; cbn;
      destruct Hk as [->| ->]; rewrite ?map_tail; auto using StronglySorted_tail, Forall_tail.
  - apply Forall_app. split; [|by apply list.Forall_singleton].
    destruct Hk as [->| ->]; auto using Forall_tail.
Qed.

Lemma append_history_lists limits l s :
  ds_lists (append_history limits l s) = ds_lists s /\
  ds_attempts (append_history limits l s) = ds_attempts s /\
  ds_revision (append_history limits l s) = ds_revision s.
Proof. unfold append_history. by destruct (negb _). Qed.

(** What an operation on the lists leaves alone. *)
Lemma history_ok_lists limits s lists :
  history_ok limits s -> history_ok limits {| s with ds_lists := lists |}.
Proof. done. Qed.

Lemma record_attempt_ok limits a id d g s :
  attempts_ok limits s -> attempt_table_accepts limits a s = true -> valid a = true ->
  attempts_ok limits (record_attempt a id d g s).
Proof.
  intros [Hn Hs] Ha Hv. unfold attempts_ok, record_attempt. cbn [ds_attempts].
  split; [by apply NoDup_put_key|].
  unfold attempt_table_accepts, find_attempt in Ha. rewrite Hv in Ha. cbn [negb orb] in Ha.
  unfold put_key. cbn [da_attempt]. destruct (find_key da_attempt a (ds_attempts s)).
  - by rewrite size_update_key.
  - cbn [orb] in Ha. simpl_bools. rewrite size_snoc. lia.
Qed.

Lemma record_attempt_find a id d g s :
  find_attempt a (record_attempt a id d g s) =
    Some {| da_attempt := a; da_list := id; da_payload := d; da_generation := g;
            da_committed := true |}.
Proof. unfold find_attempt, record_attempt. cbn [ds_attempts].
  by rewrite (find_put_key_eq da_attempt {| da_attempt := a |}).
Qed.

(** ** One committed mutation *)

(** A prepared mutation carries the list it is for. *)
Definition pm_ok (pm : PreparedMutation) : Prop := sl_id (pm_list pm) = pm_id pm.

Lemma supersede_in_spec limits pm next next' :
  supersede_in limits pm next = Some next' ->
  ds_attempts next' = ds_attempts next /\ ds_revision next' = ds_revision next /\
  keys sl_id (ds_lists next') = keys sl_id (ds_lists next) /\
  (history_ok limits next -> history_ok limits next') /\
  (forall id, id <> pm_superseded_id pm \/ pm_superseded_generation pm = None ->
    find_in_state id next' = find_in_state id next).
Proof.
  unfold supersede_in. destruct (pm_superseded_generation pm); [|by intros [= <-]].
  destruct (find_in_state (pm_superseded_id pm) next) as [other|] eqn:Ef; [|by intros [= <-]].
  destruct (advance_state (sl_state other) SupersedeBegin) as [st|]; [|done].
  intros [= <-]. set (other' := superseded_list _ _ _ _).
  apply find_key_Some in Ef as [_ Hid].
  destruct (append_history_lists limits other'
    {| next with ds_lists := update_key sl_id (pm_superseded_id pm) (fun _ => other') (ds_lists next) |})
    as (Hl & Ha & Hr).
  rewrite Ha, Hr, Hl. split_and!; try done.
  - cbn [ds_lists]. by apply keys_update_key.
  - intros Hh. apply append_history_ok. done.
  - intros id [Hne|]; [|done]. unfold find_in_state. rewrite Hl. cbn [ds_lists].
    apply find_update_key_ne; [done|congruence].
Qed.

Lemma place_list_spec limits pm next :
  pm_ok pm ->
  ds_attempts (place_list limits pm next) = ds_attempts next /\
  ds_revision (place_list limits pm next) = ds_revision next /\
  (NoDup (keys sl_id (ds_lists next)) ->
   NoDup (keys sl_id (ds_lists (place_list limits pm next)))) /\
  (history_ok limits next -> history_ok limits (place_list limits pm next)) /\
  find_in_state (pm_id pm) (place_list limits pm next) = Some (pm_list pm) /\
  (forall id, id <> pm_id pm ->
    find_in_state id (place_list limits pm next) = find_in_state id next).
Proof.
  intros Hpm. unfold place_list.
  destruct (find_in_state (pm_id pm) next) as [slot|] eqn:Ef; unfold find_in_state in *.
  - set (replaced := {| slot with sl_state := Superseded; sl_currentness := CUnknown |}).
    destruct (append_history_lists limits replaced next) as (Hl & Ha & Hr).
    cbn [ds_attempts ds_revision ds_lists]. rewrite Ha, Hr, Hl. split_and!; try done.
    + intros. rewrite keys_update_key; [done|]. intros. by rewrite Hpm.
    + intros. by apply append_history_ok.
    + rewrite find_update_key_eq by (intros; by rewrite Hpm). by rewrite Ef.
    + intros id Hne. apply find_update_key_ne; [|congruence]. intros. by rewrite Hpm.
  - cbn [ds_attempts ds_revision ds_lists]. split_and!; try done.
    + intros. apply NoDup_snoc_key; [done|]. by rewrite Hpm.
    + rewrite find_key_app, Ef. cbn. by rewrite Hpm, Z.eqb_refl.
    + intros id Hne. rewrite find_key_app. destruct (find_key sl_id id _); [done|]. cbn.
      rewrite Hpm. by destruct (Z.eqb_spec (pm_id pm) id).
Qed.

(** Committing one mutation: its list is placed, the lineage it supersedes moves on, and
    every other lineage is as it was. *)
Lemma commit_one_spec limits attempt payload pm next next' :
  pm_ok pm -> commit_one limits attempt payload pm next = inl next' ->
  ds_revision next' = ds_revision next /\
  (NoDup (keys sl_id (ds_lists next)) -> NoDup (keys sl_id (ds_lists next'))) /\
  (history_ok limits next -> history_ok limits next') /\
  ds_attempts next' =
    ds_attempts (record_attempt attempt (pm_id pm) payload (sl_generation (pm_list pm)) next) /\
  find_in_state (pm_id pm) next' = Some (pm_list pm) /\
  (forall id, id <> pm_id pm ->
     id <> pm_superseded_id pm \/ pm_superseded_generation pm = None ->
     find_in_state id next' = find_in_state id next).
Proof.
  intros Hpm H. unfold commit_one in H.
  destruct (supersede_in limits pm next) as [next1|] eqn:E; [|done].
  injection H as <-. destruct (supersede_in_spec _ _ _ _ E) as (Ha & Hr & Hk & Hh & Hf).
  destruct (place_list_spec limits pm next1 Hpm) as (Ha2 & Hr2 & Hk2 & Hh2 & Hp & Hf2).
  destruct (append_history_lists limits (pm_list pm) (place_list limits pm next1))
    as (Hl3 & Ha3 & Hr3).
  unfold record_attempt. cbn [ds_revision ds_lists ds_attempts].
  rewrite Hr3, Hl3, Ha3, Hr2, Ha2, Ha, Hr. split_and!; try done.
  - rewrite <-Hk. done.
  - intros Hn. apply (append_history_ok limits). auto.
  - intros id Hne Hs. unfold find_in_state in *. cbn [ds_lists]. rewrite ?Hl3, Hf2 by done.
    by apply Hf.
Qed.

Lemma superseded_state s s' : advance_state s SupersedeBegin = Some s' -> s' = Superseded.
Proof. intros Ha. destruct s; vm_compute in Ha; congruence. Qed.

(** The lineage a committed mutation supersedes. *)
Lemma commit_one_superseded limits attempt payload pm next next' g other :
  pm_ok pm -> commit_one limits attempt payload pm next = inl next' ->
  pm_superseded_generation pm = Some g -> pm_superseded_id pm <> pm_id pm ->
  find_in_state (pm_superseded_id pm) next = Some other ->
  find_in_state (pm_superseded_id pm) next' =
    Some (superseded_list pm (ds_revision next) Superseded other).
Proof.
  intros Hpm Hc Hg Hne Hf. unfold commit_one in Hc.
  destruct (supersede_in limits pm next) as [next1|] eqn:E; [|done]. injection Hc as <-.
  destruct (place_list_spec limits pm next1 Hpm) as (_ & _ & _ & _ & _ & Hf2).
  destruct (append_history_lists limits (pm_list pm) (place_list limits pm next1)) as (Hl3 & _ & _).
  unfold find_in_state, record_attempt in *. cbn [ds_lists]. rewrite Hl3, Hf2 by done.
  unfold supersede_in, find_in_state in E. rewrite Hg, Hf in E.
  destruct (advance_state _ _) as [state|] eqn:Ha; [|done].
  apply superseded_state in Ha as ->. injection E as <-.
  set (other' := superseded_list _ _ _ _).
  match goal with |- context [append_history _ _ ?b] => set (base := b) end.
  destruct (append_history_lists limits other' base) as (-> & _ & _). cbn [ds_lists base].
  apply find_key_Some in Hf as Hid. destruct Hid as [_ Hid].
  rewrite find_update_key_eq by done. by rewrite Hf.
Qed.

(** Nothing is ever removed, and a list is added only where there was none. *)
Lemma commit_one_keeps limits attempt payload pm next next' id :
  pm_ok pm -> commit_one limits attempt payload pm next = inl next' ->
  is_Some (find_in_state id next) -> is_Some (find_in_state id next').
Proof.
  intros Hpm Hc [l Hl]. destruct (commit_one_spec _ _ _ _ _ _ Hpm Hc) as (_ & _ & _ & _ & Ho & Hne).
  destruct (decide (id = pm_id pm)) as [->|Hid]; [by eexists|].
  destruct (decide (id = pm_superseded_id pm)) as [->|Hs]; [|by rewrite Hne by auto; eexists].
  destruct (pm_superseded_generation pm) as [g|] eqn:Hg; [|by rewrite Hne by auto; eexists].
  eapply commit_one_superseded in Hc; [|done..]. by eexists.
Qed.

Lemma commit_all_keeps limits attempt payload pms next next' id :
  Forall pm_ok pms -> commit_all limits attempt payload pms next = inl next' ->
  is_Some (find_in_state id next) -> is_Some (find_in_state id next').
Proof.
  intros Hpms. revert next. induction Hpms as [|pm pms Hpm Hpms IH]; intros next Hc Hs.
  - by injection Hc as <-.
  - cbn [commit_all] in Hc. destruct (commit_one _ _ _ _ _) as [next1|] eqn:E; [|done].
    eapply IH; [exact Hc|]. by eapply commit_one_keeps.
Qed.

Lemma commit_one_size limits attempt payload pm next next' :
  commit_one limits attempt payload pm next = inl next' ->
  size (ds_lists next') = size (ds_lists next) \/
  size (ds_lists next') = size (ds_lists next) + 1 /\ find_in_state (pm_id pm) next = None.
Proof.
  intros Hc. unfold commit_one in Hc. destruct (supersede_in _ _ _) as [next1|] eqn:E; [|done].
  injection Hc as <-. destruct (supersede_in_spec _ _ _ _ E) as (_ & _ & Hk & _).
  assert (size (ds_lists next1) = size (ds_lists next)) as Hsz.
  { apply (f_equal length) in Hk. unfold keys, size in *. rewrite !length_map in Hk. by f_equal. }
  destruct (append_history_lists limits (pm_list pm) (place_list limits pm next1)) as (Hl & _ & _).
  unfold record_attempt. cbn [ds_lists]. rewrite Hl. unfold place_list.
  destruct (find_in_state (pm_id pm) next1) as [slot|] eqn:Ef; cbn [ds_lists].
  - left. rewrite size_update_key. match goal with |- context [append_history _ ?r _] => set (x := r) end.
    destruct (append_history_lists limits x next1) as (-> & _ & _). done.
  - right. rewrite size_snoc. split; [lia|]. unfold find_in_state in *.
    apply find_key_None. rewrite <-Hk. by apply find_key_None.
Qed.

(** A mutation that has a previous generation has a list to replace. *)
Definition grounded (d : DurableState) (pm : PreparedMutation) : Prop :=
  pm_ok pm /\ (pm_existing_generation pm <> None -> is_Some (find_in_state (pm_id pm) d)).

Lemma commit_all_size limits attempt payload pms next next' :
  Forall (grounded next) pms -> commit_all limits attempt payload pms next = inl next' ->
  size (ds_lists next') <= size (ds_lists next) + size (new_mutations pms).
Proof.
  revert next. induction pms as [|pm pms IH]; intros next Hg Hc.
  - injection Hc as <-. unfold new_mutations, size. cbn. lia.
  - cbn [commit_all] in Hc. destruct (commit_one _ _ _ _ _) as [next1|] eqn:E; [|done].
    apply list.Forall_cons in Hg as [[Hpm Hex] Hg].
    assert (Forall (grounded next1) pms) as Hg1.
    { eapply list.Forall_impl; [exact Hg|]. intros q [Hq Hqe]. split; [done|].
      intros Hn. eapply commit_one_keeps; [exact Hpm|exact E|auto]. }
    specialize (IH _ Hg1 Hc). unfold new_mutations in *. cbn [List.filter].
    destruct (commit_one_size _ _ _ _ _ _ E) as [Hsz|[Hsz Hnone]].
    + destruct (is_none _); rewrite ?size_cons; lia.
    + destruct (pm_existing_generation pm); cbn [is_none]; rewrite ?size_cons; [|lia].
      destruct Hex; [done|]. congruence.
Qed.

Lemma commit_all_ok limits attempt payload pms next next' :
  Forall pm_ok pms -> valid attempt = true ->
  attempt_table_accepts limits attempt next = true -> state_ok limits next ->
  commit_all limits attempt payload pms next = inl next' ->
  state_ok limits next' /\ ds_revision next' = ds_revision next /\
  attempt_table_accepts limits attempt next' = true.
Proof.
  intros Hpms Hv. revert next. induction Hpms as [|pm pms Hpm Hpms IH]; intros next Ha Hok H.
  - by injection H as <-.
  - cbn [commit_all] in H. destruct (commit_one limits attempt payload pm next) as [next1|] eqn:E;
      [|done].
    destruct (commit_one_spec _ _ _ _ _ _ Hpm E) as (Hr & Hk & Hh & Hat & _).
    destruct Hok as (Hn & Hhist & Hatt).
    assert (attempts_ok limits next1) as Hatt1.
    { unfold attempts_ok. rewrite Hat.
      by apply (record_attempt_ok limits attempt (pm_id pm) payload
        (sl_generation (pm_list pm)) next). }
    assert (attempt_table_accepts limits attempt next1 = true) as Ha1.
    { unfold attempt_table_accepts, find_attempt. rewrite Hat.
      pose proof (record_attempt_find attempt (pm_id pm) payload
        (sl_generation (pm_list pm)) next) as Hf. unfold find_attempt in Hf.
      rewrite Hf. by rewrite orb_true_r. }
    destruct (IH next1 Ha1 ltac:(split_and!; auto) H) as (? & Hr' & ?).
    split_and!; [done|congruence|done].
Qed.

Lemma commit_all_revision limits attempt payload pms next next' :
  Forall pm_ok pms -> commit_all limits attempt payload pms next = inl next' ->
  ds_revision next' = ds_revision next.
Proof.
  intros Hpms. revert next. induction Hpms as [|pm pms Hpm Hpms IH]; intros next Hc.
  - by injection Hc as <-.
  - cbn [commit_all] in Hc. destruct (commit_one _ _ _ _ _) as [next1|] eqn:E; [|done].
    destruct (commit_one_spec _ _ _ _ _ _ Hpm E) as (Hr & _). rewrite (IH _ Hc). exact Hr.
Qed.

(** The committed state holds the attempt with the payload of the request. *)
Definition attempt_recorded (attempt : MutationAttemptId) (payload : Digest128)
    (s : DurableState) : Prop :=
  exists r, find_attempt attempt s = Some r /\ da_payload r = payload.

Lemma commit_one_attempt limits attempt payload pm next next' :
  pm_ok pm -> commit_one limits attempt payload pm next = inl next' ->
  attempt_recorded attempt payload next'.
Proof.
  intros Hpm E. destruct (commit_one_spec _ _ _ _ _ _ Hpm E) as (_ & _ & _ & Hat & _).
  eexists. unfold find_attempt. rewrite Hat. split; [apply record_attempt_find|done].
Qed.

Lemma commit_all_attempt limits attempt payload pms next next' :
  Forall pm_ok pms -> pms <> [] \/ attempt_recorded attempt payload next ->
  commit_all limits attempt payload pms next = inl next' ->
  attempt_recorded attempt payload next'.
Proof.
  intros Hpms. revert next. induction Hpms as [|pm pms Hpm Hpms IH]; intros next Hne H.
  - injection H as <-. by destruct Hne.
  - cbn [commit_all] in H. destruct (commit_one _ _ _ _ _) as [next1|] eqn:E; [|done].
    apply (IH next1); [right|done]. by eapply commit_one_attempt.
Qed.

(** ** Statuses *)

Lemma absorb_failed other r :
  0 < reason_cap r -> no_ok (reasons other) -> result_ok other = false ->
  result_ok (absorb other r) = false.
Proof.
  intros Hcap Hno Hok. apply not_true_iff_false. unfold absorb.
  rewrite emit_result_ok by done. intros [_ Hn]. by rewrite (proj2 (result_ok_spec other) Hn) in Hok.
Qed.

Lemma status_for_failed r : result_ok r = false -> status_for r <> StOk.
Proof. intros Hr. unfold status_for. rewrite Hr. by repeat case_match. Qed.

Lemma status_for_ok r : result_ok r = true -> status_for r = StOk.
Proof. intros Hr. unfold status_for. by rewrite Hr. Qed.

Lemma reject_with_status v o :
  0 < reason_cap (mo_result o) -> no_ok (reasons v) -> failed v = true ->
  mo_status (reject_with v o) <> StOk.
Proof.
  intros Hc Hn Hf. apply status_for_failed, absorb_failed; [done|done|].
  unfold failed in Hf. by apply negb_true_iff in Hf.
Qed.

Lemma encode_bytes_result state limits r r' :
  (encode_durable_state state limits r).1 = (encode_durable_state state limits r').1.
Proof.
  unfold encode_durable_state.
  assert (forall recs enc enc', en_records enc = en_records enc' ->
    en_count enc = en_count enc' -> en_failed enc = en_failed enc' ->
    let e := fold_left (emit_record limits) recs enc in
    let e' := fold_left (emit_record limits) recs enc' in
    en_records e = en_records e' /\ en_count e = en_count e' /\ en_failed e = en_failed e') as H.
  { induction recs as [|[t b] recs IH]; intros enc enc' H1 H2 H3; [done|].
    cbn [fold_left]. apply IH; unfold emit_record; rewrite H3;
      destruct (en_failed enc') eqn:Ef; try congruence;
      destruct (max_persistence_record_bytes limits <? size b); cbn; congruence. }
  destruct (H (durable_records state)
    {| en_records := []; en_count := 0; en_result := set_limits (Some limits) r; en_failed := false |}
    {| en_records := []; en_count := 0; en_result := set_limits (Some limits) r'; en_failed := false |}
    eq_refl eq_refl eq_refl) as (E1 & E2 & E3).
  cbv zeta. set (e := fold_left _ _ _) in E1 at 1, E2 at 1, E3 at 1 |- * at 1 2 3 4.
  destruct (en_failed e); rewrite <-E3; cbn [fst]; [done|]. by rewrite E1, E2.
Qed.

(** ** Commit *)
Section Commit.
Context {E P : Type} `{EvidenceSource E} `{!IPersistence P} `{!PersistenceLaws P}.
Implicit Types (s : SegmentListStore E P) (o : MutationOutcome).

(** The durable image an observer would find; [None] without a backend. *)
Definition image s : option (list Byte.byte) := p_image <$> st_persistence s.

(** The encoding of a state under the limits of a store. *)
Definition encoding s (d : DurableState) : list Byte.byte :=
  (encode_durable_state d (st_limits s) empty_result).1.

(** Only the list state, its index, the counter and the backend may have changed. *)
Definition same_surroundings s s' : Prop :=
  st_limits s' = st_limits s /\ st_evidence s' = st_evidence s /\
  st_authority s' = st_authority s /\ st_registry s' = st_registry s.

(** Nothing a reader of the store or of its durable image can see has changed. *)
Definition unchanged s s' : Prop :=
  same_surroundings s s' /\ st_state s' = st_state s /\ st_index s' = st_index s /\
  image s' = image s.

Lemma unchanged_refl s : unchanged s s.
Proof. by split_and!. Qed.

Lemma persist_locked_spec next out s saved out' s' :
  persist_locked next out s = (saved, out', s') ->
  same_surroundings s s' /\ st_state s' = st_state s /\ st_index s' = st_index s /\
  st_snapshot_counter s' = st_snapshot_counter s /\
  is_none (st_persistence s') = is_none (st_persistence s) /\
  if saved then st_persistence s <> None -> image s' = Some (encoding s next)
  else image s' = image s /\ st_persistence s <> None.
Proof.
  unfold persist_locked. destruct (st_persistence s) as [p|] eqn:Ep.
  2: { intros [= <- <- <-]. rewrite Ep. by split_and!. }
  destruct (p_save next (st_limits s) _ p) as [[sv o1] p'] eqn:Es.
  destruct sv; intros [= <- <- <-]; split_and!; try done.
  - intros _. unfold image, encoding. cbn.
    apply p_save_true in Es as (-> & _ & _). f_equal. apply encode_bytes_result.
  - unfold image. cbn. rewrite Ep. cbn. by apply p_save_false in Es as [-> _].
Qed.

(** The state a batch commits. *)
Definition committed_state caller payload ctx pms s (d : DurableState) : Prop :=
  exists next,
    commit_all (st_limits s) (ci_attempt caller) payload pms
      {| (st_state s) with ds_revision := u64 (ds_revision (st_state s) + 1) |} = inl next /\
    d = {| (with_dependencies s next) with ds_epoch := cx_epoch ctx |}.

(** A commit either rejects and leaves everything as it was, or passes the re-check,
    has made the new state durable and has installed it. *)
Lemma commit_batch_cases caller payload ctx pms s o o' s' :
  index_ok s -> Forall pm_ok pms -> valid (ci_attempt caller) = true ->
  (result_ok (verify_batch ctx pms s) = true ->
   attempt_table_accepts (st_limits s) (ci_attempt caller) (st_state s) = true) ->
  state_ok (st_limits s) (st_state s) ->
  0 < max_reasons (st_limits s) -> limits_ (mo_result o) = Some (st_limits s) ->
  commit_batch caller payload ctx pms s o = (o', s') ->
  (mo_status o' <> StOk /\ unchanged s s') \/
  (mo_status o' = StOk /\ mo_idempotent_replay o' = mo_idempotent_replay o /\
   result_ok (verify_batch ctx pms s) = true /\ check_capacity pms s o = None /\
   committed_state caller payload ctx pms s (st_state s') /\
   same_surroundings s s' /\ index_ok s' /\ state_ok (st_limits s) (st_state s') /\
   is_none (st_persistence s') = is_none (st_persistence s) /\
   (st_persistence s <> None -> image s' = Some (encoding s (st_state s'))) /\
   exists n, o' = committed_outcome (default 0 (pm_id <$> list.last pms)) n s' o).
Proof.
  intros Hi Hpms Hv Ha Hok Hcap Hlim Hc. unfold commit_batch in Hc.
  destruct (failed (verify_batch ctx pms s)) eqn:Hver.
  { injection Hc as <- <-. left. split; [|apply unchanged_refl].
    apply reject_with_status; [unfold reason_cap; by rewrite Hlim| |done].
    apply emit_no_ok. constructor. }
  unfold failed in Hver. apply negb_false_iff in Hver. specialize (Ha Hver).
  destruct (check_capacity pms s o) as [o1|] eqn:Hcapy.
  { injection Hc as <- <-. left. split; [|apply unchanged_refl].
    unfold check_capacity in Hcapy. repeat case_match; by simplify_eq. }
  cbn [take_snapshot_id st_limits] in Hc.
  destruct (commit_all _ _ _ _ _) as [next|id] eqn:Hall.
  2: { injection Hc as <- <-. left. by split. }
  destruct (persist_locked _ _ _) as [[saved v] s1] eqn:Hp.
  apply persist_locked_spec in Hp as (Hsur & Hst & Hix & _ & Hnone & Himg).
  destruct saved; cbn [negb] in Hc.
  2: { injection Hc as <- <-. left. split; [done|]. destruct Himg as [Himg _].
       by split_and!. }
  right. set (final := {| (with_dependencies _ next) with ds_epoch := cx_epoch ctx |}) in *.
  assert (state_ok (st_limits s) next) as Hok'.
  { eapply (commit_all_ok _ _ _ _ _ _ Hpms Hv); [| |exact Hall]; [exact Ha|exact Hok]. }
  assert (index_ok (install final s1)) as Hi' by (apply install_index_ok, Hok').
  rewrite (index_ok_consistent _ Hi') in Hc. cbn [negb] in Hc. injection Hc as <- <-.
  assert (Hm : forall id n o, mo_status (committed_outcome id n (install final s1) o) = StOk /\
    mo_idempotent_replay (committed_outcome id n (install final s1) o) = mo_idempotent_replay o).
  { intros id n o2. unfold committed_outcome. destruct (find_locked _ _) as [[]|]; done. }
  destruct (Hm (default 0 (pm_id <$> list.last pms)) (st_snapshot_counter s) o) as [Hm1 Hm2].
  split_and!; try done; [by exists next|by eexists].
Qed.
End Commit.

(** ** Preparation *)

(** The request phase C validates for a draft. *)
Definition batch_request caller d intent require_existing require_absent ctx res :=
  {| (build_request caller d intent true ctx res) with
     vr_require_existing := require_existing; vr_require_absent := require_absent |}.

(** The lineage a draft supersedes exists at the generation the draft names and may
    still be superseded. *)
Definition supersession_admissible (d : ListDraft) (res : Resolved) : Prop :=
  ld_supersedes d <> 0 ->
  exists other, rs_superseded res = Some other /\
    ld_supersedes_generation d = sl_generation other /\
    allowed (lifecycle_transition (sl_state other) SupersedeBegin) = true.

Lemma supersede_reports_nil other :
  supersede_reports other = [] <->
  allowed (lifecycle_transition (sl_state other) SupersedeBegin) = true.
Proof.
  unfold supersede_reports. destruct (allowed _); [done|].
  split; [|done]. intros H. apply app_nil in H as [_ H]. done.
Qed.

Lemma prepare_reports_no_ok d res : no_ok (prepare_reports d res).
Proof.
  unfold prepare_reports, supersede_reports, report, no_ok.
  repeat case_match; cbn [app]; repeat constructor; done.
Qed.

Lemma prepare_reports_nil d res :
  prepare_reports d res = [] <->
  (forall e, rs_existing res = Some e -> ld_expected_generation d = sl_generation e) /\
  supersession_admissible d res.
Proof.
  unfold prepare_reports, supersession_admissible. rewrite app_nil.
  apply Morphisms_Prop.and_iff_morphism.
  - destruct (rs_existing res) as [e|]; [|done]. rewrite report_nil, negb_false_iff, Z.eqb_eq.
    split; [by intros ? ? [= <-]|]. intros H. by apply H.
  - destruct (valid (ld_supersedes d)) eqn:Hv.
    + apply valid_true in Hv. destruct (rs_superseded res) as [other|].
      * rewrite app_nil, report_nil, negb_false_iff, Z.eqb_eq, supersede_reports_nil.
        split; [intros [] _; by exists other|]. intros H. by destruct (H Hv) as (? & [= <-] & ?).
      * split; [done|]. intros H. by destruct (H Hv) as (? & ? & _).
    + apply valid_false in Hv. done.
Qed.

(** A prepared draft was admissible against what was captured, and is the list the draft
    describes. *)
Definition prepared_from caller intent require_existing require_absent ctx
    (d : ListDraft) (res : Resolved) (pm : PreparedMutation) : Prop :=
  admissible (batch_request caller d intent require_existing require_absent ctx res) /\
  (forall e, rs_existing res = Some e -> ld_expected_generation d = sl_generation e /\
     Generation.exhausted (sl_generation e) = false) /\
  supersession_admissible d res /\
  pm = {| pm_id := ld_id d; pm_existing_generation := sl_generation <$> rs_existing res;
          pm_superseded_id := ld_supersedes d;
          pm_superseded_generation := sl_generation <$> rs_superseded res;
          pm_list := make_list caller d ctx res (rs_existing res) (cx_epoch ctx)
                       (u64 (cx_store_revision ctx + 1)) |}.

Lemma request_cap_batch caller d intent re ra ctx res :
  request_cap (batch_request caller d intent re ra ctx res) = max_reasons (cx_limits ctx).
Proof. done. Qed.

Lemma validate_request_cap r : reason_cap (validate_request r) = request_cap r.
Proof. rewrite validate_request_emit. by rewrite emit_cap. Qed.

Lemma prepare_one_inl caller intent re ra ctx d res pm :
  0 < max_reasons (cx_limits ctx) ->
  prepare_one caller intent re ra ctx (d, res) = inl pm ->
  prepared_from caller intent re ra ctx d res pm.
Proof.
  intros Hcap H. unfold prepare_one in H. cbv zeta in H.
  change {| (build_request caller d intent true ctx res) with
    vr_require_existing := re; vr_require_absent := ra |}
    with (batch_request caller d intent re ra ctx res) in H.
  destruct (failed _) eqn:Hf; [done|]. unfold failed in Hf. apply negb_false_iff in Hf.
  apply emit_result_ok in Hf as [Hf Hr];
    [|by rewrite validate_request_cap, request_cap_batch|apply prepare_reports_no_ok].
  apply validate_request_ok in Hf; [|by rewrite request_cap_batch].
  apply prepare_reports_nil in Hr as [He Hs].
  unfold prepared_from. destruct (rs_existing res) as [e|].
  - destruct (Generation.exhausted (sl_generation e)) eqn:Hx; [done|].
    destruct (_ =? 0) eqn:Hz in H; [done|]. injection H as <-. split_and!; [done| |done|done].
    intros ? [= <-]. split; [by apply He|done].
  - injection H as <-. by split_and!.
Qed.

Lemma prepare_one_inr caller intent re ra ctx dr v :
  0 < max_reasons (cx_limits ctx) ->
  prepare_one caller intent re ra ctx dr = inr v -> result_ok v = false /\ no_ok (reasons v).
Proof.
  intros Hcap H. destruct dr as [d res]. unfold prepare_one in H. cbv zeta in H.
  destruct (failed _) eqn:Hf.
  - injection H as <-. unfold failed in Hf. apply negb_true_iff in Hf. split; [done|].
    apply emit_no_ok, validate_request_no_ok.
  - repeat case_hyp H; simplify_eq; split; try (by vm_compute);
      apply list.Forall_forall; intros x Hx; by apply list_elem_of_singleton in Hx as ->.
Qed.

Definition rejection_ok (r : PreparedMutation + ValidationResult) : Prop :=
  match r with inl _ => True | inr v => result_ok v = false /\ no_ok (reasons v) end.

Lemma absorb_ok other r :
  0 < reason_cap r -> no_ok (reasons other) -> result_ok (absorb other r) = true ->
  result_ok r = true /\ result_ok other = true.
Proof.
  intros Hcap Hn H. unfold absorb in H. apply emit_result_ok in H as [Hr Ho]; [|done|done].
  split; [done|]. by apply result_ok_spec.
Qed.

Lemma combine_fold rs c :
  0 < reason_cap c -> Forall rejection_ok rs ->
  result_ok (fold_left (fun combined r =>
    match r with inl _ => combined | inr v => absorb v combined end) rs c) = true ->
  result_ok c = true /\ Forall (fun r => exists pm, r = inl pm) rs.
Proof.
  intros Hcap Hrs. revert c Hcap. induction Hrs as [|[pm|v] rs Hr Hrs IH]; intros c Hcap H0.
  - split; [done|constructor].
  - destruct (IH c Hcap H0). split; [done|]. constructor; [by exists pm|done].
  - destruct Hr as [Hv Hn]. cbn [fold_left] in H0.
    assert (0 < reason_cap (absorb v c)) as Hcap' by (unfold absorb; by rewrite emit_cap).
    destruct (IH _ Hcap' H0) as [Hc _]. apply absorb_ok in Hc as [_ Hc]; [congruence|done|done].
Qed.

Lemma combine_no_ok limits rs : no_ok (reasons (combine limits rs)).
Proof.
  unfold combine.
  assert (forall c, no_ok (reasons c) -> no_ok (reasons (fold_left (fun combined r =>
    match r with inl _ => combined | inr v => absorb v combined end) rs c))) as Hf.
  { induction rs as [|[pm|v] rs IH]; intros c Hc; cbn [fold_left]; [done|by apply IH|].
    apply IH. unfold absorb. by apply emit_no_ok. }
  apply Hf. constructor.
Qed.

Lemma prepared_of_inl rs :
  Forall (fun r => exists pm, r = inl pm) rs -> rs = map inl (prepared_of rs).
Proof. induction 1 as [|r rs [pm ->] H IH]; cbn; [done|]. by rewrite <-IH. Qed.

(** Preparation of a batch that is not rejected: one mutation per draft. *)
Lemma prepare_all caller intent re ra ctx (drs : list (ListDraft * Resolved)) :
  0 < max_reasons (cx_limits ctx) ->
  let prepared := map (prepare_one caller intent re ra ctx) drs in
  failed (combine (cx_limits ctx) prepared) = false ->
  Forall2 (fun dr pm => prepared_from caller intent re ra ctx dr.1 dr.2 pm) drs
    (prepared_of prepared).
Proof.
  intros Hcap prepared Hf. unfold failed in Hf. apply negb_false_iff in Hf.
  apply combine_fold in Hf as [_ Hall]; [|done|].
  2: { subst prepared. apply list.Forall_forall. intros r Hr.
       apply list_elem_of_fmap in Hr as (dr & -> & _). unfold rejection_ok.
       destruct (prepare_one _ _ _ _ _ dr) eqn:E; [done|]. by eapply prepare_one_inr. }
  apply prepared_of_inl in Hall. subst prepared.
  revert Hall. generalize (prepared_of (map (prepare_one caller intent re ra ctx) drs)) as pms.
  induction drs as [|[d res] drs IH]; intros [|pm pms] Hall; try done.
  cbn [map] in Hall. injection Hall as E Hall. constructor; [|by apply IH].
  by apply prepare_one_inl.
Qed.

Lemma prepared_from_ok caller intent re ra ctx d res pm :
  prepared_from caller intent re ra ctx d res pm ->
  pm_ok pm /\ valid (ci_attempt caller) = true.
Proof.
  intros (Had & _ & _ & ->). split; [done|].
  destruct Had as ((Hc & _) & _). unfold caller_admissible in Hc. cbn in Hc.
  apply valid_true. tauto.
Qed.

Lemma Forall2_pm_ok caller intent re ra ctx (rs : ListDraft -> Resolved) drafts pms :
  Forall2 (fun d pm => prepared_from caller intent re ra ctx d (rs d) pm) drafts pms ->
  Forall pm_ok pms.
Proof.
  induction 1 as [|d pm drafts pms Hd Hall IH]; constructor; [|done].
  by apply prepared_from_ok in Hd as [? _].
Qed.

Section Batch.
Context {E P : Type} `{EvidenceSource E} `{!IPersistence P} `{!PersistenceLaws P}.
Implicit Types (s : SegmentListStore E P) (o : MutationOutcome).

(** The store invariant. *)
Definition store_inv s : Prop :=
  index_ok s /\ state_ok (st_limits s) (st_state s) /\ 0 < max_reasons (st_limits s).

(** What other code does between the phases keeps the invariant and the limits. *)
Definition respectful (f : SegmentListStore E P -> SegmentListStore E P) : Prop :=
  forall s, store_inv s -> store_inv (f s) /\ st_limits (f s) = st_limits s.

(** Within the range of the revision counter, an unchanged revision means that no
    list, attempt or history entry changed. *)
Definition guarded (f : SegmentListStore E P -> SegmentListStore E P) : Prop :=
  forall s, ds_revision (st_state (f s)) = ds_revision (st_state s) ->
    st_state (f s) = st_state s.

Definition polite (i : Interference) : Prop :=
  respectful (if_reading i) /\ respectful (if_capture i) /\
  respectful (if_commit i) /\ guarded (if_commit i).

Lemma undisturbed_polite : polite undisturbed.
Proof. unfold polite, respectful, guarded, undisturbed. cbn. tauto. Qed.

(** The store at the capture of phase B, and the context captured there. *)
Definition captured_store (i : Interference) s : SegmentListStore E P :=
  if_capture i (if_reading i s).

Definition captured_context (i : Interference) s : PreparedContext :=
  capture (captured_store i s) (observed_watermark s) (observed_evidence (if_reading i s)).

(** What a fresh, acknowledged batch has done: every draft was admissible against the
    captured context, the re-check passed on the store the lock was taken on, and the
    state that is now visible is the committed one, durably. *)
Definition batch_committed (i : Interference) caller drafts intent re ra s s' : Prop :=
  let sc := captured_store i s in
  let sk := if_commit i sc in
  let ctx := captured_context i s in
  exists pms,
    Forall2 (fun d pm => prepared_from caller intent re ra ctx d (resolve sc d) pm)
      drafts pms /\
    find_attempt (ci_attempt caller) (st_state sc) = None /\
    result_ok (verify_batch ctx pms sk) = true /\
    committed_state caller (batch_payload_digest drafts) ctx pms sk (st_state s') /\
    same_surroundings sk s' /\
    is_none (st_persistence s') = is_none (st_persistence sk) /\
    (st_persistence sk <> None -> image s' = Some (encoding sk (st_state s'))) /\
    (exists o, check_capacity pms sk o = None).

(** The stores a batch may leave when it writes nothing. *)
Definition untouched (i : Interference) s s' : Prop :=
  unchanged s s' \/ unchanged (if_reading i s) s' \/ unchanged (captured_store i s) s' \/
  unchanged (if_commit i (captured_store i s)) s'.

Definition replayed (i : Interference) caller drafts s s' o' : Prop :=
  mo_idempotent_replay o' = true /\ unchanged (captured_store i s) s' /\
  attempt_recorded (ci_attempt caller) (batch_payload_digest drafts)
    (st_state (captured_store i s)).

Lemma verify_mutation_no_ok s pm : no_ok (verify_mutation s pm).
Proof.
  unfold verify_mutation, report, no_ok.
  repeat case_match; cbn [app]; repeat constructor; done.
Qed.

Lemma no_ok_flat_map {A} (f : A -> list Reason) l : (forall x, no_ok (f x)) -> no_ok (flat_map f l).
Proof.
  intros Hf. induction l; cbn; [constructor|]. apply Forall_app. split; [apply Hf|done].
Qed.

Lemma no_ok_report b c i d : c <> ReasonOk -> no_ok (report b c i d).
Proof. unfold report. destruct b; repeat constructor; done. Qed.

(** What the re-check of phase E establishes. *)
Lemma verify_batch_spec ctx pms s :
  0 < max_reasons (st_limits s) ->
  result_ok (verify_batch ctx pms s) = true <->
  ds_revision (st_state s) = cx_store_revision ctx /\
  rg_revision (st_registry s) = cx_registry_revision ctx /\
  at_epoch (st_authority s) = cx_epoch ctx /\
  (forall e, st_evidence s = Some e -> ev_watermark e = cx_watermark ctx) /\
  Forall (fun pm => verify_mutation s pm = []) pms.
Proof.
  intros Hcap. unfold verify_batch. rewrite emit_result_ok; [|done|].
  - unfold verify_revision, verify_epoch, verify_watermark.
    rewrite !app_nil, !report_nil, !negb_false_iff, !Z.eqb_eq, flat_map_nil.
    assert (match st_evidence s with
      | Some e => report (negb (watermark_eqb (ev_watermark e) (cx_watermark ctx)))
          CommitWatermarkChanged 0 (wm_revision (ev_watermark e))
      | None => [] end = [] <->
      (forall e, st_evidence s = Some e -> ev_watermark e = cx_watermark ctx)) as ->.
    { destruct (st_evidence s) as [e|]; [|done].
      rewrite report_nil, negb_false_iff, watermark_eqb_eq.
      split; [by intros ? ? [= <-]|]. intros H0. by apply H0. }
    split; [by intros [_ ?]|]. by split.
  - unfold no_ok, verify_revision, verify_epoch, verify_watermark. rewrite !Forall_app.
    split_and!; try (by apply no_ok_report).
    + destruct (st_evidence s); [by apply no_ok_report|constructor].
    + apply no_ok_flat_map, verify_mutation_no_ok.
Qed.

Lemma replay_outcome_flags drafts s o :
  mo_status (replay_outcome drafts s o) = StOk /\
  mo_idempotent_replay (replay_outcome drafts s o) = true.
Proof.
  unfold replay_outcome. match goal with |- context [fold_left _ _ ?x] => set (o1 := x) end.
  assert (mo_status o1 = StOk /\ mo_idempotent_replay o1 = true) as Ho by done.
  revert Ho. generalize o1. clear o1.
  induction drafts as [|d drafts IH]; intros o1 Ho; cbn [fold_left]; [done|].
  apply IH. by destruct (find_locked (ld_id d) s) as [[]|].
Qed.

Lemma check_attempt_cases caller payload drafts s o :
  match check_attempt caller payload drafts s o with
  | None =>
      (valid (ci_attempt caller) = true ->
       find_attempt (ci_attempt caller) (st_state s) = None) /\
      attempt_table_accepts (st_limits s) (ci_attempt caller) (st_state s) = true
  | Some (o', s') =>
      unchanged s s' /\
      (mo_status o' <> StOk \/
       mo_status o' = StOk /\ mo_idempotent_replay o' = true /\
       attempt_recorded (ci_attempt caller) payload (st_state s))
  end.
Proof.
  unfold check_attempt.
  destruct (valid (ci_attempt caller)) eqn:Hv; [|].
  - destruct (find_attempt (ci_attempt caller) (st_state s)) as [r|] eqn:Hf.
    + case_bool_decide as Hp; cbn [take_snapshot_id].
      * split; [by split_and!|]. right. destruct (replay_outcome_flags drafts s o).
        split_and!; [done|done|by exists r].
      * split; [apply unchanged_refl|]. by left.
    + destruct (attempt_table_accepts _ _ _); cbn [negb]; [done|].
      split; [apply unchanged_refl|]. by left.
  - destruct (attempt_table_accepts _ _ _); cbn [negb]; [done|].
    split; [apply unchanged_refl|]. by left.
Qed.

Lemma check_batch_status limits drafts o o' :
  check_batch limits drafts o = Some o' -> mo_status o' <> StOk.
Proof. unfold check_batch. intros Hc. repeat case_match; by simplify_eq. Qed.

Lemma prepared_attempt_valid caller intent re ra ctx (rs : ListDraft -> Resolved) drafts pms :
  drafts <> [] ->
  Forall2 (fun d pm => prepared_from caller intent re ra ctx d (rs d) pm) drafts pms ->
  Forall pm_ok pms /\ valid (ci_attempt caller) = true /\ pms <> [].
Proof.
  intros Hne Hall. destruct Hall as [|d pm drafts pms Hd Hall]; [done|].
  destruct (prepared_from_ok _ _ _ _ _ _ _ _ Hd) as [Hpm Hv]. split_and!; [|done|done].
  constructor; [done|]. by eapply Forall2_pm_ok.
Qed.

Lemma Forall2_map_l {A B C} (f : A -> B) (R : B -> C -> Prop) l k :
  Forall2 R (map f l) k -> Forall2 (fun x y => R (f x) y) l k.
Proof.
  revert k. induction l as [|x l IH]; intros k Hk; inversion Hk; subst; constructor; auto.
Qed.

(** The outcome names the list of the last draft as it is now. *)
Definition answered drafts s o : Prop :=
  forall d, list.last drafts = Some d ->
    mo_list o = ld_id d /\
    exists l, find_in_state (ld_id d) (st_state s) = Some l /\
      mo_generation o = sl_generation l /\ mo_digest o = sl_content_digest l.

Lemma committed_answered caller intent re ra ctx (rs : ListDraft -> Resolved) drafts pms
    limits attempt payload d0 next s n o :
  Forall2 (fun d pm => prepared_from caller intent re ra ctx d (rs d) pm) drafts pms ->
  index_ok s ->
  commit_all limits attempt payload pms d0 = inl next ->
  ds_lists (st_state s) = ds_lists next ->
  answered drafts s (committed_outcome (default 0 (pm_id <$> list.last pms)) n s o).
Proof.
  intros Hpms Hi Hall Hl d Hd. apply last_Some in Hd as [drafts' ->].
  apply Forall2_app_inv_l in Hpms as (pms' & last & Hpms' & Hlast & ->).
  inversion Hlast as [|? pm ? ? Hpm Hnil]; subst. inversion Hnil; subst.
  rewrite last_snoc. change (default 0 (pm_id <$> Some pm)) with (pm_id pm).
  assert (pm_ok pm) as Hok by (by apply prepared_from_ok in Hpm as [? _]).
  assert (pm_id pm = ld_id d) as Hid by (by destruct Hpm as (_ & _ & _ & ->)).
  assert (find_in_state (pm_id pm) (st_state s) = Some (pm_list pm)) as Hf.
  { unfold find_in_state. rewrite Hl. fold (find_in_state (pm_id pm) next).
    revert d0 Hall. clear -Hok. induction pms' as [|pm' pms' IH]; intros d0 Hall.
    - cbn [app commit_all] in Hall. destruct (commit_one _ _ _ _ _) as [next1|] eqn:E; [|done].
      injection Hall as <-. by destruct (commit_one_spec _ _ _ _ _ _ Hok E) as (_ & _ & _ & _ & ? & _).
    - cbn [app commit_all] in Hall. destruct (commit_one _ _ _ _ _); [|done]. by eapply IH. }
  pose proof (find_locked_cases (pm_id pm) s Hi) as Hfl. unfold committed_outcome.
  destruct (find_locked (pm_id pm) s) as [[j l]|]; [|congruence].
  rewrite <-Hid. split; [done|]. by exists l.
Qed.

(** Every run of a batch ends in one of three ways. *)
Lemma run_batch_cases i caller drafts intent re ra s o' s' :
  polite i -> store_inv s -> run_batch i caller drafts intent re ra s = (o', s') ->
  (mo_status o' <> StOk /\ untouched i s s') \/
  (mo_status o' = StOk /\ replayed i caller drafts s s' o') \/
  (mo_status o' = StOk /\ mo_idempotent_replay o' = false /\
   batch_committed i caller drafts intent re ra s s' /\ store_inv s' /\ answered drafts s' o').
Proof.
  intros (Hread & Hcapt & Hcomm & Hguard) Hinv Hrun. unfold run_batch in Hrun.
  destruct (check_batch _ _ _) as [o1|] eqn:Hcb.
  { injection Hrun as <- <-. left. split; [by eapply check_batch_status|].
    left. apply unchanged_refl. }
  destruct (Hread s Hinv) as [Hinv1 Hl1].
  destruct (_ <? evidence_records _) eqn:Hev.
  { injection Hrun as <- <-. left. split; [done|]. right. left. apply unchanged_refl. }
  destruct (Hcapt _ Hinv1) as [Hinv2 Hl2].
  fold (captured_store i s) in Hrun, Hinv2, Hl2. set (sc := captured_store i s) in *.
  set (o := {| (new_outcome (st_limits s)) with mo_list := _ |}) in *.
  pose proof (check_attempt_cases caller (batch_payload_digest drafts) drafts sc o) as Hatt.
  destruct (check_attempt _ _ _ _ _) as [[o1 s1]|].
  { injection Hrun as -> ->. destruct Hatt as [Hun [Hst|(Hst & Hrep & Hrec)]].
    - left. split; [done|]. right. right. by left.
    - right. left. done. }
  destruct Hatt as [Hfresh Hacc].
  fold (captured_context i s) in Hrun. set (ctx := captured_context i s) in *.
  assert (cx_limits ctx = st_limits s) as Hlim.
  { change (st_limits sc = st_limits s). congruence. }
  assert (0 < max_reasons (st_limits s)) as Hcap by apply Hinv.
  rewrite <-Hlim in Hrun.
  destruct (failed (combine _ _)) eqn:Hcomb.
  { injection Hrun as <- <-. left. split; [|right; right; left; apply unchanged_refl].
    apply reject_with_status; [done|apply combine_no_ok|done]. }
  assert (0 < max_reasons (cx_limits ctx)) as Hcap1 by by rewrite Hlim.
  apply (prepare_all _ _ _ _ _ _ Hcap1), Forall2_map_l in Hcomb. cbn [fst snd] in Hcomb.
  set (pms := prepared_of _) in *.
  assert (drafts <> []) as Hne.
  { intros ->. unfold check_batch in Hcb. done. }
  destruct (prepared_attempt_valid _ _ _ _ _ _ _ _ Hne Hcomb) as (Hpms & Hv & _).
  destruct (Hcomm sc Hinv2) as [(Hix & Hok & Hcap2) Hl3].
  set (sk := if_commit i sc) in *.
  assert (result_ok (verify_batch ctx pms sk) = true -> st_state sk = st_state sc) as Hsame.
  { intros Hver. apply verify_batch_spec in Hver as (Hr & _); [|done]. by apply Hguard. }
  apply commit_batch_cases in Hrun as [[Hst Hun]|(Hst & Hrep & Hver & Hroom & Hc & Hsur & Hi' & Hok' & Hn & Himg & n & Ho)];
    [| |done|done|done| |done|done|by rewrite Hl3, Hl2, Hl1].
  - left. split; [done|]. right. right. by right.
  - right. right. split_and!; [done|done| | |].
    + exists pms. split_and!; try done; [by apply Hfresh|by eexists].
    + destruct Hsur as (Hl & _). unfold store_inv. rewrite Hl. by split_and!.
    + rewrite Ho. destruct Hc as (next & Hall & Hs').
      eapply committed_answered; [exact Hcomb|exact Hi'|exact Hall|]. by rewrite Hs'.
  - intros Hver. rewrite Hsame, Hl3 by done. done.
Qed.
End Batch.

(** ** Transitions *)
Section Transition.
Context {E P : Type} `{EvidenceSource E} `{!IPersistence P} `{!PersistenceLaws P}.
Implicit Types (s : SegmentListStore E P) (o : MutationOutcome).

Lemma verify_transition_spec ctx id expected s :
  0 < max_reasons (st_limits s) ->
  result_ok (verify_transition ctx id expected s) = true <->
  ds_revision (st_state s) = cx_store_revision ctx /\
  at_epoch (st_authority s) = cx_epoch ctx /\
  (forall e, st_evidence s = Some e -> ev_watermark e = cx_watermark ctx) /\
  (exists i l, find_locked id s = Some (i, l) /\ sl_generation l = expected).
Proof.
  intros Hcap. unfold verify_transition. rewrite emit_result_ok; [|done|].
  - unfold verify_revision, verify_epoch, verify_watermark.
    rewrite !app_nil, !report_nil, !negb_false_iff, !Z.eqb_eq.
    assert (match st_evidence s with
      | Some e => report (negb (watermark_eqb (ev_watermark e) (cx_watermark ctx)))
          CommitWatermarkChanged 0 (wm_revision (ev_watermark e))
      | None => [] end = [] <->
      (forall e, st_evidence s = Some e -> ev_watermark e = cx_watermark ctx)) as ->.
    { destruct (st_evidence s) as [e|]; [|done].
      rewrite report_nil, negb_false_iff, watermark_eqb_eq.
      split; [by intros ? ? [= <-]|]. intros H0. by apply H0. }
    assert (match find_locked id s with
      | None => true | Some (_, l) => negb (sl_generation l =? expected) end = false <->
      (exists i l, find_locked id s = Some (i, l) /\ sl_generation l = expected)) as ->.
    { destruct (find_locked id s) as [[i l]|].
      - rewrite negb_false_iff, Z.eqb_eq. split; [by exists i, l|].
        by intros (? & ? & [= <- <-] & ?).
      - split; [done|]. by intros (? & ? & ? & _). }
    split; [by intros [_ ?]|]. by split.
  - unfold no_ok, verify_revision, verify_epoch, verify_watermark. rewrite !Forall_app.
    split_and!; try (by apply no_ok_report).
    destruct (st_evidence s); [by apply no_ok_report|constructor].
Qed.

(** The attempt of a transition, when the caller has one. *)
Definition attempted caller (d : ListDraft) (target : SegmentList) s : DurableState :=
  if valid (ci_attempt caller)
  then record_attempt (ci_attempt caller) (ld_id d) (draft_payload_digest d)
         (sl_generation target) (st_state s)
  else st_state s.

Lemma transition_state_spec caller d ctx state target s :
  attempt_table_accepts (st_limits s) (ci_attempt caller) (st_state s) = true ->
  history_ok (st_limits s) (st_state s) -> attempts_ok (st_limits s) (st_state s) ->
  let next := transition_state caller d ctx state target s in
  let revision := u64 (ds_revision (st_state s) + 1) in
  ds_lists next = update_key sl_id (ld_id d)
    (fun _ => transitioned caller (cx_epoch ctx) revision state target)
    (ds_lists (st_state s)) /\
  ds_revision next = revision /\
  ds_attempts next = ds_attempts (attempted caller d target s) /\
  history_ok (st_limits s) next /\ attempts_ok (st_limits s) next.
Proof.
  intros Ha Hh Hatt. unfold transition_state. cbv zeta.
  set (target' := transitioned _ _ _ _ _).
  match goal with |- context [append_history (st_limits s) target' ?b] => set (base := b) end.
  destruct (append_history_lists (st_limits s) target' base) as (Hal & Haa & Har).
  pose proof (append_history_ok (st_limits s) target' base Hh) as Hh'.
  assert (attempts_ok (st_limits s) (append_history (st_limits s) target' base)) as Hat'.
  { unfold attempts_ok. rewrite Haa. exact Hatt. }
  unfold attempted.
  destruct (valid (ci_attempt caller)) eqn:Hv; unfold record_attempt;
    cbn [ds_lists ds_revision ds_attempts].
  - split_and!; [exact Hal|exact Har|f_equal; exact Haa|exact Hh'|].
    apply (record_attempt_ok _ (ci_attempt caller) (ld_id d) (draft_payload_digest d)
      (sl_generation target') (append_history (st_limits s) target' base)); [done| |done].
    unfold attempt_table_accepts, find_attempt in *. by rewrite Haa.
  - by split_and!.
Qed.

(** A transition has moved exactly its target along the lifecycle, durably. *)
Definition transition_committed caller (d : ListDraft) event ctx s s' : Prop :=
  exists target state,
    find_in_state (ld_id d) (st_state s) = Some target /\
    sl_generation target = ld_expected_generation d /\
    advance_state (sl_state target) event = Some state /\
    ds_revision (st_state s') = u64 (ds_revision (st_state s) + 1) /\
    ds_lists (st_state s') =
      update_key sl_id (ld_id d)
        (fun _ => transitioned caller (cx_epoch ctx)
                    (u64 (ds_revision (st_state s) + 1)) state target)
        (ds_lists (st_state s)) /\
    ds_attempts (st_state s') = ds_attempts (attempted caller d target s) /\
    is_none (st_persistence s') = is_none (st_persistence s) /\
    (st_persistence s <> None -> image s' = Some (encoding s (st_state s'))).

Lemma commit_transition_cases caller d event ctx s o o' s' :
  index_ok s ->
  (result_ok (verify_transition ctx (ld_id d) (ld_expected_generation d) s) = true ->
   attempt_table_accepts (st_limits s) (ci_attempt caller) (st_state s) = true) ->
  state_ok (st_limits s) (st_state s) ->
  0 < max_reasons (st_limits s) -> limits_ (mo_result o) = Some (st_limits s) ->
  commit_transition caller d event ctx s o = (o', s') ->
  (mo_status o' <> StOk /\ unchanged s s') \/
  (mo_status o' = StOk /\
   result_ok (verify_transition ctx (ld_id d) (ld_expected_generation d) s) = true /\
   transition_committed caller d event ctx s s' /\ same_surroundings s s' /\
   index_ok s' /\ state_ok (st_limits s) (st_state s')).
Proof.
  intros Hi Ha (Hn & Hh & Hatt) Hcap Hlim Hc. unfold commit_transition in Hc.
  destruct (failed (verify_transition _ _ _ _)) eqn:Hver.
  { injection Hc as <- <-. left. split; [|apply unchanged_refl].
    apply reject_with_status; [unfold reason_cap; by rewrite Hlim| |done].
    apply emit_no_ok. constructor. }
  unfold failed in Hver. apply negb_false_iff in Hver. specialize (Ha Hver).
  pose proof Hver as Hspec. apply verify_transition_spec in Hspec as
    (_ & _ & _ & (j & l & Hl & Hgen)); [|done].
  pose proof (find_locked_cases (ld_id d) s Hi) as Hf. rewrite Hl in Hf. rewrite Hf in Hc.
  destruct (advance_state (sl_state l) event) as [state|] eqn:Hadv.
  2: { injection Hc as <- <-. left. split; [done|apply unchanged_refl]. }
  destruct (transition_state_spec caller d ctx state l s Ha Hh Hatt)
    as (Hnl & Hnr & Hnatt & Hnh & Hna).
  set (next := transition_state _ _ _ _ _ _) in *.
  destruct (persist_locked next _ _) as [[saved v] s1] eqn:Hp.
  apply persist_locked_spec in Hp as (Hsur & Hst & Hix & _ & Hnone & Himg).
  destruct saved; cbn [negb] in Hc.
  2: { injection Hc as <- <-. left. split; [done|]. destruct Himg as [Himg _]. by split_and!. }
  right. cbn [take_snapshot_id] in Hc. injection Hc as <- <-.
  assert (NoDup (keys sl_id (ds_lists next))) as Hnn.
  { rewrite Hnl, keys_update_key; [done|].
    intros. apply find_key_Some in Hf as [_ Hid]. done. }
  split_and!; [|done| |done|by split|by split_and!].
  - unfold committed_outcome. by repeat case_match.
  - exists l, state. by split_and!.
Qed.

(** The draft a transition stands for. *)
Definition transition_draft (id : SegmentListId) (expected : SegmentListGeneration)
    (existing : SegmentList) : ListDraft :=
  {| empty_draft with ld_id := id; ld_scope := c_scope (sl_content existing);
                      ld_expected_generation := expected |}.

(** What an acknowledged transition has done. *)
Definition transition_done (i : Interference) caller id expected event s s' : Prop :=
  let sc := captured_store i s in
  let sk := if_commit i sc in
  let ctx := captured_context i s in
  exists existing,
    find_in_state id (st_state sc) = Some existing /\
    sl_generation existing = expected /\ expected <> 0 /\
    admissible (build_request caller (transition_draft id expected existing) event false ctx
                  {| empty_resolved with rs_existing := Some existing |}) /\
    result_ok (verify_transition ctx id expected sk) = true /\
    transition_committed caller (transition_draft id expected existing) event ctx sk s' /\
    same_surroundings sk s' /\
    attempt_table_accepts (st_limits sk) (ci_attempt caller) (st_state sc) = true.

(** Every run of a transition ends in one of two ways. *)
Lemma transition_cases i caller id expected event s o' s' :
  polite i -> store_inv s -> transition i caller id expected event s = (o', s') ->
  (mo_status o' <> StOk /\ untouched i s s') \/
  (mo_status o' = StOk /\ transition_done i caller id expected event s s' /\ store_inv s').
Proof.
  intros (Hread & Hcapt & Hcomm & Hguard) Hinv Hrun. unfold transition in Hrun.
  destruct (Hread s Hinv) as [Hinv1 Hl1]. destruct (Hcapt _ Hinv1) as [Hinv2 Hl2].
  fold (captured_store i s) in Hrun, Hinv2, Hl2.
  fold (captured_context i s) in Hrun.
  set (sc := captured_store i s) in *. set (ctx := captured_context i s) in *.
  assert (unchanged sc sc) as Hsame by apply unchanged_refl.
  destruct (attempt_table_accepts _ _ _) eqn:Hacc; cbn [negb] in Hrun.
  2: { injection Hrun as <- <-. left. split; [done|]. right. right. by left. }
  pose proof (find_locked_cases id sc (proj1 Hinv2)) as Hf.
  destruct (find_locked id sc) as [[j existing]|].
  2: { injection Hrun as <- <-. left. split; [done|]. right. right. by left. }
  destruct (_ || _) eqn:Hexp.
  { injection Hrun as <- <-. left. split; [done|]. right. right. by left. }
  apply orb_false_iff in Hexp as [Hv Hexp]. apply negb_false_iff in Hv, Hexp.
  apply Z.eqb_eq in Hexp. apply valid_true in Hv.
  set (d := {| empty_draft with ld_id := id; ld_scope := _; ld_expected_generation := _ |}) in *.
  change d with (transition_draft id expected existing) in *. clear d.
  assert (0 < request_cap (build_request caller (transition_draft id expected existing) event
    false ctx {| empty_resolved with rs_existing := Some existing |})) as Hcap.
  { change (0 < max_reasons (st_limits sc)). apply Hinv2. }
  destruct (failed (validate_request _)) eqn:Hval.
  { injection Hrun as <- <-. left. split; [|right; right; by left].
    apply reject_with_status; [apply Hinv|apply validate_request_no_ok|done]. }
  unfold failed in Hval. apply negb_false_iff in Hval.
  apply validate_request_ok in Hval; [|done].
  destruct (Hcomm sc Hinv2) as [(Hix & Hok & Hcapk) Hl3]. set (sk := if_commit i sc) in *.
  assert (result_ok (verify_transition ctx id expected sk) = true ->
    st_state sk = st_state sc) as Hst.
  { intros Hver. apply verify_transition_spec in Hver as (Hr & _); [|done]. by apply Hguard. }
  assert (st_limits sk = st_limits s) as Hlim by congruence.
  apply commit_transition_cases in Hrun as
    [[Hs Hu]|(Hs & Hver & Hc & Hsur & Hi' & Hok')]; [| |done| |done|done|].
  - left. split; [done|]. right. right. by right.
  - right. split_and!; [done| |].
    + exists existing. split_and!; try done.
      change (attempt_table_accepts (st_limits sk) (ci_attempt caller) (st_state sc) = true).
      by rewrite Hlim.
    + destruct Hsur as (Hl & _). unfold store_inv. rewrite Hl. by split_and!.
  - intros Hver. rewrite Hst, Hlim by done. done.
  - cbn. by rewrite Hlim.
Qed.
End Transition.
