(* ===== verification/Evolution.v ===== *)
(** * How a store evolves

    [evolves] is the closure of every operation of the store under interleaving: the
    interference an operation meets while the mutex is released is itself an evolution.
    The theorems of this file follow a lineage, and the replay table, along any
    evolution of one process lifetime; recovery is the subject of [Recovery]. *)

From stdpp Require Import relations.
From S2P Require Import Prelude.
From S2P Require Import Ids.
From S2P Require Import Bytes.
From S2P Require Import Digest.
From S2P Require Import Segment.
From S2P Require Import Reason.
From S2P Require Import Lifecycle.
From S2P Require Import Governance.
From S2P Require Import Authority.
From S2P Require Import Registries.
From S2P Require Import Evidence.
From S2P Require Import Validation.
From S2P Require Import ValidationProps.
From S2P Require Import Persistence.
From S2P Require Import PersistenceProps.
From S2P Require Import Store.
From S2P Require Import StoreProps.

(** ** Lineages *)

(** The states from which no event sequence leads to [Active]. *)
Definition dormant (s : LifecycleState) : bool :=
  lifecycle_is_terminal_for_activation s || state_eqb s Withdrawing.

Lemma dormant_step s s' : lifecycle_step s s' -> dormant s = true -> dormant s' = true.
Proof. intros [t e He] Hd. destruct t, e; vm_compute in *; congruence. Qed.

Lemma dormant_reachable s s' : lifecycle_reachable s s' -> dormant s = true -> dormant s' = true.
Proof. induction 1 as [|s t s' Hs _ IH]; [done|]. intros Hd. by apply IH, (dormant_step s). Qed.

Lemma active_not_dormant s : dormant s = true -> s <> Active.
Proof. by intros Hd ->. Qed.

Lemma advance_step s e s' : advance_state s e = Some s' -> lifecycle_step s s'.
Proof.
  unfold advance_state. destruct (allowed _) eqn:Ha; [|done]. intros [= <-]. by constructor.
Qed.

(** The intents a batch may have: those of the public methods, or an absent list. *)
Definition batch_intent (intent : LifecycleEvent) (require_absent : bool) : Prop :=
  intent = ReplaceBegin \/ intent = RevalidateBegin \/ require_absent = true.

Lemma begin_not_dormant s e :
  e = ReplaceBegin \/ e = RevalidateBegin -> allowed (lifecycle_transition s e) = true ->
  dormant s = false.
Proof. intros [-> | ->] Ha; destruct s; vm_compute in *; congruence. Qed.

(** What a generation of a lineage fixes. *)
Definition same_content (l l' : SegmentList) : Prop :=
  sl_content l' = sl_content l /\ sl_content_digest l' = sl_content_digest l /\
  sl_sequence_digest l' = sl_sequence_digest l /\ sl_provenance l' = sl_provenance l.

(** A lineage keeps its generation, its content, and moves along the lifecycle; or it is
    replaced at a greater generation, which a dormant lineage never is. *)
Definition lineage_le (l l' : SegmentList) : Prop :=
  (sl_generation l' = sl_generation l /\ same_content l l' /\
   lifecycle_reachable (sl_state l) (sl_state l')) \/
  (sl_generation l < sl_generation l' /\ dormant (sl_state l) = false).

#[global] Instance lineage_le_preorder : PreOrder lineage_le.
Proof.
  split.
  - intros l. left. split_and!; [done|by split_and!|apply rtc_refl].
  - intros l1 l2 l3 [(E1 & S1 & R1)|[L1 D1]] [(E2 & S2 & R2)|[L2 D2]].
    + left. split_and!; [congruence| |by etransitivity].
      unfold same_content in *. intuition congruence.
    + right. split; [lia|]. apply not_true_iff_false. intros Hd.
      eapply dormant_reachable in Hd; [|done]. congruence.
    + right. split; [lia|done].
    + right. split; [lia|done].
Qed.

(** Every generation fits its width. *)
Definition generations_ok (d : DurableState) : Prop :=
  forall id l, find_in_state id d = Some l -> fits 64 (sl_generation l).

(** Every lineage is still there, further along. *)
Definition lineages_le (d d' : DurableState) : Prop :=
  forall id l, find_in_state id d = Some l ->
    exists l', find_in_state id d' = Some l' /\ lineage_le l l'.

Definition attempts_le (d d' : DurableState) : Prop :=
  forall a, is_Some (find_attempt a d) -> is_Some (find_attempt a d').

Definition state_le (d d' : DurableState) : Prop := lineages_le d d' /\ attempts_le d d'.

Lemma lineages_refl d : lineages_le d d.
Proof. intros id l Hl. by exists l. Qed.

#[global] Instance state_le_preorder : PreOrder state_le.
Proof.
  split.
  - intros d. split; [apply lineages_refl|by intros a].
  - intros d1 d2 d3 [L1 A1] [L2 A2]. split; [|intros a Ha; auto].
    intros id l Hl. destruct (L1 id l Hl) as (l' & Hl' & Hle).
    destruct (L2 id l' Hl') as (l'' & Hl'' & Hle'). exists l''. split; [done|].
    by etransitivity.
Qed.

(** States whose lists are moved in place. *)
Lemma lineages_map f d d' :
  ds_lists d' = map f (ds_lists d) ->
  (forall l, sl_id (f l) = sl_id l /\ lineage_le l (f l)) -> lineages_le d d'.
Proof.
  intros Hd Hf id l Hl. exists (f l). split; [|apply Hf]. unfold find_in_state in *. rewrite Hd.
  clear Hd. induction (ds_lists d) as [|x xs IH]; cbn in *; [done|].
  rewrite (proj1 (Hf x)). destruct (Z.eqb_spec (sl_id x) id); [by simplify_eq|auto].
Qed.

Lemma lineages_update id f d d' :
  ds_lists d' = update_key sl_id id f (ds_lists d) ->
  (forall l, sl_id l = id -> sl_id (f l) = id) ->
  (forall l, find_in_state id d = Some l -> lineage_le l (f l)) -> lineages_le d d'.
Proof.
  intros Hd Hid Hf k l Hl. unfold find_in_state in *. rewrite Hd.
  destruct (decide (id = k)) as [<-|Hne].
  - rewrite find_update_key_eq, Hl by done. exists (f l). split; [done|]. by apply Hf.
  - rewrite find_update_key_ne by done. by exists l.
Qed.

Lemma generations_map f d d' :
  ds_lists d' = map f (ds_lists d) -> generations_ok d ->
  (forall l, sl_id (f l) = sl_id l /\ sl_generation (f l) = sl_generation l) ->
  generations_ok d'.
Proof.
  intros Hd Hg Hf id l. unfold generations_ok, find_in_state in *. rewrite Hd.
  assert (find_key sl_id id (map f (ds_lists d)) = f <$> find_key sl_id id (ds_lists d)) as ->.
  { clear -Hf. induction (ds_lists d) as [|x xs IH]; cbn; [done|].
    rewrite (proj1 (Hf x)). by destruct (sl_id x =? id). }
  intros Hl. apply fmap_Some in Hl as (x & Hx & ->). rewrite (proj2 (Hf x)). by eapply Hg.
Qed.

Lemma generations_update id f d d' :
  ds_lists d' = update_key sl_id id f (ds_lists d) -> generations_ok d ->
  (forall l, sl_id l = id -> sl_id (f l) = id) ->
  (forall l, find_in_state id d = Some l -> fits 64 (sl_generation (f l))) ->
  generations_ok d'.
Proof.
  intros Hd Hg Hid Hf k l. unfold find_in_state in *. rewrite Hd.
  destruct (decide (id = k)) as [<-|Hne].
  - rewrite find_update_key_eq by done. intros Hl. apply fmap_Some in Hl as (x & Hx & ->). auto.
  - rewrite find_update_key_ne by done. apply Hg.
Qed.

(** ** One committed mutation *)

Lemma superseded_lineage pm revision other e state :
  advance_state (sl_state other) e = Some state ->
  lineage_le other (superseded_list pm revision state other).
Proof.
  intros Ha. left. split_and!; [done|by split_and!|]. apply rtc_once. by eapply advance_step.
Qed.

Lemma supersede_in_le limits pm next next' :
  supersede_in limits pm next = Some next' ->
  lineages_le next next' /\ (generations_ok next -> generations_ok next').
Proof.
  unfold supersede_in. destruct (pm_superseded_generation pm).
  2: { intros [= <-]. split; [apply lineages_refl|done]. }
  destruct (find_in_state (pm_superseded_id pm) next) as [other|] eqn:Ef.
  2: { intros [= <-]. split; [apply lineages_refl|done]. }
  destruct (advance_state _ _) as [state|] eqn:Ea; [|done]. intros [= <-].
  set (other' := superseded_list _ _ _ _).
  match goal with |- context [append_history _ _ ?d] => set (base := d) end.
  destruct (append_history_lists limits other' base) as (Hl & _ & _).
  pose proof (find_key_Some _ _ _ _ Ef) as [_ Hid].
  assert (Hk : forall l, sl_id l = pm_superseded_id pm -> sl_id other' = pm_superseded_id pm).
  { intros _ _. exact Hid. }
  split.
  - eapply lineages_update; [rewrite Hl; reflexivity|exact Hk|].
    intros l Hl'. rewrite Ef in Hl'. injection Hl' as <-. by eapply superseded_lineage.
  - intros Hg. eapply generations_update; [rewrite Hl; reflexivity|exact Hg|exact Hk|].
    intros l _. exact (Hg _ _ Ef).
Qed.

Lemma attempts_record a id p g d d' :
  ds_attempts d' = ds_attempts (record_attempt a id p g d) -> attempts_le d d'.
Proof.
  intros Hd b Hb. unfold find_attempt in *. rewrite Hd. unfold record_attempt. cbn [ds_attempts].
  match goal with |- context [put_key _ ?r] => set (rec := r) end.
  destruct (decide (a = b)) as [<-|Hne].
  - by rewrite (find_put_key_eq da_attempt rec).
  - by rewrite (find_put_key_ne da_attempt rec).
Qed.

(** A prepared mutation replaces a list it may replace, or none. *)
Definition replaces (d : DurableState) (pm : PreparedMutation) : Prop :=
  pm_ok pm /\ fits 64 (sl_generation (pm_list pm)) /\
  forall l, find_in_state (pm_id pm) d = Some l -> lineage_le l (pm_list pm).

Lemma commit_one_le limits attempt payload pm d next next' :
  replaces d pm -> lineages_le d next -> generations_ok next ->
  commit_one limits attempt payload pm next = inl next' ->
  lineages_le d next' /\ generations_ok next' /\ attempts_le next next'.
Proof.
  intros (Hpm & Hfit & Hrep) Hle Hg H.
  destruct (commit_one_spec _ _ _ _ _ _ Hpm H) as (_ & _ & _ & Hat & _).
  unfold commit_one in H. destruct (supersede_in _ _ _) as [next1|] eqn:E; [|done].
  injection H as <-. destruct (supersede_in_le _ _ _ _ E) as [Hle1 Hg1]. specialize (Hg1 Hg).
  destruct (place_list_spec limits pm next1 Hpm) as (_ & _ & _ & _ & Hp & Hne).
  destruct (append_history_lists limits (pm_list pm) (place_list limits pm next1)) as (Hl & _ & _).
  assert (forall id, find_in_state id (record_attempt attempt (pm_id pm) payload
      (sl_generation (pm_list pm)) (append_history limits (pm_list pm) (place_list limits pm next1)))
    = find_in_state id (place_list limits pm next1)) as Hfind.
  { intros id. unfold find_in_state, record_attempt. cbn [ds_lists]. by rewrite Hl. }
  split_and!.
  - intros id l Hd. rewrite Hfind. destruct (decide (id = pm_id pm)) as [->|Hid].
    + exists (pm_list pm). split; [done|]. by apply Hrep.
    + rewrite Hne by done. destruct (Hle id l Hd) as (l1 & Hl1 & Hle01).
      destruct (Hle1 id l1 Hl1) as (l2 & Hl2 & Hle12). exists l2. split; [done|].
      by etransitivity.
  - intros id l. rewrite Hfind. destruct (decide (id = pm_id pm)) as [->|Hid].
    + rewrite Hp. by intros [= <-].
    + rewrite Hne by done. apply Hg1.
  - by eapply attempts_record.
Qed.

Lemma commit_all_le limits attempt payload pms d next next' :
  Forall (replaces d) pms -> lineages_le d next -> generations_ok next ->
  commit_all limits attempt payload pms next = inl next' ->
  lineages_le d next' /\ generations_ok next' /\ attempts_le next next'.
Proof.
  intros Hpms. revert next. induction Hpms as [|pm pms Hpm Hpms IH]; intros next Hle Hg H.
  - injection H as <-. split_and!; [done|done|by intros a].
  - cbn [commit_all] in H. destruct (commit_one _ _ _ _ _) as [next1|] eqn:E; [|done].
    destruct (commit_one_le _ _ _ _ _ _ _ Hpm Hle Hg E) as (Hle1 & Hg1 & Ha1).
    destruct (IH next1 Hle1 Hg1 H) as (? & ? & Ha2). split_and!; [done|done|].
    intros a Ha. auto.
Qed.

(** Preparation against the state that is committed to makes it a replacement. *)
Lemma prepared_replaces {E P} `{EvidenceSource E} `{IPersistence P}
    caller intent re ra ctx d pm (s : SegmentListStore E P) :
  index_ok s -> generations_ok (st_state s) -> batch_intent intent ra ->
  prepared_from caller intent re ra ctx d (resolve s d) pm -> replaces (st_state s) pm.
Proof.
  intros Hi Hg Hb (Had & Hex & _ & ->). unfold replaces. cbn [pm_id pm_list].
  pose proof (find_locked_find (ld_id d) s Hi) as Hf.
  change (snd <$> find_locked (ld_id d) s) with (rs_existing (resolve s d)) in Hf.
  assert (forall l, find_in_state (ld_id d) (st_state s) = Some l ->
    u64 (sl_generation l + 1) = sl_generation l + 1) as Hnext.
  { intros l Hl. rewrite <-Hf in Hl. destruct (Hex l Hl) as [_ Hx]. rewrite Hf in Hl.
    pose proof (Hg _ _ Hl) as Hfit. apply wrap_small.
    unfold Generation.exhausted, Generation.max_value in Hx. simpl_bools. unfold fits in *. lia. }
  split_and!; [done| |].
  - cbn [make_list sl_generation]. destruct (rs_existing _) as [l|]; [|by vm_compute].
    apply wrap_fits. lia.
  - intros l Hl. rewrite <-Hf in Hl. right. cbn [make_list sl_generation]. rewrite Hl.
    rewrite Hf in Hl. rewrite (Hnext l Hl). split; [lia|]. rewrite <-Hf in Hl.
    destruct Had as ((_ & _ & Hlife) & _). unfold lifecycle_admissible in Hlife.
    cbn [batch_request build_request vr_existing vr_require_absent vr_intent] in Hlife.
    rewrite Hl in Hlife. destruct Hlife as (_ & Hra & _ & _ & _ & Hal).
    apply (begin_not_dormant _ intent); [|done]. destruct Hb as [?|[?|?]]; auto. congruence.
Qed.

(** ** Refreshing *)

Lemma refresh_all_lists f lists :
  (refresh_all f lists).1.1 =
    map (fun l => if refresh_skips (sl_state l) then l else refresh_list (f l) l) lists.
Proof.
  unfold refresh_all.
  assert (forall acc, (fold_left (fun acc l => refresh_one f l acc) lists acc).1.1 =
    acc.1.1 ++ map (fun l => if refresh_skips (sl_state l) then l else refresh_list (f l) l) lists)
    as H; [|by rewrite H].
  induction lists as [|l lists IH]; intros [[kept changed] report]; cbn [fold_left map].
  - by rewrite app_nil_r.
  - rewrite IH. unfold refresh_one. destruct (refresh_skips _); cbn [fst]; by rewrite <-app_assoc.
Qed.

Lemma refresh_list_lineage cur l :
  sl_id (refresh_list cur l) = sl_id l /\ sl_generation (refresh_list cur l) = sl_generation l /\
  lineage_le l (refresh_list cur l).
Proof.
  split_and!; [done..|]. left. split_and!; [done|by split_and!|].
  cbn [refresh_list sl_state]. destruct (_ && _) eqn:E; [|apply rtc_refl].
  apply andb_true_iff in E as [_ E]. apply state_eqb_eq in E. rewrite E.
  apply rtc_once. by apply (reach_event Active DependencyChanged).
Qed.

(** ** Evolution *)
Section Evolution.
Context {E P : Type} `{EvidenceSource E} `{!IPersistence P} `{!PersistenceLaws P}.
Implicit Types (s : SegmentListStore E P).

(** Whatever the owners of the evidence, the authority table and the backend do. *)
Definition surroundings evidence persistence authority s : SegmentListStore E P :=
  {| s with st_evidence := evidence; st_persistence := persistence;
            st_authority := authority |}.

Inductive evolves : SegmentListStore E P -> SegmentListStore E P -> Prop :=
  | evolves_refl s : evolves s s
  | evolves_trans s t u : evolves s t -> evolves t u -> evolves s u
  | evolves_surroundings evidence persistence authority s :
      evolves s (surroundings evidence persistence authority s)
  | evolves_batch i caller drafts intent re ra s :
      (forall t, evolves t (if_reading i t)) -> (forall t, evolves t (if_capture i t)) ->
      (forall t, evolves t (if_commit i t)) -> guarded (if_commit i) ->
      batch_intent intent ra ->
      evolves s (run_batch i caller drafts intent re ra s).2
  | evolves_transition i caller id expected event s :
      (forall t, evolves t (if_reading i t)) -> (forall t, evolves t (if_capture i t)) ->
      (forall t, evolves t (if_commit i t)) -> guarded (if_commit i) ->
      evolves s (transition i caller id expected event s).2
  | evolves_refresh i s :
      (forall t, evolves t (if_capture i t)) -> evolves s (refresh_currentness i s).2
  | evolves_persist s : evolves s (persist_now s).2
  | evolves_profile p s : evolves s (register_profile p s).2
  | evolves_policy p s : evolves s (register_policy p s).2
  | evolves_snapshot id s : evolves s (snapshot id s).2.

Definition good s : Prop := store_inv s /\ generations_ok (st_state s).

(** What an evolution promises about its ends. *)
Definition preserved s s' : Prop :=
  (store_inv s -> store_inv s' /\ st_limits s' = st_limits s) /\
  (good s -> generations_ok (st_state s') /\ state_le (st_state s) (st_state s')).

#[local] Instance preserved_preorder : PreOrder preserved.
Proof.
  split.
  - intros s. split; [done|]. intros [_ Hg]. by split.
  - intros s t u [I1 G1] [I2 G2]. split.
    + intros Hs. destruct (I1 Hs) as [Ht L1]. destruct (I2 Ht) as [Hu L2].
      split; [done|congruence].
    + intros Hs. destruct (G1 Hs) as [Hg S1]. destruct (I1 (proj1 Hs)) as [Ht _].
      destruct (G2 (conj Ht Hg)) as [Hg' S2]. split; [done|by etransitivity].
Qed.

Lemma unchanged_preserved s s' : unchanged s s' -> preserved s s'.
Proof.
  intros ((Hl & _) & Hst & Hix & _). unfold preserved, good, store_inv, index_ok.
  rewrite Hl, Hst, Hix. split; [by intros ([] & ? & ?); split_and!|].
  intros [_ Hg]. by split.
Qed.

(** Installing a state with the same history and attempts. *)
Lemma install_preserved next s s' :
  st_limits s' = st_limits s ->
  ds_history next = ds_history (st_state s) -> ds_attempts next = ds_attempts (st_state s) ->
  keys sl_id (ds_lists next) = keys sl_id (ds_lists (st_state s)) ->
  (generations_ok (st_state s) -> generations_ok next) ->
  lineages_le (st_state s) next ->
  preserved s (install next s').
Proof.
  intros Hlim Hh Ha Hk Hg Hle. split.
  - intros ((_ & Hn) & (_ & Hho & Hat) & Hcap). split; [|done]. split_and!.
    + apply install_index_ok. by rewrite Hk.
    + unfold state_ok, history_ok, attempts_ok. cbn [install rebuild_index_locked st_state st_limits].
      rewrite Hlim, Hh, Ha, Hk. exact (conj Hn (conj Hho Hat)).
    + cbn. by rewrite Hlim.
  - intros [_ Hgen]. split; [by apply Hg|]. split; [done|].
    intros a. unfold find_attempt. cbn. by rewrite Ha.
Qed.

Lemma preserved_polite i :
  (forall t, preserved t (if_reading i t)) -> (forall t, preserved t (if_capture i t)) ->
  (forall t, preserved t (if_commit i t)) -> guarded (if_commit i) -> polite i.
Proof. intros H1 H2 H3 Hg. split_and!; [intros s; apply H1|intros s; apply H2|intros s; apply H3|done]. Qed.

Lemma persist_preserved next out s saved out' s' :
  persist_locked next out s = (saved, out', s') -> preserved s s'.
Proof.
  intros Hp. apply persist_locked_spec in Hp as ((Hl & _) & Hst & Hix & _).
  unfold preserved, good, store_inv, index_ok. rewrite Hl, Hst, Hix.
  split; [by intros ([] & ? & ?); split_and!|]. intros [_ Hg]. by split.
Qed.

(** Persisting and installing on success. *)
Lemma persist_install_preserved next final out s saved out' s' :
  persist_locked next out s = (saved, out', s') ->
  ds_history final = ds_history (st_state s) -> ds_attempts final = ds_attempts (st_state s) ->
  keys sl_id (ds_lists final) = keys sl_id (ds_lists (st_state s)) ->
  (generations_ok (st_state s) -> generations_ok final) ->
  lineages_le (st_state s) final ->
  preserved s (if saved then install final s' else s').
Proof.
  intros Hp Hh Ha Hk Hg Hle. destruct saved; [|by eapply persist_preserved].
  apply install_preserved; try done.
  by apply persist_locked_spec in Hp as ((? & _) & _).
Qed.

Lemma same_lists_preserved next final out s saved out' s' :
  persist_locked next out s = (saved, out', s') ->
  ds_history final = ds_history (st_state s) -> ds_attempts final = ds_attempts (st_state s) ->
  ds_lists final = ds_lists (st_state s) ->
  preserved s (if saved then install final s' else s').
Proof.
  intros Hp Hh Ha Hl. eapply persist_install_preserved; [exact Hp|done|done|by rewrite Hl| |].
  - intros Hg id l. unfold find_in_state. rewrite Hl. apply Hg.
  - intros id l Hf. exists l. split; [|done]. unfold find_in_state in *. by rewrite Hl.
Qed.

Lemma with_registry_preserved registry s : preserved s {| s with st_registry := registry |}.
Proof. split; [done|]. intros [_ Hg]. by split. Qed.

Lemma persist_registration_preserved result s :
  preserved s (persist_registration result s).2.
Proof.
  unfold persist_registration. destruct (persist_locked _ _ _) as [[saved r] s'] eqn:Hp.
  eapply (same_lists_preserved _ {| (with_dependencies s (st_state s)) with
    ds_revision := u64 (ds_revision (st_state s) + 1) |}) in Hp; [|done..].
  by destruct saved.
Qed.

Lemma register_profile_preserved p s : preserved s (register_profile p s).2.
Proof.
  unfold register_profile. destruct (Registry.register_profile _ _ _) as [result registry].
  etransitivity; [apply (with_registry_preserved registry)|].
  destruct (failed result); [done|apply persist_registration_preserved].
Qed.

Lemma register_policy_preserved p s : preserved s (register_policy p s).2.
Proof.
  unfold register_policy. destruct (Registry.register_policy _ _ _) as [result registry].
  etransitivity; [apply (with_registry_preserved registry)|].
  destruct (failed result); [done|apply persist_registration_preserved].
Qed.

Lemma persist_now_preserved s : preserved s (persist_now s).2.
Proof.
  unfold persist_now. destruct (st_persistence s); [|done].
  destruct (persist_locked _ _ _) as [[saved r] s'] eqn:Hp.
  match type of Hp with persist_locked ?n _ _ = _ =>
    apply (same_lists_preserved _ n) in Hp; [|done..] end. by destruct saved.
Qed.

Lemma refresh_preserved i s :
  (forall t, preserved t (if_capture i t)) -> preserved s (refresh_currentness i s).2.
Proof.
  intros Hi. unfold refresh_currentness. cbv zeta.
  etransitivity; [apply (Hi s)|]. set (t := if_capture i s).
  set (f := refreshed_currentness _ _ _ _). pose proof (refresh_all_lists f (ds_lists (st_state t))) as Hr.
  destruct (refresh_all _ _) as [[lists changed] report]. cbn [fst] in Hr.
  destruct (negb changed); [done|].
  destruct (persist_locked _ _ _) as [[saved r] t'] eqn:Hp.
  set (g := fun l => if refresh_skips (sl_state l) then l else refresh_list (f l) l) in Hr.
  assert (forall l, sl_id (g l) = sl_id l /\ sl_generation (g l) = sl_generation l /\
    lineage_le l (g l)) as Hg.
  { intros l. unfold g. destruct (refresh_skips _); [done|]. apply refresh_list_lineage. }
  match type of Hp with persist_locked ?n _ _ = _ =>
    apply (persist_install_preserved _ n) in Hp end; [|done|done| | |].
  - destruct saved; exact Hp.
  - cbn [ds_lists]. rewrite Hr. unfold keys. rewrite map_map. apply map_ext. intros l. apply Hg.
  - intros Hgen. eapply (generations_map g); [exact Hr|done|]. intros l. split; apply Hg.
  - eapply (lineages_map g); [exact Hr|]. intros l. split; apply Hg.
Qed.

(** *** A batch *)

Lemma untouched_preserved i s s' :
  (forall t, preserved t (if_reading i t)) -> (forall t, preserved t (if_capture i t)) ->
  (forall t, preserved t (if_commit i t)) -> untouched i s s' -> preserved s s'.
Proof.
  intros H1 H2 H3 Hu.
  destruct Hu as [Hu|[Hu|[Hu|Hu]]]; apply unchanged_preserved in Hu; unfold captured_store in Hu.
  - done.
  - by etransitivity; [apply H1|].
  - etransitivity; [apply H1|]. by etransitivity; [apply H2|].
  - etransitivity; [apply H1|]. etransitivity; [apply H2|]. by etransitivity; [apply H3|].
Qed.

(** The commit of a batch, from the store the lock was taken on. *)
Lemma batch_committed_le i caller drafts intent re ra s s' :
  batch_intent intent ra -> guarded (if_commit i) ->
  0 < max_reasons (st_limits (if_commit i (captured_store i s))) ->
  good (captured_store i s) -> batch_committed i caller drafts intent re ra s s' ->
  let sk := if_commit i (captured_store i s) in
  generations_ok (st_state s') /\ state_le (st_state sk) (st_state s').
Proof.
  intros Hb Hguard Hcap [(Hi & _) Hg] (pms & Hpms & _ & Hver & (next & Hall & Hst) & _).
  cbv zeta. set (sk := if_commit i _) in *.
  assert (st_state sk = st_state (captured_store i s)) as Hsame.
  { apply verify_batch_spec in Hver as (Hr & _); [|done]. by apply Hguard. }
  rewrite Hsame in *. set (d := st_state (captured_store i s)) in *.
  assert (Forall (replaces d) pms) as Hrep.
  { clear Hver Hall. induction Hpms as [|dr pm drs pms Hp Hpms IH]; constructor; [|done].
    by eapply prepared_replaces. }
  apply (commit_all_le _ _ _ _ d) in Hall as (Hle & Hgen & Ha);
    [|exact Hrep|exact (lineages_refl d)|exact Hg].
  rewrite Hst. split; [exact Hgen|]. split; [exact Hle|exact Ha].
Qed.

Lemma batch_preserved i caller drafts intent re ra s :
  (forall t, preserved t (if_reading i t)) -> (forall t, preserved t (if_capture i t)) ->
  (forall t, preserved t (if_commit i t)) -> guarded (if_commit i) -> batch_intent intent ra ->
  preserved s (run_batch i caller drafts intent re ra s).2.
Proof.
  intros H1 H2 H3 Hg Hb.
  pose proof (preserved_polite i H1 H2 H3 Hg) as Hpol.
  destruct (run_batch _ _ _ _ _ _ _) as [o' s'] eqn:Hrun. cbn [snd].
  assert (preserved s (captured_store i s)) as Hcap by (etransitivity; [apply H1|apply H2]).
  assert (preserved s (if_commit i (captured_store i s))) as Hcom.
  { etransitivity; [exact Hcap|apply H3]. }
  assert (store_inv s -> preserved s s') as Hgoal; [|split; intros Hs;
    [exact (proj1 (Hgoal Hs) Hs)|exact (proj2 (Hgoal (proj1 Hs)) Hs)]].
  intros Hs. apply (run_batch_cases _ _ _ _ _ _ _ _ _ Hpol Hs) in Hrun as
    [[_ Hu]|[[_ (_ & Hu & _)]|(_ & _ & Hc & Hs' & _)]].
  - by eapply untouched_preserved.
  - apply unchanged_preserved in Hu. etransitivity; [exact Hcap|exact Hu].
  - destruct (proj1 Hcom Hs) as [Hsk Hlim]. split.
    + intros _. split; [done|].
      destruct Hc as (pms & _ & _ & _ & _ & (Hl & _) & _). congruence.
    + intros Hgood. destruct (proj2 Hcap Hgood) as [Hgc _].
      destruct (batch_committed_le _ _ _ _ _ _ _ _ Hb Hg (proj2 (proj2 Hsk))
        (conj (proj1 (proj1 Hcap Hs)) Hgc) Hc) as [Hgen Hle].
      split; [done|]. etransitivity; [apply (proj2 Hcom Hgood)|exact Hle].
Qed.

(** *** A transition *)
Lemma transition_committed_le caller d event ctx s s' :
  generations_ok (st_state s) -> transition_committed caller d event ctx s s' ->
  generations_ok (st_state s') /\ state_le (st_state s) (st_state s').
Proof.
  intros Hg (target & state & Hf & _ & Hadv & _ & Hl & Hat & _).
  pose proof (find_key_Some _ _ _ _ Hf) as [_ Hid].
  split; [|split].
  - eapply generations_update; [exact Hl|exact Hg|done|]. intros l _. exact (Hg _ _ Hf).
  - eapply lineages_update; [exact Hl|done|]. intros l Hl'. rewrite Hf in Hl'.
    injection Hl' as <-. left. split_and!; [done|by split_and!|].
    apply rtc_once. by eapply advance_step.
  - unfold attempted in Hat. destruct (valid (ci_attempt caller)).
    + by eapply attempts_record.
    + intros a. unfold find_attempt. by rewrite Hat.
Qed.

Lemma transition_preserved i caller id expected event s :
  (forall t, preserved t (if_reading i t)) -> (forall t, preserved t (if_capture i t)) ->
  (forall t, preserved t (if_commit i t)) -> guarded (if_commit i) ->
  preserved s (transition i caller id expected event s).2.
Proof.
  intros H1 H2 H3 Hg. pose proof (preserved_polite i H1 H2 H3 Hg) as Hpol.
  destruct (transition _ _ _ _ _ _) as [o' s'] eqn:Hrun. cbn [snd].
  assert (preserved s (if_commit i (captured_store i s))) as Hcom.
  { etransitivity; [apply H1|]. etransitivity; [apply H2|]. apply H3. }
  assert (store_inv s -> preserved s s') as Hgoal; [|split; intros Hs;
    [exact (proj1 (Hgoal Hs) Hs)|exact (proj2 (Hgoal (proj1 Hs)) Hs)]].
  intros Hs. apply (transition_cases _ _ _ _ _ _ _ _ Hpol Hs) in Hrun as
    [[_ Hu]|(_ & (existing & _ & _ & _ & _ & _ & Hc & (Hl & _) & _) & Hs')].
  - by eapply untouched_preserved.
  - destruct (proj1 Hcom Hs) as [_ Hlim]. split; [intros _; split; [done|congruence]|].
    intros Hgood. destruct (proj2 Hcom Hgood) as [Hgk Hle].
    destruct (transition_committed_le _ _ _ _ _ _ Hgk Hc) as [Hgen Hle'].
    split; [done|by etransitivity].
Qed.

Lemma snapshot_preserved id s : preserved s (snapshot id s).2.
Proof.
  unfold snapshot. destruct (find_locked id s) as [[]|]; [|done].
  split; [done|]. intros [_ Hg]. by split.
Qed.

Lemma evolves_preserved s s' : evolves s s' -> preserved s s'.
Proof.
  induction 1 as [s|s t u _ IH1 _ IH2|ev p a s|i caller drafts intent re ra s _ H1 _ H2 _ H3 Hg Hb
    |i caller id expected event s _ H1 _ H2 _ H3 Hg|i s _ H1|s|p s|p s|id s].
  - done.
  - by etransitivity.
  - split; [done|]. intros [_ Hg]. by split.
  - by apply batch_preserved.
  - by apply transition_preserved.
  - by apply refresh_preserved.
  - apply persist_now_preserved.
  - apply register_profile_preserved.
  - apply register_policy_preserved.
  - apply snapshot_preserved.
Qed.

Lemma new_store_good limits evidence persistence :
  0 < max_reasons limits -> good (new_store (E := E) (P := P) limits evidence persistence).
Proof.
  intros Hcap. split; [split_and!|].
  - by split; [|constructor].
  - by apply empty_state_ok.
  - done.
  - by intros id l Hl.
Qed.



End Evolution.
