(* ===== verification/StoreTheorems.v ===== *)
(** * What the operations of the store promise

    Each theorem is about one public operation, under any interference that keeps the
    invariant of the store. *)

From S2P Require Import Prelude.
From S2P Require Import Ids.
From S2P Require Import Bytes.
From S2P Require Import Digest.
From S2P Require Import Segment.
From S2P Require Import Reason.
From S2P Require Import Lifecycle.
From S2P Require Import Governance.
From S2P Require Import Authority.
From S2P Require Import Registries.
From S2P Require Import Evidence.
From S2P Require Import Validation.
From S2P Require Import ValidationProps.
From S2P Require Import Persistence.
From S2P Require Import PersistenceProps.
From S2P Require Import Store.
From S2P Require Import StoreProps.
From S2P Require Import Evolution.

Section Operations.
Context {E P : Type} `{EvidenceSource E} `{!IPersistence P} `{!PersistenceLaws P}.
Implicit Types (s : SegmentListStore E P) (o : MutationOutcome).


(** The evidence source moved on between the reads of a batch, by fewer than 2^64
    revisions. *)
Definition evidence_moves {Ew : EvidenceSourceLaws E} (i : Interference) s : Prop :=
  exists e0 e1 e2 n1 n2,
    st_evidence s = Some e0 /\ st_evidence (if_reading i s) = Some e1 /\
    st_evidence (if_commit i (captured_store i s)) = Some e2 /\
    ev_valid e0 /\ moves n1 e0 e1 /\ moves n2 e1 e2 /\ n1 + n2 < 2 ^ 64.

(** The window between capture and commit: an unchanged revision of the registry means
    an unchanged registry, and no publisher was registered, fenced or marked dead. *)
Definition window_ok (i : Interference) s : Prop :=
  let sc := captured_store i s in
  let sk := if_commit i sc in
  (rg_revision (st_registry sk) = rg_revision (st_registry sc) ->
   st_registry sk = st_registry sc) /\
  (at_epoch (st_authority sk) = at_epoch (st_authority sc) ->
   authority_view sk = authority_view sc).

(** A re-check that passes has found what was captured. *)
Lemma captured_at_commit {Ew : EvidenceSourceLaws E} i pms s :
  polite i -> store_inv s -> evidence_moves i s -> window_ok i s ->
  let sk := if_commit i (captured_store i s) in
  result_ok (verify_batch (captured_context i s) pms sk) = true ->
  captured_context i s = capture sk (observed_watermark sk) (observed_evidence sk) /\
  st_state sk = st_state (captured_store i s) /\
  st_registry sk = st_registry (captured_store i s) /\
  st_index sk = st_index (captured_store i s) /\ st_limits sk = st_limits s.
Proof.
  intros (Hread & Hcapt & Hcomm & Hguard) Hinv
    (e0 & e1 & e2 & n1 & n2 & H0 & H1 & H2 & Hval & Hm1 & Hm2 & Hn) [Hreg Hauth] sk Hver.
  destruct (Hread s Hinv) as [Hinv1 Hl1]. destruct (Hcapt _ Hinv1) as [Hinv2 Hl2].
  destruct (Hcomm _ Hinv2) as [Hinv3 Hl3]. fold (captured_store i s) in Hinv2, Hl2, Hinv3, Hl3.
  fold sk in Hinv3, Hl3, Hreg, Hauth, H2. set (sc := captured_store i s) in *.
  apply verify_batch_spec in Hver as (Hr & Hrr & He & Hw & _); [|apply Hinv3].
  cbn [captured_context capture cx_store_revision cx_registry_revision cx_epoch cx_watermark] in *.
  specialize (Hw e2 H2). unfold observed_watermark in Hw. rewrite H0 in Hw.
  assert (ev_snapshot e1 = ev_snapshot e2) as Hsnap by (by eapply snapshot_between).
  assert (st_state sk = st_state sc) as Hst by (apply Hguard; exact Hr).
  specialize (Hreg Hrr). specialize (Hauth He).
  split_and!; [|exact Hst|exact Hreg| |congruence].
  - unfold captured_context. fold sc. unfold capture, observed_watermark, observed_evidence.
    rewrite H0, H1, H2, Hsnap, Hw, Hl3, Hauth, He, Hreg, Hst. done.
  - destruct Hinv2 as [[-> _] _], Hinv3 as [[-> _] _]. by rewrite Hst.
Qed.


(** *** Replay *)
Lemma find_locked_same id s s' :
  st_index s' = st_index s -> st_state s' = st_state s -> find_locked id s' = find_locked id s.
Proof. intros Hi Hs. unfold find_locked. by rewrite Hi, Hs. Qed.

Lemma replay_answered drafts s o :
  index_ok s ->
  (forall d, list.last drafts = Some d -> is_Some (find_in_state (ld_id d) (st_state s))) ->
  answered drafts s (replay_outcome drafts s o).
Proof.
  intros Hi Hall d Hd. destruct (Hall d Hd) as [l Hl].
  apply last_Some in Hd as [drafts' ->]. unfold replay_outcome.
  rewrite fold_left_app. cbn [fold_left]. set (o1 := fold_left _ _ _).
  pose proof (find_locked_cases (ld_id d) s Hi) as Hf.
  destruct (find_locked (ld_id d) s) as [[j l']|]; [|congruence].
  cbn [mo_list mo_generation mo_digest]. split; [done|]. by exists l'.
Qed.

Lemma answered_snapshot drafts s o id : answered drafts s o ->
  answered drafts s {| o with mo_snapshot := id |}.
Proof. done. Qed.

Lemma check_batch_none limits drafts o :
  check_batch limits drafts o = None <-> drafts <> [] /\ size drafts <= max_batch_size limits.
Proof.
  unfold check_batch. destruct drafts; cbn [is_empty]; [by split; [|intros []]|].
  destruct (Z.ltb_spec (max_batch_size limits) (size (l :: drafts))); split; try done.
  - intros []. lia.
Qed.

(** A request under a recorded attempt. *)
Lemma recorded_run caller drafts intent re ra s r :
  drafts <> [] -> size drafts <= max_batch_size (st_limits s) ->
  evidence_records (observed_evidence s) <= max_evidence_records (st_limits s) ->
  ci_attempt caller <> 0 ->
  find_attempt (ci_attempt caller) (st_state s) = Some r ->
  let o := {| (new_outcome (st_limits s)) with mo_list := default 0 (ld_id <$> head drafts) |} in
  run_batch undisturbed caller drafts intent re ra s =
    if bool_decide (da_payload r = batch_payload_digest drafts) then
      let '(id, s') := take_snapshot_id s in
      ({| (replay_outcome drafts s o) with mo_snapshot := id |}, s')
    else (reject StConflict CommitReplayPayloadMismatch (ci_attempt caller) o, s).
Proof.
  intros Hne Hcb Hev Ha Hf o. unfold run_batch. cbn [undisturbed if_reading if_capture if_commit].
  fold o. rewrite (proj2 (check_batch_none _ _ o)) by done.
  destruct (Z.ltb_spec (max_evidence_records (st_limits s))
    (evidence_records (observed_evidence s))); [lia|].
  unfold check_attempt. apply valid_true in Ha. rewrite Ha, Hf.
  by case_bool_decide.
Qed.

(** What an acknowledged, fresh batch leaves for a retry. *)
Lemma committed_retry i caller drafts intent re ra s o' s' :
  polite i -> store_inv s -> run_batch i caller drafts intent re ra s = (o', s') ->
  mo_status o' = StOk -> mo_idempotent_replay o' = false ->
  store_inv s' /\ st_limits s' = st_limits s /\ answered drafts s' o' /\
  drafts <> [] /\ size drafts <= max_batch_size (st_limits s') /\ ci_attempt caller <> 0 /\
  attempt_recorded (ci_attempt caller) (batch_payload_digest drafts) (st_state s').
Proof.
  intros Hpol Hinv Hrun Hok Hfresh. pose proof Hrun as Hrun'.
  apply (run_batch_cases _ _ _ _ _ _ _ _ _ Hpol Hinv) in Hrun' as
    [[? _]|[[_ (? & _)]|(_ & _ & Hc & Hinv' & Hans)]]; [done|congruence|].
  destruct Hc as (pms & Hpms & _ & _ & (next & Hall & Hst) & (Hl & _) & _).
  destruct Hpol as (H1 & H2 & H3 & _). destruct (H1 s Hinv) as [Hi1 L1].
  destruct (H2 _ Hi1) as [Hi2 L2]. destruct (H3 _ Hi2) as [_ L3].
  fold (captured_store i s) in L2, L3.
  assert (st_limits s' = st_limits s) as Hlim by congruence.
  unfold run_batch in Hrun. destruct (check_batch _ _ _) as [o1|] eqn:Hcb.
  { injection Hrun as <- _. by apply check_batch_status in Hcb. }
  apply check_batch_none in Hcb as [Hne Hsz].
  destruct (prepared_attempt_valid _ _ _ _ _ _ _ _ Hne Hpms) as (Hpm & Hv & Hpne).
  apply valid_true in Hv. split_and!; try done; [by rewrite Hlim|].
  apply commit_all_attempt in Hall; [|done|by left]. by rewrite Hst.
Qed.

(** C11: Replay.  After an acknowledged batch, the same request under the same attempt is
    acknowledged again without changing anything and names the same list, generation and
    digest; any other request under that attempt is refused as a payload mismatch and
    changes nothing. *)
Theorem replay_exact i caller drafts intent re ra s o' s' intent' re' ra' :
  polite i -> store_inv s -> run_batch i caller drafts intent re ra s = (o', s') ->
  mo_status o' = StOk -> mo_idempotent_replay o' = false ->
  evidence_records (observed_evidence s') <= max_evidence_records (st_limits s') ->
  (let '(o2, s2) := run_batch undisturbed caller drafts intent' re' ra' s' in
   mo_status o2 = StOk /\ mo_idempotent_replay o2 = true /\ unchanged s' s2 /\
   mo_list o2 = mo_list o' /\ mo_generation o2 = mo_generation o' /\
   mo_digest o2 = mo_digest o') /\
  (forall other, other <> [] -> size other <= max_batch_size (st_limits s') ->
   batch_payload_digest other <> batch_payload_digest drafts ->
   let '(o2, s2) := run_batch undisturbed caller other intent' re' ra' s' in
   mo_status o2 = StConflict /\ contains CommitReplayPayloadMismatch (mo_result o2) = true /\
   s2 = s').
Proof.
  intros Hpol Hinv Hrun Hok Hfresh Hev.
  destruct (committed_retry _ _ _ _ _ _ _ _ _ Hpol Hinv Hrun Hok Hfresh) as
    (Hinv' & _ & Hans & Hne & Hsz & Ha & (r & Hr & Hpay)). split.
  - rewrite (recorded_run _ _ _ _ _ _ r) by done. rewrite bool_decide_true by done.
    cbn [take_snapshot_id]. set (o := {| (new_outcome _) with mo_list := _ |}).
    destruct (replay_outcome_flags drafts s' o) as [Hs Hrep].
    destruct (list.last drafts) as [d|] eqn:Hd; [|by apply last_None in Hd].
    destruct (Hans d Hd) as (Hl & l & Hf & Hg & Hdig).
    assert (answered drafts s' (replay_outcome drafts s' o)) as Hans2.
    { apply replay_answered; [apply Hinv'|]. intros d' Hd'. rewrite Hd in Hd'.
      injection Hd' as <-. by exists l. }
    destruct (Hans2 d Hd) as (Hl2 & l2 & Hf2 & Hg2 & Hdig2). rewrite Hf in Hf2.
    injection Hf2 as <-. cbn [mo_status mo_idempotent_replay mo_list mo_generation mo_digest].
    split_and!; try done; congruence.
  - intros other Hone Hosz Hne'. rewrite (recorded_run _ _ _ _ _ _ r) by done.
    rewrite bool_decide_false by congruence. split_and!; [done| |done].
    cbn [reject mo_result new_outcome]. apply contains_add; [done|apply Hinv'].
Qed.

(** *** Creating and replacing *)

(** The store a commit took the lock on. *)
Definition commit_store (i : Interference) s : SegmentListStore E P :=
  if_commit i (captured_store i s).

(** The lists after one draft is committed: its own, the one it supersedes, the others. *)
Definition draft_committed (i : Interference) caller (d : ListDraft) s s' : Prop :=
  let sk := commit_store i s in
  let previous := find_in_state (ld_id d) (st_state sk) in
  let revision := u64 (ds_revision (st_state sk) + 1) in
  let l := make_list caller d (captured_context i s) (resolve (captured_store i s) d)
             previous (at_epoch (st_authority sk)) revision in
  get (ld_id d) s' = Some l /\
  (forall id, id <> ld_id d -> id <> ld_supersedes d \/ ld_supersedes d = 0 ->
     get id s' = get id sk) /\
  (ld_supersedes d <> 0 -> exists other,
     get (ld_supersedes d) sk = Some other /\
     sl_generation other = ld_supersedes_generation d /\
     (ld_supersedes d <> ld_id d -> exists other',
        get (ld_supersedes d) s' = Some other' /\ sl_state other' = Superseded /\
        ln_superseded_by (sl_lineage other') = ld_id d /\
        sl_generation other' = sl_generation other /\
        sl_content other' = sl_content other)).

Lemma get_find id s : index_ok s -> get id s = find_in_state id (st_state s).
Proof. apply find_locked_find. Qed.

Lemma single_committed i caller d intent re ra s o' s' :
  polite i -> store_inv s -> run_batch i caller [d] intent re ra s = (o', s') ->
  mo_status o' = StOk -> mo_idempotent_replay o' = false ->
  draft_committed i caller d s s' /\
  (exists pm, prepared_from caller intent re ra (captured_context i s) d
     (resolve (captured_store i s) d) pm) /\
  rs_existing (resolve (captured_store i s) d) = get (ld_id d) (commit_store i s).
Proof.
  intros Hpol Hinv Hrun Hok Hfresh.
  apply (run_batch_cases _ _ _ _ _ _ _ _ _ Hpol Hinv) in Hrun as
    [[? _]|[[_ (? & _)]|(_ & _ & (pms & Hpms & _ & Hver & (next & Hall & Hst) & _) & (Hix' & _) & _)]];
    [done|congruence|].
  destruct Hpol as (H1 & H2 & H3 & Hguard). destruct (H1 s Hinv) as [Hi1 _].
  destruct (H2 _ Hi1) as [Hi2 _]. destruct (H3 _ Hi2) as [Hi3 _].
  fold (captured_store i s) in Hi2, Hi3. fold (commit_store i s) in *.
  set (sc := captured_store i s) in *. set (sk := commit_store i s) in *.
  apply verify_batch_spec in Hver as (Hr & _ & He & _); [|apply Hi3].
  assert (st_state sk = st_state sc) as Hsame by (apply Hguard; exact Hr).
  inversion Hpms as [|? pm ? pms' Hpm Hnil]; subst. inversion Hnil; subst. clear Hpms Hnil.
  assert (forall id, snd <$> find_locked id sc = find_in_state id (st_state sk)) as Hres.
  { intros id. rewrite Hsame. apply find_locked_find, Hi2. }
  split; [|split; [by exists pm|]].
  2: { rewrite (get_find _ sk) by apply Hi3. apply Hres. }
  cbn [commit_all] in Hall. destruct (commit_one _ _ _ _ _) as [next1|] eqn:Hone; [|done].
  injection Hall as ->. apply prepared_from_ok in Hpm as Hpmok. destruct Hpmok as [Hpmok _].
  destruct (commit_one_spec _ _ _ _ _ _ Hpmok Hone) as (_ & _ & _ & _ & Hown & Hother).
  assert (forall id, get id s' = find_in_state id next) as Hget'.
  { intros id. rewrite get_find by done. by rewrite Hst. }
  assert (forall id, get id sk = find_in_state id (st_state sk)) as Hgetk.
  { intros id. apply get_find, Hi3. }
  unfold draft_committed. fold sk sc. cbv zeta.
  destruct Hpm as (_ & _ & Hsup & ->). cbn [pm_id pm_list pm_superseded_id pm_superseded_generation] in *.
  split_and!.
  - rewrite Hget', Hown. f_equal. change (rs_existing (resolve sc d))
      with (snd <$> find_locked (ld_id d) sc). rewrite Hres, He, Hr. done.
  - intros id Hid Hs. rewrite Hget', Hgetk. apply Hother; [done|].
    destruct Hs as [?|Hz]; [by left|]. right. cbn [resolve rs_superseded]. by rewrite Hz.
  - intros Hz. destruct (Hsup Hz) as (other & Ho & Hg & _). apply valid_true in Hz.
    cbn [resolve rs_superseded] in Ho. rewrite Hz, Hres in Ho.
    exists other. split; [by rewrite Hgetk|]. split; [done|]. intros Hne.
    eapply commit_one_superseded in Hone; [|done| |done|exact Ho].
    2: { cbn [pm_superseded_generation resolve rs_superseded]. rewrite Hz, Hres, Ho. done. }
    cbn [pm_superseded_id] in Hone. eexists. rewrite Hget'. split; [exact Hone|]. by split_and!.
Qed.

(** What a list committed from a draft looks like. *)
Definition describes caller (d : ListDraft) epoch (l : SegmentList) : Prop :=
  sl_id l = ld_id d /\ c_scope (sl_content l) = ld_scope d /\
  c_segments (sl_content l) = canonicalize_segments (ld_segments d) /\
  sl_state l = Active /\ sl_currentness l = Current /\
  au_publisher (sl_authority l) = ci_publisher caller /\
  au_boot (sl_authority l) = ci_boot caller /\
  au_attempt (sl_authority l) = ci_attempt caller /\ au_epoch (sl_authority l) = epoch /\
  exists width, sl_content_digest l = content_digest (sl_content l) width /\
    sl_sequence_digest l = sequence_digest (c_segments (sl_content l)) width.

Lemma make_list_describes caller d ctx res previous epoch revision :
  describes caller d epoch (make_list caller d ctx res previous epoch revision).
Proof.
  unfold describes. split_and!; try reflexivity. by eexists.
Qed.

Lemma create_committed i caller d s o' s' :
  polite i -> store_inv s -> create_list i caller d s = (o', s') ->
  mo_status o' = StOk -> mo_idempotent_replay o' = false ->
  get (ld_id d) (commit_store i s) = None /\ ld_id d <> 0 /\
  (exists l, get (ld_id d) s' = Some l /\ sl_generation l = 1 /\
     describes caller d (at_epoch (st_authority (commit_store i s))) l) /\
  draft_committed i caller d s s'.
Proof.
  intros Hpol Hinv Hrun Hok Hfresh. unfold create_list in Hrun.
  destruct (single_committed _ _ _ _ _ _ _ _ _ Hpol Hinv Hrun Hok Hfresh) as
    (Hc & (pm & ((_ & _ & Hlife) & _) & _) & Hex).
  unfold lifecycle_admissible in Hlife.
  cbn [batch_request build_request vr_existing vr_require_absent vr_list_id] in Hlife.
  rewrite Hex in Hlife. destruct Hlife as [Hid Hlife].
  destruct (get (ld_id d) (commit_store i s)) as [e|] eqn:Hg; [by destruct Hlife|].
  split_and!; [done|done| |exact Hc]. destruct Hc as [Hl _].
  eexists. split; [exact Hl|]. split; [|apply make_list_describes].
  destruct Hpol as (H1 & H2 & H3 & _). destruct (H1 s Hinv) as [Hi1 _].
  destruct (H2 _ Hi1) as [Hi2 _]. destruct (H3 _ Hi2) as [Hi3 _].
  rewrite (get_find _ (commit_store i s)) in Hg by apply Hi3. by rewrite Hg.
Qed.

(** C12: Creation.  An acknowledged creation found no list under the identifier and left
    an active, current one at the first generation, with the draft's canonical segments
    and digests over them; the lineage it supersedes is superseded by it at the
    generation the draft names, and every other lineage is untouched. *)
Theorem create_list_spec i caller d s o' s' :
  polite i -> store_inv s -> create_list i caller d s = (o', s') ->
  mo_status o' = StOk -> mo_idempotent_replay o' = false ->
  get (ld_id d) (commit_store i s) = None /\ ld_id d <> 0 /\
  (exists l, get (ld_id d) s' = Some l /\ sl_generation l = 1 /\
     describes caller d (at_epoch (st_authority (commit_store i s))) l) /\
  draft_committed i caller d s s'.
Proof. apply create_committed. Qed.

(** C13: Replacement.  An acknowledged replacement found the list at exactly the
    generation the caller expected, in a state that may be replaced, and left the draft's
    list at the next generation, which names the one it replaced. *)
Theorem replace_list_spec i caller d s o' s' :
  polite i -> store_inv s -> replace_list i caller d s = (o', s') ->
  mo_status o' = StOk -> mo_idempotent_replay o' = false ->
  exists old l,
    get (ld_id d) (commit_store i s) = Some old /\
    sl_generation old = ld_expected_generation d /\ sl_generation old <> 0 /\
    allowed (lifecycle_transition (sl_state old) ReplaceBegin) = true /\
    get (ld_id d) s' = Some l /\
    sl_generation l = u64 (sl_generation old + 1) /\
    ln_supersedes (sl_lineage l) = sl_generation old /\
    describes caller d (at_epoch (st_authority (commit_store i s))) l /\
    draft_committed i caller d s s'.
Proof.
  intros Hpol Hinv Hrun Hok Hfresh. unfold replace_list in Hrun.
  destruct (single_committed _ _ _ _ _ _ _ _ _ Hpol Hinv Hrun Hok Hfresh) as
    (Hc & (pm & ((_ & _ & Hlife) & _) & _) & Hex).
  unfold lifecycle_admissible in Hlife.
  cbn [batch_request build_request vr_existing vr_expected_generation vr_intent
    vr_require_existing vr_list_id] in Hlife.
  rewrite Hex in Hlife. destruct Hlife as [Hid Hlife].
  destruct (get (ld_id d) (commit_store i s)) as [old|] eqn:Hg; [|by destruct Hlife].
  destruct Hlife as (_ & Heq & Hz & _ & Hal).
  pose proof Hc as [Hl _]. exists old. eexists. split_and!; try done; try exact Hl;
    try exact Hc; [| |apply make_list_describes];
    destruct Hpol as (H1 & H2 & H3 & _); destruct (H1 s Hinv) as [Hi1 _];
    destruct (H2 _ Hi1) as [Hi2 _]; destruct (H3 _ Hi2) as [Hi3 _];
    rewrite (get_find _ (commit_store i s)) in Hg by apply Hi3; by rewrite Hg.
Qed.

(** *** Transitions *)

(** Where the events of the public transitions lead. *)
Definition event_target (e : LifecycleEvent) : option LifecycleState :=
  match e with
  | WithdrawBegin => Some Withdrawing
  | WithdrawCommit => Some Withdrawn
  | Revoke => Some Revoked
  | Retire => Some Retired
  | _ => None
  end.

Lemma advance_target state e t state' :
  event_target e = Some t -> advance_state state e = Some state' -> state' = t /\ dormant t = true.
Proof.
  intros Ht Ha. destruct e; cbn in Ht; simplify_eq; destruct state; vm_compute in Ha;
    simplify_eq; done.
Qed.

(** C14: Transitions.  A transition that is not acknowledged changes nothing.  An
    acknowledged one found its target at exactly the expected generation, moved its state
    by one lifecycle event and nothing else of its content, left every other lineage
    alone, advanced the revision and made the result durable; a withdrawal, revocation or
    retirement ends in its own state, from which nothing is ever active again. *)
Theorem transition_spec i caller id expected event s o' s' :
  polite i -> store_inv s -> transition i caller id expected event s = (o', s') ->
  (mo_status o' <> StOk -> untouched i s s') /\
  (mo_status o' = StOk -> exists target l state,
     get id (commit_store i s) = Some target /\
     sl_generation target = expected /\ expected <> 0 /\
     advance_state (sl_state target) event = Some state /\
     (forall t, event_target event = Some t -> state = t /\ dormant state = true) /\
     get id s' = Some l /\ sl_state l = state /\
     sl_generation l = expected /\ same_content target l /\
     (forall id', id' <> id -> get id' s' = get id' (commit_store i s)) /\
     ds_revision (st_state s') = u64 (ds_revision (st_state (commit_store i s)) + 1) /\
     (st_persistence s' <> None -> image s' = Some (encoding s' (st_state s')))).
Proof.
  intros Hpol Hinv Hrun.
  apply (transition_cases _ _ _ _ _ _ _ _ Hpol Hinv) in Hrun as
    [[Hs Hu]|(Hs & (existing & _ & _ & Hne & _ & _ & Hc & (Hl & _) & _) & (Hix' & _))].
  { by split. }
  split; [done|]. intros _. fold (commit_store i s) in Hc, Hl. set (sk := commit_store i s) in *.
  destruct Hpol as (H1 & H2 & H3 & _). destruct (H1 s Hinv) as [Hi1 _].
  destruct (H2 _ Hi1) as [Hi2 _]. destruct (H3 _ Hi2) as [[Hik _] _].
  fold (captured_store i s) in Hik. fold (commit_store i s) in Hik. fold sk in Hik.
  destruct Hc as (target & state & Hf & Hg & Hadv & Hrev & Hlists & _ & Hnone & Himg).
  cbn [transition_draft ld_id ld_expected_generation] in *.
  pose proof (find_key_Some _ _ _ _ Hf) as [_ Hid].
  exists target. eexists. exists state.
  assert (forall k, get k s' = find_in_state k (st_state s')) as Hget' by (intros; by apply get_find).
  assert (forall k, get k sk = find_in_state k (st_state sk)) as Hgetk by (intros; by apply get_find).
  unfold find_in_state in Hget'. rewrite Hlists in Hget'.
  split_and!.
  - by rewrite Hgetk.
  - done.
  - done.
  - done.
  - intros t Ht. by destruct (advance_target _ _ _ _ Ht Hadv) as [-> ?].
  - rewrite Hget', find_update_key_eq by done.
    unfold find_in_state in Hf. rewrite Hf. reflexivity.
  - done.
  - done.
  - by split_and!.
  - intros k Hk. rewrite Hget', Hgetk. apply find_update_key_ne; [done|congruence].
  - done.
  - intros Hp. unfold encoding. rewrite Hl. apply Himg. intros Hnk. rewrite Hnk in Hnone.
    by destruct (st_persistence s').
Qed.

(** *** Capacity *)

Lemma check_capacity_lists pms s o :
  check_capacity pms s o = None ->
  size (ds_lists (st_state s)) + size (new_mutations pms) <= max_lists (st_limits s).
Proof.
  unfold check_capacity. intros Hc.
  destruct (Z.ltb_spec (max_lists (st_limits s))
    (size (ds_lists (st_state s)) + size (new_mutations pms))); [done|lia].
Qed.


(** *** Availability *)

(** The backend, if there is one, accepts the write of a state. *)
Definition accepts (next : DurableState) s : Prop :=
  forall p out, st_persistence s = Some p -> result_ok out = true ->
    (p_save next (st_limits s) (set_limits (Some (st_limits s)) out) p).1.1 = true.

(** The context a request captures when nothing runs in between. *)
Definition context s : PreparedContext :=
  capture s (observed_watermark s) (observed_evidence s).

(** What a creation needs. *)
Definition may_create caller (d : ListDraft) s : Prop :=
  1 <= max_batch_size (st_limits s) /\
  evidence_records (observed_evidence s) <= max_evidence_records (st_limits s) /\
  find_attempt (ci_attempt caller) (st_state s) = None /\
  size (ds_attempts (st_state s)) < max_attempt_records (st_limits s) /\
  admissible (batch_request caller d ValidateBegin false true (context s) (resolve s d)) /\
  supersession_admissible d (resolve s d) /\
  size (ds_lists (st_state s)) < max_lists (st_limits s) /\
  u64 (total_segments_of (ds_lists (st_state s)) + size (ld_segments d)) <=
    max_total_segments (st_limits s).

(** The mutation a creation prepares, and the states it may write. *)
Definition creation caller (d : ListDraft) s : PreparedMutation :=
  {| pm_id := ld_id d; pm_existing_generation := None;
     pm_superseded_id := ld_supersedes d;
     pm_superseded_generation := sl_generation <$> rs_superseded (resolve s d);
     pm_list := make_list caller d (context s) (resolve s d) None (cx_epoch (context s))
                  (u64 (cx_store_revision (context s) + 1)) |}.

Definition creation_accepted caller (d : ListDraft) s : Prop :=
  forall next,
    committed_state caller (batch_payload_digest [d]) (context s) [creation caller d s] s next ->
    accepts next s.

Lemma canonicalize_segments_size ss : size (canonicalize_segments ss) = size ss.
Proof. unfold canonicalize_segments, size. by rewrite length_map. Qed.

Lemma prepare_creation caller d s :
  0 < max_reasons (st_limits s) ->
  admissible (batch_request caller d ValidateBegin false true (context s) (resolve s d)) ->
  supersession_admissible d (resolve s d) ->
  rs_existing (resolve s d) = None /\
  prepare_one caller ValidateBegin false true (context s) (d, resolve s d) =
    inl (creation caller d s).
Proof.
  intros Hcap Had Hsup.
  assert (rs_existing (resolve s d) = None) as Hnone.
  { destruct Had as ((_ & _ & (_ & Hlife)) & _).
    cbn [batch_request build_request vr_existing vr_require_absent] in Hlife.
    destruct (rs_existing (resolve s d)); [by destruct Hlife|done]. }
  split; [done|]. unfold prepare_one. cbv zeta.
  change {| (build_request caller d ValidateBegin true (context s) (resolve s d)) with
    vr_require_existing := false; vr_require_absent := true |}
    with (batch_request caller d ValidateBegin false true (context s) (resolve s d)).
  assert (prepare_reports d (resolve s d) = []) as ->.
  { apply prepare_reports_nil. split; [|done]. intros e He. congruence. }
  cbn [emit fold_left]. apply validate_request_ok in Had; [|exact Hcap].
  unfold failed. rewrite Had, Hnone. done.
Qed.

Lemma persist_accepts next out s :
  accepts next s -> result_ok out = true -> (persist_locked next out s).1.1 = true.
Proof.
  intros Hacc Hout. unfold persist_locked. destruct (st_persistence s) as [p|] eqn:Hp; [|done].
  specialize (Hacc p out Hp Hout).
  destruct (p_save _ _ _ _) as [[saved r] p']. cbn in Hacc. by rewrite Hacc.
Qed.

Lemma commit_batch_succeeds caller payload ctx pms s o next :
  store_inv s ->
  accepts {| (with_dependencies s next) with ds_epoch := cx_epoch ctx |} s ->
  result_ok (verify_batch ctx pms s) = true -> check_capacity pms s o = None ->
  commit_all (st_limits s) (ci_attempt caller) payload pms
    {| (st_state s) with ds_revision := u64 (ds_revision (st_state s) + 1) |} = inl next ->
  NoDup (keys sl_id (ds_lists next)) ->
  let o' := (commit_batch caller payload ctx pms s o).1 in
  mo_status o' = StOk /\ mo_idempotent_replay o' = mo_idempotent_replay o /\
  mo_durable o' = negb (is_none (st_persistence s)).
Proof.
  intros Hinv Hacc Hver Hroom Hall Hn. unfold commit_batch, failed.
  rewrite Hver, Hroom. cbn [take_snapshot_id st_limits st_state negb]. rewrite Hall.
  match goal with |- context [persist_locked ?n ?v ?t] => set (final := n); set (s1 := t) end.
  pose proof (persist_accepts final (verify_batch ctx pms s) s1 Hacc Hver) as Hp.
  destruct (persist_locked final _ s1) as [[saved r] s2] eqn:Hpl. cbn in Hp. subst saved.
  apply persist_locked_spec in Hpl as (_ & _ & _ & _ & Hnone & _).
  cbn [negb]. rewrite index_ok_consistent by (by apply install_index_ok). cbn [negb fst].
  unfold committed_outcome. change (st_persistence (install final s2)) with (st_persistence s2).
  rewrite Hnone. by destruct (find_locked _ _) as [[]|].
Qed.

Lemma commit_creation limits attempt payload pm d0 :
  pm_ok pm -> NoDup (keys sl_id (ds_lists d0)) ->
  (pm_superseded_generation pm <> None -> forall other,
     find_in_state (pm_superseded_id pm) d0 = Some other ->
     allowed (lifecycle_transition (sl_state other) SupersedeBegin) = true) ->
  exists next, commit_all limits attempt payload [pm] d0 = inl next /\
    NoDup (keys sl_id (ds_lists next)).
Proof.
  intros Hpm Hn Hsup. cbn [commit_all].
  assert (exists d1, supersede_in limits pm d0 = Some d1) as [d1 Hd1].
  { unfold supersede_in. destruct (pm_superseded_generation pm); [|by eexists].
    destruct (find_in_state _ _) as [other|] eqn:Hf; [|by eexists].
    unfold advance_state. rewrite (Hsup ltac:(done) other eq_refl). by eexists. }
  destruct (commit_one limits attempt payload pm d0) as [next|] eqn:Hc.
  - exists next. split; [done|]. destruct (commit_one_spec _ _ _ _ _ _ Hpm Hc) as (_ & Hk & _).
    by apply Hk.
  - unfold commit_one in Hc. by rewrite Hd1 in Hc.
Qed.

Lemma creation_verified caller d s :
  store_inv s -> rs_existing (resolve s d) = None ->
  result_ok (verify_batch (context s) [creation caller d s] s) = true.
Proof.
  intros (Hi & _ & Hcap) Hnone. apply verify_batch_spec; [done|]. split_and!; try done.
  - intros e Hev. unfold context, capture, observed_watermark. cbn. by rewrite Hev.
  - apply list.Forall_singleton. unfold verify_mutation, creation.
    cbn [pm_existing_generation pm_id pm_superseded_generation pm_superseded_id].
    cbn [resolve rs_existing rs_superseded] in Hnone |- *.
    destruct (find_locked (ld_id d) s); [done|]. cbn [is_none negb report app].
    destruct (valid (ld_supersedes d)); [|done].
    destruct (find_locked (ld_supersedes d) s) as [[j other]|]; [|done].
    cbn. by rewrite Z.eqb_refl.
Qed.

Lemma creation_room caller d s o :
  size (ds_lists (st_state s)) < max_lists (st_limits s) ->
  u64 (total_segments_of (ds_lists (st_state s)) + size (ld_segments d)) <=
    max_total_segments (st_limits s) ->
  check_capacity [creation caller d s] s o = None.
Proof.
  intros Hl Ht. unfold check_capacity.
  change (new_mutations [creation caller d s]) with [creation caller d s].
  change (total_segments_of (map pm_list [creation caller d s]))
    with (0 + size (canonicalize_segments (ld_segments d))).
  rewrite canonicalize_segments_size, Z.add_0_l.
  change (size [creation caller d s]) with 1.
  destruct (Z.ltb_spec (max_lists (st_limits s)) (size (ds_lists (st_state s)) + 1)); [lia|].
  destruct (Z.ltb_spec (max_total_segments (st_limits s))
    (u64 (total_segments_of (ds_lists (st_state s)) + size (ld_segments d)))); [lia|done].
Qed.

(** C15: Availability.  A creation that is admissible, within the capacities and under a
    fresh attempt, is acknowledged when nothing interferes and the backend accepts the
    write. *)
Theorem create_list_succeeds caller d s :
  store_inv s -> may_create caller d s -> creation_accepted caller d s ->
  let o' := (create_list undisturbed caller d s).1 in
  mo_status o' = StOk /\ mo_idempotent_replay o' = false /\
  mo_durable o' = negb (is_none (st_persistence s)).
Proof.
  intros Hinv (Hb & He & Hf & Ha & Had & Hsup & Hl & Ht) Hacc.
  pose proof Hinv as (Hi & (Hn & _) & Hcap).
  destruct (prepare_creation caller d s Hcap Had Hsup) as [Hnone Hprep].
  unfold creation_accepted in Hacc. set (pm := creation caller d s) in *.
  unfold create_list, run_batch. cbn [undisturbed if_reading if_capture if_commit].
  set (o := {| (new_outcome _) with mo_list := _ |}).
  rewrite (proj2 (check_batch_none _ _ o)) by (split; [done|unfold size; cbn; lia]).
  destruct (Z.ltb_spec (max_evidence_records (st_limits s))
    (evidence_records (observed_evidence s))); [lia|].
  assert (check_attempt caller (batch_payload_digest [d]) [d] s o = None) as ->.
  { unfold check_attempt, attempt_table_accepts. rewrite Hf.
    assert (size (ds_attempts (st_state s)) <? max_attempt_records (st_limits s) = true) as ->
      by lia. rewrite orb_true_r. by destruct (valid _). }
  fold (context s). cbn [map]. rewrite Hprep.
  assert (pm_ok pm) as Hpm by done.
  assert (forall id l, snd <$> find_locked id s = Some l -> find_in_state id (st_state s) = Some l)
    as Hfind by (intros id l; by rewrite find_locked_find).
  pose proof (creation_verified caller d s Hinv Hnone) as Hver.
  pose proof (creation_room caller d s o Hl Ht) as Hroom.
  destruct (commit_creation (st_limits s) (ci_attempt caller) (batch_payload_digest [d]) pm
    {| (st_state s) with ds_revision := u64 (ds_revision (st_state s) + 1) |} Hpm Hn) as
    (next & Hall & Hnn).
  { cbn [pm_superseded_generation pm_superseded_id pm creation resolve rs_superseded].
    unfold supersession_admissible in Hsup. cbn [resolve rs_superseded] in Hsup.
    destruct (valid (ld_supersedes d)) eqn:Hv; [|done]. apply valid_true in Hv.
    intros _ other Ho. destruct (Hsup Hv) as (other' & Ho' & _ & Hal).
    apply Hfind in Ho'. unfold find_in_state in *. cbn [ds_lists] in Ho. congruence. }
  apply (commit_batch_succeeds _ _ _ _ _ o next Hinv); try done.
  apply Hacc. by exists next.
Qed.
End Operations.
