(* ===== verification/Recovery.v ===== *)
(** * Refresh and recovery

    What [refresh_currentness] leaves of availability, and what [load] rebuilds after a
    restart: nothing available, a later epoch, every recovered publisher dead and its boot
    fenced. *)

From S2P Require Import Prelude.
From S2P Require Import Ids.
From S2P Require Import Bytes.
From S2P Require Import Digest.
From S2P Require Import Segment.
From S2P Require Import Reason.
From S2P Require Import Lifecycle.
From S2P Require Import Governance.
From S2P Require Import Authority.
From S2P Require Import Registries.
From S2P Require Import Evidence.
From S2P Require Import Validation.
From S2P Require Import ValidationProps.
From S2P Require Import Persistence.
From S2P Require Import PersistenceProps.
From S2P Require Import Store.
From S2P Require Import StoreProps.
From S2P Require Import Evolution.
From S2P Require Import StoreTheorems.

(** ** Refresh *)

(** What the refresh does to one list. *)
Definition refreshed (f : SegmentList -> Currentness) (l : SegmentList) : SegmentList :=
  if refresh_skips (sl_state l) then l else refresh_list (f l) l.

Lemma refresh_unchanged f lists :
  (refresh_all f lists).1.2 = false -> map (refreshed f) lists = lists.
Proof.
  unfold refresh_all.
  assert (forall acc, (fold_left (fun acc l => refresh_one f l acc) lists acc).1.2 = false ->
    acc.1.2 = false /\ map (refreshed f) lists = lists) as Hf;
    [|intros H0; by destruct (Hf _ H0)].
  induction lists as [|l lists IH]; intros [[kept changed] report] Hc; [done|].
  cbn [fold_left map] in *. apply IH in Hc as [Hc Hl]. rewrite Hl. unfold refresh_one in Hc.
  unfold refreshed. destruct (refresh_skips (sl_state l)); [done|].
  cbn [fst snd] in *. apply orb_false_iff in Hc as [Hc Hd]. apply orb_false_iff in Hc as [Hc Hm].
  apply negb_false_iff, currentness_eqb_eq in Hm. split; [done|]. f_equal.
  unfold refresh_list. rewrite Hd, Hm. by destruct l.
Qed.

Lemma refreshed_id f l : sl_id (refreshed f l) = sl_id l.
Proof. unfold refreshed. by destruct (refresh_skips _). Qed.

Lemma find_key_map {A} (key : A -> Z) (f : A -> A) k l :
  (forall x, key (f x) = key x) -> find_key key k (map f l) = f <$> find_key key k l.
Proof.
  intros Hf. induction l as [|x l IH]; cbn; [done|]. rewrite Hf. by destruct (key x =? k).
Qed.

(** ** Recovery *)

Lemma recover_list_id l : sl_id (recover_list l) = sl_id l.
Proof. done. Qed.

(** Recovery makes nothing available and forgets no terminal state. *)
Lemma recover_list_spec l :
  let l' := recover_list l in
  sl_state l' <> Active /\ sl_currentness l' <> Current /\
  sl_generation l' = sl_generation l /\ same_content l l' /\
  (lifecycle_is_terminal_for_activation (sl_state l) = true -> sl_state l' = sl_state l) /\
  (dormant (sl_state l) = true -> dormant (sl_state l') = true).
Proof.
  unfold recover_list, same_content. cbn.
  destruct (sl_state l); vm_compute; split_and!; congruence.
Qed.

(** *** The restored authority *)

Definition dead (p : PublisherState) : Prop := ps_alive p = false /\ ps_fenced p = true.

Lemma restore_dead_spec p t :
  let t' := restore_dead p t in
  at_epoch t' = at_epoch t /\
  at_publishers t' = put_key ps_id (AuthorityTable.kill p) (at_publishers t) /\
  (forall b, b ∈ at_fenced_boots t' <->
     b ∈ at_fenced_boots t \/ (b = ps_boot p /\ b <> 0)).
Proof.
  unfold restore_dead. cbv zeta. destruct (valid (ps_boot p)) eqn:Hv.
  - apply valid_true in Hv. split_and!; try done. intros b.
    cbn [AuthorityTable.restore_fenced_boot at_fenced_boots]. rewrite elem_of_push_unique.
    cbn. split; [intros [?| ->]|intros [?|[-> ?]]]; auto.
  - apply valid_false in Hv. split_and!; try done. intros b. split; [by left|].
    intros [?|[-> ?]]; done.
Qed.

Lemma restore_dead_keeps id ps t :
  is_Some (find_key ps_id id (at_publishers t)) ->
  is_Some (find_key ps_id id (at_publishers (fold_left (fun t p => restore_dead p t) ps t))).
Proof.
  revert t. induction ps as [|p ps IH]; intros t Hs; [done|]. cbn [fold_left]. apply IH.
  destruct (restore_dead_spec p t) as (_ & -> & _).
  destruct (decide (ps_id p = id)) as [<-|Hne].
  - eexists. apply (find_put_key_eq ps_id (AuthorityTable.kill p)).
  - by rewrite (find_put_key_ne ps_id (AuthorityTable.kill p)).
Qed.

Lemma restore_dead_fold ps t :
  let t' := fold_left (fun t p => restore_dead p t) ps t in
  at_epoch t' = at_epoch t /\
  (forall id, id ∈ map ps_id ps -> exists p, find_key ps_id id (at_publishers t') = Some p /\ dead p) /\
  (forall id p, id ∉ map ps_id ps -> find_key ps_id id (at_publishers t') = Some p ->
     find_key ps_id id (at_publishers t) = Some p) /\
  (forall b, b ∈ at_fenced_boots t' <->
     b ∈ at_fenced_boots t \/ (b ∈ map ps_boot ps /\ b <> 0)).
Proof.
  cbv zeta. revert t. induction ps as [|p ps IH]; intros t; cbn [fold_left map].
  - split_and!; try done.
    + by intros id ?%not_elem_of_nil.
    + intros b. split; [by left|]. by intros [?|[?%not_elem_of_nil _]].
  - destruct (restore_dead_spec p t) as (He & Hp & Hb). destruct (IH (restore_dead p t)) as (He' & Hd & Ho & Hb').
    split_and!; [congruence| | |].
    + intros id Hid. destruct (decide (id ∈ map ps_id ps)) as [Hin|Hin]; [by apply Hd|].
      apply elem_of_cons in Hid as [->|?]; [|done].
      destruct (find_key ps_id (ps_id p) (at_publishers (fold_left _ ps (restore_dead p t)))) as [q|] eqn:Hq.
      * exists q. split; [done|]. apply Ho in Hq; [|done]. rewrite Hp in Hq.
        rewrite (find_put_key_eq ps_id (AuthorityTable.kill p)) in Hq. by injection Hq as <-.
      * exfalso. assert (is_Some (find_key ps_id (ps_id p)
          (at_publishers (fold_left (fun t p => restore_dead p t) ps (restore_dead p t))))) as [? ?];
          [|congruence].
        apply restore_dead_keeps. rewrite Hp. exists (AuthorityTable.kill p).
        apply (find_put_key_eq ps_id (AuthorityTable.kill p)).
    + intros id q Hid Hq. apply not_elem_of_cons in Hid as [Hne Hid]. apply Ho in Hq; [|done].
      rewrite Hp, (find_put_key_ne ps_id (AuthorityTable.kill p)) in Hq; [done|]. by cbn.
    + intros b. rewrite Hb', Hb, elem_of_cons. tauto.
Qed.

Lemma restore_authority_spec d t :
  let t' := restore_authority d t in
  at_epoch t' = at_epoch t /\
  (forall id, id ∈ map ps_id (ds_publishers d) ->
     exists p, AuthorityTable.find id t' = Some p /\ dead p) /\
  (forall b, b ∈ at_fenced_boots t' <->
     b ∈ at_fenced_boots t \/ (b ∈ map ps_boot (ds_publishers d) /\ b <> 0) \/
     b ∈ ds_fenced_boots d).
Proof.
  cbv zeta. unfold restore_authority.
  destruct (restore_dead_fold (ds_publishers d) t) as (He & Hd & _ & Hb).
  set (t1 := fold_left _ _ t) in *.
  assert (forall bs u, at_epoch (fold_left (fun t b => AuthorityTable.restore_fenced_boot b t) bs u)
      = at_epoch u /\
    at_publishers (fold_left (fun t b => AuthorityTable.restore_fenced_boot b t) bs u)
      = at_publishers u /\
    forall b, b ∈ at_fenced_boots (fold_left (fun t b => AuthorityTable.restore_fenced_boot b t) bs u)
      <-> b ∈ at_fenced_boots u \/ b ∈ bs) as Hf.
  { induction bs as [|b bs IH]; intros u; cbn [fold_left].
    - split_and!; try done. intros b. split; [by left|]. by intros [?|?%not_elem_of_nil].
    - destruct (IH (AuthorityTable.restore_fenced_boot b u)) as (-> & -> & Hbs).
      split_and!; try done. intros b'. rewrite Hbs.
      cbn [AuthorityTable.restore_fenced_boot at_fenced_boots].
      rewrite elem_of_push_unique, elem_of_cons. tauto. }
  destruct (Hf (ds_fenced_boots d) t1) as (-> & Hp & Hb').
  split_and!; [done| |].
  - intros id Hid. unfold AuthorityTable.find. rewrite Hp. by apply Hd.
  - intros b. rewrite Hb', Hb. tauto.
Qed.

Section Recovery.
Context {E P : Type} `{EvidenceSource E} `{!IPersistence P} `{!PersistenceLaws P}.
Implicit Types (s : SegmentListStore E P).

(** The state a refresh writes. *)
Definition refreshed_state f (t : SegmentListStore E P) : DurableState :=
  {| (st_state t) with ds_lists := map (refreshed f) (ds_lists (st_state t));
                       ds_revision := u64 (ds_revision (st_state t) + 1) |}.

Lemma refresh_lists i s :
  let t := if_capture i s in
  let f := refreshed_currentness (st_registry t) (st_authority t)
             (ev_snapshot <$> st_evidence s) (at_epoch (st_authority s)) in
  accepts (refreshed_state f t) t ->
  lists (refresh_currentness i s).2 = map (refreshed f) (lists t).
Proof.
  cbv zeta. intros Hacc. unfold refresh_currentness, lists. cbv zeta.
  set (f := refreshed_currentness _ _ _ _) in *.
  pose proof (refresh_all_lists f (ds_lists (st_state (if_capture i s)))) as Hr.
  pose proof (refresh_unchanged f (ds_lists (st_state (if_capture i s)))) as Hu.
  destruct (refresh_all _ _) as [[lists changed] report]. cbn [fst snd] in *.
  destruct changed; cbn [negb]; [|by rewrite Hu]. unfold refreshed_state, refreshed in Hacc.
  rewrite <-Hr in Hacc.
  match goal with |- context [persist_locked ?n ?v ?t] =>
    pose proof (persist_accepts n v t Hacc eq_refl) as Hp;
    destruct (persist_locked n v t) as [[saved r] s2] end.
  cbn in Hp. subst saved. exact Hr.
Qed.


(** *** Loading *)

Lemma recovery_base_above d e : e <= recovery_base d e /\ (d <> 0 -> d <= recovery_base d e).
Proof.
  unfold recovery_base. destruct (valid d) eqn:Hv.
  - destruct (Z.ltb_spec d e); lia.
  - apply valid_false in Hv. unfold Generation.initial. destruct (Z.ltb_spec 1 e); lia.
Qed.

(** What a load that recovered something has done. *)
Definition recovered (d : DurableState) s s' : Prop :=
  let base := recovery_base (ds_epoch d) (at_epoch (st_authority s)) in
  st_limits s' = st_limits s /\
  ds_lists (st_state s') = map recover_list (ds_lists d) /\
  ds_history (st_state s') = ds_history d /\ ds_attempts (st_state s') = ds_attempts d /\
  st_index s' = build_index (ds_lists (st_state s')) /\
  Generation.next base = Some (at_epoch (st_authority s')) /\
  ds_epoch (st_state s') = at_epoch (st_authority s') /\
  exists t, st_authority s' = restore_authority d t.

Lemma recovery_base_valid d e : fits 64 d -> fits 64 e -> valid (recovery_base d e) = true /\
  fits 64 (recovery_base d e).
Proof.
  unfold recovery_base, Generation.initial, fits. intros Hd He.
  destruct (valid d) eqn:Hv; [apply valid_true in Hv|];
    match goal with |- context [?a <? e] => destruct (Z.ltb_spec a e) end;
    rewrite valid_true; lia.
Qed.

(** A backend whose image decodes to [d]. *)
Definition holds_image (d : DurableState) s : Prop :=
  exists p out, st_persistence s = Some p /\ p_undisturbed p /\ p_image p <> [] /\
    decode_durable_state (p_image p) (st_limits s)
      (set_limits (Some (st_limits s)) empty_result) = (Some d, out).

Lemma load_recovered d s :
  holds_image d s -> fits 64 (ds_epoch d) -> fits 64 (at_epoch (st_authority s)) ->
  recovery_base (ds_epoch d) (at_epoch (st_authority s)) <> Generation.max_value ->
  let '(report, s') := load s in
  lr_loaded report = true /\ lr_state report = d /\ recovered d s s' /\
  lr_lists_recovered report = size (ds_lists d).
Proof.
  intros (p & out & Hp & Hun & Hne & Hdec) Hfd Hfe Hmax. unfold load. rewrite Hp.
  rewrite p_load_image by done. unfold load_bytes. cbn [lr_result empty_report].
  change (set_limits (Some (st_limits s)) (set_limits (Some (st_limits s)) empty_result))
    with (set_limits (Some (st_limits s)) empty_result).
  rewrite Hdec. cbn [negb lr_loaded lr_state].
  destruct (recovery_base_valid _ _ Hfd Hfe) as [Hbv Hbf].
  destruct (recovery_base_above (ds_epoch d) (at_epoch (st_authority s))) as [Hge _].
  set (base := recovery_base _ _) in *. unfold AuthorityTable.restore_epoch.
  rewrite Hbv. destruct (Z.ltb_spec base (at_epoch (st_authority s))); [lia|].
  cbn [negb orb]. unfold AuthorityTable.advance_epoch. cbn [at_epoch].
  destruct (Generation.next base) as [e|] eqn:He.
  2: { apply Generation.next_None in He; [|done]. unfold Generation.exhausted in He.
       by apply Z.eqb_eq in He. }
  cbn [negb]. set (next := recovered_state _ _). set (s1 := install next _).
  destruct (persist_locked next _ s1) as [[saved r] s2] eqn:Hpl.
  apply persist_locked_spec in Hpl as ((Hl & _ & Ha & _) & Hst & Hix & _).
  destruct (restore_authority_spec d {| (st_authority s) with at_epoch := e |}) as (Hep & _).
  assert (recovered d s s2) as Hrec.
  { unfold recovered. rewrite Hl, Hst, Hix, Ha. split_and!; try done.
    - fold base. rewrite He. f_equal. symmetry. exact Hep.
    - by eexists. }
  assert (size (ds_lists next) = size (ds_lists d)) as Hsz.
  { cbn. unfold size. by rewrite length_map. }
  destruct saved; cbn [lr_loaded lr_state lr_lists_recovered]; by split_and!.
Qed.

(** C18: Recovery.  Loading a durable state leaves no list active or current, forgets no
    terminal state, generation or content, keeps the history and the replay table, and
    starts an epoch later than the durable one and the live one; every recovered publisher
    is dead, and its boot and every fenced boot stay fenced. *)
Theorem load_recovers d s :
  holds_image d s -> fits 64 (ds_epoch d) -> fits 64 (at_epoch (st_authority s)) ->
  recovery_base (ds_epoch d) (at_epoch (st_authority s)) <> Generation.max_value ->
  NoDup (keys sl_id (ds_lists d)) ->
  let '(report, s') := load s in
  lr_loaded report = true /\ lr_lists_recovered report = list_count s' /\
  Forall (fun l => sl_state l <> Active /\ sl_currentness l <> Current) (lists s') /\
  (forall id l, find_in_state id d = Some l -> exists l', get id s' = Some l' /\
     sl_generation l' = sl_generation l /\ same_content l l' /\
     (lifecycle_is_terminal_for_activation (sl_state l) = true -> sl_state l' = sl_state l) /\
     (dormant (sl_state l) = true -> dormant (sl_state l') = true)) /\
  history s' = ds_history d /\ ds_attempts (st_state s') = ds_attempts d /\
  ds_epoch d < at_epoch (st_authority s') /\
  at_epoch (st_authority s) < at_epoch (st_authority s') /\
  (forall p, p ∈ ds_publishers d -> AuthorityTable.is_alive (ps_id p) (st_authority s') = false /\
     (ps_boot p <> 0 -> AuthorityTable.is_fenced (ps_boot p) (st_authority s') = true)) /\
  (forall b, b ∈ ds_fenced_boots d -> AuthorityTable.is_fenced b (st_authority s') = true).
Proof.
  intros Him Hfd Hfe Hmax Hn. pose proof (load_recovered d s Him Hfd Hfe Hmax) as Hload.
  destruct (load s) as [report s'].
  destruct Hload as (Hld & _ & (_ & Hl & Hh & Hat & Hix & He & _ & t & Hau) & Hcount).
  destruct (recovery_base_above (ds_epoch d) (at_epoch (st_authority s))) as [Hge Hged].
  destruct (recovery_base_valid _ _ Hfd Hfe) as [_ Hbf].
  apply Generation.next_Some in He as (He & _ & _); [|done].
  destruct (restore_authority_spec d t) as (_ & Hdead & Hfenced). rewrite <-Hau in *.
  assert (forall b, b ∈ at_fenced_boots (st_authority s') ->
    AuthorityTable.is_fenced b (st_authority s') = true) as Hzm by (intros b; apply zmem_spec).
  assert (index_ok s') as Hi.
  { split; [done|]. rewrite Hl. unfold keys. rewrite map_map.
    by rewrite (map_ext _ sl_id recover_list_id). }
  split_and!; try done.
  - unfold list_count. rewrite Hl, Hcount. unfold size. by rewrite length_map.
  - unfold lists. rewrite Hl. apply list.Forall_forall. intros l' Hl'.
    apply list_elem_of_fmap in Hl' as (l & -> & _). by destruct (recover_list_spec l) as (? & ? & _).
  - intros id l Hf. exists (recover_list l). rewrite get_find by done. unfold find_in_state in *.
    rewrite Hl, find_key_map, Hf by apply recover_list_id. split; [done|].
    destruct (recover_list_spec l) as (_ & _ & ? & ? & ? & ?). by split_and!.
  - unfold fits in Hfd. destruct (decide (ds_epoch d = 0)); [|lia]. unfold fits in Hbf. lia.
  - lia.
  - intros p Hp. split.
    + destruct (Hdead (ps_id p)) as (q & Hq & Ha & _); [by apply list_elem_of_fmap_2|].
      unfold AuthorityTable.is_alive. by rewrite Hq, Ha.
    + intros Hb. apply Hzm, Hfenced. right. left. split; [|done]. by apply list_elem_of_fmap_2.
  - intros b Hb. apply Hzm, Hfenced. auto.
Qed.

(** A load of an image that does not decode changes nothing and loads nothing. *)
Theorem load_refuses s p out :
  st_persistence s = Some p -> p_undisturbed p -> p_image p <> [] ->
  decode_durable_state (p_image p) (st_limits s)
    (set_limits (Some (st_limits s)) empty_result) = (None, out) ->
  load s = ({| empty_report with lr_result := out |}, s).
Proof.
  intros Hp Hun Hne Hdec. unfold load. rewrite Hp, p_load_image by done.
  unfold load_bytes. cbn [lr_result empty_report].
  change (set_limits (Some (st_limits s)) (set_limits (Some (st_limits s)) empty_result))
    with (set_limits (Some (st_limits s)) empty_result).
  rewrite Hdec. reflexivity.
Qed.

Lemma load_round_trip d p s :
  durable_storable (st_limits s) d -> counts_within (st_limits s) d ->
  image_storable (st_limits s) d ->
  st_persistence s = Some p -> p_undisturbed p ->
  p_image p = (encode_durable_state d (st_limits s) empty_result).1 -> holds_image d s.
Proof.
  intros Hd Hc Him Hp Hun Himg. rewrite encode_durable_frame in Himg by done. cbn [fst] in Himg.
  exists p. eexists. split_and!; [done|done| |].
  - by rewrite Himg.
  - rewrite Himg. by apply decode_durable_frame.
Qed.

End Recovery.
