(* ===== verification/Explain.v ===== *)
(** * Snapshot differences and explanations

    [include/srf/snapshot.hpp] and [src/explain.cpp]: the comparison of two snapshots and
    the explanations of a list, both presented within a bound that keeps the first entries
    and counts them all.  The explanations copy the list under the store's lock and read
    the evidence after it is released, so the evidence is an argument of theirs. *)

From Stdlib Require Import Sorting.Sorted.
From S2P Require Import Prelude.
From S2P Require Import Ids.
From S2P Require Import Bytes.
From S2P Require Import Digest.
From S2P Require Import Segment.
From S2P Require Import Reason.
From S2P Require Import Lifecycle.
From S2P Require Import Governance.
From S2P Require Import Authority.
From S2P Require Import Registries.
From S2P Require Import Evidence.
From S2P Require Import Validation.
From S2P Require Import Persistence.
From S2P Require Import Store.

(** ** Differences *)
Inductive DiffKind :=
  | DfInvalid | Insert | Remove | Replace | Reorder | ProfileChange | PolicyChange
  | DependencyChange | CurrentnessChange | LifecycleChange | GenerationAdvance
  | StrictnessChange | AuthorityChange | Created | Destroyed.

#[global] Instance DiffKind_eq_dec : EqDecision DiffKind.
Proof. solve_decision. Defined.

Definition diff_kind_name (kind : DiffKind) : string :=
  match kind with
  | DfInvalid => "Invalid" | Insert => "Insert" | Remove => "Remove" | Replace => "Replace"
  | Reorder => "Reorder" | ProfileChange => "ProfileChange" | PolicyChange => "PolicyChange"
  | DependencyChange => "DependencyChange" | CurrentnessChange => "CurrentnessChange"
  | LifecycleChange => "LifecycleChange" | GenerationAdvance => "GenerationAdvance"
  | StrictnessChange => "StrictnessChange" | AuthorityChange => "AuthorityChange"
  | Created => "Created" | Destroyed => "Destroyed"
  end%string.

Record DiffEntry := {
  df_kind : DiffKind;
  df_index : Z;
  df_other_index : Z;
  df_detail : Z;
}.

Record SnapshotDiff := {
  sd_from : SnapshotId;
  sd_to : SnapshotId;
  sd_list : SegmentListId;
  sd_entries : list DiffEntry;
  sd_total_entries : Z;
  sd_truncated : bool;
  sd_order_changed : bool;
}.

Definition sd_contains (kind : DiffKind) (d : SnapshotDiff) : bool :=
  existsb (fun e => bool_decide (df_kind e = kind)) (sd_entries d).

(** [SegmentListSnapshot::valid] *)
Definition snapshot_valid (s : SegmentListSnapshot) : bool := valid (ss_id s).

(** [SegmentList{}] *)
Definition empty_list : SegmentList := {|
  sl_content := {| c_id := 0; c_scope := 0; c_profile := 0; c_profile_generation := 0;
    c_policy := 0; c_policy_generation := 0; c_strictness := Strict; c_topology := 0;
    c_capability := 0; c_path := 0; c_path_authority := 0; c_route := 0;
    c_route_generation := 0; c_constraint := 0; c_constraint_generation := 0;
    c_segments := [] |};
  sl_generation := 0;
  sl_lineage := {| ln_supersedes := 0; ln_superseded_by := 0; ln_history := 0 |};
  sl_authority := {| au_publisher := 0; au_boot := 0; au_epoch := 0; au_attempt := 0 |};
  sl_provenance := {| pv_source_path := 0; pv_source_path_authority := 0; pv_source_route := 0;
    pv_source_route_generation := 0; pv_source_constraint := 0;
    pv_source_constraint_generation := 0; pv_derivation_policy := 0;
    pv_observed_topology := 0; pv_observed_capability := 0; pv_publisher := 0; pv_boot := 0;
    pv_epoch := 0 |};
  sl_state := Declared; sl_currentness := CUnknown;
  sl_content_digest := mkDigest 0 0; sl_sequence_digest := mkDigest 0 0;
  sl_committed_revision := 0;
|}.

Definition snapshot_list (s : SegmentListSnapshot) : SegmentList := default empty_list (ss_list s).

(** [if (b) add(kind, 0, 0, detail);] *)
Definition change (b : bool) (kind : DiffKind) (detail : Z) : list DiffEntry :=
  if b then [{| df_kind := kind; df_index := 0; df_other_index := 0; df_detail := detail |}]
  else [].

Definition authority_eqb (a b : SegmentListAuthority) : bool :=
  (au_publisher a =? au_publisher b) && (au_boot a =? au_boot b) &&
  (au_epoch a =? au_epoch b) && (au_attempt a =? au_attempt b).

(** The comparison of everything but the segments, in program order. *)
Definition field_changes (f t : SegmentList) : list DiffEntry :=
  let cf := sl_content f in
  let ct := sl_content t in
  change (negb (sl_generation t =? sl_generation f)) GenerationAdvance (sl_generation t) ++
  change (negb (state_eqb (sl_state f) (sl_state t))) LifecycleChange (state_value (sl_state t)) ++
  change (negb (currentness_eqb (sl_currentness f) (sl_currentness t))) CurrentnessChange
    (currentness_value (sl_currentness t)) ++
  change (negb (c_profile cf =? c_profile ct) ||
          negb (c_profile_generation cf =? c_profile_generation ct)) ProfileChange (c_profile ct) ++
  change (negb (c_policy cf =? c_policy ct) ||
          negb (c_policy_generation cf =? c_policy_generation ct)) PolicyChange (c_policy ct) ++
  change (negb (strictness_eqb (c_strictness cf) (c_strictness ct))) StrictnessChange
    (strictness_value (c_strictness ct)) ++
  change (negb (c_topology cf =? c_topology ct)) DependencyChange (c_topology ct) ++
  change (negb (c_capability cf =? c_capability ct)) DependencyChange (c_capability ct) ++
  change (negb (c_path_authority cf =? c_path_authority ct)) DependencyChange
    (c_path_authority ct) ++
  change (negb (c_route_generation cf =? c_route_generation ct)) DependencyChange
    (c_route_generation ct) ++
  change (negb (c_constraint_generation cf =? c_constraint_generation ct)) DependencyChange
    (c_constraint_generation ct) ++
  change (negb (authority_eqb (sl_authority f) (sl_authority t))) AuthorityChange
    (au_epoch (sl_authority t)).

(** The widest payload of either revision, at least one. *)
Definition compare_width (f t : SegmentList) : Z :=
  fold_left (fun w s => Z.max w (u32 (size (seg_payload s))))
    (c_segments (sl_content f) ++ c_segments (sl_content t)) 1.

Definition segment_digests (l : SegmentList) (payload_width : Z) : list Digest128 :=
  map (fun s => digest128 (canonical_segment_bytes s payload_width)) (c_segments (sl_content l)).

(** The order of digests, and the sorted copy of [std::sort]. *)
Definition digest_le (a b : Digest128) : Prop :=
  hi a < hi b \/ (hi a = hi b /\ lo a <= lo b).

#[global] Instance digest_le_dec : RelDecision digest_le.
Proof. unfold RelDecision, digest_le. intros. apply _. Defined.

Definition sort_digests (l : list Digest128) : list Digest128 := merge_sort digest_le l.

Definition entry_at (kind : DiffKind) (i : nat) (d : Digest128) : DiffEntry :=
  {| df_kind := kind; df_index := u32 (Z.of_nat i); df_other_index := u32 (Z.of_nat i);
     df_detail := lo d |}.

(** [for (i < common) if (before[i] != after[i]) add(kind, i, i, after[i].lo);] *)
Definition changed_positions (kind : DiffKind) (before after : list Digest128) : list DiffEntry :=
  flat_map (fun i =>
    match before !! i, after !! i with
    | Some a, Some b => if bool_decide (a = b) then [] else [entry_at kind i b]
    | _, _ => []
    end) (seq 0 (Nat.min (length before) (length after))).

(** [for (i = common; i < v.size(); ++i) add(kind, i, i, v[i].lo);] *)
Definition tail_positions (kind : DiffKind) (common : nat) (v : list Digest128) : list DiffEntry :=
  flat_map (fun i => match v !! i with Some d => [entry_at kind i d] | None => [] end)
    (seq common (length v - common)).

Definition same_multiset (before after : list Digest128) : bool :=
  bool_decide (sort_digests before = sort_digests after).

Definition order_changed (before after : list Digest128) : bool :=
  negb (bool_decide (before = after)) &&
  (same_multiset before after && (length before =? length after)%nat).

Definition segment_changes (before after : list Digest128) : list DiffEntry :=
  if bool_decide (before = after) then []
  else if order_changed before after then changed_positions Reorder before after
  else
    let common := Nat.min (length before) (length after) in
    changed_positions Replace before after ++ tail_positions Insert common after ++
    tail_positions Remove common before.

(** [add]: count the entry, keep it while there is room. *)
Definition add_entry (limit : Z) (d : SnapshotDiff) (e : DiffEntry) : SnapshotDiff :=
  let d := {| d with sd_total_entries := u32 (sd_total_entries d + 1) |} in
  if limit <=? size (sd_entries d) then {| d with sd_truncated := true |}
  else {| d with sd_entries := sd_entries d ++ [e] |}.

(** The complete comparison, in the order of the calls of [add]. *)
Definition comparison (from to : SegmentListSnapshot) : list DiffEntry * bool :=
  let f := snapshot_list from in
  let t := snapshot_list to in
  if negb (snapshot_valid from) && negb (snapshot_valid to) then ([], false)
  else if negb (snapshot_valid from) then (change true Created (sl_generation t), false)
  else if negb (snapshot_valid to) then (change true Destroyed (sl_generation f), false)
  else if negb (c_id (sl_content f) =? c_id (sl_content t)) then
    (change true Destroyed (c_id (sl_content f)) ++ change true Created (c_id (sl_content t)), false)
  else
    let width := compare_width f t in
    let before := segment_digests f width in
    let after := segment_digests t width in
    (field_changes f t ++ segment_changes before after, order_changed before after).

Definition diff (limits : Limits) (from to : SegmentListSnapshot) : SnapshotDiff :=
  let '(entries, reordered) := comparison from to in
  fold_left (add_entry (max_diff_entries limits)) entries {|
    sd_from := ss_id from; sd_to := ss_id to;
    sd_list := if snapshot_valid to then c_id (sl_content (snapshot_list to))
               else c_id (sl_content (snapshot_list from));
    sd_entries := []; sd_total_entries := 0; sd_truncated := false;
    sd_order_changed := reordered |}.

(** ** Explanations *)
Inductive ExplanationTopic :=
  | ToInvalid | WhyActive | WhyNotActive | WhySegmentInvalid | MissingCapability
  | StaleTopologyTopic | WhySuperseded | WhyRevalidationRequired | CurrentnessTopic | Lineage.

#[global] Instance ExplanationTopic_eq_dec : EqDecision ExplanationTopic.
Proof. solve_decision. Defined.

Definition explanation_topic_name (t : ExplanationTopic) : string :=
  match t with
  | ToInvalid => "Invalid" | WhyActive => "WhyActive" | WhyNotActive => "WhyNotActive"
  | WhySegmentInvalid => "WhySegmentInvalid" | MissingCapability => "MissingCapability"
  | StaleTopologyTopic => "StaleTopology" | WhySuperseded => "WhySuperseded"
  | WhyRevalidationRequired => "WhyRevalidationRequired" | CurrentnessTopic => "Currentness"
  | Lineage => "Lineage"
  end%string.

(** An entry has the fields of a reason. *)
Record Explanation := {
  ex_topic : ExplanationTopic;
  ex_list : SegmentListId;
  ex_generation : SegmentListGeneration;
  ex_state : LifecycleState;
  ex_currentness : Currentness;
  ex_entries : list Reason;
  ex_total_entries : Z;
  ex_truncated : bool;
}.

(** [Explanation{}] with its list and topic. *)
Definition new_explanation (topic : ExplanationTopic) (id : SegmentListId) : Explanation := {|
  ex_topic := topic; ex_list := id; ex_generation := 0; ex_state := SInvalid;
  ex_currentness := CUnknown; ex_entries := []; ex_total_entries := 0; ex_truncated := false;
|}.

Definition ex_contains (code : ReasonCode) (x : Explanation) : bool :=
  existsb (fun e => code_eqb (r_code e) code) (ex_entries x).

Definition push_entry (limits : Limits) (x : Explanation) (e : Reason) : Explanation :=
  let x := {| x with ex_total_entries := u32 (ex_total_entries x + 1) |} in
  if max_explanation_entries limits <=? size (ex_entries x) then {| x with ex_truncated := true |}
  else {| x with ex_entries := ex_entries x ++ [e] |}.

Definition push_entries (limits : Limits) (es : list Reason) (x : Explanation) : Explanation :=
  fold_left (push_entry limits) es x.

(** The state of the list the explanation is about. *)
Definition about (l : SegmentList) (x : Explanation) : Explanation :=
  {| x with ex_generation := sl_generation l; ex_state := sl_state l;
            ex_currentness := sl_currentness l |}.

Definition revalidation_needed (c : Currentness) : bool :=
  match c with Current | CUnknown => false | _ => true end.

(** [explain] *)
Definition explain_topic (l : SegmentList) : ExplanationTopic :=
  if state_eqb (sl_state l) Active && currentness_eqb (sl_currentness l) Current then WhyActive
  else if revalidation_needed (sl_currentness l) then WhyRevalidationRequired
  else WhyNotActive.

Definition explain_entries (l : SegmentList) : list Reason :=
  let topic := explain_topic l in
  [mkReason (if bool_decide (topic = WhyActive) then CurrentnessCurrent
             else currentness_reason (sl_currentness l)) 0 (sl_generation l)] ++
  report (negb (bool_decide (topic = WhyActive))) CurrentnessCurrent 0 (state_value (sl_state l)).

(** [explain_currentness] *)
Definition currentness_entries (l : SegmentList) : list Reason :=
  let c := sl_content l in
  [mkReason (currentness_reason (sl_currentness l)) 0 (sl_generation l)] ++
  report (valid (c_profile_generation c)) CurrentnessStaleProfile 0 (c_profile_generation c) ++
  report (valid (c_capability c)) CurrentnessStaleCapability 0 (c_capability c) ++
  report (valid (c_topology c)) CurrentnessStaleTopology 0 (c_topology c) ++
  report (valid (c_path_authority c)) CurrentnessStalePathAuthority 0 (c_path_authority c) ++
  report (valid (c_route_generation c)) CurrentnessStaleRouteBinding 0 (c_route_generation c) ++
  report (valid (c_constraint_generation c)) CurrentnessStaleConstraintBinding 0
    (c_constraint_generation c) ++
  [mkReason CurrentnessStaleEpoch 0 (au_epoch (sl_authority l))].

(** [explain_supersession] *)
Definition supersession_entries (id : SegmentListId) (l : SegmentList) : list Reason :=
  let ln := sl_lineage l in
  if state_eqb (sl_state l) Superseded then
    [mkReason ListSuperseded 0 (ln_superseded_by ln);
     mkReason CurrentnessCurrent 0 (ln_supersedes ln)]
  else if valid (ln_supersedes ln) then [mkReason ReasonOk 0 (ln_supersedes ln)]
  else [mkReason ListNotFound 0 id].

(** [explain_missing_capability]: one required capability. *)
Definition capability_entry (e : FabricEvidence) (key : CapabilityKey) : list Reason :=
  match find_capability e key with
  | None => [mkReason CapabilityMissing 0 key]
  | Some record =>
      if negb (cap_supported record) then [mkReason CapabilityUnsupported 0 key]
      else if negb (cap_generation record =? ev_capability e)
      then [mkReason CapabilityGenerationMismatch 0 (cap_generation record)]
      else []
  end.

(** [explain_stale_topology]: one adjacency segment. *)
Definition adjacency_entry (e : FabricEvidence) (index : Z) (s : Segment) : list Reason :=
  if negb (kind_eqb (seg_kind s) KAdjacency) then []
  else
    match find_adjacency e (seg_adjacency s) with
    | None => [mkReason TopologyAdjacencyUnknown index (seg_adjacency s)]
    | Some record =>
        if negb (ar_topology record =? seg_topology s)
        then [mkReason TopologyAdjacencyStale index (ar_topology record)]
        else [mkReason ReasonOk index (ar_topology record)]
    end.

Definition topology_entries (e : FabricEvidence) (l : SegmentList) : list Reason :=
  let c := sl_content l in
  let any := existsb (fun s => kind_eqb (seg_kind s) KAdjacency) (c_segments c) in
  for_each (adjacency_entry e) (c_segments c) ++
  report (valid (c_topology c) && valid (ev_topology e) && negb (c_topology c =? ev_topology e))
    TopologyGenerationMismatch 0 (ev_topology e) ++
  report (negb any && negb (valid (c_topology c))) ReasonOk 0 0.

(** The request [explain_segment] validates. *)
Definition segment_request (limits : Limits) (profile : option SegmentProfile)
    (evidence : option FabricEvidence) (l : SegmentList) : ValidationRequest :=
  let c := sl_content l in
  {| empty_request with
     vr_limits := Some limits; vr_list_id := c_id c; vr_scope := c_scope c;
     vr_profile := profile; vr_profile_found := negb (is_none profile);
     vr_profile_id := c_profile c; vr_segments := c_segments c; vr_evidence := evidence;
     vr_topology := c_topology c; vr_full := true |}.

Definition segment_entries (limits : Limits) (profile : option SegmentProfile)
    (evidence : option FabricEvidence) (l : SegmentList) (index : Z) : list Reason :=
  let found := List.filter (fun r => r_index r =? index)
    (reasons (validate_request (segment_request limits profile evidence l))) in
  match found with
  | [] => [mkReason ReasonOk index 0]
  | _ => found
  end.

Section Explanations.
Context {E P : Type} `{EvidenceSource E} `{IPersistence P}.
Implicit Types (s : SegmentListStore E P) (id : SegmentListId).

Definition find_list id s : option SegmentList := snd <$> find_locked id s.

(** The list, or the entry that it is not there. *)
Definition explaining (topic : ExplanationTopic) id s
    (k : SegmentList -> Explanation -> Explanation) : Explanation :=
  let x := new_explanation topic id in
  match find_list id s with
  | None => push_entry (st_limits s) x (mkReason ListNotFound 0 id)
  | Some l => k l (about l x)
  end.

Definition explain id s : Explanation :=
  explaining WhyNotActive id s (fun l x =>
    push_entries (st_limits s) (explain_entries l) {| x with ex_topic := explain_topic l |}).

Definition explain_segment id (index : Z) (evidence : option FabricEvidence) s : Explanation :=
  explaining WhySegmentInvalid id s (fun l x =>
    let n := size (c_segments (sl_content l)) in
    if n <=? index then push_entry (st_limits s) x (mkReason InvalidArgument index n)
    else
      push_entries (st_limits s)
        (segment_entries (st_limits s)
           (Registry.find_profile (c_profile (sl_content l)) (st_registry s)) evidence l index) x).

Definition explain_currentness id s : Explanation :=
  explaining CurrentnessTopic id s (fun l x =>
    push_entries (st_limits s) (currentness_entries l) x).

Definition explain_supersession id s : Explanation :=
  explaining WhySuperseded id s (fun l x =>
    push_entries (st_limits s) (supersession_entries id l) x).

Definition explain_missing_capability id (evidence : option FabricEvidence) s : Explanation :=
  explaining MissingCapability id s (fun l x =>
    match Registry.find_profile (c_profile (sl_content l)) (st_registry s) with
    | None => push_entry (st_limits s) x (mkReason ProfileUnknown 0 (c_profile (sl_content l)))
    | Some p =>
        let x := push_entries (st_limits s)
          (flat_map (capability_entry (default empty_evidence evidence))
             (pr_required_capabilities p)) x in
        if is_empty (ex_entries x)
        then push_entry (st_limits s) x (mkReason ReasonOk 0 (pr_id p)) else x
    end).

Definition explain_stale_topology id (evidence : option FabricEvidence) s : Explanation :=
  explaining StaleTopologyTopic id s (fun l x =>
    push_entries (st_limits s) (topology_entries (default empty_evidence evidence) l) x).
End Explanations.
