(* ===== verification/ExplainProps.v ===== *)
(** * Correctness of differences and explanations

    The bounded presentations keep the first entries and count them all; two revisions
    differ in no entry exactly when they agree on everything compared, and are flagged as
    reordered exactly when their segments are a proper permutation; an explanation of
    missing capabilities is clean exactly when none is missing. *)

From S2P Require Import Prelude.
From S2P Require Import Ids.
From S2P Require Import Bytes.
From S2P Require Import Digest.
From S2P Require Import Segment.
From S2P Require Import Reason.
From S2P Require Import Lifecycle.
From S2P Require Import Governance.
From S2P Require Import Authority.
From S2P Require Import Registries.
From S2P Require Import Evidence.
From S2P Require Import Validation.
From S2P Require Import ValidationProps.
From S2P Require Import Persistence.
From S2P Require Import Store.
From S2P Require Import Explain.

(** ** Bounded presentations *)

Section Bounded.
Context {S A : Type} (step : S -> A -> S) (limit : Z).
Context (kept : S -> list A) (total : S -> Z) (cut : S -> bool).
Hypothesis step_spec : forall s x,
  kept (step s x) = (if limit <=? size (kept s) then kept s else kept s ++ [x]) /\
  total (step s x) = u32 (total s + 1) /\
  cut (step s x) = (if limit <=? size (kept s) then true else cut s).

Lemma u32_succ t n : u32 (u32 (t + 1) + n) = u32 (t + (1 + n)).
Proof. unfold wrap. rewrite Zplus_mod_idemp_l. f_equal. lia. Qed.

(** A run of additions keeps a prefix, counts everything and says whether it cut. *)
Lemma bounded_fold xs s :
  0 <= total s < 2 ^ 32 ->
  kept (fold_left step xs s) = kept s ++ take (Z.to_nat (limit - size (kept s))) xs /\
  total (fold_left step xs s) = u32 (total s + size xs) /\
  cut (fold_left step xs s) = cut s || (Z.max 0 (limit - size (kept s)) <? size xs).
Proof.
  revert s. induction xs as [|x xs IH]; intros s Ht; cbn [fold_left].
  - rewrite take_nil, app_nil_r, size_nil, Z.add_0_r. split; [done|]. split.
    + symmetry. by apply wrap_small.
    + destruct (Z.ltb_spec (Z.max 0 (limit - size (kept s))) 0); [lia|]. by rewrite orb_false_r.
  - destruct (step_spec s x) as (Hk & Hn & Hc).
    destruct (IH (step s x)) as (-> & -> & ->).
    { rewrite Hn. apply wrap_fits. lia. }
    rewrite Hk, Hn, Hc, u32_succ, size_cons. pose proof (size_nonneg (kept s)).
    pose proof (size_nonneg xs). destruct (Z.leb_spec limit (size (kept s))) as [Hl|Hl].
    + replace (Z.to_nat (limit - size (kept s))) with O by lia. split; [done|]. split; [done|].
      rewrite orb_true_l. symmetry. apply orb_true_iff. right. apply Z.ltb_lt. lia.
    + rewrite size_snoc. split.
      * rewrite <-app_assoc. f_equal. replace (Z.to_nat (limit - size (kept s))) with
          (Datatypes.S (Z.to_nat (limit - (size (kept s) + 1)))) by lia. done.
      * split; [done|]. f_equal. destruct (Z.ltb_spec (Z.max 0 (limit - (size (kept s) + 1))) (size xs)),
          (Z.ltb_spec (Z.max 0 (limit - size (kept s))) (1 + size xs)); (lia || done).
Qed.
End Bounded.

Lemma add_entry_fold limit es d :
  0 <= sd_total_entries d < 2 ^ 32 -> sd_entries d = [] ->
  let d' := fold_left (add_entry limit) es d in
  sd_entries d' = take (Z.to_nat limit) es /\
  sd_total_entries d' = u32 (sd_total_entries d + size es) /\
  sd_truncated d' = sd_truncated d || (Z.max 0 limit <? size es).
Proof.
  intros Ht He.
  destruct (bounded_fold (add_entry limit) limit sd_entries sd_total_entries sd_truncated) with
    (xs := es) (s := d) as (H1 & H2 & H3); [|done|].
  - intros s x. unfold add_entry. cbn. by destruct (limit <=? size (sd_entries s)).
  - rewrite He, size_nil, Z.sub_0_r in *. done.
Qed.

(** The other fields are not touched. *)
Lemma add_entry_rest limit es d :
  let d' := fold_left (add_entry limit) es d in
  sd_from d' = sd_from d /\ sd_to d' = sd_to d /\ sd_list d' = sd_list d /\
  sd_order_changed d' = sd_order_changed d.
Proof.
  cbv zeta. revert d. induction es as [|e es IH]; intros d; cbn [fold_left]; [done|].
  destruct (IH (add_entry limit d e)) as (-> & -> & -> & ->). unfold add_entry.
  cbn. by destruct (_ <=? _).
Qed.

Lemma push_entries_bounded limits es x :
  ex_entries x = [] -> 0 <= ex_total_entries x < 2 ^ 32 ->
  let x' := push_entries limits es x in
  ex_entries x' = take (Z.to_nat (max_explanation_entries limits)) es /\
  ex_total_entries x' = u32 (ex_total_entries x + size es) /\
  ex_truncated x' = ex_truncated x || (Z.max 0 (max_explanation_entries limits) <? size es).
Proof.
  intros He Ht.
  destruct (bounded_fold (push_entry limits) (max_explanation_entries limits) ex_entries
    ex_total_entries ex_truncated) with (xs := es) (s := x) as (H1 & H2 & H3); [|done|].
  - intros s e. unfold push_entry. cbn. by destruct (_ <=? _).
  - rewrite He, size_nil, Z.sub_0_r in *. done.
Qed.

(** ** Permutations *)

#[global] Instance digest_le_preorder : PreOrder digest_le.
Proof.
  split.
  - intros a. right. lia.
  - unfold digest_le. intros a b c. lia.
Qed.
#[global] Instance digest_le_antisym : AntiSymm (=) digest_le.
Proof.
  intros [ha la] [hb lb]. unfold digest_le. cbn. intros Ha Hb. f_equal; lia.
Qed.
#[global] Instance digest_le_total : Total digest_le.
Proof. unfold digest_le. intros a b. lia. Qed.

Lemma sort_digests_perm l l' : sort_digests l = sort_digests l' <-> l ≡ₚ l'.
Proof.
  unfold sort_digests. split.
  - intros H. rewrite <-(merge_sort_Permutation digest_le l), H. apply merge_sort_Permutation.
  - intros H. apply (StronglySorted_unique digest_le); [apply (StronglySorted_merge_sort _)..|].
    by rewrite !merge_sort_Permutation.
Qed.

Lemma order_changed_spec before after :
  order_changed before after = true <-> before <> after /\ before ≡ₚ after.
Proof.
  unfold order_changed, same_multiset.
  rewrite !andb_true_iff, negb_true_iff, bool_decide_eq_false, bool_decide_eq_true,
    Nat.eqb_eq, sort_digests_perm.
  split; [tauto|]. intros [? Hp]. split; [done|]. split; [done|]. by apply Permutation_length.
Qed.

(** ** Positions *)

Lemma elem_of_flat_map_seq {A} (g : nat -> list A) a n x :
  x ∈ flat_map g (seq a n) <-> exists i, (a <= i < a + n)%nat /\ x ∈ g i.
Proof.
  rewrite list_elem_of_In, in_flat_map. setoid_rewrite in_seq. split.
  - intros (i & ? & ?). exists i. by rewrite list_elem_of_In.
  - intros (i & ? & Hx). exists i. by rewrite list_elem_of_In in Hx.
Qed.

(** A position has an entry exactly when the revisions differ there. *)
Definition marks (i : nat) (es : list DiffEntry) : Prop :=
  exists kind d, entry_at kind i d ∈ es.

Lemma entry_at_inj kind i d kind' i' d' :
  fits 32 (Z.of_nat i) -> fits 32 (Z.of_nat i') ->
  entry_at kind i d = entry_at kind' i' d' -> i = i'.
Proof.
  intros Hi Hi' H. apply (f_equal df_index) in H. cbn in H. rewrite !wrap_small in H by done. lia.
Qed.

Lemma marks_changed kind before after i :
  fits 32 (size before) -> fits 32 (size after) ->
  marks i (changed_positions kind before after) /\ fits 32 (Z.of_nat i) <->
  exists a b, before !! i = Some a /\ after !! i = Some b /\ a <> b.
Proof.
  intros Hb Ha. unfold marks, changed_positions. setoid_rewrite elem_of_flat_map_seq. split.
  - intros [(k & d & j & Hj & He) Hi].
    destruct (before !! j) as [a|] eqn:Ea; [|by apply not_elem_of_nil in He].
    destruct (after !! j) as [b|] eqn:Eb; [|by apply not_elem_of_nil in He].
    destruct (bool_decide_reflect (a = b)); [by apply not_elem_of_nil in He|].
    apply list_elem_of_singleton in He. apply entry_at_inj in He as ->; [by exists a, b|done|].
    unfold fits, size in *. lia.
  - intros (a & b & Ea & Eb & Hne). pose proof (lookup_lt_Some _ _ _ Ea).
    pose proof (lookup_lt_Some _ _ _ Eb). split; [|unfold fits, size in *; lia].
    exists kind, b, i. split; [lia|]. rewrite Ea, Eb, bool_decide_eq_false_2 by done.
    apply list_elem_of_singleton. done.
Qed.

Lemma marks_tail kind common v i :
  fits 32 (size v) ->
  marks i (tail_positions kind common v) /\ fits 32 (Z.of_nat i) <->
  (common <= i)%nat /\ is_Some (v !! i).
Proof.
  intros Hv. unfold marks, tail_positions. setoid_rewrite elem_of_flat_map_seq. split.
  - intros [(k & d & j & Hj & He) Hi].
    destruct (v !! j) as [a|] eqn:Ea; [|by apply not_elem_of_nil in He].
    apply list_elem_of_singleton in He. apply entry_at_inj in He as ->; [|done|].
    + split; [lia|by exists a].
    + unfold fits, size in *. lia.
  - intros [Hi [a Ea]]. pose proof (lookup_lt_Some _ _ _ Ea).
    split; [|unfold fits, size in *; lia]. exists kind, a, i. split; [lia|].
    rewrite Ea. by apply list_elem_of_singleton.
Qed.

Lemma marks_app i es es' : marks i (es ++ es') <-> marks i es \/ marks i es'.
Proof.
  unfold marks. setoid_rewrite elem_of_app. split.
  - intros (k & d & [?|?]); [left|right]; by exists k, d.
  - intros [(k & d & ?)|(k & d & ?)]; exists k, d; auto.
Qed.

Lemma segment_changes_spec before after i :
  fits 32 (size before) -> fits 32 (size after) ->
  marks i (segment_changes before after) /\ fits 32 (Z.of_nat i) <->
  before !! i <> after !! i.
Proof.
  intros Hb Ha. unfold segment_changes.
  destruct (bool_decide_reflect (before = after)) as [->|Hne].
  { split; [|done]. by intros [(k & d & ?%not_elem_of_nil) _]. }
  assert (forall kind, before !! i <> after !! i ->
    (marks i (changed_positions kind before after) /\ fits 32 (Z.of_nat i)) \/
    ((length before <= i)%nat /\ is_Some (after !! i)) \/
    ((length after <= i)%nat /\ is_Some (before !! i))) as Hcase.
  { intros kind Hi. rewrite marks_changed by done.
    destruct (before !! i) as [a|] eqn:Ea, (after !! i) as [b|] eqn:Eb; [| | |done].
    - left. exists a, b. split; [done|]. split; [done|]. congruence.
    - right. right. split; [by apply lookup_ge_None|by exists a].
    - right. left. split; [by apply lookup_ge_None|by exists b]. }
  destruct (order_changed before after) eqn:Ho.
  - apply order_changed_spec in Ho as [_ Hp]. apply Permutation_length in Hp.
    split.
    + intros H. apply marks_changed in H as (a & b & -> & -> & ?); [congruence|done|done].
    + intros Hi. destruct (Hcase Reorder Hi) as [?|[[Hl [b Hb']]|[Hl [a Ha']]]]; [done|exfalso..].
      * apply lookup_lt_Some in Hb'. lia.
      * apply lookup_lt_Some in Ha'. lia.
  - rewrite !marks_app. split.
    + intros [[H|[H|H]] Hi].
      * destruct (proj1 (marks_changed Replace before after i Hb Ha) (conj H Hi))
          as (a & b & -> & -> & ?). congruence.
      * destruct (proj1 (marks_tail Insert _ after i Ha) (conj H Hi)) as [Hl [b Hb']].
        pose proof (lookup_lt_Some _ _ _ Hb'). rewrite Hb', (lookup_ge_None_2 before) by lia. done.
      * destruct (proj1 (marks_tail Remove _ before i Hb) (conj H Hi)) as [Hl [a Ha']].
        pose proof (lookup_lt_Some _ _ _ Ha'). rewrite Ha', (lookup_ge_None_2 after) by lia. done.
    + intros Hi. destruct (Hcase Replace Hi) as [[H1 H2]|[[Hl H]|[Hl H]]]; [tauto| |].
      * destruct (proj2 (marks_tail Insert (Nat.min (length before) (length after)) after i Ha));
          [split; [lia|done]|tauto].
      * destruct (proj2 (marks_tail Remove (Nat.min (length before) (length after)) before i Hb));
          [split; [lia|done]|tauto].
Qed.

Lemma segment_changes_nil before after :
  fits 32 (size before) -> fits 32 (size after) ->
  segment_changes before after = [] <-> before = after.
Proof.
  intros Hb Ha. split.
  - intros H. apply list_eq. intros i. apply dec_stable. intros Hi.
    apply segment_changes_spec in Hi as [(k & d & He) _]; [|done|done].
    rewrite H in He. by apply not_elem_of_nil in He.
  - intros ->. unfold segment_changes. by rewrite bool_decide_eq_true_2.
Qed.

(** ** The difference of two revisions *)

Lemma change_nil b kind detail : change b kind detail = [] <-> b = false.
Proof. by destruct b. Qed.

(** What the comparison looks at, the segments apart. *)
Definition fields_agree (f t : SegmentList) : Prop :=
  let cf := sl_content f in
  let ct := sl_content t in
  sl_generation f = sl_generation t /\ sl_state f = sl_state t /\
  sl_currentness f = sl_currentness t /\
  c_profile cf = c_profile ct /\ c_profile_generation cf = c_profile_generation ct /\
  c_policy cf = c_policy ct /\ c_policy_generation cf = c_policy_generation ct /\
  c_strictness cf = c_strictness ct /\ c_topology cf = c_topology ct /\
  c_capability cf = c_capability ct /\ c_path_authority cf = c_path_authority ct /\
  c_route_generation cf = c_route_generation ct /\
  c_constraint_generation cf = c_constraint_generation ct /\
  sl_authority f = sl_authority t.

Lemma authority_eqb_eq a b : authority_eqb a b = true <-> a = b.
Proof.
  unfold authority_eqb. rewrite !andb_true_iff, !Z.eqb_eq. destruct a, b; cbn.
  split; [intros [[[-> ->] ->] ->]|intros [= -> -> -> ->]]; done.
Qed.

Lemma field_changes_nil f t : field_changes f t = [] <-> fields_agree f t.
Proof.
  unfold field_changes, fields_agree. cbv zeta.
  rewrite !app_nil, !change_nil, !orb_false_iff, !negb_false_iff, !Z.eqb_eq, state_eqb_eq,
    currentness_eqb_eq, strictness_eqb_eq, authority_eqb_eq.
  split; intros H; destruct_and?; by split_and!.
Qed.

Lemma comparison_same_list from to :
  snapshot_valid from = true -> snapshot_valid to = true ->
  c_id (sl_content (snapshot_list from)) = c_id (sl_content (snapshot_list to)) ->
  let f := snapshot_list from in
  let t := snapshot_list to in
  let before := segment_digests f (compare_width f t) in
  let after := segment_digests t (compare_width f t) in
  comparison from to = (field_changes f t ++ segment_changes before after, order_changed before after).
Proof. intros Hf Ht Hid. unfold comparison. by rewrite Hf, Ht, Hid, Z.eqb_refl. Qed.


(** ** Explanations *)

(** The capability a profile requires is there, supported and of the current generation. *)
Definition capability_met (e : FabricEvidence) (key : CapabilityKey) : Prop :=
  exists r, find_capability e key = Some r /\ cap_supported r = true /\
    cap_generation r = ev_capability e.

Lemma capability_entry_nil e key : capability_entry e key = [] <-> capability_met e key.
Proof.
  unfold capability_entry, capability_met. destruct (find_capability e key) as [r|].
  - destruct (cap_supported r) eqn:Hs; cbn [negb].
    + destruct (Z.eqb_spec (cap_generation r) (ev_capability e)) as [Hg|Hg]; cbn [negb].
      * split; [|done]. intros _. by exists r.
      * split; [done|]. intros (q & [= <-] & _ & ?). done.
    + split; [done|]. intros (q & [= <-] & ? & _). congruence.
  - split; [done|]. by intros (q & ? & _).
Qed.

Lemma capability_entry_not_ok e key r : r ∈ capability_entry e key -> r_code r <> ReasonOk.
Proof.
  unfold capability_entry. destruct (find_capability e key) as [c|].
  - destruct (negb (cap_supported c)); [|destruct (negb _)];
      rewrite ?list_elem_of_singleton; try by intros ->. by intros ?%not_elem_of_nil.
  - rewrite list_elem_of_singleton. by intros ->.
Qed.

Section Explanations.
Context {E P : Type} `{EvidenceSource E} `{IPersistence P}.
Implicit Types (s : SegmentListStore E P) (id : SegmentListId).

(** An explanation of missing capabilities is clean, one entry [Ok], exactly when every
    capability the list's profile requires is present, supported and of the current
    generation; otherwise its entries are the first of the complete list of what is
    missing, counted in full, and none of them is [Ok]. *)
Theorem explain_missing_capability_spec id evidence s l p :
  find_list id s = Some l ->
  Registry.find_profile (c_profile (sl_content l)) (st_registry s) = Some p ->
  0 < max_explanation_entries (st_limits s) ->
  let e := default empty_evidence evidence in
  let x := explain_missing_capability id evidence s in
  let missing := flat_map (capability_entry e) (pr_required_capabilities p) in
  (ex_contains ReasonOk x = true <-> Forall (capability_met e) (pr_required_capabilities p)) /\
  (missing <> [] ->
     ex_entries x = take (Z.to_nat (max_explanation_entries (st_limits s))) missing /\
     ex_total_entries x = u32 (size missing) /\
     (ex_truncated x = true <-> max_explanation_entries (st_limits s) < size missing)).
Proof.
  intros Hl Hp Hlim e x missing. unfold x, explain_missing_capability, explaining.
  rewrite Hl, Hp. fold e. fold missing. set (x0 := about l _).
  destruct (push_entries_bounded (st_limits s) missing x0) as (He & Hn & Hc); [done|done|].
  assert (missing = [] <-> Forall (capability_met e) (pr_required_capabilities p)) as Hnil.
  { unfold missing. rewrite flat_map_nil. apply Forall_iff'. apply capability_entry_nil. }
  destruct missing as [|m ms] eqn:Hm.
  - split; [|done]. split; [by intros _; apply Hnil|]. intros _.
    change (push_entries (st_limits s) [] x0) with x0. unfold push_entry, x0.
    cbn [ex_entries about new_explanation is_empty].
    destruct (Z.leb_spec (max_explanation_entries (st_limits s)) (@size Reason [])) as [Hbad|_];
      [change (@size Reason []) with 0 in Hbad; lia|done].
  - rewrite He. destruct (Z.to_nat (max_explanation_entries (st_limits s))) as [|n] eqn:Hz; [lia|].
    cbn [take is_empty]. split.
    + split; [|by intros H3; apply Hnil in H3]. unfold ex_contains. rewrite He.
      intros (r & Hr & Hok)%existsb_exists. apply code_eqb_eq in Hok. exfalso.
      apply list_elem_of_In, elem_of_take in Hr as (i & Hr & _). rewrite <-Hm in Hr.
      apply list_elem_of_lookup_2, list_elem_of_In, in_flat_map in Hr as (key & _ & Hr).
      apply list_elem_of_In in Hr. by apply capability_entry_not_ok in Hr.
    + intros _. rewrite He, Hn, Hc. split; [done|]. split; [done|]. cbn [ex_truncated about
        new_explanation x0 orb]. rewrite Z.ltb_lt. lia.
Qed.
End Explanations.
