(* ===== verification/Wire.v ===== *)
(** * The wire protocol

    [include/srf/wire.hpp] and [src/wire.cpp]: frames, the incremental frame assembler
    and the payloads of every message.  A payload decoder is the error monad of [Codec]
    whose error is the run of reasons its failure adds, in program order.

    A wire enumerator the decoders cast without an exhaustive check is kept as the
    integer it was read from: message identifiers up to [Response], and reason codes. *)

From S2P Require Import Prelude.
From S2P Require Import Ids.
From S2P Require Import Bytes.
From S2P Require Import Digest.
From S2P Require Import Segment.
From S2P Require Import Reason.
From S2P Require Import Lifecycle.
From S2P Require Import Governance.
From S2P Require Import Authority.
From S2P Require Import Codec.
From S2P Require Import Persistence.
From S2P Require Import Store.

(** ** Message identifiers *)
Definition MessageId : Type := Z.

Module Message.
Definition Invalid : MessageId := 0.
Definition Hello : MessageId := 1.
Definition HelloAck : MessageId := 2.
Definition Heartbeat : MessageId := 3.
Definition Goodbye : MessageId := 4.
Definition CreateList : MessageId := 10.
Definition ReplaceList : MessageId := 11.
Definition Withdraw : MessageId := 12.
Definition WithdrawCommit : MessageId := 13.
Definition Revoke : MessageId := 14.
Definition Retire : MessageId := 15.
Definition Revalidate : MessageId := 16.
Definition Get : MessageId := 20.
Definition ListSummaries : MessageId := 21.
Definition ExplainCurrentness : MessageId := 22.
Definition RefreshCurrentness : MessageId := 23.
Definition Response : MessageId := 40.
End Message.

Definition message_id_name (id : MessageId) : string :=
  match id with
  | 0 => "Invalid" | 1 => "Hello" | 2 => "HelloAck" | 3 => "Heartbeat" | 4 => "Goodbye"
  | 10 => "CreateList" | 11 => "ReplaceList" | 12 => "Withdraw" | 13 => "WithdrawCommit"
  | 14 => "Revoke" | 15 => "Retire" | 16 => "Revalidate" | 20 => "Get"
  | 21 => "ListSummaries" | 22 => "ExplainCurrentness" | 23 => "RefreshCurrentness"
  | 40 => "Response" | _ => "Unknown"
  end.

(** ** Frames *)
Definition kWireProtocolVersion : Z := 1.
Definition kWireMagic : list Byte.byte := text "SRFW".
Definition kFrameHeaderBytes : Z := 28.
Definition kFrameTrailerBytes : Z := 4.

Record Frame := {
  fr_version : Z;
  fr_message : MessageId;
  fr_flags : Z;
  fr_request_id : Z;
  fr_payload : list Byte.byte;
}.

(** [Frame{}] *)
Definition empty_frame : Frame := {|
  fr_version := kWireProtocolVersion; fr_message := Message.Invalid; fr_flags := 0;
  fr_request_id := 0; fr_payload := [];
|}.

#[global] Instance Frame_eq_dec : EqDecision Frame.
Proof. solve_decision. Defined.

(** The header without its checksum. *)
Definition wire_head (f : Frame) : list Byte.byte :=
  kWireMagic ++ put16 (fr_version f) ++ put16 (fr_message f) ++ put16 (fr_flags f) ++
  put16 0 ++ put32 (size (fr_payload f)) ++ put64 (fr_request_id f).

Definition frame_bytes (f : Frame) : list Byte.byte :=
  wire_head f ++ put32 (crc32c (wire_head f)) ++ fr_payload f ++
  put32 (crc32c (fr_payload f)).

Definition encode_frame (f : Frame) (limits : Limits) (result : ValidationResult)
  : ByteBuffer * ValidationResult :=
  let result := set_limits (Some limits) result in
  if max_frame_bytes limits <? size (fr_payload f)
  then ([], add LimitMaxFrameBytes 0 (max_frame_bytes limits) result)
  else if fr_message f =? Message.Invalid
  then ([], add WireUnknownMessageId 0 0 result)
  else (frame_bytes f, result).

(** The fields of a header, in order. *)
Record FrameHeader := {
  fh_version : Z;
  fh_message : Z;
  fh_flags : Z;
  fh_reserved : Z;
  fh_payload_length : Z;
  fh_request_id : Z;
  fh_crc : Z;
}.

Definition WireError : Type := list Reason.

Definition malformed : WireError := [mkReason WireMalformedFrame 0 0].
Definition truncated_header : WireError := [mkReason WireHeaderTruncated 0 0].

Definition skip_with {E} (e : E) (n : Z) : DecE E unit := fun r =>
  match skip n r with (true, r') => inl (tt, r') | (false, _) => inr e end.

Definition read_header : DecE WireError FrameHeader :=
  let e := truncated_header in
  skip_with e 4;;
  version ← of_read_with e read_u16;
  message ← of_read_with e read_u16;
  flags ← of_read_with e read_u16;
  reserved ← of_read_with e read_u16;
  payload_length ← of_read_with e read_u32;
  request_id ← of_read_with e read_u64;
  header_crc ← of_read_with e read_u32;
  mret {| fh_version := version; fh_message := message; fh_flags := flags;
          fh_reserved := reserved; fh_payload_length := payload_length;
          fh_request_id := request_id; fh_crc := header_crc |}.

(** [decode_frame]: the frame, or the reason it adds. *)
Definition check_wire_frame (bytes : list Byte.byte) (limits : Limits) : Frame + WireError :=
  let failed code detail := inr [mkReason code 0 detail] in
  if size bytes <? kFrameHeaderBytes + kFrameTrailerBytes
  then failed WireHeaderTruncated (size bytes)
  else if negb (bool_decide (take 4 bytes = kWireMagic)) then failed WireMagicMismatch 0
  else
    match read_header (reader (take (Z.to_nat kFrameHeaderBytes) bytes)) with
    | inr e => inr e
    | inl (h, _) =>
        if negb (fh_crc h =? crc32c (take (Z.to_nat (kFrameHeaderBytes - 4)) bytes))
        then failed WireIntegrityMismatch 0
        else if negb (fh_version h =? kWireProtocolVersion)
        then failed WireUnsupportedVersion (fh_version h)
        else if negb (fh_reserved h =? 0) then failed WireUnsupportedFlags (fh_reserved h)
        else if negb (fh_flags h =? 0) then failed WireUnsupportedFlags (fh_flags h)
        else if (fh_message h =? 0) || (Message.Response <? fh_message h)
        then failed WireUnknownMessageId (fh_message h)
        else if max_frame_bytes limits <? fh_payload_length h
        then failed LimitMaxFrameBytes (fh_payload_length h)
        else
          let expected := kFrameHeaderBytes + fh_payload_length h + kFrameTrailerBytes in
          if size bytes <? expected then failed WirePayloadLengthMismatch (size bytes)
          else if expected <? size bytes then failed WireTrailingBytes (size bytes - expected)
          else
            let payload := take (Z.to_nat (fh_payload_length h))
                             (drop (Z.to_nat kFrameHeaderBytes) bytes) in
            match read_u32 (reader (take (Z.to_nat kFrameTrailerBytes)
                    (drop (Z.to_nat (kFrameHeaderBytes + fh_payload_length h)) bytes))) with
            | (None, _) => failed WireHeaderTruncated 0
            | (Some payload_crc, _) =>
                if negb (payload_crc =? crc32c payload) then failed WireIntegrityMismatch 0
                else inl {| fr_version := fh_version h; fr_message := fh_message h;
                            fr_flags := fh_flags h; fr_request_id := fh_request_id h;
                            fr_payload := payload |}
            end
    end.

Definition decode_frame (bytes : list Byte.byte) (limits : Limits) (result : ValidationResult)
  : option Frame * ValidationResult :=
  let result := set_limits (Some limits) result in
  match check_wire_frame bytes limits with
  | inl f => (Some f, result)
  | inr e => (None, emit e result)
  end.

(** ** [FrameAssembler] *)
Record FrameAssembler := { fa_buffer : list Byte.byte; fa_overflowed : bool }.

Definition new_assembler : FrameAssembler := {| fa_buffer := []; fa_overflowed := false |}.

Module FrameAssembler.
Definition feed (bytes : list Byte.byte) (a : FrameAssembler) : FrameAssembler :=
  if fa_overflowed a then a else {| a with fa_buffer := fa_buffer a ++ bytes |}.

(** No frame and no new reason: more bytes are needed. *)
Definition next (limits : Limits) (result : ValidationResult) (a : FrameAssembler)
  : option Frame * ValidationResult * FrameAssembler :=
  let result := set_limits (Some limits) result in
  let overflow := {| a with fa_overflowed := true |} in
  if fa_overflowed a
  then (None, add WireAssemblyOverflow 0 (size (fa_buffer a)) result, a)
  else if size (fa_buffer a) <? kFrameHeaderBytes then (None, result, a)
  else
    match read_header (reader (take (Z.to_nat kFrameHeaderBytes) (fa_buffer a))) with
    | inr e => (None, emit e result, a)
    | inl (h, _) =>
        if max_frame_bytes limits <? fh_payload_length h
        then (None, add WireAssemblyOverflow 0 (fh_payload_length h) result, overflow)
        else
          let total := kFrameHeaderBytes + fh_payload_length h + kFrameTrailerBytes in
          if size (fa_buffer a) <? total then (None, result, a)
          else
            match decode_frame (take (Z.to_nat total) (fa_buffer a)) limits result with
            | (None, result) => (None, result, overflow)
            | (Some f, result) =>
                (Some f, result, {| a with fa_buffer := drop (Z.to_nat total) (fa_buffer a) |})
            end
    end.

Definition clear : FrameAssembler := new_assembler.
End FrameAssembler.

(** ** Field decoders *)
Abbreviation WDec := (DecE WireError).

Definition w_u8 : WDec Z := of_read_with malformed read_u8.
Definition w_u16 : WDec Z := of_read_with malformed read_u16.
Definition w_u32 : WDec Z := of_read_with malformed read_u32.

(** [read_u64] of the source adds the reason itself. *)
Definition w_u64 : WDec Z := of_read_with malformed read_u64.

(** [if (!read_u64(...) || ...) { result.add(WireMalformedFrame); ... }]: the caller adds
    the reason once more. *)
Definition w_u64_again : WDec Z := of_read_with (malformed ++ malformed) read_u64.

Definition wire_require (condition : bool) (code : ReasonCode) (detail : Z) : WDec unit :=
  require_with condition [mkReason code 0 detail].

Definition wire_end : WDec unit :=
  done_reading_with (fun n => [mkReason WireTrailingBytes 0 n]).

(** [write_segment] of the wire: the fields in the order of the durable form. *)
Definition wire_segment (s : Segment) : list Byte.byte :=
  put16 (kind_value (seg_kind s)) ++
  put16 (encoding_value (seg_encoding s)) ++
  put64 (seg_id s) ++ put64 (seg_generation s) ++ put64 (seg_node s) ++
  put64 (seg_adjacency s) ++ put64 (seg_endpoint s) ++ put64 (seg_binding s) ++
  put64 (seg_policy s) ++ put64 (seg_policy_generation s) ++ put64 (seg_topology s) ++
  put16 (size (seg_payload s)) ++ seg_payload s.

(** The payload of a segment: the length is checked against what remains, then read. *)
Definition wire_bytes (length : Z) : WDec (list Byte.byte) := fun r =>
  if remaining r <? length then inr malformed
  else if 0 <? length then
    match read_raw length r with
    | (Some bs, r') => inl (bs, r')
    | (None, _) => inr malformed
    end
  else inl ([], r).

Definition read_segment (limits : Limits) : WDec Segment :=
  kind ← w_u16;
  encoding ← w_u16;
  wire_require (negb ((kind =? 0) || (kind_value KPolicy <? kind))) WireUnknownEnumValue kind;;
  wire_require (negb (encoding_value AbstractPolicyV1 <? encoding)) WireUnknownEnumValue
    encoding;;
  id ← w_u64;
  generation ← w_u64;
  node ← w_u64;
  adjacency ← w_u64;
  endpoint ← w_u64;
  binding ← w_u64;
  policy ← w_u64;
  policy_generation ← w_u64;
  topology ← w_u64;
  payload_length ← w_u16;
  wire_require (negb (max_segment_payload_bytes limits <? payload_length)) WireFieldOutOfRange
    payload_length;;
  payload ← wire_bytes payload_length;
  mret {| seg_kind := kind_of_value kind; seg_encoding := encoding_of_value encoding;
          seg_id := id; seg_generation := generation; seg_node := node;
          seg_adjacency := adjacency; seg_endpoint := endpoint; seg_binding := binding;
          seg_policy := policy; seg_policy_generation := policy_generation;
          seg_topology := topology; seg_payload := payload |}.

(** A payload decoder over a span: the value, or the reasons it adds. *)
Definition decode_payload {A} (m : WDec A) (bytes : list Byte.byte) (limits : Limits)
    (result : ValidationResult) : option A * ValidationResult :=
  let result := set_limits (Some limits) result in
  match m (reader bytes) with
  | inl (x, _) => (Some x, result)
  | inr e => (None, emit e result)
  end.

(** ** Payloads *)
Record HelloRequest := {
  he_boot : WorkerBootId; he_publisher : PublisherId; he_scope : ScopeId;
  he_epoch : CoordinatorEpoch }.

Definition encode_hello (h : HelloRequest) : ByteBuffer :=
  put64 (he_boot h) ++ put64 (he_publisher h) ++ put64 (he_scope h) ++ put64 (he_epoch h).

Definition hello_body : WDec HelloRequest :=
  boot ← w_u64; publisher ← w_u64; scope ← w_u64; epoch ← w_u64; wire_end;;
  mret {| he_boot := boot; he_publisher := publisher; he_scope := scope; he_epoch := epoch |}.

Definition decode_hello := decode_payload hello_body.

Record HelloAck := { ha_epoch : CoordinatorEpoch; ha_session : WorkerSessionId }.

Definition encode_hello_ack (a : HelloAck) : ByteBuffer :=
  put64 (ha_epoch a) ++ put64 (ha_session a).

Definition hello_ack_body : WDec HelloAck :=
  epoch ← w_u64; session ← w_u64; wire_end;;
  mret {| ha_epoch := epoch; ha_session := session |}.

Definition decode_hello_ack := decode_payload hello_ack_body.

Record HeartbeatRequest := {
  hb_publisher : PublisherId; hb_boot : WorkerBootId; hb_epoch : CoordinatorEpoch }.

Definition encode_heartbeat (b : HeartbeatRequest) : ByteBuffer :=
  put64 (hb_publisher b) ++ put64 (hb_boot b) ++ put64 (hb_epoch b).

Definition heartbeat_body : WDec HeartbeatRequest :=
  publisher ← w_u64; boot ← w_u64; epoch ← w_u64; wire_end;;
  mret {| hb_publisher := publisher; hb_boot := boot; hb_epoch := epoch |}.

Definition decode_heartbeat := decode_payload heartbeat_body.

Record GetRequest := { ge_list : SegmentListId }.

Definition encode_get (g : GetRequest) : ByteBuffer := put64 (ge_list g).

Definition get_body : WDec GetRequest :=
  value ← w_u64; wire_end;; mret {| ge_list := value |}.

Definition decode_get := decode_payload get_body.

Inductive LifecycleOp := OpWithdraw | OpWithdrawCommit | OpRevoke | OpRetire | OpRevalidate.

Definition op_value (o : LifecycleOp) : Z :=
  match o with
  | OpWithdraw => 1 | OpWithdrawCommit => 2 | OpRevoke => 3 | OpRetire => 4
  | OpRevalidate => 5
  end.

Definition op_of_value (v : Z) : LifecycleOp :=
  match v with
  | 2 => OpWithdrawCommit | 3 => OpRevoke | 4 => OpRetire | 5 => OpRevalidate
  | _ => OpWithdraw
  end.

Record LifecycleRequest := {
  lq_attempt : MutationAttemptId; lq_op : LifecycleOp; lq_list : SegmentListId;
  lq_expected : SegmentListGeneration }.

Definition encode_lifecycle (q : LifecycleRequest) : ByteBuffer :=
  put64 (lq_attempt q) ++ put8 (op_value (lq_op q)) ++ put64 (lq_list q) ++
  put64 (lq_expected q).

Definition lifecycle_body : WDec LifecycleRequest :=
  attempt ← w_u64_again;
  op ← w_u8;
  wire_require (negb ((op =? 0) || (op_value OpRevalidate <? op))) WireUnknownEnumValue op;;
  list ← w_u64;
  expected ← w_u64;
  wire_end;;
  mret {| lq_attempt := attempt; lq_op := op_of_value op; lq_list := list;
          lq_expected := expected |}.

Definition decode_lifecycle := decode_payload lifecycle_body.

(** *** Mutations *)
Record MutationRequest := { mu_attempt : MutationAttemptId; mu_draft : ListDraft }.

Definition mutation_bytes (m : MutationRequest) : ByteBuffer :=
  let d := mu_draft m in
  put64 (mu_attempt m) ++ put64 (ld_id d) ++ put64 (ld_scope d) ++ put64 (ld_profile d) ++
  put64 (ld_profile_generation d) ++ put64 (ld_policy d) ++ put64 (ld_policy_generation d) ++
  put8 (strictness_value (ld_strictness d)) ++
  put64 (ld_topology d) ++ put64 (ld_capability d) ++ put64 (ld_path d) ++
  put64 (ld_path_authority d) ++ put64 (ld_route d) ++ put64 (ld_route_generation d) ++
  put64 (ld_constraint d) ++ put64 (ld_constraint_generation d) ++
  put64 (ld_expected_generation d) ++ put64 (ld_supersedes d) ++
  put64 (ld_supersedes_generation d) ++ put8 (bool_byte (ld_derived d)) ++
  put32 (size (ld_segments d)) ++ concat (map wire_segment (ld_segments d)).

Definition encode_mutation (m : MutationRequest) (limits : Limits) (result : ValidationResult)
  : ByteBuffer * ValidationResult :=
  let result := set_limits (Some limits) result in
  if max_segments_per_list limits <? size (ld_segments (mu_draft m))
  then ([], add LimitMaxSegmentsPerList 0 (max_segments_per_list limits) result)
  else (mutation_bytes m, result).

(** The decoded request; the caller's request is a fresh one. *)
Definition mutation_body (limits : Limits) : WDec MutationRequest :=
  attempt ← w_u64;
  id ← w_u64;
  scope ← w_u64;
  profile ← w_u64;
  profile_generation ← w_u64;
  policy ← w_u64;
  policy_generation ← w_u64;
  strictness ← w_u8;
  wire_require ((strictness =? strictness_value Strict) || (strictness =? strictness_value Loose))
    WireUnknownEnumValue strictness;;
  topology ← w_u64;
  capability ← w_u64;
  path ← w_u64;
  path_authority ← w_u64;
  route ← w_u64;
  route_generation ← w_u64;
  constraint ← w_u64;
  constraint_generation ← w_u64;
  expected_generation ← w_u64;
  supersedes ← w_u64;
  supersedes_generation ← w_u64;
  derived ← w_u8;
  segment_count ← w_u32;
  wire_require (derived <=? 1) WireFieldOutOfRange derived;;
  wire_require (negb (max_segments_per_list limits <? segment_count)) LimitMaxSegmentsPerList
    segment_count;;
  segments ← repeat_dec (Z.to_nat segment_count) (read_segment limits);
  wire_end;;
  mret {| mu_attempt := attempt; mu_draft := {|
    ld_id := id; ld_scope := scope; ld_profile := profile;
    ld_profile_generation := profile_generation; ld_policy := policy;
    ld_policy_generation := policy_generation;
    ld_strictness := strictness_of_value strictness; ld_topology := topology;
    ld_capability := capability; ld_path := path; ld_path_authority := path_authority;
    ld_route := route; ld_route_generation := route_generation; ld_constraint := constraint;
    ld_constraint_generation := constraint_generation; ld_segments := segments;
    ld_expected_generation := expected_generation; ld_supersedes := supersedes;
    ld_supersedes_generation := supersedes_generation; ld_derived := negb (derived =? 0) |} |}.

Definition decode_mutation (bytes : list Byte.byte) (limits : Limits) (result : ValidationResult)
  : option MutationRequest * ValidationResult :=
  decode_payload (mutation_body limits) bytes limits result.

(** *** Responses *)
Record ListSummary := {
  sm_list : SegmentListId;
  sm_generation : SegmentListGeneration;
  sm_state : LifecycleState;
  sm_currentness : Currentness;
  sm_profile : SegmentProfileId;
  sm_profile_generation : SegmentProfileGeneration;
  sm_digest : Digest128;
  sm_segment_count : Z;
  sm_epoch : CoordinatorEpoch;
}.

(** A reason on the wire: its code is any 16-bit value. *)
Record WireReason := { wr_code : Z; wr_index : Z; wr_detail : Z }.

Definition to_wire (r : Reason) : WireReason :=
  {| wr_code := code_value (r_code r); wr_index := r_index r; wr_detail := r_detail r |}.

Record Response := {
  rp_request_id : Z;
  rp_status : StatusCode;
  rp_reasons : list WireReason;
  rp_truncated : bool;
  rp_list : SegmentListId;
  rp_generation : SegmentListGeneration;
  rp_digest : Digest128;
  rp_idempotent_replay : bool;
  rp_epoch : CoordinatorEpoch;
  rp_session : WorkerSessionId;
  rp_summaries : list ListSummary;
}.

(** [Response{}] *)
Definition empty_response : Response := {|
  rp_request_id := 0; rp_status := StOk; rp_reasons := []; rp_truncated := false;
  rp_list := 0; rp_generation := 0; rp_digest := mkDigest 0 0;
  rp_idempotent_replay := false; rp_epoch := 0; rp_session := 0; rp_summaries := [];
|}.

Definition summarize (l : SegmentList) (epoch : CoordinatorEpoch) : ListSummary := {|
  sm_list := c_id (sl_content l); sm_generation := sl_generation l; sm_state := sl_state l;
  sm_currentness := sl_currentness l; sm_profile := c_profile (sl_content l);
  sm_profile_generation := c_profile_generation (sl_content l);
  sm_digest := sl_content_digest l;
  sm_segment_count := u32 (size (c_segments (sl_content l))); sm_epoch := epoch;
|}.

Definition status_value (s : StatusCode) : Z :=
  match s with
  | StOk => 0 | StRejected => 1 | StConflict => 2 | StNotFound => 3
  | StPersistenceFailed => 4 | StLimitExceeded => 5 | StExhausted => 6 | StInternal => 7
  end.

Definition status_of_value (v : Z) : StatusCode :=
  match v with
  | 1 => StRejected | 2 => StConflict | 3 => StNotFound | 4 => StPersistenceFailed
  | 5 => StLimitExceeded | 6 => StExhausted | 7 => StInternal | _ => StOk
  end.

Definition reason_bytes (r : WireReason) : list Byte.byte :=
  put16 (wr_code r) ++ put32 (wr_index r) ++ put64 (wr_detail r).

Definition summary_bytes (s : ListSummary) : list Byte.byte :=
  put64 (sm_list s) ++ put64 (sm_generation s) ++ put8 (state_value (sm_state s)) ++
  put8 (currentness_value (sm_currentness s)) ++ put64 (sm_profile s) ++
  put64 (sm_profile_generation s) ++ put64 (hi (sm_digest s)) ++ put64 (lo (sm_digest s)) ++
  put32 (sm_segment_count s) ++ put64 (sm_epoch s).

Definition response_bytes (p : Response) : ByteBuffer :=
  put64 (rp_request_id p) ++ put8 (status_value (rp_status p)) ++
  put32 (size (rp_reasons p)) ++ concat (map reason_bytes (rp_reasons p)) ++
  put8 (bool_byte (rp_truncated p)) ++ put64 (rp_list p) ++ put64 (rp_generation p) ++
  put64 (hi (rp_digest p)) ++ put64 (lo (rp_digest p)) ++
  put8 (bool_byte (rp_idempotent_replay p)) ++ put64 (rp_epoch p) ++ put64 (rp_session p) ++
  put32 (size (rp_summaries p)) ++ concat (map summary_bytes (rp_summaries p)).

Definition encode_response (p : Response) (limits : Limits) (result : ValidationResult)
  : ByteBuffer * ValidationResult :=
  let result := set_limits (Some limits) result in
  if max_lists limits <? size (rp_summaries p)
  then ([], add LimitMaxLists 0 (max_lists limits) result)
  else (response_bytes p, result).

(** The decoder writes into the caller's response as it goes, so a failure carries the
    response as far as it was filled in. *)
Abbreviation RDec := (DecE (WireError * Response)).

Definition r_require (p : Response) (condition : bool) (code : ReasonCode) (detail : Z)
  : RDec unit :=
  require_with condition ([mkReason code 0 detail], p).

(** A read whose failure adds [e], and leaves [p]. *)
Definition r_u8 (e : WireError) (p : Response) : RDec Z := of_read_with (e, p) read_u8.
Definition r_u16 (e : WireError) (p : Response) : RDec Z := of_read_with (e, p) read_u16.
Definition r_u32 (e : WireError) (p : Response) : RDec Z := of_read_with (e, p) read_u32.
Definition r_u64 (e : WireError) (p : Response) : RDec Z := of_read_with (e, p) read_u64.

Definition malformed_twice : WireError := malformed ++ malformed.

Definition read_reason (p : Response) : RDec WireReason :=
  code ← r_u16 malformed p;
  index ← r_u32 malformed p;
  detail ← r_u64 malformed_twice p;
  mret {| wr_code := code; wr_index := index; wr_detail := detail |}.

Fixpoint read_reasons (n : nat) (p : Response) : RDec Response :=
  match n with
  | O => mret p
  | S n =>
      reason ← read_reason p;
      read_reasons n {| p with rp_reasons := rp_reasons p ++ [reason] |}
  end.

Definition read_summary (p : Response) : RDec ListSummary :=
  list ← r_u64 malformed_twice p;
  generation ← r_u64 malformed_twice p;
  state ← r_u8 malformed p;
  currentness ← r_u8 malformed p;
  profile ← r_u64 malformed_twice p;
  profile_generation ← r_u64 malformed_twice p;
  digest_hi ← r_u64 malformed_twice p;
  digest_lo ← r_u64 malformed_twice p;
  segment_count ← r_u32 malformed p;
  epoch ← r_u64 malformed_twice p;
  r_require p (negb ((state =? 0) || (state_value Retired <? state))) WireUnknownEnumValue state;;
  r_require p (negb (currentness_value FencedPublisher <? currentness)) WireUnknownEnumValue
    currentness;;
  mret {| sm_list := list; sm_generation := generation; sm_state := state_of_value state;
          sm_currentness := currentness_of_value currentness; sm_profile := profile;
          sm_profile_generation := profile_generation;
          sm_digest := mkDigest digest_hi digest_lo; sm_segment_count := segment_count;
          sm_epoch := epoch |}.

Fixpoint read_summaries (n : nat) (p : Response) : RDec Response :=
  match n with
  | O => mret p
  | S n =>
      summary ← read_summary p;
      read_summaries n {| p with rp_summaries := rp_summaries p ++ [summary] |}
  end.

(** The replay byte is read in a condition that adds no reason of its own. *)
Definition response_body (limits : Limits) (p : Response) : RDec Response :=
  request_id ← r_u64 malformed_twice p;
  status ← r_u8 malformed p;
  r_require p (negb (status_value StInternal <? status)) WireUnknownEnumValue status;;
  reason_count ← r_u32 malformed p;
  r_require p (negb (max_reasons limits <? reason_count)) LimitMaxReasons reason_count;;
  p ← read_reasons (Z.to_nat reason_count)
        {| p with rp_request_id := request_id; rp_status := status_of_value status |};
  truncated ← r_u8 malformed p;
  r_require p (truncated <=? 1) WireFieldOutOfRange truncated;;
  let p := {| p with rp_truncated := negb (truncated =? 0) |} in
  list ← r_u64 malformed p;
  generation ← r_u64 malformed p;
  digest_hi ← r_u64 malformed p;
  digest_lo ← r_u64 malformed p;
  replay ← r_u8 [] p;
  epoch ← r_u64 malformed p;
  session ← r_u64 malformed p;
  r_require p (replay <=? 1) WireFieldOutOfRange replay;;
  let p := {| p with rp_list := list; rp_generation := generation;
                     rp_digest := mkDigest digest_hi digest_lo;
                     rp_idempotent_replay := negb (replay =? 0); rp_epoch := epoch;
                     rp_session := session |} in
  summary_count ← r_u32 malformed p;
  r_require p (negb (max_lists limits <? summary_count)) LimitMaxLists summary_count;;
  p ← read_summaries (Z.to_nat summary_count) p;
  done_reading_with (fun n => ([mkReason WireTrailingBytes 0 n], p));;
  mret p.

Definition decode_response (bytes : list Byte.byte) (limits : Limits) (p : Response)
    (result : ValidationResult) : bool * Response * ValidationResult :=
  let result := set_limits (Some limits) result in
  match response_body limits p (reader bytes) with
  | inl (p, _) => (true, p, result)
  | inr (e, p) => (false, p, emit e result)
  end.
