(* ===== verification/WireProps.v ===== *)
(** * Correctness of the wire protocol

    Frames and payloads are read back exactly as they were written, and nothing else is
    accepted; the assembler delivers the same frames however the bytes are cut. *)

From coqutil Require Import Word.LittleEndianList.
From S2P Require Import Prelude.
From S2P Require Import Ids.
From S2P Require Import Bytes.
From S2P Require Import Digest.
From S2P Require Import Segment.
From S2P Require Import Reason.
From S2P Require Import Lifecycle.
From S2P Require Import Governance.
From S2P Require Import Authority.
From S2P Require Import Codec.
From S2P Require Import Persistence.
From S2P Require Import PersistenceProps.
From S2P Require Import Store.
From S2P Require Import Wire.

(** ** Fields *)

Lemma wire_reads n (e : WireError) v :
  fits (8 * Z.of_nat n) v -> decodes (of_read_with e (read_uint (Z.of_nat n))) (le_split n v) v.
Proof. apply decodes_of_read. Qed.

Lemma decodes_w_u8 v : fits 8 v -> decodes w_u8 (put8 v) v.
Proof. apply (wire_reads 1). Qed.
Lemma decodes_w_u16 v : fits 16 v -> decodes w_u16 (put16 v) v.
Proof. apply (wire_reads 2). Qed.
Lemma decodes_w_u32 v : fits 32 v -> decodes w_u32 (put32 v) v.
Proof. apply (wire_reads 4). Qed.
Lemma decodes_w_u64 v : fits 64 v -> decodes w_u64 (put64 v) v.
Proof. apply (wire_reads 8). Qed.
Lemma decodes_w_u64_again v : fits 64 v -> decodes w_u64_again (put64 v) v.
Proof. apply (wire_reads 8). Qed.

Lemma decodes_r_u8 e p v : fits 8 v -> decodes (r_u8 e p) (put8 v) v.
Proof. apply (decodes_of_read (e, p) 1). Qed.
Lemma decodes_r_u16 e p v : fits 16 v -> decodes (r_u16 e p) (put16 v) v.
Proof. apply (decodes_of_read (e, p) 2). Qed.
Lemma decodes_r_u32 e p v : fits 32 v -> decodes (r_u32 e p) (put32 v) v.
Proof. apply (decodes_of_read (e, p) 4). Qed.
Lemma decodes_r_u64 e p v : fits 64 v -> decodes (r_u64 e p) (put64 v) v.
Proof. apply (decodes_of_read (e, p) 8). Qed.

Lemma decodes_wire_bytes bs : decodes (wire_bytes (size bs)) bs bs.
Proof.
  intros r tl (Hwf & Hok & Hr). unfold wire_bytes.
  pose proof (size_rest r Hwf) as Hs. rewrite Hr, size_app in Hs.
  pose proof (size_nonneg tl). destruct (Z.ltb_spec (remaining r) (size bs)); [lia|].
  destruct (Z.ltb_spec 0 (size bs)) as [Hl|Hl].
  - destruct (read_raw_app bs tl r Hwf Hok Hr) as (r' & E' & ? & ? & ?). exists r'. by rewrite E'.
  - assert (bs = []) as -> by (unfold size in Hl; destruct bs; [done|cbn in Hl; lia]).
    by exists r.
Qed.

#[export] Hint Resolve decodes_w_u8 decodes_w_u16 decodes_w_u32 decodes_w_u64
  decodes_w_u64_again decodes_r_u8 decodes_r_u16 decodes_r_u32 decodes_r_u64
  decodes_wire_bytes : codec.
#[export] Hint Resolve fits_bool_byte : codec.

(** The converse: what an accepting field has consumed. *)
Lemma parses_w_u8 : parses w_u8 (fun bs v => bs = put8 v /\ fits 8 v).
Proof. apply (parses_of_read malformed 1). Qed.
Lemma parses_w_u16 : parses w_u16 (fun bs v => bs = put16 v /\ fits 16 v).
Proof. apply (parses_of_read malformed 2). Qed.
Lemma parses_w_u32 : parses w_u32 (fun bs v => bs = put32 v /\ fits 32 v).
Proof. apply (parses_of_read malformed 4). Qed.
Lemma parses_w_u64 : parses w_u64 (fun bs v => bs = put64 v /\ fits 64 v).
Proof. apply (parses_of_read malformed 8). Qed.
Lemma parses_w_u64_again : parses w_u64_again (fun bs v => bs = put64 v /\ fits 64 v).
Proof. apply (parses_of_read (malformed ++ malformed) 8). Qed.

Lemma parses_wire_bytes n : 0 <= n -> parses (wire_bytes n) (fun bs v => bs = v /\ size v = n).
Proof.
  intros Hn r v r' Hwf Hok. unfold wire_bytes. destruct (remaining r <? n); [done|].
  destruct (Z.ltb_spec 0 n).
  - destruct (read_raw n r) as [[bs|] r1] eqn:Hr; [|done]. intros [= <- <-].
    destruct (read_raw_parses n bs r r1 ltac:(lia) Hwf Hok Hr) as (? & ? & ? & ?).
    by exists bs.
  - intros [= <- <-]. exists []. rewrite size_nil. split; [done|]. split; [done|]. split; [done|].
    split; [done|lia].
Qed.

(** Walk through an accepting decoder. *)
Ltac parse_field lem :=
  eapply parses_bind; [apply lem|]; intros ? ? [-> ?].
Ltac parse_last lem :=
  eapply parses_all_bind; [apply lem|]; intros ? ? [-> ?].
Ltac parse_step :=
  cbv zeta; cbn beta;
  lazymatch goal with
  | |- parses (require_with _ _ ≫= _) _ => apply parses_require; intros ?
  | |- parses (wire_require _ _ _ ≫= _) _ => apply parses_require; intros ?
  | |- parses (w_u8 ≫= _) _ => parse_field parses_w_u8
  | |- parses (w_u16 ≫= _) _ => parse_field parses_w_u16
  | |- parses (w_u32 ≫= _) _ => parse_field parses_w_u32
  | |- parses (w_u64 ≫= _) _ => parse_field parses_w_u64
  | |- parses (w_u64_again ≫= _) _ => parse_field parses_w_u64_again
  | |- parses_all (wire_require _ _ _ ≫= _) _ => apply parses_all_require; intros ?
  | |- parses_all (w_u8 ≫= _) _ => parse_last parses_w_u8
  | |- parses_all (w_u16 ≫= _) _ => parse_last parses_w_u16
  | |- parses_all (w_u32 ≫= _) _ => parse_last parses_w_u32
  | |- parses_all (w_u64 ≫= _) _ => parse_last parses_w_u64
  | |- parses_all (w_u64_again ≫= _) _ => parse_last parses_w_u64_again
  | |- parses_all (wire_end;; mret _) _ => apply parses_all_end
  | |- parses (mret _) _ => apply parses_ret
  end.
Ltac parse_fields := repeat parse_step.

Ltac decode_step ::=
  lazymatch goal with
  | |- decodes (require_with _ _ ≫= _) _ _ => apply decodes_require
  | |- decodes (wire_require _ _ _ ≫= _) _ _ => apply decodes_require
  | |- decodes (r_require _ _ _ _ ≫= _) _ _ => apply decodes_require
  | |- decodes_all (require_with _ _ ≫= _) _ _ => apply decodes_all_require
  | |- decodes_all (wire_require _ _ _ ≫= _) _ _ => apply decodes_all_require
  | |- decodes_all (r_require _ _ _ _ ≫= _) _ _ => apply decodes_all_require
  | |- decodes_all (wire_end ≫= _) [] _ => apply decodes_all_done
  | |- decodes_all (done_reading_with _ ≫= _) [] _ => apply decodes_all_done
  | |- decodes (mret _) [] _ => apply decodes_ret
  | |- decodes_all (mret _) _ _ => apply decodes_all_ret
  | |- decodes (_ ≫= _) (_ ++ _) _ => eapply decodes_bind; [solve [auto with codec]|]
  | |- decodes_all (_ ≫= _) (_ ++ _) _ => eapply decodes_all_bind; [solve [auto with codec]|]
  | |- decodes (_ ≫= _) _ _ => eapply decodes_last; [solve [auto with codec]|]
  | |- decodes_all (_ ≫= _) _ _ => eapply decodes_all_last; [solve [auto with codec]|]
  end.

(** ** Segments *)

(** A segment the wire carries: its kind is set, its encoding may be left to the
    canonicalization at commit. *)
Definition segment_wire (limits : Limits) (s : Segment) : Prop :=
  seg_kind s <> KInvalid /\ segment_fits s /\
  size (seg_payload s) <= max_segment_payload_bytes limits /\ fits 16 (size (seg_payload s)).

Lemma wire_encoding e : negb (encoding_value AbstractPolicyV1 <? encoding_value e) = true.
Proof. by destruct e. Qed.

#[export] Hint Resolve wire_encoding : codec.

Lemma read_segment_write limits s :
  segment_wire limits s -> decodes (read_segment limits) (wire_segment s) s.
Proof.
  intros (Hk & (? & ? & ? & ? & ? & ? & ? & ? & ?) & Hp & Hp').
  unfold read_segment, wire_segment. decode_fields; try storable.
  rewrite kind_of_value_kind, encoding_of_value_encoding. destruct s. apply decodes_ret.
Qed.

Lemma kind_value_of_value v :
  fits 16 v -> negb ((v =? 0) || (kind_value KPolicy <? v)) = true ->
  kind_value (kind_of_value v) = v /\ kind_of_value v <> KInvalid.
Proof.
  unfold fits. intros Hv H. rewrite negb_orb in H. simpl_bools. cbn in *.
  assert (v = 1 \/ v = 2 \/ v = 3 \/ v = 4 \/ v = 5) as Hc by lia.
  destruct Hc as [->|[->|[->|[->| ->]]]]; by vm_compute.
Qed.

Lemma encoding_value_of_value v :
  fits 16 v -> negb (encoding_value AbstractPolicyV1 <? v) = true ->
  encoding_value (encoding_of_value v) = v.
Proof.
  unfold fits. intros Hv H. simpl_bools. cbn in *.
  assert (v = 0 \/ v = 1 \/ v = 2 \/ v = 3 \/ v = 4 \/ v = 5) as Hc by lia.
  destruct Hc as [->|[->|[->|[->|[->| ->]]]]]; by vm_compute.
Qed.

Lemma read_segment_exact limits :
  parses (read_segment limits) (fun bs s => bs = wire_segment s /\ segment_wire limits s).
Proof.
  unfold read_segment. parse_fields.
  eapply parses_bind; [apply parses_wire_bytes; unfold fits in *; lia|]. intros ? payload [-> Hl].
  destruct (kind_value_of_value x) as [Hk Hk']; [done..|].
  pose proof (encoding_value_of_value x0) as He.
  apply parses_ret. unfold wire_segment, segment_wire, segment_fits. cbn. simpl_bools.
  rewrite Hk, He, Hl, app_nil_r by (done || apply negb_true_iff; apply Z.ltb_ge; done).
  by split_and!.
Qed.

(** A decoder over a whole span accepts exactly the bytes of what it reads. *)
Definition exact {A} (m : WDec A) (enc : A -> list Byte.byte) (P : A -> Prop) : Prop :=
  forall bytes limits result x out,
    decode_payload m bytes limits result = (Some x, out) <->
    P x /\ bytes = enc x /\ out = set_limits (Some limits) result.

Lemma exact_payload {A} (m : WDec A) (enc : A -> list Byte.byte) (P : A -> Prop) :
  (forall x, P x -> decodes_all m (enc x) x) ->
  parses_all m (fun bs x => bs = enc x /\ P x) ->
  exact m enc P.
Proof.
  intros Hdec Hpar bytes limits result x out. unfold decode_payload. split.
  - destruct (m (reader bytes)) as [[y r']|] eqn:Hr; [|done]. intros [= <- <-].
    destruct (Hpar _ _ _ (reader_reader_wf bytes) eq_refl Hr) as [Hb HP]. done.
  - intros (HP & -> & ->). destruct (Hdec x HP _ (in_front_reader (enc x))) as (r' & ->). done.
Qed.

(** Both directions of a payload made of plain fields. *)
Ltac exact_fields body enc :=
  apply exact_payload;
  [ intros []; intros; unfold body, enc; cbn in *; destruct_and?; decode_fields
  | unfold body; parse_fields; unfold enc; cbn; rewrite ?app_nil_r; by split_and! ].

Lemma hello_exact :
  exact hello_body encode_hello (fun h => fits 64 (he_boot h) /\ fits 64 (he_publisher h) /\
    fits 64 (he_scope h) /\ fits 64 (he_epoch h)).
Proof. exact_fields hello_body encode_hello. Qed.

Lemma hello_ack_exact :
  exact hello_ack_body encode_hello_ack (fun a => fits 64 (ha_epoch a) /\ fits 64 (ha_session a)).
Proof. exact_fields hello_ack_body encode_hello_ack. Qed.

Lemma heartbeat_exact :
  exact heartbeat_body encode_heartbeat (fun b => fits 64 (hb_publisher b) /\
    fits 64 (hb_boot b) /\ fits 64 (hb_epoch b)).
Proof. exact_fields heartbeat_body encode_heartbeat. Qed.

Lemma get_exact : exact get_body encode_get (fun g => fits 64 (ge_list g)).
Proof. exact_fields get_body encode_get. Qed.

Lemma op_of_value_op o : op_of_value (op_value o) = o.
Proof. by destruct o. Qed.
Lemma fits_op o : fits 8 (op_value o).
Proof. destruct o; vm_compute; split; congruence. Qed.
Lemma op_check o : negb ((op_value o =? 0) || (op_value OpRevalidate <? op_value o)) = true.
Proof. by destruct o. Qed.

#[export] Hint Resolve fits_op op_check : codec.

Lemma op_value_of_value v :
  fits 8 v -> negb ((v =? 0) || (op_value OpRevalidate <? v)) = true ->
  op_value (op_of_value v) = v.
Proof.
  unfold fits. intros Hv H. rewrite negb_orb in H. simpl_bools. cbn in *.
  assert (v = 1 \/ v = 2 \/ v = 3 \/ v = 4 \/ v = 5) as Hc by lia.
  by destruct Hc as [->|[->|[->|[->| ->]]]].
Qed.

Lemma lifecycle_exact :
  exact lifecycle_body encode_lifecycle (fun q => fits 64 (lq_attempt q) /\ fits 64 (lq_list q) /\
    fits 64 (lq_expected q)).
Proof.
  apply exact_payload.
  - intros q (? & ? & ?). unfold lifecycle_body, encode_lifecycle. decode_fields; try storable.
    rewrite op_of_value_op. destruct q. apply decodes_all_ret.
  - unfold lifecycle_body. parse_fields. unfold encode_lifecycle. cbn.
    rewrite op_value_of_value, ?app_nil_r by done. by split_and!.
Qed.

(** *** Mutations *)

(** A mutation the wire carries. *)
Definition mutation_wire (limits : Limits) (m : MutationRequest) : Prop :=
  let d := mu_draft m in
  Forall (fits 64) [mu_attempt m; ld_id d; ld_scope d; ld_profile d; ld_profile_generation d;
    ld_policy d; ld_policy_generation d] /\
  Forall (fits 64) [ld_topology d; ld_capability d; ld_path d; ld_path_authority d; ld_route d;
    ld_route_generation d; ld_constraint d; ld_constraint_generation d;
    ld_expected_generation d; ld_supersedes d; ld_supersedes_generation d] /\
  size (ld_segments d) <= max_segments_per_list limits /\ fits 32 (size (ld_segments d)) /\
  Forall (segment_wire limits) (ld_segments d).

Lemma decodes_wire_segments limits n ss :
  n = size ss -> Forall (segment_wire limits) ss ->
  decodes (repeat_dec (Z.to_nat n) (read_segment limits)) (concat (map wire_segment ss)) ss.
Proof.
  intros -> H. unfold size. rewrite Nat2Z.id. apply decodes_repeat.
  eapply list.Forall_impl; [exact H|]. apply read_segment_write.
Qed.

Lemma bool_byte_check b : bool_byte b <=? 1 = true.
Proof. by destruct b. Qed.
Lemma bool_byte_read b : negb (bool_byte b =? 0) = b.
Proof. by destruct b. Qed.
Lemma bool_byte_of_read v : fits 8 v -> v <=? 1 = true -> bool_byte (negb (v =? 0)) = v.
Proof.
  unfold fits. intros Hv H. simpl_bools. assert (v = 0 \/ v = 1) as [->| ->] by lia; done.
Qed.
Lemma strictness_of_read v :
  (v =? strictness_value Strict) || (v =? strictness_value Loose) = true ->
  strictness_value (strictness_of_value v) = v.
Proof. rewrite orb_true_iff, !Z.eqb_eq. by intros [->| ->]. Qed.

#[export] Hint Resolve decodes_wire_segments bool_byte_check : codec.

Lemma decode_mutation_bytes limits m :
  mutation_wire limits m -> decodes_all (mutation_body limits) (mutation_bytes m) m.
Proof.
  unfold mutation_wire. cbv zeta. intros (Hh & Hb & ? & ? & ?). forall_fits.
  assert (1 <= 8) by lia.
  unfold mutation_body, mutation_bytes. cbv zeta. decode_fields; try storable.
  rewrite strictness_of_value_strictness, bool_byte_read.
  destruct m as [? []]. apply decodes_all_ret.
Qed.

Lemma mutation_exact limits :
  exact (mutation_body limits) mutation_bytes (mutation_wire limits).
Proof.
  apply exact_payload; [apply decode_mutation_bytes|].
  unfold mutation_body. parse_fields.
  match goal with H : fits 32 _ |- _ => rename H into Hn end.
  eapply parses_all_bind; [apply parses_repeat, read_segment_exact|].
  intros ? segments (-> & Hlen & Hss). parse_fields. unfold mutation_bytes, mutation_wire. cbn.
  rewrite strictness_of_read, bool_byte_of_read, app_nil_r by done.
  assert (0 <= x19) as Hx by (unfold fits in Hn; lia). simpl_bools.
  assert (size segments = x19) as -> by (unfold size; lia).
  split; [done|]. split_and!; try done; repeat (apply list.Forall_cons_2; [done|]);
    apply list.Forall_nil_2.
Qed.

(** *** Responses *)

Definition reason_wire (r : WireReason) : Prop :=
  fits 16 (wr_code r) /\ fits 32 (wr_index r) /\ fits 64 (wr_detail r).

Definition digest_fits (d : Digest128) : Prop := fits 64 (hi d) /\ fits 64 (lo d).

Definition summary_wire (s : ListSummary) : Prop :=
  fits 64 (sm_list s) /\ fits 64 (sm_generation s) /\ sm_state s <> SInvalid /\
  fits 64 (sm_profile s) /\ fits 64 (sm_profile_generation s) /\ digest_fits (sm_digest s) /\
  fits 32 (sm_segment_count s) /\ fits 64 (sm_epoch s).

Definition response_wire (limits : Limits) (p : Response) : Prop :=
  fits 64 (rp_request_id p) /\ size (rp_reasons p) <= max_reasons limits /\
  fits 32 (size (rp_reasons p)) /\ Forall reason_wire (rp_reasons p) /\
  fits 64 (rp_list p) /\ fits 64 (rp_generation p) /\ digest_fits (rp_digest p) /\
  fits 64 (rp_epoch p) /\ fits 64 (rp_session p) /\
  size (rp_summaries p) <= max_lists limits /\ fits 32 (size (rp_summaries p)) /\
  Forall summary_wire (rp_summaries p).

Lemma read_reason_write p r : reason_wire r -> decodes (read_reason p) (reason_bytes r) r.
Proof.
  intros (? & ? & ?). unfold read_reason, reason_bytes. decode_fields. destruct r.
  apply decodes_ret.
Qed.

Lemma read_reasons_write n rs p :
  n = size rs -> Forall reason_wire rs ->
  decodes (read_reasons (Z.to_nat n) p) (concat (map reason_bytes rs))
    {| p with rp_reasons := rp_reasons p ++ rs |}.
Proof.
  intros -> Hrs. unfold size. rewrite Nat2Z.id. revert p.
  induction Hrs as [|r rs Hr Hrs IH]; intros p; cbn [map concat length read_reasons].
  - rewrite app_nil_r. destruct p. apply decodes_ret.
  - eapply decodes_bind; [by apply read_reason_write|].
    pose proof (IH {| p with rp_reasons := rp_reasons p ++ [r] |}) as H. cbn in H.
    by rewrite <-app_assoc in H.
Qed.

Lemma read_summary_write p s : summary_wire s -> decodes (read_summary p) (summary_bytes s) s.
Proof.
  intros (? & ? & ? & ? & ? & [? ?] & ? & ?). unfold read_summary, summary_bytes.
  decode_fields; try storable.
  rewrite state_of_value_state, currentness_of_value_currentness.
  destruct s as [? ? ? ? ? ? [] ? ?]. apply decodes_ret.
Qed.

Lemma read_summaries_write n ss p :
  n = size ss -> Forall summary_wire ss ->
  decodes (read_summaries (Z.to_nat n) p) (concat (map summary_bytes ss))
    {| p with rp_summaries := rp_summaries p ++ ss |}.
Proof.
  intros -> Hss. unfold size. rewrite Nat2Z.id. revert p.
  induction Hss as [|s ss Hs Hss IH]; intros p; cbn [map concat length read_summaries].
  - rewrite app_nil_r. destruct p. apply decodes_ret.
  - eapply decodes_bind; [by apply read_summary_write|].
    pose proof (IH {| p with rp_summaries := rp_summaries p ++ [s] |}) as H. cbn in H.
    by rewrite <-app_assoc in H.
Qed.

Lemma status_of_value_status s : status_of_value (status_value s) = s.
Proof. by destruct s. Qed.
Lemma fits_status s : fits 8 (status_value s).
Proof. destruct s; vm_compute; split; congruence. Qed.
Lemma status_check s : negb (status_value StInternal <? status_value s) = true.
Proof. by destruct s. Qed.

#[export] Hint Resolve read_reasons_write read_summaries_write fits_status status_check : codec.

Lemma decode_response_bytes limits p :
  response_wire limits p ->
  decodes_all (response_body limits empty_response) (response_bytes p) p.
Proof.
  intros (? & ? & ? & ? & ? & ? & [? ?] & ? & ? & ? & ? & ?). assert (1 <= 8) by lia.
  unfold response_body, response_bytes. cbv zeta. decode_fields; try storable.
  rewrite status_of_value_status, !bool_byte_read.
  destruct p as [? ? ? ? ? ? [] ? ? ? ?]. apply decodes_all_ret.
Qed.

(** Round trip of a response.  A response whose fields fit their widths and whose
    reasons and summaries are within the limits is encoded, and the client decodes exactly
    the response the coordinator encoded. *)
Theorem response_round_trip limits p result result' :
  response_wire limits p ->
  let '(bytes, out) := encode_response p limits result in
  out = set_limits (Some limits) result /\
  decode_response bytes limits empty_response result' =
    (true, p, set_limits (Some limits) result').
Proof.
  intros Hp. pose proof Hp as (_ & _ & _ & _ & _ & _ & _ & _ & _ & Hs & _).
  unfold encode_response. destruct (Z.ltb_spec (max_lists limits) (size (rp_summaries p))); [lia|].
  split; [done|]. unfold decode_response.
  destruct (decode_response_bytes limits p Hp _ (in_front_reader _)) as (r' & ->). done.
Qed.
