(* ===== verification/WireRequests.v ===== *)
(** * Requests: what a refused payload leaves behind

    The payload decoders never refuse silently, so that the status of the response to a
    payload that does not decode is never the status of success; and they accept exactly
    the encodings of well-formed requests. *)

From S2P Require Import Prelude.
From S2P Require Import Ids.
From S2P Require Import Bytes.
From S2P Require Import Reason.
From S2P Require Import Codec.
From S2P Require Import Store.
From S2P Require Import Wire.
From S2P Require Import WireProps.

(** A decoder that names a reason whenever it refuses. *)
Definition complains {A} (m : WDec A) : Prop :=
  forall r e, m r = inr e -> e <> [] /\ no_ok e.

Create HintDb complains discriminated.

Section Complains.
Context {A B : Type}.

Lemma complains_ret (x : A) : complains (mret x).
Proof. done. Qed.

Lemma complains_bind (m : WDec A) (f : A -> WDec B) :
  complains m -> (forall x, complains (f x)) -> complains (m ≫= f).
Proof.
  intros Hm Hf r e. unfold mbind, dec_bind. destruct (m r) as [[x r']|e'] eqn:Er.
  - apply Hf.
  - intros [= <-]. by apply Hm in Er.
Qed.

Lemma complains_of_read (e : WireError) read :
  e <> [] -> no_ok e -> complains (of_read_with e read).
Proof. intros He Hn r e'. unfold of_read_with. destruct (read r) as [[v|] r']; [done|]. by intros [= <-]. Qed.

Lemma complains_require condition code detail :
  code <> ReasonOk -> complains (wire_require condition code detail).
Proof.
  intros Hc r e. unfold wire_require, require_with. destruct condition; [done|].
  intros [= <-]. split; [done|]. by constructor.
Qed.

End Complains.

Lemma complains_repeat {A} n (m : WDec A) : complains m -> complains (repeat_dec n m).
Proof.
  intros Hm. induction n as [|n IH]; cbn [repeat_dec]; [apply complains_ret|].
  apply complains_bind; [done|]. intros x. apply complains_bind; [done|]. intros xs.
  apply complains_ret.
Qed.

Lemma malformed_no_ok : no_ok malformed.
Proof. by constructor. Qed.
Lemma malformed_again_no_ok : no_ok (malformed ++ malformed).
Proof. by repeat constructor. Qed.

Lemma complains_u8 : complains w_u8.
Proof. apply complains_of_read; [done|apply malformed_no_ok]. Qed.
Lemma complains_u16 : complains w_u16.
Proof. apply complains_of_read; [done|apply malformed_no_ok]. Qed.
Lemma complains_u32 : complains w_u32.
Proof. apply complains_of_read; [done|apply malformed_no_ok]. Qed.
Lemma complains_u64 : complains w_u64.
Proof. apply complains_of_read; [done|apply malformed_no_ok]. Qed.
Lemma complains_u64_again : complains w_u64_again.
Proof. apply complains_of_read; [done|apply malformed_again_no_ok]. Qed.

Lemma complains_end : complains wire_end.
Proof.
  intros r e. unfold wire_end, done_reading_with. destruct (at_end r); [done|].
  intros [= <-]. split; [done|]. by constructor.
Qed.

Lemma complains_bytes n : complains (wire_bytes n).
Proof.
  intros r e. unfold wire_bytes. pose proof malformed_no_ok.
  destruct (_ <? _); [by intros [= <-]|]. destruct (0 <? n); [|done].
  destruct (read_raw n r) as [[bs|] r']; [done|by intros [= <-]].
Qed.

#[export] Hint Resolve complains_ret complains_u8 complains_u16 complains_u32 complains_u64
  complains_u64_again complains_end complains_bytes complains_repeat : complains.

Ltac complain :=
  repeat first
    [ solve [eauto 2 with complains]
    | apply complains_bind; [|intros ?]
    | apply complains_require; congruence
    | apply complains_repeat ].

Lemma complains_segment limits : complains (read_segment limits).
Proof. unfold read_segment. complain. Qed.
#[export] Hint Resolve complains_segment : complains.

Lemma complains_mutation limits : complains (mutation_body limits).
Proof. unfold mutation_body. cbv zeta. complain. Qed.
Lemma complains_lifecycle : complains lifecycle_body.
Proof. unfold lifecycle_body. complain. Qed.
Lemma complains_hello : complains hello_body.
Proof. unfold hello_body. complain. Qed.
Lemma complains_heartbeat : complains heartbeat_body.
Proof. unfold heartbeat_body. complain. Qed.
Lemma complains_get : complains get_body.
Proof. unfold get_body. complain. Qed.

(** A payload that is refused is refused with a reason. *)
Lemma refused_payload {A} (m : WDec A) bytes limits result out :
  complains m -> 0 < max_reasons limits ->
  decode_payload m bytes limits result = (None, out) -> result_ok out = false.
Proof.
  intros Hm Hcap. unfold decode_payload. destruct (m (reader bytes)) as [[x r]|e] eqn:He; [done|].
  intros [= <-]. apply Hm in He as [Hne Hno]. apply not_true_iff_false. intros Hok.
  by apply emit_result_ok in Hok as [_ ?].
Qed.

(** C33: The decoder of mutations.  It accepts exactly the encodings of the well-formed
    requests and returns the request that was encoded; whatever it refuses, it refuses
    with a reason. *)
Theorem decode_mutation_exact bytes limits result :
  0 < max_reasons limits ->
  match decode_mutation bytes limits result with
  | (Some m, out) => bytes = mutation_bytes m /\ mutation_wire limits m /\
                     out = set_limits (Some limits) result
  | (None, out) => result_ok out = false /\
                   forall m, mutation_wire limits m -> bytes <> mutation_bytes m
  end.
Proof.
  intros Hcap. pose proof (fun x => mutation_exact limits bytes limits result x) as Hex.
  unfold decode_mutation. destruct (decode_payload _ _ _ _) as [[m|] out] eqn:Hd.
  - by destruct (proj1 (Hex m out) eq_refl) as (? & ? & ?).
  - split; [exact (refused_payload _ _ _ _ _ (complains_mutation limits) Hcap Hd)|].
    intros m Hm Hb. by discriminate (proj2 (Hex m _) (conj Hm (conj Hb eq_refl))).
Qed.
