(* ===== verification/WireFrames.v ===== *)
(** * Frames and their assembly

    [decode_frame] accepts exactly the encodings of well-formed frames, and the frames a
    [FrameAssembler] delivers do not depend on how the bytes are cut into chunks. *)

From coqutil Require Import Word.LittleEndianList.
From S2P Require Import Prelude.
From S2P Require Import Ids.
From S2P Require Import Bytes.
From S2P Require Import Digest.
From S2P Require Import Reason.
From S2P Require Import Codec.
From S2P Require Import PersistenceProps.
From S2P Require Import Wire.
From S2P Require Import WireProps.

(** A frame the wire carries. *)
Definition frame_wire (limits : Limits) (f : Frame) : Prop :=
  fr_version f = kWireProtocolVersion /\ 0 < fr_message f <= Message.Response /\
  fr_flags f = 0 /\ fits 64 (fr_request_id f) /\
  size (fr_payload f) <= max_frame_bytes limits /\ fits 32 (size (fr_payload f)).

(** ** The header *)

Definition header_fields (h : FrameHeader) : list Byte.byte :=
  put16 (fh_version h) ++ put16 (fh_message h) ++ put16 (fh_flags h) ++
  put16 (fh_reserved h) ++ put32 (fh_payload_length h) ++ put64 (fh_request_id h).

Definition header_fits (h : FrameHeader) : Prop :=
  fits 16 (fh_version h) /\ fits 16 (fh_message h) /\ fits 16 (fh_flags h) /\
  fits 16 (fh_reserved h) /\ fits 32 (fh_payload_length h) /\ fits 64 (fh_request_id h) /\
  fits 32 (fh_crc h).

Lemma length_header_fields h : length (header_fields h) = 20%nat.
Proof.
  unfold header_fields. rewrite !length_app, !length_put16, length_put32, length_put64. done.
Qed.

Lemma skip_decodes {E} (e : E) bs : decodes (skip_with e (size bs)) bs tt.
Proof.
  intros r tl (Hwf & Hok & Hr). destruct (read_raw_app bs tl r Hwf Hok Hr) as (r' & E' & H).
  exists r'. split; [|done]. unfold skip_with, skip. unfold read_raw in E'.
  destruct (negb (ok r) || _); [done|]. by simplify_eq.
Qed.

Lemma skip_parses {E} (e : E) n : 0 <= n -> parses (skip_with e n) (fun bs _ => size bs = n).
Proof.
  intros Hn r [] r' Hwf Hok H. unfold skip_with, skip in H.
  destruct (negb (ok r) || (remaining r <? n)) eqn:Hc; [done|].
  assert (read_raw n r = (Some (take (Z.to_nat n) (rest r)), r')) as Hr.
  { unfold read_raw. rewrite Hc. by simplify_eq. }
  destruct (read_raw_parses n _ r r' Hn Hwf Hok Hr) as (? & ? & ? & ?). by eexists.
Qed.

Lemma read_header_write magic h :
  size magic = 4 -> header_fits h ->
  decodes read_header (magic ++ header_fields h ++ put32 (fh_crc h)) h.
Proof.
  intros Hm (? & ? & ? & ? & ? & ? & ?). unfold read_header, header_fields. cbv zeta.
  rewrite <-Hm. eapply decodes_bind; [apply skip_decodes|]. rewrite <-!app_assoc.
  eapply decodes_bind; [by apply (decodes_of_read _ 2)|].
  eapply decodes_bind; [by apply (decodes_of_read _ 2)|].
  eapply decodes_bind; [by apply (decodes_of_read _ 2)|].
  eapply decodes_bind; [by apply (decodes_of_read _ 2)|].
  eapply decodes_bind; [by apply (decodes_of_read _ 4)|].
  eapply decodes_bind; [by apply (decodes_of_read _ 8)|].
  eapply decodes_last; [by apply (decodes_of_read _ 4)|].
  destruct h. apply decodes_ret.
Qed.

Lemma read_header_exact :
  parses read_header (fun bs h => exists magic, size magic = 4 /\
    bs = magic ++ header_fields h ++ put32 (fh_crc h) /\ header_fits h).
Proof.
  unfold read_header. cbv zeta.
  eapply parses_bind; [by apply skip_parses|]. intros magic [] Hm. cbn beta in Hm.
  eapply parses_bind; [apply (parses_of_read _ 2)|]. intros ? version [-> ?].
  eapply parses_bind; [apply (parses_of_read _ 2)|]. intros ? message [-> ?].
  eapply parses_bind; [apply (parses_of_read _ 2)|]. intros ? flags [-> ?].
  eapply parses_bind; [apply (parses_of_read _ 2)|]. intros ? reserved [-> ?].
  eapply parses_bind; [apply (parses_of_read _ 4)|]. intros ? payload_length [-> ?].
  eapply parses_bind; [apply (parses_of_read _ 8)|]. intros ? request_id [-> ?].
  eapply parses_bind; [apply (parses_of_read _ 4)|]. intros ? crc [-> ?].
  apply parses_ret. exists magic. split; [done|]. split; [|by split_and!].
  unfold header_fields. cbn. by rewrite <-!app_assoc, app_nil_r.
Qed.

(** The header of the first 28 bytes, whatever they are. *)
Lemma read_header_total bytes :
  size bytes = kFrameHeaderBytes ->
  exists h r, read_header (reader bytes) = inl (h, r) /\ header_fits h /\
    exists magic, size magic = 4 /\ bytes = magic ++ header_fields h ++ put32 (fh_crc h).
Proof.
  intros Hs.
  destruct (read_header (reader bytes)) as [[h r]|e] eqn:Hr.
  - exists h, r. split; [done|].
    destruct (read_header_exact _ _ _ (reader_reader_wf bytes) eq_refl Hr)
      as (bs & (_ & _ & Hb) & Hwf & _ & magic & Hm & -> & Hh).
    split; [done|]. exists magic. split; [done|].
    change (rest (reader bytes)) with bytes in Hb. rewrite Hb in Hs |- *.
    assert (rest r = []) as ->; [|by rewrite app_nil_r].
    rewrite !size_app in Hs. unfold size in Hs.
    rewrite length_header_fields, length_put32 in Hs. unfold kFrameHeaderBytes, size in *.
    destruct (rest r); [done|cbn in Hs; lia].
  - exfalso. revert Hr.
    assert (forall n (r : ByteReader), ok r = true -> remaining r >= n -> 0 <= n ->
      exists bs, read_raw n r = (Some bs, mkReader (data r) (pos r + n) true)) as Hraw.
    { intros n r Hok Hrem Hn. eexists. unfold read_raw. rewrite Hok. cbn [negb orb].
      destruct (Z.ltb_spec (remaining r) n); [lia|]. done. }
    unfold kFrameHeaderBytes in Hs.
    unfold read_header, mbind, dec_bind, skip_with, skip, of_read_with, read_u16, read_u32, read_u64,
      read_uint. cbn [ok reader negb orb remaining data pos].
    destruct (Z.ltb_spec (remaining (reader bytes)) 4) as [Hl|_];
      [unfold remaining in Hl; cbn in Hl; lia|].
    repeat match goal with |- context [read_raw ?n ?r] =>
      let bs := fresh "bs" in let H := fresh in
      destruct (Hraw n r) as [bs H]; [done|unfold remaining; cbn [data pos]; lia|lia|];
      rewrite H; clear H; cbn [data pos] end.
    done.
Qed.

(** ** Frames *)

(** The header of a frame. *)
Definition header_of (f : Frame) : FrameHeader := {|
  fh_version := fr_version f; fh_message := fr_message f; fh_flags := fr_flags f;
  fh_reserved := 0; fh_payload_length := size (fr_payload f); fh_request_id := fr_request_id f;
  fh_crc := crc32c (wire_head f) |}.

Lemma wire_head_fields f : wire_head f = kWireMagic ++ header_fields (header_of f).
Proof. done. Qed.

Lemma size_wire_head f : size (wire_head f) = 24.
Proof.
  rewrite wire_head_fields, size_app. unfold size. by rewrite length_header_fields.
Qed.

Lemma size_put32 v : size (put32 v) = 4.
Proof. unfold size. by rewrite length_put32. Qed.

Lemma size_frame_bytes f :
  size (frame_bytes f) = kFrameHeaderBytes + size (fr_payload f) + kFrameTrailerBytes.
Proof.
  unfold frame_bytes. rewrite !size_app, size_wire_head, !size_put32.
  unfold kFrameHeaderBytes, kFrameTrailerBytes. lia.
Qed.

Lemma header_of_fits limits f : frame_wire limits f -> header_fits (header_of f).
Proof.
  unfold frame_wire, header_fits, kWireProtocolVersion, Message.Response, header_of.
  cbn [fh_version fh_message fh_flags fh_reserved fh_payload_length fh_request_id fh_crc].
  intros (Hv & Hm & Hfl & ? & ? & ?). rewrite Hv, Hfl.
  pose proof (crc32c_fits (wire_head f)). unfold fits in *. lia.
Qed.

Lemma take_size_app {A} (l k : list A) n : n = size l -> take (Z.to_nat n) (l ++ k) = l.
Proof. intros ->. unfold size. by rewrite Nat2Z.id, take_app_length. Qed.
Lemma drop_size_app {A} (l k : list A) n : n = size l -> drop (Z.to_nat n) (l ++ k) = k.
Proof. intros ->. unfold size. by rewrite Nat2Z.id, drop_app_length. Qed.
Lemma size_take {A} (l : list A) n : 0 <= n <= size l -> size (take (Z.to_nat n) l) = n.
Proof. unfold size. intros. rewrite length_take. lia. Qed.
Lemma size_drop {A} (l : list A) n : 0 <= n <= size l -> size (drop (Z.to_nat n) l) = size l - n.
Proof. unfold size. intros. rewrite length_drop. lia. Qed.

(** The header a frame's bytes start with, whatever follows it. *)
Lemma header_of_frame limits f tl :
  frame_wire limits f ->
  exists r, read_header (reader (take (Z.to_nat kFrameHeaderBytes) (frame_bytes f ++ tl))) =
    inl (header_of f, r).
Proof.
  intros Hf.
  assert (take (Z.to_nat kFrameHeaderBytes) (frame_bytes f ++ tl) =
    kWireMagic ++ header_fields (header_of f) ++ put32 (fh_crc (header_of f))) as ->.
  { unfold frame_bytes. rewrite wire_head_fields.
    replace ((_ ++ put32 _ ++ _) ++ tl) with
      ((kWireMagic ++ header_fields (header_of f) ++ put32 (fh_crc (header_of f))) ++
       fr_payload f ++ put32 (crc32c (fr_payload f)) ++ tl)
      by (cbn [fh_crc header_of]; by rewrite <-wire_head_fields, <-!app_assoc).
    apply take_size_app. rewrite !size_app, size_put32. unfold size.
    by rewrite length_header_fields. }
  destruct (read_header_write kWireMagic (header_of f) ltac:(done) (header_of_fits limits f Hf)
    (reader (kWireMagic ++ header_fields (header_of f) ++ put32 (fh_crc (header_of f)))) [])
    as (r & Hr & _).
  { rewrite app_nil_r. apply in_front_reader. }
  by exists r.
Qed.

(** The trailer after a payload is its checksum. *)
Lemma trailer_read v tl :
  fits 32 v -> exists r, read_u32 (reader (put32 v ++ tl)) = (Some v, r).
Proof.
  intros Hv. destruct (read_uint_app 4 v tl (reader (put32 v ++ tl)) Hv) as (r & Hr & _);
    [apply reader_reader_wf|done|done|]. by exists r.
Qed.

Lemma check_wire_frame_bytes limits f :
  frame_wire limits f -> check_wire_frame (frame_bytes f) limits = inl f.
Proof.
  intros Hf. pose proof (size_frame_bytes f) as Hs. pose proof (size_nonneg (fr_payload f)).
  destruct (header_of_frame limits f [] Hf) as (r & Hr). rewrite app_nil_r in Hr.
  pose proof Hf as (Hv & Hm & Hfl & _ & Hp & _).
  unfold check_wire_frame, kFrameHeaderBytes, kFrameTrailerBytes, Message.Response in *.
  destruct (Z.ltb_spec (size (frame_bytes f)) (28 + 4)); [lia|].
  rewrite bool_decide_eq_true_2 by done. cbn [negb]. rewrite Hr.
  cbn [fh_crc fh_version fh_reserved fh_flags fh_message fh_payload_length fh_request_id header_of].
  replace (take (Z.to_nat (28 - 4)) (frame_bytes f)) with (wire_head f)
    by (symmetry; apply take_size_app; by rewrite size_wire_head).
  rewrite Z.eqb_refl, Hv, Hfl. cbn [negb].
  destruct (Z.eqb_spec (fr_message f) 0); [lia|]. cbn [orb].
  destruct (Z.ltb_spec 40 (fr_message f)); [lia|].
  destruct (Z.ltb_spec (max_frame_bytes limits) (size (fr_payload f))); [lia|].
  rewrite Hs, !Z.ltb_irrefl.
  assert (drop (Z.to_nat 28) (frame_bytes f) =
    fr_payload f ++ put32 (crc32c (fr_payload f))) as ->.
  { unfold frame_bytes. rewrite (app_assoc (wire_head f)). apply drop_size_app.
    by rewrite size_app, size_wire_head, size_put32. }
  assert (drop (Z.to_nat (28 + size (fr_payload f))) (frame_bytes f) =
    put32 (crc32c (fr_payload f))) as ->.
  { unfold frame_bytes. rewrite (app_assoc (wire_head f)), (app_assoc _ (fr_payload f)).
    apply drop_size_app. by rewrite !size_app, size_wire_head, size_put32. }
  rewrite (take_size_app (fr_payload f)) by done.
  assert (take (Z.to_nat 4) (put32 (crc32c (fr_payload f))) =
    put32 (crc32c (fr_payload f)) ++ []) as ->.
  { rewrite app_nil_r. rewrite <-(app_nil_r (put32 _)) at 1. apply take_size_app.
    by rewrite size_put32. }
  destruct (trailer_read (crc32c (fr_payload f)) []) as (r' & ->); [apply crc32c_fits|].
  rewrite !Z.eqb_refl. cbn [negb]. rewrite <-Hv. destruct f; cbn in *. by subst.
Qed.

Lemma trailer_exact bs v r :
  size bs = 4 -> read_u32 (reader bs) = (Some v, r) -> bs = put32 v /\ fits 32 v.
Proof.
  intros Hs H.
  assert (of_read_with malformed read_u32 (reader bs) = inl (v, r)) as Hr
    by (unfold of_read_with; by rewrite H).
  destruct (parses_of_read malformed 4 _ _ _ (reader_reader_wf bs) eq_refl Hr)
    as (bs' & (_ & _ & Hb) & _ & _ & -> & Hv).
  split; [|done]. change (rest (reader bs)) with bs in Hb. rewrite Hb in Hs |- *.
  rewrite size_app in Hs. unfold size in Hs. rewrite length_le_split in Hs.
  destruct (rest r); [by rewrite app_nil_r|cbn in Hs; lia].
Qed.

(** The magic and the fields of an accepted header are the first bytes. *)
Lemma check_wire_frame_exact bytes limits f :
  check_wire_frame bytes limits = inl f -> frame_wire limits f /\ bytes = frame_bytes f.
Proof.
  unfold check_wire_frame, kFrameHeaderBytes, kFrameTrailerBytes, Message.Response.
  destruct (Z.ltb_spec (size bytes) (28 + 4)); [done|].
  destruct (bool_decide (take 4 bytes = kWireMagic)) eqn:Hmagic; cbn [negb]; [|done].
  apply bool_decide_eq_true in Hmagic.
  assert (size (take (Z.to_nat 28) bytes) = 28) as Hs by (apply size_take; lia).
  destruct (read_header_total _ Hs) as (h & r & -> & Hh & magic & Hm & Hhead).
  assert (magic = kWireMagic) as ->.
  { rewrite <-Hmagic, <-(take_drop (Z.to_nat 28) bytes), Hhead, <-app_assoc.
    symmetry. by apply (take_size_app magic _ 4). }
  assert (take (Z.to_nat (28 - 4)) bytes = kWireMagic ++ header_fields h) as ->.
  { rewrite <-(take_drop (Z.to_nat 28) bytes), Hhead, !app_assoc, <-app_assoc.
    apply take_size_app. rewrite size_app. unfold size. by rewrite length_header_fields. }
  destruct (Z.eqb_spec (fh_crc h) (crc32c (kWireMagic ++ header_fields h))) as [Hcrc|]; [|done].
  destruct (Z.eqb_spec (fh_version h) kWireProtocolVersion) as [Hv|]; [|done].
  destruct (Z.eqb_spec (fh_reserved h) 0) as [Hrv|]; [|done].
  destruct (Z.eqb_spec (fh_flags h) 0) as [Hfl|]; [|done]. cbn [negb].
  destruct (Z.eqb_spec (fh_message h) 0) as [|Hm0]; [done|]. cbn [orb].
  destruct (Z.ltb_spec 40 (fh_message h)) as [|Hm1]; [done|].
  destruct (Z.ltb_spec (max_frame_bytes limits) (fh_payload_length h)) as [|Hmax]; [done|].
  destruct (Z.ltb_spec (size bytes) (28 + fh_payload_length h + 4)) as [|H1]; [done|].
  destruct (Z.ltb_spec (28 + fh_payload_length h + 4) (size bytes)) as [|H2]; [done|].
  assert (0 <= fh_payload_length h) as Hpl by (unfold header_fits, fits in Hh; lia).
  destruct (read_u32 _) as [[crc|] r'] eqn:Hread; [|done].
  apply trailer_exact in Hread as [Htrail Hcf].
  2: { apply size_take. rewrite size_drop by lia. lia. }
  set (payload := take (Z.to_nat (fh_payload_length h)) (drop (Z.to_nat 28) bytes)) in *.
  destruct (Z.eqb_spec crc (crc32c payload)) as [->|]; [|done]. cbn [negb]. intros [= <-].
  assert (size payload = fh_payload_length h) as Hps
    by (apply size_take; rewrite size_drop by lia; lia).
  assert (drop (Z.to_nat 28) bytes = payload ++ put32 (crc32c payload)) as Hrest.
  { rewrite <-(take_drop (Z.to_nat (fh_payload_length h)) (drop (Z.to_nat 28) bytes)).
    fold payload. f_equal. rewrite drop_drop, <-Htrail, <-Z2Nat.inj_add by lia.
    symmetry. apply take_ge. pose proof (size_drop bytes (28 + fh_payload_length h)) as Hd.
    unfold size in *. lia. }
  destruct Hh as (_ & Hmf & _ & _ & Hlf & Hrf & _).
  split.
  - unfold frame_wire. cbn. unfold Message.Response, fits in *. lia.
  - rewrite <-(take_drop (Z.to_nat 28) bytes), Hrest, Hhead. unfold frame_bytes.
    assert (wire_head {| fr_version := fh_version h; fr_message := fh_message h;
        fr_flags := fh_flags h; fr_request_id := fh_request_id h; fr_payload := payload |} =
      kWireMagic ++ header_fields h) as ->.
    { unfold wire_head, header_fields. cbn [fr_version fr_message fr_flags fr_request_id fr_payload].
      by rewrite Hps, Hrv. }
    cbn [fr_payload]. by rewrite Hcrc, <-!app_assoc.
Qed.

(** C32: [decode_frame] accepts exactly the encodings of the frames the wire carries: the
    current version, a known range of messages, no flags, a payload within the limit and
    both checksums right; an accepted frame is read without a reason. *)
Theorem decode_frame_exact bytes limits result f out :
  decode_frame bytes limits result = (Some f, out) <->
  frame_wire limits f /\ bytes = frame_bytes f /\ out = set_limits (Some limits) result.
Proof.
  unfold decode_frame. split.
  - destruct (check_wire_frame bytes limits) eqn:Hc; [|done]. intros [= <- <-].
    by apply check_wire_frame_exact in Hc as [? ?].
  - intros (Hf & -> & ->). by rewrite check_wire_frame_bytes.
Qed.
