(* ===== verification/WireStream.v ===== *)
(** * The stream of frames

    The receiving loop of a connection: feed what arrived, take every complete frame,
    stop for good when the assembler overflowed.  What it delivers is a function of the
    bytes alone, however they were cut. *)

From S2P Require Import Prelude.
From S2P Require Import Ids.
From S2P Require Import Bytes.
From S2P Require Import Digest.
From S2P Require Import Reason.
From S2P Require Import Codec.
From S2P Require Import Wire.
From S2P Require Import WireProps.
From S2P Require Import WireFrames.

(** [for (;;) { ValidationResult result; if (!assembler.next(...)) break; ... }]; the
    fuel is an upper bound of the number of frames a buffer can hold. *)
Fixpoint drain_loop (fuel : nat) (limits : Limits) (a : FrameAssembler)
  : list Frame * FrameAssembler :=
  match fuel with
  | O => ([], a)
  | S fuel =>
      match FrameAssembler.next limits empty_result a with
      | (Some f, _, a) => let '(fs, a) := drain_loop fuel limits a in (f :: fs, a)
      | (None, _, a) => ([], a)
      end
  end.

Definition drain (limits : Limits) (a : FrameAssembler) : list Frame * FrameAssembler :=
  drain_loop (S (length (fa_buffer a))) limits a.

(** The frames delivered while the chunks arrive. *)
Fixpoint receive (limits : Limits) (chunks : list (list Byte.byte)) (a : FrameAssembler)
  : list Frame * FrameAssembler :=
  match chunks with
  | [] => ([], a)
  | c :: chunks =>
      let '(fs, a) := drain limits (FrameAssembler.feed c a) in
      let '(gs, a) := receive limits chunks a in
      (fs ++ gs, a)
  end.

(** Two assemblers from which the same frames will come: an overflowed one delivers
    nothing, whatever it still holds. *)
#[global] Instance assembler_equiv : Equiv FrameAssembler := fun a b =>
  fa_overflowed a = fa_overflowed b /\ (fa_overflowed a = false -> fa_buffer a = fa_buffer b).

#[global] Instance assembler_equivalence : Equivalence (≡@{FrameAssembler}).
Proof.
  split.
  - by intros a.
  - intros a b [Ho Hb]. split; [done|]. intros. symmetry. apply Hb. congruence.
  - intros a b c [Ho Hb] [Ho' Hb']. split; [congruence|]. intros. rewrite Hb by done.
    apply Hb'. congruence.
Qed.

Definition with_rest (c : list Byte.byte) (a : FrameAssembler) : FrameAssembler :=
  {| a with fa_buffer := fa_buffer a ++ c |}.

#[global] Instance feed_proper : Proper ((=) ==> (≡) ==> (≡)) FrameAssembler.feed.
Proof.
  intros c ? <- a b [Ho Hb]. unfold FrameAssembler.feed. rewrite <-Ho.
  destruct (fa_overflowed a) eqn:E; [split; congruence|]. split; cbn; [done|]. intros _. by rewrite Hb.
Qed.

Lemma feed_open c a : fa_overflowed a = false -> FrameAssembler.feed c a = with_rest c a.
Proof. destruct a; cbn. by intros ->. Qed.
Lemma feed_overflowed c a : fa_overflowed a = true -> FrameAssembler.feed c a = a.
Proof. destruct a; cbn. by intros ->. Qed.

Lemma overflowed_next limits result a :
  fa_overflowed a = true -> exists out, FrameAssembler.next limits result a = (None, out, a).
Proof. intros Ho. unfold FrameAssembler.next. rewrite Ho. by eexists. Qed.

(** ** One step *)

Lemma take_app_size (l k : list Byte.byte) n :
  n <= size l -> take (Z.to_nat n) (l ++ k) = take (Z.to_nat n) l.
Proof. intros. apply take_app_le. unfold size in *. lia. Qed.
Lemma drop_app_size (l k : list Byte.byte) n :
  n <= size l -> drop (Z.to_nat n) (l ++ k) = drop (Z.to_nat n) l ++ k.
Proof. intros. apply drop_app_le. unfold size in *. lia. Qed.

(** Later bytes change neither a delivered frame nor a refusal. *)
Lemma next_with_rest limits a c :
  match FrameAssembler.next limits empty_result a with
  | (Some f, out, a') =>
      FrameAssembler.next limits empty_result (with_rest c a) = (Some f, out, with_rest c a') /\
      fa_overflowed a = false /\ fa_overflowed a' = false /\
      exists n, (0 < n)%nat /\ (n <= length (fa_buffer a))%nat /\
        fa_buffer a' = drop n (fa_buffer a) /\
        check_wire_frame (take n (fa_buffer a)) limits = inl f
  | (None, out, a') =>
      if fa_overflowed a' then
        exists out' a'', FrameAssembler.next limits empty_result (with_rest c a) = (None, out', a'') /\
          fa_overflowed a'' = true
      else a' = a
  end.
Proof.
  unfold FrameAssembler.next, with_rest. cbn [fa_overflowed fa_buffer].
  destruct (fa_overflowed a) eqn:Ho; [rewrite Ho; by do 2 eexists|].
  unfold kFrameHeaderBytes, kFrameTrailerBytes. set (b := fa_buffer a) in *.
  destruct (Z.ltb_spec (size b) 28) as [Hlt|Hge]; [by rewrite Ho|].
  assert (size (take (Z.to_nat 28) b) = 28) as Hs by (apply size_take; lia).
  destruct (read_header_total _ Hs) as (h & r & Hr & Hh & _). rewrite Hr.
  pose proof (size_nonneg c) as Hc.
  destruct (Z.ltb_spec (size (b ++ c)) 28) as [Hbad|_]; [rewrite size_app in Hbad; lia|].
  rewrite (take_app_size b c 28), Hr by lia.
  assert (0 <= fh_payload_length h) as Hp by (unfold header_fits, fits in Hh; lia).
  destruct (max_frame_bytes limits <? fh_payload_length h); [by do 2 eexists|].
  set (n := 28 + fh_payload_length h + 4).
  destruct (Z.ltb_spec (size b) n) as [Hshort|Hn]; [by rewrite Ho|].
  destruct (Z.ltb_spec (size (b ++ c)) n) as [Hbad|_]; [rewrite size_app in Hbad; lia|].
  rewrite (take_app_size b c n) by lia. unfold decode_frame.
  destruct (check_wire_frame (take (Z.to_nat n) b) limits) as [f|e] eqn:Hf.
  - rewrite (drop_app_size b c n) by lia. cbn [fa_overflowed fa_buffer].
    split; [done|]. split; [done|]. split; [done|]. exists (Z.to_nat n).
    split; [unfold n; lia|]. split; [unfold size in Hn; lia|done].
  - by do 2 eexists.
Qed.

(** What a step does, for the inductions below. *)
Lemma next_cases limits a :
  (exists f out a', FrameAssembler.next limits empty_result a = (Some f, out, a') /\
     (length (fa_buffer a') < length (fa_buffer a))%nat) \/
  (exists out a', FrameAssembler.next limits empty_result a = (None, out, a') /\
     (fa_overflowed a' = false -> a' = a)).
Proof.
  pose proof (next_with_rest limits a []) as H.
  destruct (FrameAssembler.next limits empty_result a) as [[[f|] out] a'].
  - destruct H as (_ & _ & _ & n & Hn & Hl & Hb & _). left. exists f, out, a'.
    split; [done|]. rewrite Hb, length_drop. lia.
  - right. exists out, a'. split; [done|]. intros Ho. by rewrite Ho in H.
Qed.

(** Enough fuel is enough. *)
Lemma drain_loop_fuel limits fuel fuel' a :
  (length (fa_buffer a) < fuel)%nat -> (length (fa_buffer a) < fuel')%nat ->
  drain_loop fuel limits a = drain_loop fuel' limits a.
Proof.
  revert fuel' a. induction fuel as [|fuel IH]; intros [|fuel'] a H H'; try lia.
  cbn [drain_loop]. destruct (next_cases limits a) as [(f & out & a' & -> & Hl)|(out & a' & -> & _)];
    [|done]. by rewrite (IH fuel') by lia.
Qed.

(** The loop stops only when no frame is left: a further [next] delivers nothing. *)
Lemma drain_settled limits a :
  let '(fs, a') := drain limits a in
  exists out a'', FrameAssembler.next limits empty_result a' = (None, out, a'') /\ a'' ≡ a'.
Proof.
  unfold drain. assert (length (fa_buffer a) < S (length (fa_buffer a)))%nat as Hl by lia.
  revert Hl. generalize (S (length (fa_buffer a))) as fuel. intros fuel. revert a.
  induction fuel as [|fuel IH]; intros a Hl; [lia|]. cbn [drain_loop].
  destruct (next_cases limits a) as [(f & out & a' & -> & Hl')|(out & a' & Hn & Hst)].
  - specialize (IH a' ltac:(lia)). by destruct (drain_loop fuel limits a').
  - rewrite Hn. destruct (fa_overflowed a') eqn:Ho.
    + destruct (overflowed_next limits empty_result a' Ho) as (out' & ->). by exists out', a'.
    + rewrite Hst in Hn |- * by done. by exists out, a.
Qed.

#[global] Instance drain_proper limits :
  Proper ((≡) ==> (prod_relation (=) (≡))) (drain limits).
Proof.
  intros a b [Ho Hb]. destruct (fa_overflowed a) eqn:E.
  - unfold drain. cbn [drain_loop].
    destruct (overflowed_next limits empty_result a E) as (out & ->).
    destruct (overflowed_next limits empty_result b (eq_sym Ho)) as (out' & ->).
    split; [done|]. split; cbn; congruence.
  - assert (a = b) as ->; [|done]. specialize (Hb eq_refl). destruct a, b; cbn in *. congruence.
Qed.

Lemma drain_with_rest limits c a :
  let '(fs, a') := drain limits a in
  let '(gs, b') := drain limits (FrameAssembler.feed c a') in
  let '(hs, b) := drain limits (FrameAssembler.feed c a) in
  hs = fs ++ gs /\ b ≡ b'.
Proof.
  remember (length (fa_buffer a)) as n eqn:Hn. revert a Hn.
  induction n as [n IH] using (well_founded_induction lt_wf). intros a ->.
  pose proof (next_with_rest limits a c) as Hnext.
  unfold drain at 1. cbn [drain_loop].
  destruct (next_cases limits a) as [(f & out & a' & Hf & Hl)|(out & a' & Hf & _)]; rewrite Hf in Hnext |- *.
  - destruct Hnext as (Hrest & Ho & Ho' & _). specialize (IH _ Hl a' eq_refl).
    rewrite (drain_loop_fuel limits _ (S (length (fa_buffer a'))) a') by lia.
    change (drain_loop (S (length (fa_buffer a'))) limits a') with (drain limits a').
    destruct (drain limits a') as [fs a1].
    destruct (drain limits (FrameAssembler.feed c a1)) as [gs b'].
    rewrite (feed_open c a) by done. rewrite (feed_open c a') in IH by done.
    unfold drain. cbn [drain_loop]. rewrite Hrest.
    rewrite (drain_loop_fuel limits _ (S (length (fa_buffer (with_rest c a'))))).
    + change (drain_loop (S (length (fa_buffer (with_rest c a')))) limits (with_rest c a'))
        with (drain limits (with_rest c a')).
      destruct (drain limits (with_rest c a')) as [hs b]. destruct IH as [-> ?]. done.
    + cbn [with_rest fa_buffer]. rewrite !length_app. lia.
    + lia.
  - destruct (fa_overflowed a') eqn:Ho.
    + destruct Hnext as (out' & a'' & Hrest & Ho'').
      rewrite (feed_overflowed c a') by done.
      unfold drain at 1. cbn [drain_loop].
      destruct (overflowed_next limits empty_result a' Ho) as (out1 & ->).
      destruct (fa_overflowed a) eqn:Hoa.
      * rewrite (feed_overflowed c a) by done.
        unfold drain. cbn [drain_loop]. rewrite Hf. done.
      * rewrite (feed_open c a) by done.
        unfold drain. cbn [drain_loop]. rewrite Hrest. split; [done|]. split; congruence.
    + subst a'. destruct (drain limits (FrameAssembler.feed c a)). done.
Qed.

(** ** The stream *)

(** What a connection that received [bytes] at once delivers. *)
Definition stream (limits : Limits) (bytes : list Byte.byte) : list Frame * FrameAssembler :=
  drain limits (FrameAssembler.feed bytes new_assembler).

Lemma feed_feed c c' a : FrameAssembler.feed c' (FrameAssembler.feed c a) = FrameAssembler.feed (c ++ c') a.
Proof.
  destruct (fa_overflowed a) eqn:Ho; [by rewrite !feed_overflowed by (by rewrite ?feed_overflowed)|].
  rewrite !(feed_open _ a) by done. rewrite feed_open by done. unfold with_rest. cbn.
  by rewrite app_assoc.
Qed.

Lemma receive_drain limits chunks a :
  let '(fs, a1) := drain limits a in
  let '(gs, a2) := receive limits chunks a1 in
  let '(hs, b) := drain limits (FrameAssembler.feed (concat chunks) a) in
  hs = fs ++ gs /\ b ≡ a2.
Proof.
  revert a. induction chunks as [|c chunks IH]; intros a; cbn [concat receive].
  - assert (FrameAssembler.feed [] a = a) as ->.
    { unfold FrameAssembler.feed. destruct a as [b o]; cbn. by destruct o; rewrite ?app_nil_r. }
    destruct (drain limits a) as [fs a1]. by rewrite app_nil_r.
  - pose proof (drain_with_rest limits (c ++ concat chunks) a) as H.
    destruct (drain limits a) as [fs a1]. specialize (IH (FrameAssembler.feed c a1)).
    rewrite feed_feed in IH. destruct (drain limits (FrameAssembler.feed c a1)) as [gs a2].
    destruct (receive limits chunks a2) as [gs' a3].
    destruct (drain limits (FrameAssembler.feed (c ++ concat chunks) a1)) as [hs' b'].
    destruct (drain limits (FrameAssembler.feed (c ++ concat chunks) a)) as [hs b].
    destruct IH as [-> Hb'], H as [-> Hb]. split; [done|]. by rewrite Hb.
Qed.

Lemma receive_stream limits chunks :
  let '(hs, b) := receive limits chunks new_assembler in
  let '(fs, b') := stream limits (concat chunks) in
  hs = fs /\ b ≡ b'.
Proof.
  pose proof (receive_drain limits chunks new_assembler) as H.
  change (drain limits new_assembler) with (@nil Frame, new_assembler) in H. cbv beta iota in H.
  destruct (receive limits chunks new_assembler) as [gs a2]. unfold stream.
  destruct (drain limits _) as [hs b]. destruct H as [-> H]. by split.
Qed.

(** A frame at the front of the buffer is delivered. *)
Lemma next_frame limits f tl :
  frame_wire limits f ->
  exists out, FrameAssembler.next limits empty_result
      {| fa_buffer := frame_bytes f ++ tl; fa_overflowed := false |} =
    (Some f, out, {| fa_buffer := tl; fa_overflowed := false |}).
Proof.
  intros Hf. pose proof (size_frame_bytes f) as Hs. pose proof (size_nonneg (fr_payload f)).
  pose proof (size_nonneg tl). pose proof Hf as (_ & _ & _ & _ & Hp & _).
  unfold FrameAssembler.next. cbn [fa_overflowed fa_buffer].
  destruct (header_of_frame limits f tl Hf) as (r & ->). cbn [fh_payload_length header_of].
  destruct (Z.ltb_spec (max_frame_bytes limits) (size (fr_payload f))); [lia|].
  rewrite <-Hs, size_app.
  destruct (Z.ltb_spec (size (frame_bytes f) + size tl) kFrameHeaderBytes);
    [unfold kFrameHeaderBytes, kFrameTrailerBytes in *; lia|].
  destruct (Z.ltb_spec (size (frame_bytes f) + size tl) (size (frame_bytes f))); [lia|].
  rewrite take_size_app, drop_size_app by done. unfold decode_frame.
  rewrite check_wire_frame_bytes by done. by eexists.
Qed.

Lemma stream_frames limits fs rest :
  Forall (frame_wire limits) fs ->
  stream limits (concat (map frame_bytes fs) ++ rest) =
    let '(gs, b) := stream limits rest in (fs ++ gs, b).
Proof.
  intros Hfs. unfold stream. cbn [FrameAssembler.feed new_assembler fa_overflowed fa_buffer app].
  induction Hfs as [|f fs Hf Hfs IH]; cbn [map concat app].
  - by destruct (drain limits _).
  - rewrite <-app_assoc. unfold drain at 1. cbn [drain_loop].
    destruct (next_frame limits f (concat (map frame_bytes fs) ++ rest) Hf) as (out & ->).
    pose proof (size_frame_bytes f) as Hs. pose proof (size_nonneg (fr_payload f)).
    rewrite (drain_loop_fuel limits _ (S (length (concat (map frame_bytes fs) ++ rest)))).
    + change (drain_loop _ limits _) with (drain limits
        {| fa_buffer := concat (map frame_bytes fs) ++ rest; fa_overflowed := false |}).
      rewrite IH. by destruct (drain limits {| fa_buffer := rest; fa_overflowed := false |}).
    + cbn [fa_buffer]. rewrite (length_app (frame_bytes f)).
      unfold size, kFrameHeaderBytes, kFrameTrailerBytes in *. lia.
    + cbn [fa_buffer]. lia.
Qed.

(** C29: The stream of frames.  However the bytes of well-formed frames, followed by any other
    bytes, are cut into chunks, the receiving loop delivers exactly those frames, in order,
    and then whatever the other bytes alone would give. *)
Theorem receive_delivers limits chunks fs rest :
  concat chunks = concat (map frame_bytes fs) ++ rest -> Forall (frame_wire limits) fs ->
  let '(hs, b) := receive limits chunks new_assembler in
  let '(gs, b') := stream limits rest in
  hs = fs ++ gs /\ b ≡ b'.
Proof.
  intros Hc Hfs. pose proof (receive_stream limits chunks) as H. rewrite Hc in H.
  rewrite stream_frames in H by done. destruct (receive limits chunks new_assembler).
  by destruct (stream limits rest).
Qed.

Lemma next_settled_bound limits a out a' :
  FrameAssembler.next limits empty_result a = (None, out, a') -> fa_overflowed a' = false ->
  size (fa_buffer a) < kFrameHeaderBytes + Z.max 0 (max_frame_bytes limits) + kFrameTrailerBytes.
Proof.
  unfold FrameAssembler.next, kFrameTrailerBytes, kFrameHeaderBytes.
  destruct (fa_overflowed a) eqn:Ho; [by intros [= <- <-]; rewrite Ho|].
  destruct (Z.ltb_spec (size (fa_buffer a)) 28); [lia|].
  assert (size (take (Z.to_nat 28) (fa_buffer a)) = 28) as Hs by (apply size_take; lia).
  destruct (read_header_total _ Hs) as (h & r & -> & _ & _).
  destruct (Z.ltb_spec (max_frame_bytes limits) (fh_payload_length h)); [by intros [= <- <-]|].
  destruct (Z.ltb_spec (size (fa_buffer a)) (28 + fh_payload_length h + 4)); [lia|].
  destruct (decode_frame _ _ _) as [[f|] o]; [done|]. by intros [= <- <-].
Qed.

Lemma drain_sound limits a :
  fa_overflowed a = false ->
  let '(fs, a') := drain limits a in
  Forall (frame_wire limits) fs /\
  exists rest, fa_buffer a = concat (map frame_bytes fs) ++ rest /\
    (fa_overflowed a' = false -> fa_buffer a' = rest /\
       size rest < kFrameHeaderBytes + Z.max 0 (max_frame_bytes limits) + kFrameTrailerBytes).
Proof.
  unfold drain. assert (length (fa_buffer a) < S (length (fa_buffer a)))%nat as Hl by lia.
  revert Hl. generalize (S (length (fa_buffer a))) as fuel. intros fuel. revert a.
  induction fuel as [|fuel IH]; intros a Hl Ho; [lia|]. cbn [drain_loop].
  pose proof (next_with_rest limits a []) as Hnext.
  destruct (FrameAssembler.next limits empty_result a) as [[[f|] out] a'] eqn:Hn.
  - destruct Hnext as (_ & _ & Ho' & n & Hn0 & Hnl & Hb & Hf).
    assert (length (fa_buffer a') < fuel)%nat as Hl' by (rewrite Hb, length_drop; lia).
    specialize (IH a' Hl' Ho'). destruct (drain_loop fuel limits a') as [fs a''].
    destruct IH as (Hfs & rest & Hrest & Hend). apply check_wire_frame_exact in Hf as [Hf Hbytes].
    split; [by apply list.Forall_cons_2|]. exists rest. split; [|done]. cbn [map concat].
    by rewrite <-app_assoc, <-Hrest, Hb, <-Hbytes, take_drop.
  - split; [apply list.Forall_nil_2|]. exists (fa_buffer a). split; [done|]. intros Ho'.
    rewrite Ho' in Hnext. subst a'. split; [done|]. by eapply next_settled_bound.
Qed.

(** C30: Soundness of the assembly.  Whatever arrives and however it is cut, every delivered
    frame is well formed, the delivered frames are exactly the front of the stream, and
    what a connection that has not overflowed still buffers is the rest of it, less than
    one frame of the maximal size. *)
Theorem receive_sound limits chunks :
  let '(fs, a) := receive limits chunks new_assembler in
  Forall (frame_wire limits) fs /\
  exists rest, concat chunks = concat (map frame_bytes fs) ++ rest /\
    (fa_overflowed a = false -> fa_buffer a = rest /\
       size rest < kFrameHeaderBytes + Z.max 0 (max_frame_bytes limits) + kFrameTrailerBytes).
Proof.
  pose proof (receive_stream limits chunks) as H.
  pose proof (drain_sound limits (FrameAssembler.feed (concat chunks) new_assembler) eq_refl) as Hs.
  unfold stream in H. destruct (receive limits chunks new_assembler) as [hs b].
  destruct (drain limits _) as [fs b']. destruct H as [-> [Ho Hb]].
  destruct Hs as (Hfs & rest & Hrest & Hend). split; [done|]. exists rest. split; [done|].
  intros Hob. rewrite Hb by done. apply Hend. congruence.
Qed.
