(* ===== verification/Coordinator.v ===== *)
(** * The coordinator

    [include/srf/coordinator.hpp] and [src/coordinator.cpp]: the server that owns a store,
    the leases of its publishers and the sessions of its connections.

    The server is concurrent.  A handler is a sequence of calls, each atomic under the
    lock of what it calls; what other threads do between the calls of one handler is an
    argument of the model, an [Env].  Time is a number of milliseconds.  The sockets and
    threads themselves are outside: a connection is the chunks it receives and the
    outcomes of its sends. *)

From S2P Require Import Prelude.
From S2P Require Import Ids.
From S2P Require Import Bytes.
From S2P Require Import Digest.
From S2P Require Import Segment.
From S2P Require Import Reason.
From S2P Require Import Lifecycle.
From S2P Require Import Governance.
From S2P Require Import Authority.
From S2P Require Import Registries.
From S2P Require Import Evidence.
From S2P Require Import Validation.
From S2P Require Import Persistence.
From S2P Require Import Store.
From S2P Require Import Wire.
From S2P Require Import Explain.

(** [CoordinatorConfig]; the backend stands for a non-empty [state_path]. *)
Record CoordinatorConfig := {
  cf_limits : Limits;
  cf_lease_milliseconds : Z;
  cf_load_persisted : bool;
  cf_advance_epoch : bool;
}.

(** [CoordinatorServer::Session] *)
Record Session := {
  se_publisher : PublisherId;
  se_boot : WorkerBootId;
  se_scope : ScopeId;
  se_epoch : CoordinatorEpoch;
  se_registered : bool;
}.

Definition new_session : Session :=
  {| se_publisher := 0; se_boot := 0; se_scope := 0; se_epoch := 0; se_registered := false |}.

(** [last_seen_], a [std::map] in the order of its keys. *)
Definition Leases : Type := list (PublisherId * Z).

Fixpoint put_lease (id : PublisherId) (now : Z) (l : Leases) : Leases :=
  match l with
  | [] => [(id, now)]
  | (k, t) :: l' =>
      if id <? k then (id, now) :: l
      else if id =? k then (id, now) :: l'
      else (k, t) :: put_lease id now l'
  end.

Definition erase_lease (id : PublisherId) (l : Leases) : Leases :=
  List.filter (fun p => negb (fst p =? id)) l.

Section Coordinator.
Context {P : Type} `{IPersistence P}.

Record Coordinator := {
  co_config : CoordinatorConfig;
  co_store : SegmentListStore SyntheticEvidence P;
  co_last_seen : Leases;
}.

Implicit Types (c : Coordinator) (se : Session).

Definition co_limits c : Limits := cf_limits (co_config c).
Definition co_authority c : AuthorityTable := st_authority (co_store c).
Definition co_epoch c : CoordinatorEpoch := at_epoch (co_authority c).

Definition with_store (s : SegmentListStore SyntheticEvidence P) (c : Coordinator)
  : Coordinator := {| c with co_store := s |}.

Definition with_authority (t : AuthorityTable) (c : Coordinator) : Coordinator :=
  with_store {| (co_store c) with st_authority := t |} c.

(** What the other threads do around the calls of one handler: before its [n]th call, and
    inside the store calls that release their lock. *)
Record Env := {
  ev_now : Z;
  ev_before : nat -> Coordinator -> Coordinator;
  ev_store : Interference (E := SyntheticEvidence) (P := P);
}.

(** [touch] *)
Definition touch (e : Env) (id : PublisherId) c : Coordinator :=
  {| c with co_last_seen := put_lease id (ev_now e) (co_last_seen c) |}.

(** [registered_publishers] *)
Definition registered_publishers c : Z := size (at_publishers (co_authority c)).

(** ** Starting *)

(** What listening and writing the port file come to. *)
Record StartIo := {
  io_listen : list Reason;
  io_write_port : bool;
  io_port : Z;
}.

(** The first built-in profile that cannot be registered ends the registration. *)
Fixpoint register_builtins (profiles : list SegmentProfile)
    (s : SegmentListStore SyntheticEvidence P)
  : ValidationResult * SegmentListStore SyntheticEvidence P :=
  match profiles with
  | [] => (empty_result, s)
  | p :: profiles =>
      if negb (is_none (Registry.find_profile (pr_id p) (st_registry s))) then register_builtins profiles s
      else
        let '(registered, s) := register_profile p s in
        if failed registered then (registered, s) else register_builtins profiles s
  end.

Definition builtins : list SegmentProfile :=
  [abstract_governance_profile; abstract_ordered_profile; abstract_nullable_profile].

(** The recovery of [start]: the report, and whether it goes on. *)
Definition start_load (cfg : CoordinatorConfig) (s : SegmentListStore SyntheticEvidence P)
  : bool * LoadReport * SegmentListStore SyntheticEvidence P :=
  if cf_load_persisted cfg && negb (is_none (st_persistence s)) then
    let '(report, s) := load s in
    (lr_loaded report || lr_empty report, report, s)
  else (true, empty_report, s).

Definition start (cfg : CoordinatorConfig) (backend : option P) (io : StartIo)
    (out : ValidationResult) : bool * ValidationResult * LoadReport * Coordinator :=
  let out := set_limits (Some (cf_limits cfg)) out in
  let server s := {| co_config := cfg; co_store := s; co_last_seen := [] |} in
  let s := new_store (cf_limits cfg) (Some (make_synthetic_fabric 64)) backend in
  let '(usable, report, s) := start_load cfg s in
  if negb usable then (false, absorb (lr_result report) out, report, server s)
  else
    let '(registered, s) := register_builtins builtins s in
    if failed registered then (false, absorb registered out, report, server s)
    else
      let '(advanced, authority) :=
        if cf_advance_epoch cfg then AuthorityTable.advance_epoch (st_authority s)
        else (true, st_authority s) in
      let s := {| s with st_authority := authority |} in
      if negb advanced then (false, add EpochExhausted 0 0 out, report, server s)
      else
        let '(flushed, s) := persist_now s in
        if failed flushed then (false, absorb flushed out, report, server s)
        else
          match io_listen io with
          | [] => if io_write_port io then (true, out, report, server s)
                  else (false, add PersistIoError 0 (io_port io) out, report, server s)
          | reasons => (false, emit reasons out, report, server s)
          end.

(** ** Leases *)

(** [expire_leases]: the publishers silent for longer than the lease are dropped and marked
    dead, in the order of their identifiers, and the lists are refreshed. *)
Definition expired_publishers (now : Z) c : list PublisherId :=
  map fst (List.filter (fun p => cf_lease_milliseconds (co_config c) <? now - snd p)
             (co_last_seen c)).

Definition mark_dead (id : PublisherId) c : Coordinator :=
  with_authority (AuthorityTable.mark_dead id (co_authority c)).2 c.

Definition refresh (e : Env) c : CurrentnessReport * Coordinator :=
  let '(report, s) := refresh_currentness (ev_store e) (co_store c) in (report, with_store s c).

Fixpoint mark_all (e : Env) (n : nat) (ids : list PublisherId) c : Coordinator :=
  match ids with
  | [] => c
  | id :: ids => mark_all e (S n) ids (mark_dead id (ev_before e n c))
  end.

Definition expire_leases (e : Env) c : Z * Coordinator :=
  let expired := expired_publishers (ev_now e) c in
  let c := {| c with co_last_seen :=
    List.filter (fun p => negb (cf_lease_milliseconds (co_config c) <? ev_now e - snd p))
      (co_last_seen c) |} in
  let c := mark_all e 0 expired c in
  let n := length expired in
  (size expired,
   if is_empty expired then c else (refresh e (ev_before e n c)).2).

(** ** Dispatch *)

(** [status = status_for(result); reasons.assign(...);] *)
Definition with_reasons (r : ValidationResult) (p : Response) : Response :=
  {| p with rp_status := status_for r; rp_reasons := map to_wire (reasons r) |}.

(** The same, and [truncated]. *)
Definition with_result (r : ValidationResult) (p : Response) : Response :=
  {| (with_reasons r p) with rp_truncated := truncated r |}.

Definition with_outcome (o : MutationOutcome) (p : Response) : Response :=
  {| p with
     rp_status := mo_status o; rp_reasons := map to_wire (reasons (mo_result o));
     rp_truncated := truncated (mo_result o); rp_list := mo_list o;
     rp_generation := mo_generation o; rp_digest := mo_digest o;
     rp_idempotent_replay := mo_idempotent_replay o |}.

(** The caller of a request: the session's, and the attempt of the payload. *)
Definition caller_of se (attempt : MutationAttemptId) : CallerIdentity := {|
  ci_epoch := se_epoch se; ci_publisher := se_publisher se; ci_boot := se_boot se;
  ci_scope := se_scope se; ci_attempt := attempt |}.

Definition rejected (code : ReasonCode) (detail : Z) (p : Response) : Response :=
  {| p with rp_status := StRejected;
            rp_reasons := rp_reasons p ++ [to_wire (mkReason code 0 detail)] |}.

Definition dispatch_hello (e : Env) (payload : list Byte.byte) se c (p : Response)
  : Response * Session * Coordinator :=
  match decode_hello payload (co_limits c) empty_result with
  | (None, result) => (with_result result p, se, c)
  | (Some hello, _) =>
      let c := ev_before e 0 c in
      let requested := if valid (he_epoch hello) then he_epoch hello else co_epoch c in
      let c := ev_before e 1 c in
      let '(registered, authority) :=
        AuthorityTable.register_publisher (he_publisher hello) (he_boot hello) (he_scope hello)
          requested (co_limits c) (co_authority c) in
      let c := with_authority authority c in
      if failed registered then (with_result registered p, se, c)
      else
        let c := ev_before e 2 c in
        let se := {| se_publisher := he_publisher hello; se_boot := he_boot hello;
                     se_scope := he_scope hello; se_epoch := co_epoch c;
                     se_registered := true |} in
        let c := ev_before e 3 (touch e (he_publisher hello) c) in
        ({| p with rp_status := StOk; rp_epoch := co_epoch c;
                   rp_session := he_publisher hello |}, se, c)
  end.

Definition dispatch_heartbeat (e : Env) (payload : list Byte.byte) se c (p : Response)
  : Response * Session * Coordinator :=
  match decode_heartbeat payload (co_limits c) empty_result with
  | (None, result) => (with_reasons result p, se, c)
  | (Some beat, _) =>
      let c := ev_before e 0 c in
      let '(beat_result, authority) :=
        AuthorityTable.heartbeat (hb_publisher beat) (hb_boot beat) (hb_epoch beat)
          (co_authority c) in
      let c := with_authority authority c in
      let c := if result_ok beat_result then touch e (hb_publisher beat) c else c in
      (with_result beat_result p, se, c)
  end.

(** A store operation that answers an outcome, and the epoch read after it. *)
Definition answer (e : Env) se c (p : Response)
    (operation : SegmentListStore SyntheticEvidence P ->
                 MutationOutcome * SegmentListStore SyntheticEvidence P)
  : Response * Session * Coordinator :=
  let c := ev_before e 0 c in
  let '(outcome, s) := operation (co_store c) in
  let c := ev_before e 1 (with_store s c) in
  ({| (with_outcome outcome p) with rp_epoch := co_epoch c |}, se, c).

(** [CreateList] and [ReplaceList] share one branch, which calls [create_list]. *)
Definition dispatch_mutation (e : Env) (payload : list Byte.byte) se c (p : Response)
  : Response * Session * Coordinator :=
  match decode_mutation payload (co_limits c) empty_result with
  | (None, result) => (with_result result p, se, c)
  | (Some mutation, _) =>
      if negb (se_registered se)
      then (rejected CallerUnknownPublisher (se_publisher se) p, se, c)
      else answer e se c p
             (create_list (ev_store e) (caller_of se (mu_attempt mutation)) (mu_draft mutation))
  end.

(** The operation is the payload's, whatever the message identifier. *)
Definition lifecycle_operation (e : Env) se (q : LifecycleRequest) :=
  let caller := caller_of se (lq_attempt q) in
  match lq_op q with
  | OpWithdraw => withdraw (ev_store e) caller (lq_list q) (lq_expected q)
  | OpWithdrawCommit => withdraw_commit (ev_store e) caller (lq_list q) (lq_expected q)
  | OpRevoke => revoke (ev_store e) caller (lq_list q) (lq_expected q)
  | OpRetire => retire (ev_store e) caller (lq_list q) (lq_expected q)
  | OpRevalidate => revalidate (ev_store e) caller (lq_list q) (lq_expected q)
  end.

Definition dispatch_lifecycle (e : Env) (payload : list Byte.byte) se c (p : Response)
  : Response * Session * Coordinator :=
  match decode_lifecycle payload (co_limits c) empty_result with
  | (None, result) => (with_reasons result p, se, c)
  | (Some q, _) => answer e se c p (lifecycle_operation e se q)
  end.

Definition dispatch_get (e : Env) (message : MessageId) (payload : list Byte.byte) se c
    (p : Response) : Response * Session * Coordinator :=
  match decode_get payload (co_limits c) empty_result with
  | (None, result) => (with_reasons result p, se, c)
  | (Some q, _) =>
      let c := ev_before e 0 c in
      if message =? Message.ExplainCurrentness then
        let x := explain_currentness (ge_list q) (co_store c) in
        ({| p with rp_list := ex_list x; rp_generation := ex_generation x;
                   rp_reasons := rp_reasons p ++ map to_wire (ex_entries x);
                   rp_truncated := ex_truncated x; rp_status := StOk |}, se, c)
      else
        match get (ge_list q) (co_store c) with
        | None =>
            ({| p with rp_status := StNotFound;
                       rp_reasons := rp_reasons p ++ [to_wire (mkReason ListNotFound 0 (ge_list q))] |},
             se, c)
        | Some l =>
            let c := ev_before e 1 c in
            ({| p with rp_status := StOk; rp_list := c_id (sl_content l);
                       rp_generation := sl_generation l; rp_digest := sl_content_digest l;
                       rp_summaries := rp_summaries p ++ [summarize l (co_epoch c)] |}, se, c)
        end
  end.

(** The epoch is read once per list. *)
Fixpoint summaries (e : Env) (n : nat) (ls : list SegmentList) c : list ListSummary * Coordinator :=
  match ls with
  | [] => ([], c)
  | l :: ls =>
      let c := ev_before e n c in
      let '(ss, c') := summaries e (S n) ls c in (summarize l (co_epoch c) :: ss, c')
  end.

Definition dispatch_summaries (e : Env) se c (p : Response) : Response * Session * Coordinator :=
  let c := ev_before e 0 c in
  let '(ss, c) := summaries e 1 (lists (co_store c)) c in
  ({| p with rp_summaries := rp_summaries p ++ ss; rp_status := StOk |}, se, c).

Definition dispatch_refresh (e : Env) se c (p : Response) : Response * Session * Coordinator :=
  let '(report, c) := refresh e (ev_before e 0 c) in
  ({| p with rp_status := StOk; rp_generation := cr_invalidated report;
             rp_digest := mkDigest (cr_examined report) 0 |}, se, c).

Definition dispatch_goodbye (e : Env) se c (p : Response) : Response * Session * Coordinator :=
  let p := {| p with rp_status := StOk |} in
  if se_registered se
  then (p, {| se with se_registered := false |}, mark_dead (se_publisher se) (ev_before e 0 c))
  else (p, se, c).

Definition dispatch (e : Env) (f : Frame) se c : Response * Session * Coordinator :=
  let p := {| empty_response with rp_request_id := fr_request_id f; rp_epoch := co_epoch c |} in
  let m := fr_message f in
  let payload := fr_payload f in
  if m =? Message.Hello then dispatch_hello e payload se c p
  else if m =? Message.Heartbeat then dispatch_heartbeat e payload se c p
  else if (m =? Message.CreateList) || (m =? Message.ReplaceList)
  then dispatch_mutation e payload se c p
  else if (m =? Message.Withdraw) || (m =? Message.WithdrawCommit) || (m =? Message.Revoke) ||
          (m =? Message.Retire) || (m =? Message.Revalidate)
  then dispatch_lifecycle e payload se c p
  else if (m =? Message.Get) || (m =? Message.ExplainCurrentness)
  then dispatch_get e m payload se c p
  else if m =? Message.ListSummaries then dispatch_summaries e se c p
  else if m =? Message.RefreshCurrentness then dispatch_refresh e se c p
  else if m =? Message.Goodbye then dispatch_goodbye e se c p
  else (rejected WireUnknownMessageId m p, se, c).

(** ** Connections *)

(** What a connection is to the rest of the world: for the [n]th frame, the environment of
    its dispatch and whether its response is sent; and what happens around its end. *)
Record Peer := {
  pe_env : nat -> Env;
  pe_send : nat -> bool;
  pe_end : Env;
}.

Record Connection := {
  cn_session : Session;
  cn_server : Coordinator;
  cn_sent : list (list Byte.byte);
  cn_open : bool;
}.

(** One frame: dispatch, encode, send; the connection closes when the response cannot be
    encoded or sent, and after a goodbye. *)
Definition serve_frame (peer : Peer) (f : Frame) (n : Connection) : Connection :=
  let k := length (cn_sent n) in
  let '(response, se, c) := dispatch (pe_env peer k) f (cn_session n) (cn_server n) in
  let n := {| n with cn_session := se; cn_server := c |} in
  let '(encoded, encode_result) := encode_response response (co_limits c) empty_result in
  if failed encode_result then {| n with cn_open := false |}
  else
    let out := {| empty_frame with fr_message := Message.Response;
                  fr_request_id := fr_request_id f; fr_payload := encoded |} in
    let '(bytes, frame_result) := encode_frame out (co_limits c) empty_result in
    if failed frame_result || negb (pe_send peer k) then {| n with cn_open := false |}
    else {| n with cn_sent := cn_sent n ++ [bytes];
                   cn_open := negb (fr_message f =? Message.Goodbye) |}.

(** The inner loop over the assembler; the fuel bounds the frames a buffer holds. *)
Fixpoint serve_buffer (fuel : nat) (peer : Peer) (limits : Limits) (a : FrameAssembler)
    (n : Connection) : FrameAssembler * Connection :=
  match fuel with
  | O => (a, n)
  | S fuel =>
      match FrameAssembler.next limits empty_result a with
      | (None, _, a) => (a, n)
      | (Some f, _, a) =>
          let n := serve_frame peer f n in
          if cn_open n then serve_buffer fuel peer limits a n else (a, n)
      end
  end.

(** The receiving loop; the chunks end where the peer closes, the transport fails or the
    server stops. *)
Fixpoint serve_chunks (peer : Peer) (limits : Limits) (chunks : list (list Byte.byte))
    (a : FrameAssembler) (n : Connection) : Connection :=
  match chunks with
  | [] => n
  | chunk :: chunks =>
      if negb (cn_open n) then n
      else
        let a := FrameAssembler.feed chunk a in
        let '(a, n) := serve_buffer (S (length (fa_buffer a))) peer limits a n in
        if fa_overflowed a then n else serve_chunks peer limits chunks a n
  end.

(** The end of a connection: a registered publisher is gone. *)
Definition lose_session (e : Env) se c : Coordinator :=
  if se_registered se then
    let c := mark_dead (se_publisher se) (ev_before e 0 c) in
    let c := ev_before e 1 c in
    let c := {| c with co_last_seen := erase_lease (se_publisher se) (co_last_seen c) |} in
    (refresh e (ev_before e 2 c)).2
  else c.

Definition handle_connection (peer : Peer) (chunks : list (list Byte.byte)) c
  : list (list Byte.byte) * Coordinator :=
  let n := serve_chunks peer (co_limits c) chunks new_assembler
             {| cn_session := new_session; cn_server := c; cn_sent := []; cn_open := true |} in
  (cn_sent n, lose_session (pe_end peer) (cn_session n) (cn_server n)).
End Coordinator.
