(* ===== verification/CoordinatorLife.v ===== *)
(** * The life of publishers

    What the coordinator does to the store and to the authority table while it serves, and
    what happens to a publisher that falls silent or whose connection ends. *)

From stdpp Require Import relations.
From S2P Require Import Prelude.
From S2P Require Import Ids.
From S2P Require Import Bytes.
From S2P Require Import Digest.
From S2P Require Import Segment.
From S2P Require Import Reason.
From S2P Require Import Lifecycle.
From S2P Require Import Governance.
From S2P Require Import Authority.
From S2P Require Import Registries.
From S2P Require Import Evidence.
From S2P Require Import Validation.
From S2P Require Import ValidationProps.
From S2P Require Import Persistence.
From S2P Require Import Store.
From S2P Require Import StoreProps.
From S2P Require Import Evolution.
From S2P Require Import StoreTheorems.
From S2P Require Import Recovery.
From S2P Require Import Explain.
From S2P Require Import Wire.
From S2P Require Import WireStream.
From S2P Require Import Coordinator.
From S2P Require Import CoordinatorProps.

(** ** What the store operations do to the authority table *)
Section Operations.
Context {E P : Type} `{EvidenceSource E} `{!IPersistence P} `{!PersistenceLaws P}.
Implicit Types (s : SegmentListStore E P).

(** Other threads move the store by its own operations and never take a fence away. *)
Definition fair_step s s' : Prop :=
  evolves s s' /\ authority_grows (st_authority s) (st_authority s').

#[export] Instance fair_step_preorder : PreOrder fair_step.
Proof.
  split.
  - split; [constructor|done].
  - intros s t u [H1 H2] [H3 H4]. split; [by eapply evolves_trans|by etransitivity].
Qed.

Definition fair (i : Interference) : Prop :=
  (forall s, fair_step s (if_reading i s)) /\ (forall s, fair_step s (if_capture i s)) /\
  (forall s, fair_step s (if_commit i s)) /\ guarded (if_commit i).

Lemma undisturbed_fair : fair undisturbed.
Proof. by split_and!. Qed.

Lemma fair_polite i : fair i -> polite i.
Proof.
  intros (H1 & H2 & H3 & Hg).
  apply preserved_polite; [intros s; apply evolves_preserved, H1
    |intros s; apply evolves_preserved, H2|intros s; apply evolves_preserved, H3|done].
Qed.

Lemma fair_captured i s : fair i -> fair_step s (captured_store i s).
Proof. intros (H1 & H2 & _). etransitivity; [apply H1|apply H2]. Qed.

Lemma fair_committed i s : fair i -> fair_step s (commit_store i s).
Proof. intros Hi. etransitivity; [by apply fair_captured|]. apply Hi. Qed.

(** What an operation does to the store and the authority table of a store that satisfies
    its invariant. *)
Definition moves s s' : Prop :=
  good s -> good s' /\ fair_step s s'.

#[export] Instance moves_preorder : PreOrder moves.
Proof.
  split.
  - intros s Hs. by split.
  - intros s t u H1 H2 Hs. destruct (H1 Hs) as [Ht ?]. destruct (H2 Ht) as [Hu ?].
    split; [done|by etransitivity].
Qed.

Lemma evolves_good s s' : evolves s s' -> good s -> good s'.
Proof.
  intros Hev Hs. destruct (evolves_preserved _ _ Hev) as [Hi Hg].
  split; [by apply Hi, Hs|by apply Hg].
Qed.

Lemma fair_step_moves s s' : fair_step s s' -> moves s s'.
Proof. intros [Hev Hgr] Hs. split; [by eapply evolves_good|done]. Qed.

Lemma untouched_authority i s s' :
  fair i -> untouched i s s' -> authority_grows (st_authority s) (st_authority s').
Proof.
  intros Hi [Hu|[Hu|[Hu|Hu]]]; destruct Hu as ((_ & _ & -> & _) & _).
  - done.
  - apply Hi.
  - by apply fair_captured.
  - by apply (fair_committed i s).
Qed.

Lemma batch_moves i caller drafts intent re ra s :
  fair i -> batch_intent intent ra -> moves s (run_batch i caller drafts intent re ra s).2.
Proof.
  intros Hi Hb Hs. pose proof Hi as (H1 & H2 & H3 & Hg).
  assert (evolves s (run_batch i caller drafts intent re ra s).2) as Hev.
  { apply evolves_batch; [intros t; apply H1|intros t; apply H2|intros t; apply H3|done|done]. }
  split; [by eapply evolves_good|]. split; [done|]. clear Hev.
  destruct (run_batch _ _ _ _ _ _ _) as [o s'] eqn:Hrun.
  apply (run_batch_cases _ _ _ _ _ _ _ _ _ (fair_polite i Hi) (proj1 Hs)) in Hrun as
    [[_ Hu]|[[_ (_ & Hu & _)]|(_ & _ & (pms & _ & _ & _ & _ & (_ & _ & Ha & _) & _) & _)]].
  - by eapply untouched_authority.
  - eapply untouched_authority; [done|]. right. right. by left.
  - cbn [snd]. rewrite Ha. by apply (fair_committed i s).
Qed.

Lemma transition_moves i caller id expected event s :
  fair i -> moves s (transition i caller id expected event s).2.
Proof.
  intros Hi Hs. pose proof Hi as (H1 & H2 & H3 & Hg).
  assert (evolves s (transition i caller id expected event s).2) as Hev.
  { apply evolves_transition; [intros t; apply H1|intros t; apply H2|intros t; apply H3|done]. }
  split; [by eapply evolves_good|]. split; [done|]. clear Hev.
  destruct (transition _ _ _ _ _ _) as [o s'] eqn:Hrun.
  apply (transition_cases _ _ _ _ _ _ _ _ (fair_polite i Hi) (proj1 Hs)) in Hrun as
    [[_ Hu]|(_ & (existing & _ & _ & _ & _ & _ & _ & (_ & _ & Ha & _) & _) & _)].
  - by eapply untouched_authority.
  - cbn [snd]. rewrite Ha. by apply (fair_committed i s).
Qed.

Lemma revalidate_moves i caller id expected s :
  fair i -> moves s (revalidate i caller id expected s).2.
Proof.
  intros Hi. unfold revalidate. destruct (find_locked id s) as [[j l]|]; [|done].
  apply batch_moves; [done|]. by right; left.
Qed.

Lemma refresh_surroundings i s :
  same_surroundings (if_capture i s) (refresh_currentness i s).2.
Proof.
  unfold refresh_currentness. cbv zeta.
  destruct (refresh_all _ _) as [[lists changed] report]. destruct (negb changed); [done|].
  destruct (persist_locked _ _ _) as [[saved r] t] eqn:Hp.
  apply persist_locked_spec in Hp as (Hsame & _). by destruct saved.
Qed.

Lemma refresh_moves i s : fair i -> moves s (refresh_currentness i s).2.
Proof.
  intros Hi. apply fair_step_moves. split.
  - apply evolves_refresh. intros t. apply Hi.
  - destruct (refresh_surroundings i s) as (_ & _ & -> & _). apply Hi.
Qed.

Lemma authority_moves t s :
  authority_grows (st_authority s) t -> moves s {| s with st_authority := t |}.
Proof.
  intros Ht. apply fair_step_moves. split; [|done].
  exact (evolves_surroundings (st_evidence s) (st_persistence s) t s).
Qed.

(** *** Currentness and fences *)

Lemma degrade_current condition stale c :
  stale <> Current -> degrade condition stale c = Current -> c = Current.
Proof. intros Hs. unfold degrade. repeat case_match; congruence. Qed.

Lemma refreshed_current_unfenced registry authority evidence epoch l :
  refreshed_currentness registry authority evidence epoch l = Current ->
  AuthorityTable.is_fenced (au_boot (sl_authority l)) authority = false.
Proof.
  unfold refreshed_currentness. cbv zeta. intros Hc.
  apply degrade_current in Hc; [|done].
  destruct (AuthorityTable.is_fenced _ _) eqn:Hf; [|done]. exfalso.
  destruct evidence as [e|]; [|done]. unfold degrade_by_evidence in Hc. cbv zeta in Hc.
  repeat (apply degrade_current in Hc; [|done]). done.
Qed.

(** After a refresh that the backend accepts, no active list is from a fenced boot. *)
Lemma refresh_unfenced i s :
  let t := if_capture i s in
  let f := refreshed_currentness (st_registry t) (st_authority t)
             (ev_snapshot <$> st_evidence s) (at_epoch (st_authority s)) in
  accepts (refreshed_state f t) t ->
  Forall (fun l => sl_state l = Active ->
    AuthorityTable.is_fenced (au_boot (sl_authority l)) (st_authority t) = false)
    (lists (refresh_currentness i s).2).
Proof.
  cbv zeta. intros Hacc. rewrite refresh_lists by done.
  apply list.Forall_forall. intros l' Hl'. apply list_elem_of_fmap in Hl' as (l & -> & _).
  unfold refreshed. destruct (refresh_skips (sl_state l)) eqn:Hsk.
  { intros Ha. by rewrite Ha in Hsk. }
  set (cur := refreshed_currentness _ _ _ _ l). cbn [refresh_list sl_state sl_authority].
  destruct (currentness_eqb cur Current) eqn:Hc; cbn [negb andb].
  - intros _. apply currentness_eqb_eq in Hc. by eapply refreshed_current_unfenced.
  - destruct (state_eqb (sl_state l) Active) eqn:Ha; [done|]. intros Hact.
    by rewrite Hact in Ha.
Qed.
End Operations.

(** ** What a connection does to the server *)
Section Serving.
Context {P : Type} `{!IPersistence P} `{!PersistenceLaws P}.
Implicit Types (c : Coordinator (P := P)) (e : Env (P := P)) (peer : Peer (P := P)).

(** The other threads of the server. *)
Definition fair_env e : Prop :=
  (forall n c, co_config (ev_before e n c) = co_config c /\
     fair_step (co_store c) (co_store (ev_before e n c))) /\
  fair (ev_store e).

Definition fair_peer peer : Prop := (forall n, fair_env (pe_env peer n)) /\ fair_env (pe_end peer).

(** A registered session names a publisher of the table, under its boot. *)
Definition session_ok (se : Session) c : Prop :=
  se_registered se = true ->
  exists p, AuthorityTable.find (se_publisher se) (co_authority c) = Some p /\
    ps_boot p = se_boot se.

(** What a handler promises about the server it leaves and the session. *)
Definition serves (se : Session) c (se' : Session) c' : Prop :=
  good (co_store c) -> 0 < max_reasons (co_limits c) ->
  good (co_store c') /\ fair_step (co_store c) (co_store c') /\
  co_config c' = co_config c /\ (session_ok se c -> session_ok se' c').

Lemma session_ok_grows se c c' :
  authority_grows (co_authority c) (co_authority c') -> session_ok se c -> session_ok se c'.
Proof.
  intros [_ Hb] Hse Hr. destruct (Hse Hr) as (p & Hp & Hboot).
  destruct (Hb _ _ Hp) as (p' & Hp' & Hboot'). exists p'. split; [done|congruence].
Qed.

Lemma serves_moves se c c' :
  moves (co_store c) (co_store c') -> co_config c' = co_config c -> serves se c se c'.
Proof.
  intros Hm Hcfg Hg _. destruct (Hm Hg) as [Hg' Hs]. split_and!; [done|done|done|].
  apply session_ok_grows. apply Hs.
Qed.

Lemma serves_refl se c : serves se c se c.
Proof. by apply serves_moves. Qed.

Lemma serves_trans se c se1 c1 se2 c2 :
  serves se c se1 c1 -> serves se1 c1 se2 c2 -> serves se c se2 c2.
Proof.
  intros H1 H2 Hg Hcap. destruct (H1 Hg Hcap) as (Hg1 & Hs1 & Hc1 & Hk1).
  assert (0 < max_reasons (co_limits c1)) as Hcap1 by (unfold co_limits in *; by rewrite Hc1).
  destruct (H2 Hg1 Hcap1) as (Hg2 & Hs2 & Hc2 & Hk2).
  split_and!; [done|by etransitivity|congruence|auto].
Qed.

Lemma serves_before e n se c : fair_env e -> serves se c se (ev_before e n c).
Proof.
  intros [He _]. destruct (He n c) as [Hc Hs].
  apply serves_moves; [by apply fair_step_moves|done].
Qed.

(** Forgetting a session keeps the promise. *)
Lemma serves_unregister se c se' c' :
  serves se c se' c' -> serves se c {| se' with se_registered := false |} c'.
Proof. intros H Hg Hcap. destruct (H Hg Hcap) as (? & ? & ? & _). by split_and!. Qed.

Lemma serves_mark_dead id se c : serves se c se (mark_dead id c).
Proof. apply serves_moves; [|done]. apply authority_moves, mark_dead_grows. Qed.

Lemma serves_touch e id se c : serves se c se (touch e id c).
Proof. by apply serves_moves. Qed.

Lemma serves_refresh e se c : fair_env e -> serves se c se (refresh e c).2.
Proof.
  intros [_ He]. pose proof (refresh_moves (ev_store e) (co_store c) He) as Hm.
  unfold refresh. destruct (refresh_currentness _ _) as [report s]. by apply serves_moves.
Qed.

(** A successful registration. *)
Lemma registered_boot id boot scope epoch limits t :
  0 < max_reasons limits ->
  failed (AuthorityTable.register_publisher id boot scope epoch limits t).1 = false ->
  exists p, AuthorityTable.find id
    (AuthorityTable.register_publisher id boot scope epoch limits t).2 = Some p /\ ps_boot p = boot.
Proof.
  intros Hl. unfold AuthorityTable.register_publisher, AuthorityTable.find, failed.
  assert (forall code i d, code <> ReasonOk ->
    result_ok (add code i d (set_limits (Some limits) empty_result)) = false) as Hadd.
  { intros code i d Hc. rewrite add_result_ok by done. cbn.
    apply not_true_iff_false. by rewrite code_eqb_eq. }
  repeat case_goal; cbn [fst snd]; rewrite ?Hadd by done; try done; cbn [at_publishers]; intros _;
    simpl_bools.
  - rewrite find_update_key_eq by done. match goal with H : find_key _ _ _ = _ |- _ => rewrite H end.
    eexists. by split.
  - rewrite find_key_app. match goal with H : find_key _ _ _ = _ |- _ => rewrite H end. cbn.
    rewrite Z.eqb_refl. eexists. by split.
Qed.

(** *** The handlers *)

Create HintDb serves discriminated.
Hint Resolve serves_refl serves_before serves_mark_dead serves_touch serves_refresh : serves.

Lemma dispatch_hello_serves e payload se c p :
  fair_env e -> let '(_, se', c') := dispatch_hello e payload se c p in serves se c se' c'.
Proof.
  intros He. unfold dispatch_hello.
  destruct (decode_hello _ _ _) as [[hello|] out]; [|apply serves_refl].
  set (c1 := ev_before e 1 (ev_before e 0 c)).
  assert (serves se c se c1) as H1.
  { eapply serves_trans; [by apply (serves_before e 0)|by apply serves_before]. }
  set (requested := if valid _ then _ else _).
  pose proof (register_publisher_grows (he_publisher hello) (he_boot hello) (he_scope hello)
    requested (co_limits c1) (co_authority c1)) as Hgrow.
  pose proof (registered_boot (he_publisher hello) (he_boot hello) (he_scope hello)
    requested (co_limits c1) (co_authority c1)) as Hreg.
  destruct (AuthorityTable.register_publisher _ _ _ _ _ _) as [registered authority].
  cbn [fst snd] in *. set (c2 := with_authority authority c1).
  assert (serves se c1 se c2) as H2 by (by apply serves_moves; [apply authority_moves|]).
  destruct (failed registered) eqn:Hf; [by eapply serves_trans|].
  set (se' := {| se_publisher := he_publisher hello |}).
  assert (serves se c1 se' c2) as H3.
  { intros Hg Hcap. destruct (H2 Hg Hcap) as (? & ? & ? & _). split_and!; [done|done|done|].
    intros _ _. exact (Hreg Hcap eq_refl). }
  eapply serves_trans; [exact H1|]. eapply serves_trans; [exact H3|].
  eapply serves_trans; [by apply (serves_before e 2)|].
  eapply serves_trans; [apply serves_touch|]. by apply serves_before.
Qed.

Lemma dispatch_heartbeat_serves e payload se c p :
  fair_env e -> let '(_, se', c') := dispatch_heartbeat e payload se c p in serves se c se' c'.
Proof.
  intros He. unfold dispatch_heartbeat.
  destruct (decode_heartbeat _ _ _) as [[beat|] out]; [|apply serves_refl].
  pose proof (heartbeat_grows (hb_publisher beat) (hb_boot beat) (hb_epoch beat)
    (co_authority (ev_before e 0 c))) as Hgrow.
  destruct (AuthorityTable.heartbeat _ _ _ _) as [result authority]. cbn [snd] in Hgrow.
  assert (serves se c se (with_authority authority (ev_before e 0 c))) as H1.
  { eapply serves_trans; [by apply (serves_before e 0)|].
    by apply serves_moves; [apply authority_moves|]. }
  destruct (result_ok result); [|done]. eapply serves_trans; [exact H1|apply serves_touch].
Qed.

Lemma answer_serves e se c p operation :
  fair_env e -> (forall s, moves s (operation s).2) ->
  let '(_, se', c') := answer e se c p operation in serves se c se' c'.
Proof.
  intros He Hop. unfold answer. specialize (Hop (co_store (ev_before e 0 c))).
  destruct (operation _) as [outcome s]. cbn [snd] in Hop.
  eapply serves_trans; [by apply (serves_before e 0)|].
  eapply serves_trans; [|by apply serves_before]. by apply serves_moves.
Qed.

Lemma lifecycle_operation_moves e se q s :
  fair (ev_store e) -> moves s (lifecycle_operation e se q s).2.
Proof.
  intros He. unfold lifecycle_operation.
  destruct (lq_op q); try (by apply transition_moves). by apply revalidate_moves.
Qed.

Lemma summaries_serves e n ls se c :
  fair_env e -> serves se c se (summaries e n ls c).2.
Proof.
  intros He. revert n c. induction ls as [|l ls IH]; intros n c; cbn [summaries]; [apply serves_refl|].
  specialize (IH (S n) (ev_before e n c)). destruct (summaries _ _ _ _) as [ss c'].
  eapply serves_trans; [by apply serves_before|exact IH].
Qed.

Lemma dispatch_serves e f se c :
  fair_env e -> let '(_, se', c') := dispatch e f se c in serves se c se' c'.
Proof.
  intros He. unfold dispatch.
  set (p := {| empty_response with rp_request_id := fr_request_id f; rp_epoch := co_epoch c |}).
  destruct (_ =? Message.Hello); [by apply dispatch_hello_serves|].
  destruct (_ =? Message.Heartbeat); [by apply dispatch_heartbeat_serves|].
  destruct (_ || _).
  { unfold dispatch_mutation. destruct (decode_mutation _ _ _) as [[m|] out]; [|apply serves_refl].
    destruct (se_registered se); [|apply serves_refl]. cbn [negb].
    apply answer_serves; [done|]. intros s. apply batch_moves; [apply He|]. by right; right. }
  destruct (_ || _).
  { unfold dispatch_lifecycle. destruct (decode_lifecycle _ _ _) as [[q|] out]; [|apply serves_refl].
    apply answer_serves; [done|]. intros s. apply lifecycle_operation_moves, He. }
  destruct (_ || _).
  { unfold dispatch_get. destruct (decode_get _ _ _) as [[q|] out]; [|apply serves_refl].
    destruct (_ =? _); [eauto with serves|].
    destruct (get _ _); [|eauto with serves].
    eapply serves_trans; [by apply (serves_before e 0)|by apply serves_before]. }
  destruct (_ =? _).
  { unfold dispatch_summaries.
    pose proof (summaries_serves e 1 (lists (co_store (ev_before e 0 c))) se (ev_before e 0 c) He) as H.
    destruct (summaries _ _ _ _) as [ss c']. eapply serves_trans; [by apply (serves_before e 0)|exact H]. }
  destruct (_ =? _).
  { unfold dispatch_refresh. pose proof (serves_refresh e se (ev_before e 0 c) He) as H.
    destruct (refresh _ _) as [report c']. eapply serves_trans; [by apply (serves_before e 0)|exact H]. }
  destruct (_ =? _); [|apply serves_refl].
  unfold dispatch_goodbye. destruct (se_registered se); [|apply serves_refl].
  apply serves_unregister. eapply serves_trans; [by apply (serves_before e 0)|apply serves_mark_dead].
Qed.

(** *** A whole connection *)

Lemma serve_frame_serves peer f n :
  (forall k, fair_env (pe_env peer k)) ->
  serves (cn_session n) (cn_server n)
    (cn_session (serve_frame peer f n)) (cn_server (serve_frame peer f n)).
Proof.
  intros He. unfold serve_frame.
  pose proof (dispatch_serves (pe_env peer (length (cn_sent n))) f (cn_session n) (cn_server n)
    (He _)) as H.
  destruct (dispatch _ _ _ _) as [[p se] c]. destruct (encode_response _ _ _) as [encoded r].
  destruct (failed r); [exact H|]. destruct (encode_frame _ _ _) as [bytes r'].
  destruct (_ || _); exact H.
Qed.

Lemma serve_frames_serves peer fs n :
  (forall k, fair_env (pe_env peer k)) ->
  serves (cn_session n) (cn_server n)
    (cn_session (serve_frames peer fs n)) (cn_server (serve_frames peer fs n)).
Proof.
  intros He. revert n. induction fs as [|f fs IH]; intros n; [apply serves_refl|].
  change (serve_frames peer (f :: fs) n) with
    (serve_frames peer fs (if cn_open n then serve_frame peer f n else n)).
  destruct (cn_open n); [|apply IH].
  eapply serves_trans; [by apply serve_frame_serves|apply IH].
Qed.

(** The server when the refresh of a lost session starts. *)
Definition parted e se c : Coordinator :=
  let c := ev_before e 1 (mark_dead (se_publisher se) (ev_before e 0 c)) in
  ev_before e 2 {| c with co_last_seen := erase_lease (se_publisher se) (co_last_seen c) |}.

Lemma lose_session_parted e se c :
  lose_session e se c = if se_registered se then (refresh e (parted e se c)).2 else c.
Proof. reflexivity. Qed.

Lemma serves_parted e se c : fair_env e -> serves se c se (parted e se c).
Proof.
  intros He. unfold parted. cbv zeta.
  eapply serves_trans; [by apply (serves_before e 0)|].
  eapply serves_trans; [apply serves_mark_dead|].
  eapply serves_trans; [by apply (serves_before e 1)|].
  eapply serves_trans; [|by apply serves_before]. by apply serves_moves.
Qed.

Lemma lose_session_serves e se c : fair_env e -> serves se c se (lose_session e se c).
Proof.
  intros He. rewrite lose_session_parted. destruct (se_registered se); [|apply serves_refl].
  eapply serves_trans; [by apply serves_parted|by apply serves_refresh].
Qed.

Lemma opened_session_ok c : session_ok new_session c.
Proof. done. Qed.

(** C7: Safety of a connection.  Whatever bytes arrive over a connection, however they are
    cut, and whatever the other threads of the server do meanwhile, the store keeps its
    invariant, every list keeps its history, no recorded attempt and no fenced boot is
    forgotten, no publisher changes its boot and the epoch never goes back. *)
Theorem connection_safe peer chunks c :
  fair_peer peer -> good (co_store c) -> 0 < max_reasons (co_limits c) ->
  let c' := (handle_connection peer chunks c).2 in
  good (co_store c') /\ co_config c' = co_config c /\
  (forall id l, get id (co_store c) = Some l ->
     exists l', get id (co_store c') = Some l' /\ lineage_le l l') /\
  (forall a, is_Some (find_attempt a (st_state (co_store c))) ->
     is_Some (find_attempt a (st_state (co_store c')))) /\
  (forall b, b ∈ at_fenced_boots (co_authority c) -> b ∈ at_fenced_boots (co_authority c')) /\
  boots_kept (co_authority c) (co_authority c') /\ co_epoch c <= co_epoch c'.
Proof.
  intros [He Hend] Hg Hcap. cbv zeta. unfold handle_connection. rewrite serve_chunks_receive.
  cbn [cn_open snd].
  change {| cn_session := new_session; cn_server := c; cn_sent := []; cn_open := true |}
    with (opened c).
  set (fs := (receive _ _ _).1). set (n := serve_frames peer fs (opened c)).
  assert (serves new_session c (cn_session n)
    (lose_session (pe_end peer) (cn_session n) (cn_server n))) as Hs.
  { eapply serves_trans; [exact (serve_frames_serves peer fs (opened c) He)|].
    by apply lose_session_serves. }
  destruct (Hs Hg Hcap) as (Hg' & [Hev [[Hb Hep] Hk]] & Hcfg & _). clear Hs.
  destruct (evolves_preserved _ _ Hev) as [_ Hle]. destruct (Hle Hg) as [_ [Hlin Hatt]].
  split_and!; try done. intros id l Hl. rewrite get_find in Hl by apply Hg.
  destruct (Hlin _ _ Hl) as (l' & Hl' & Hll). exists l'. split; [|done].
  by rewrite get_find by apply Hg'.
Qed.

Lemma parted_fences e se c :
  fair_env e -> good (co_store c) -> se_registered se = true -> session_ok se c ->
  se_boot se ∈ at_fenced_boots (co_authority (parted e se c)).
Proof.
  intros [He _] Hg Hr Hse. unfold parted. cbv zeta.
  destruct (He 0%nat c) as (_ & _ & Hg0).
  destruct (session_ok_grows _ _ _ Hg0 Hse Hr) as (p & Hp & <-).
  match goal with |- context [ev_before e 2 ?d] => destruct (He 2%nat d) as (_ & _ & [H2 _] & _) end.
  apply H2. change (co_authority (Build_Coordinator ?a ?b ?l)) with (st_authority b).
  destruct (He 1%nat (mark_dead (se_publisher se) (ev_before e 0 c))) as (_ & _ & [H1 _] & _).
  apply H1. exact (mark_dead_fences _ _ _ Hp).
Qed.

(** What the refresh after the end of a session writes can be written. *)
Definition parting_accepted e se c : Prop :=
  let s := co_store (parted e se c) in
  let t := if_capture (ev_store e) s in
  accepts (refreshed_state (refreshed_currentness (st_registry t) (st_authority t)
    (ev_snapshot <$> st_evidence s) (at_epoch (st_authority s))) t) t.


(** *** Leases *)

(** Nothing else runs. *)
Definition quiet e : Prop := (forall n c, ev_before e n c = c) /\ ev_store e = undisturbed.

Definition overdue e c (p : PublisherId * Z) : bool :=
  cf_lease_milliseconds (co_config c) <? ev_now e - snd p.

Lemma mark_all_spec e n ids c :
  quiet e ->
  co_last_seen (mark_all e n ids c) = co_last_seen c /\
  (forall id, AuthorityTable.find id (co_authority (mark_all e n ids c)) =
     if decide (id ∈ ids) then AuthorityTable.kill <$> AuthorityTable.find id (co_authority c)
     else AuthorityTable.find id (co_authority c)) /\
  (forall id p, id ∈ ids -> AuthorityTable.find id (co_authority c) = Some p ->
     ps_boot p ∈ at_fenced_boots (co_authority (mark_all e n ids c))) /\
  (forall b, b ∈ at_fenced_boots (co_authority c) ->
     b ∈ at_fenced_boots (co_authority (mark_all e n ids c))).
Proof.
  intros Hq. pose proof Hq as [Hb _]. revert n c. induction ids as [|i ids IH]; intros n c.
  { split_and!; [done| |by intros ? ? ?%not_elem_of_nil|done]. intros id.
    by rewrite decide_False by apply not_elem_of_nil. }
  cbn [mark_all]. rewrite Hb. destruct (IH (S n) (mark_dead i c)) as (Hl & Hf & Hx & Hm).
  assert (forall b, b ∈ at_fenced_boots (co_authority c) ->
    b ∈ at_fenced_boots (co_authority (mark_dead i c))) as Hkeep.
  { intros b. apply (mark_dead_grows i (co_authority c)). }
  split_and!; [done| | |auto].
  - intros id. rewrite Hf. change (co_authority (mark_dead i c))
      with (AuthorityTable.mark_dead i (co_authority c)).2. rewrite mark_dead_find.
    destruct (decide (id = i)) as [->|Hne].
    + rewrite (decide_True (P := i ∈ i :: ids)) by apply list_elem_of_here.
      destruct (decide (i ∈ ids)); [|done]. by destruct (AuthorityTable.find i (co_authority c)).
    + destruct (decide (id ∈ ids)) as [Hi|Hi].
      * by rewrite decide_True by by apply elem_of_cons; right.
      * rewrite decide_False; [done|]. by intros [?|?]%elem_of_cons.
  - intros id p Hid Hp. destruct (decide (id = i)) as [->|Hne].
    + apply Hm. exact (mark_dead_fences _ _ _ Hp).
    + apply elem_of_cons in Hid as [?|Hid]; [done|]. apply (Hx id p Hid).
      change (co_authority (mark_dead i c)) with (AuthorityTable.mark_dead i (co_authority c)).2.
      by rewrite mark_dead_find, decide_False.
Qed.

(** Leases.  The lease monitor drops exactly the publishers silent for longer than the
    lease, reports how many they were, kills exactly them, fencing their boots for good,
    and leaves every other publisher and every other lease as it was. *)
Theorem expire_leases_spec e c :
  quiet e ->
  let '(n, c') := expire_leases e c in
  n = size (List.filter (overdue e c) (co_last_seen c)) /\
  co_last_seen c' = List.filter (fun p => negb (overdue e c p)) (co_last_seen c) /\
  (forall id, AuthorityTable.find id (co_authority c') =
     if decide (id ∈ map fst (List.filter (overdue e c) (co_last_seen c)))
     then AuthorityTable.kill <$> AuthorityTable.find id (co_authority c)
     else AuthorityTable.find id (co_authority c)) /\
  (forall id t p, (id, t) ∈ co_last_seen c -> cf_lease_milliseconds (co_config c) < ev_now e - t ->
     AuthorityTable.find id (co_authority c) = Some p ->
     AuthorityTable.is_fenced (ps_boot p) (co_authority c') = true) /\
  (n = 0 -> c' = c).
Proof.
  intros Hq. unfold expire_leases. set (kept := {| co_config := co_config c |}).
  change (expired_publishers (ev_now e) c) with (map fst (List.filter (overdue e c) (co_last_seen c))).
  set (gone := List.filter (overdue e c) (co_last_seen c)).
  pose proof Hq as [Hb Hst]. rewrite Hb.
  destruct (mark_all_spec e 0 (map fst gone) kept Hq) as (Hl & Hf & Hx & _).
  set (marked := mark_all e 0 (map fst gone) kept) in *.
  assert (co_last_seen (refresh e marked).2 = co_last_seen marked /\
    co_authority (refresh e marked).2 = co_authority marked) as [Hrl Hra].
  { unfold refresh. pose proof (refresh_surroundings (ev_store e) (co_store marked)) as H.
    rewrite Hst in H |- *. destruct (refresh_currentness _ _) as [report s].
    destruct H as (_ & _ & Ha & _). by split. }
  assert (size (map fst gone) = size gone) as -> by (unfold size; by rewrite length_map).
  assert (is_empty (map fst gone) = true -> marked = c) as Hnone.
  { unfold marked, kept, gone. destruct (List.filter (overdue e c) (co_last_seen c)) as [|x g] eqn:Hg;
      [|done]. intros _. cbn [mark_all map].
    assert (List.filter (fun p => negb (overdue e c p)) (co_last_seen c) = co_last_seen c) as Hall.
    { clear -Hg. induction (co_last_seen c) as [|p l IH]; [done|]. cbn in *.
      destruct (overdue e c p); [done|]. cbn. by rewrite IH. }
    unfold overdue in Hall. rewrite Hall. by destruct c. }
  set (c' := if is_empty (map fst gone) then marked else (refresh e marked).2).
  assert (co_last_seen c' = co_last_seen marked /\ co_authority c' = co_authority marked) as [Hcl Hca].
  { unfold c'. by destruct (is_empty (map fst gone)). }
  split_and!; [done| | | |].
  - by rewrite Hcl, Hl.
  - intros id. by rewrite Hca, Hf.
  - intros id t p Hin Hlate Hp. rewrite Hca. apply zmem_spec. apply (Hx id p); [|done].
    apply list_elem_of_fmap. exists (id, t). split; [done|]. unfold gone.
    apply list_elem_of_In, filter_In. split; [by apply list_elem_of_In|].
    unfold overdue. by apply Z.ltb_lt.
  - unfold c'. intros Hn. assert (gone = []) as Hg.
    { unfold size in Hn. destruct gone; [done|]. cbn in Hn. lia. }
    rewrite Hg in *. by apply Hnone.
Qed.
End Serving.
