(* ===== verification/CoordinatorStart.v ===== *)
(** * Starting the coordinator

    A start that succeeds leaves a server over a store in which nothing is available yet,
    whose epoch is later than the one of the image it recovered and durable before the
    first connection is accepted. *)

From stdpp Require Import relations.
From S2P Require Import Prelude.
From S2P Require Import Ids.
From S2P Require Import Bytes.
From S2P Require Import Digest.
From S2P Require Import Segment.
From S2P Require Import Reason.
From S2P Require Import Lifecycle.
From S2P Require Import Governance.
From S2P Require Import Authority.
From S2P Require Import Registries.
From S2P Require Import Evidence.
From S2P Require Import Validation.
From S2P Require Import Persistence.
From S2P Require Import Store.
From S2P Require Import StoreProps.
From S2P Require Import StoreTheorems.
From S2P Require Import Recovery.
From S2P Require Import Wire.
From S2P Require Import Explain.
From S2P Require Import Coordinator.

(** ** The registry *)

Lemma register_profile_found p limits g :
  0 < max_reasons limits ->
  failed (Registry.register_profile p limits g).1 = false ->
  is_Some (Registry.find_profile (pr_id p) (Registry.register_profile p limits g).2).
Proof.
  intros Hl. unfold Registry.register_profile, Registry.find_profile, failed.
  assert (forall code i d, code <> ReasonOk ->
    result_ok (add code i d (set_limits (Some limits) empty_result)) = false) as Hadd.
  { intros code i d Hc. rewrite add_result_ok by done. cbn.
    apply not_true_iff_false. by rewrite code_eqb_eq. }
  repeat case_goal; cbn [fst snd]; rewrite ?Hadd by done; try done; intros _;
    cbn [Registry.bump rg_profiles];
    match goal with H : find_key _ _ _ = _ |- _ => rename H into Hf end.
  - rewrite find_update_key_eq by done. rewrite Hf. by eexists.
  - rewrite find_key_app, Hf. cbn. rewrite Z.eqb_refl. by eexists.
Qed.

Lemma register_profile_keeps p limits g id :
  is_Some (Registry.find_profile id g) ->
  is_Some (Registry.find_profile id (Registry.register_profile p limits g).2).
Proof.
  unfold Registry.register_profile, Registry.find_profile. intros Hid.
  repeat case_goal; cbn [snd Registry.bump rg_profiles]; try done.
  - destruct (decide (pr_id p = id)) as [<-|Hne].
    + rewrite find_update_key_eq by done. match goal with H : find_key _ _ _ = _ |- _ => rewrite H end.
      by eexists.
    + by rewrite find_update_key_ne by done.
  - destruct Hid as [q Hq]. rewrite find_key_app, Hq. by eexists.
Qed.

(** ** The store *)
Section Start.
Context {P : Type} `{!IPersistence P} `{!PersistenceLaws P}.
Implicit Types (s : SegmentListStore SyntheticEvidence P).

(** What registration and flushing leave alone. *)
Definition same_service s s' : Prop :=
  st_limits s' = st_limits s /\ st_authority s' = st_authority s /\ lists s' = lists s /\
  is_none (st_persistence s') = is_none (st_persistence s).

#[local] Instance same_service_preorder : PreOrder same_service.
Proof. split; unfold same_service; [done|]. intros s t u ? ?. destruct_and!. split_and!; congruence. Qed.

Lemma persist_registration_same result s : same_service s (persist_registration result s).2.
Proof.
  unfold persist_registration. destruct (persist_locked _ _ _) as [[saved r] s'] eqn:Hp.
  apply persist_locked_spec in Hp as ((Hl & _ & Ha & _) & Hst & _ & _ & Hn & _).
  destruct saved; cbn [negb snd]; split_and!; try done. unfold lists. by rewrite Hst.
Qed.

Lemma persist_registration_registry result s :
  st_registry (persist_registration result s).2 = st_registry s.
Proof.
  unfold persist_registration. destruct (persist_locked _ _ _) as [[saved r] s'] eqn:Hp.
  apply persist_locked_spec in Hp as ((_ & _ & _ & Hr) & _). by destruct saved.
Qed.

Lemma register_profile_same p s : same_service s (register_profile p s).2.
Proof.
  unfold register_profile. destruct (Registry.register_profile _ _ _) as [result registry].
  destruct (failed result); [done|]. etransitivity; [|apply persist_registration_same]. done.
Qed.

Lemma register_profile_registry p s :
  st_registry (register_profile p s).2 =
  (Registry.register_profile p (st_limits s) (st_registry s)).2.
Proof.
  unfold register_profile. destruct (Registry.register_profile _ _ _) as [result registry].
  destruct (failed result); [done|]. by rewrite persist_registration_registry.
Qed.

Lemma register_profile_failed p s :
  failed (register_profile p s).1 = false ->
  failed (Registry.register_profile p (st_limits s) (st_registry s)).1 = false.
Proof.
  unfold register_profile. destruct (Registry.register_profile _ _ _) as [result registry].
  cbn [fst]. destruct (failed result) eqn:Hf; [by cbn; rewrite Hf|done].
Qed.

Lemma register_builtins_spec ps s :
  0 < max_reasons (st_limits s) -> failed (register_builtins ps s).1 = false ->
  same_service s (register_builtins ps s).2 /\
  (forall id, is_Some (Registry.find_profile id (st_registry s)) ->
     is_Some (Registry.find_profile id (st_registry (register_builtins ps s).2))) /\
  (forall p, p ∈ ps ->
     is_Some (Registry.find_profile (pr_id p) (st_registry (register_builtins ps s).2))).
Proof.
  revert s. induction ps as [|p ps IH]; intros s Hcap; cbn [register_builtins].
  { intros _. split_and!; [done|done|]. by intros q ?%not_elem_of_nil. }
  destruct (Registry.find_profile (pr_id p) (st_registry s)) as [q|] eqn:Hq; cbn [is_none negb].
  - intros Hf. destruct (IH s Hcap Hf) as (Hs & Hk & Hin). split_and!; [done|done|].
    intros p' [->|Hp']%elem_of_cons; [|by apply Hin]. apply Hk. by rewrite Hq.
  - destruct (register_profile p s) as [registered s1] eqn:Hr.
    destruct (failed registered) eqn:Hf; [by cbn; rewrite Hf|]. intros Hrest.
    pose proof (register_profile_same p s) as Hs1. pose proof (register_profile_registry p s) as Hg1.
    pose proof (register_profile_failed p s) as Hf1. rewrite Hr in Hs1, Hg1, Hf1. cbn [fst snd] in *.
    assert (0 < max_reasons (st_limits s1)) as Hcap1 by by destruct Hs1 as [-> _].
    destruct (IH s1 Hcap1 Hrest) as (Hs & Hk & Hin). split_and!; [by etransitivity| |].
    + intros id Hid. apply Hk. rewrite Hg1. by apply register_profile_keeps.
    + intros p' [->|Hp']%elem_of_cons; [|by apply Hin]. apply Hk. rewrite Hg1.
      by apply register_profile_found, Hf1.
Qed.

(** Flushing makes the live epoch durable. *)
Lemma persist_now_spec s :
  0 < max_reasons (st_limits s) -> failed (persist_now s).1 = false ->
  let s' := (persist_now s).2 in
  same_service s s' /\ st_registry s' = st_registry s /\
  (st_persistence s <> None ->
     image s' = Some (encoding s' (st_state s')) /\
     ds_epoch (st_state s') = at_epoch (st_authority s')).
Proof.
  intros Hcap. unfold persist_now. destruct (st_persistence s) as [p|] eqn:Hp; [|done].
  destruct (persist_locked _ _ _) as [[saved r] s1] eqn:Hpl. intros Hf.
  assert (saved = true) as ->.
  { destruct saved; [done|]. cbn [negb fst] in Hf. unfold persist_locked in Hpl. rewrite Hp in Hpl.
    destruct (p_save _ _ _ p) as [[sv o1] p'] eqn:Hs. destruct sv; [done|].
    apply p_save_false in Hs as [_ Ho]. specialize (Ho Hcap). injection Hpl as <- _.
    rewrite Ho in Hf. unfold failed in Hf. by rewrite Ho in Hf. }
  apply persist_locked_spec in Hpl as ((Hl & _ & Ha & Hr) & Hst & _ & _ & Hn & Himg).
  cbn [negb snd]. split; [|split; [done|]].
  - unfold same_service. split_and!; try done.
  - intros _. unfold image, encoding in *. cbn [install rebuild_index_locked st_persistence st_limits
      st_state st_authority ds_epoch]. rewrite Ha, Hl. split; [|done]. apply Himg. by rewrite Hp.
Qed.

(** Nothing of the store is available, nobody is alive. *)
Definition asleep s : Prop :=
  Forall (fun l => sl_state l <> Active /\ sl_currentness l <> Current) (lists s) /\
  Forall dead (at_publishers (st_authority s)).

Lemma restore_authority_dead d t :
  Forall dead (at_publishers t) -> Forall dead (at_publishers (restore_authority d t)).
Proof.
  intros Ht. unfold restore_authority.
  assert (Forall dead (at_publishers (fold_left (fun t p => restore_dead p t) (ds_publishers d) t)))
    as Hd.
  { revert t Ht. induction (ds_publishers d) as [|p ps IH]; intros t Ht; [done|]. cbn [fold_left].
    apply IH. destruct (restore_dead_spec p t) as (_ & -> & _). by apply Forall_put_key. }
  revert Hd. generalize (fold_left (fun t p => restore_dead p t) (ds_publishers d) t) as u.
  induction (ds_fenced_boots d) as [|b bs IH]; intros u Hu; [done|]. cbn [fold_left]. by apply IH.
Qed.

Lemma recovered_asleep d s s' :
  Forall dead (at_publishers (st_authority s)) -> lists s' = map recover_list (ds_lists d) ->
  (exists t, st_authority s' = restore_authority d t /\
     at_publishers t = at_publishers (st_authority s)) -> asleep s'.
Proof.
  intros Hd Hl (t & Ht & Hp). split.
  - rewrite Hl. apply list.Forall_forall. intros l' Hl'. apply list_elem_of_fmap in Hl' as (l & -> & _).
    by destruct (recover_list_spec l) as (? & ? & _).
  - rewrite Ht. apply restore_authority_dead. by rewrite Hp.
Qed.

(** Loading into a store that is asleep leaves it asleep. *)
Lemma load_asleep s :
  asleep s -> st_limits (load s).2 = st_limits s /\ asleep (load s).2 /\
  is_none (st_persistence (load s).2) = is_none (st_persistence s).
Proof.
  intros Hs. pose proof Hs as [_ Hd]. unfold load.
  destruct (st_persistence s) as [p|] eqn:Hp; [|by (cbn [snd]; rewrite Hp)].
  destruct (p_load _ _ p) as [read report]. destruct (negb read); [by (cbn [snd]; rewrite Hp)|].
  destruct (negb (lr_loaded report)); [by (cbn [snd]; rewrite Hp)|].
  set (d := lr_state report). set (base := recovery_base _ _).
  unfold AuthorityTable.restore_epoch. destruct (negb (valid base) || _); [by (cbn [negb snd]; rewrite Hp)|].
  cbn [negb]. unfold AuthorityTable.advance_epoch. cbn [at_epoch].
  destruct (Generation.next base) as [g|]; cbn [negb]; [|done].
  destruct (persist_locked _ _ _) as [[saved r] s2] eqn:Hpl.
  apply persist_locked_spec in Hpl as ((Hl & _ & Ha & _) & Hst & _ & _ & Hn & _).
  cbn [snd]. split; [done|split].
  - apply (recovered_asleep d s); [done|unfold lists; by rewrite Hst|]. rewrite Ha. by eexists.
  - exact Hn.
Qed.

Lemma start_load_spec cfg s :
  asleep s ->
  let '(usable, report, s') := start_load cfg s in
  st_limits s' = st_limits s /\ asleep s' /\
  is_none (st_persistence s') = is_none (st_persistence s).
Proof.
  intros Hs. unfold start_load. destruct (_ && _); [|done].
  pose proof (load_asleep s Hs) as H. by destruct (load s).
Qed.

Lemma new_store_asleep limits backend :
  asleep (new_store (E := SyntheticEvidence) (P := P) limits (Some (make_synthetic_fabric 64)) backend).
Proof. split; apply list.Forall_nil_2. Qed.

Lemma advance_epoch_publishers t :
  at_publishers (AuthorityTable.advance_epoch t).2 = at_publishers t.
Proof. unfold AuthorityTable.advance_epoch. by destruct (Generation.next _). Qed.

(** What a successful start went through. *)
Lemma start_steps cfg backend io out out' report c :
  start cfg backend io out = (true, out', report, c) ->
  exists s1 s2,
    start_load cfg (new_store (cf_limits cfg) (Some (make_synthetic_fabric 64)) backend) =
      (true, report, s1) /\
    failed (register_builtins builtins s1).1 = false /\ s2 = (register_builtins builtins s1).2 /\
    let t := if cf_advance_epoch cfg then AuthorityTable.advance_epoch (st_authority s2)
             else (true, st_authority s2) in
    t.1 = true /\
    let s3 := {| s2 with st_authority := t.2 |} in
    failed (persist_now s3).1 = false /\ io_listen io = [] /\ io_write_port io = true /\
    c = {| co_config := cfg; co_store := (persist_now s3).2; co_last_seen := [] |}.
Proof.
  unfold start. destruct (start_load _ _) as [[usable rep] s1]. destruct usable; [|done].
  cbn [negb]. destruct (register_builtins _ _) as [registered s2] eqn:Hr.
  destruct (failed registered) eqn:Hf; [done|].
  destruct (if cf_advance_epoch cfg then _ else _) as [advanced authority] eqn:Ha.
  destruct advanced; [|done]. cbn [negb].
  destruct (persist_now _) as [flushed s4] eqn:Hp. destruct (failed flushed) eqn:Hf'; [done|].
  destruct (io_listen io) eqn:Hio; [|done]. destruct (io_write_port io) eqn:Hw; [|done].
  intros [= <- <- <-]. exists s1, s2. rewrite Hr, Ha. cbn [fst snd]. rewrite Hp. by split_and!.
Qed.

(** C19: A started server.  After a start that succeeds the server has the configured limits
    and no leases; no list is active or current and no publisher is alive until it says
    hello; the built-in profiles are registered; and, when there is a backend, the state
    is durable under the live epoch. *)
Theorem start_spec cfg backend io out out' report c :
  0 < max_reasons (cf_limits cfg) ->
  start cfg backend io out = (true, out', report, c) ->
  st_limits (co_store c) = cf_limits cfg /\ co_last_seen c = [] /\
  Forall (fun l => sl_state l <> Active /\ sl_currentness l <> Current) (lists (co_store c)) /\
  (forall id, AuthorityTable.is_alive id (co_authority c) = false) /\
  (forall p, p ∈ builtins ->
     is_Some (Registry.find_profile (pr_id p) (st_registry (co_store c)))) /\
  (backend <> None ->
     image (co_store c) = Some (encoding (co_store c) (st_state (co_store c))) /\
     ds_epoch (st_state (co_store c)) = co_epoch c).
Proof.
  intros Hcap Hs. apply start_steps in Hs as (s1 & s2 & Hload & Hreg & -> & Ht & Hfl & _ & _ & ->).
  pose proof (start_load_spec cfg _ (new_store_asleep (cf_limits cfg) backend)) as Hl.
  rewrite Hload in Hl. destruct Hl as (Hl1 & [Hla Hd] & Hn1). cbn [new_store st_limits st_persistence] in *.
  rewrite <-Hl1 in Hcap. destruct (register_builtins_spec builtins s1 Hcap Hreg) as
    ((Hl2 & Ha2 & Hli2 & Hn2) & _ & Hb).
  set (s2 := (register_builtins builtins s1).2) in *.
  set (t := if cf_advance_epoch cfg then _ else _) in *.
  set (s3 := {| s2 with st_authority := t.2 |}) in *.
  assert (0 < max_reasons (st_limits s3)) as Hcap3 by (cbn; by rewrite Hl2).
  destruct (persist_now_spec s3 Hcap3 Hfl) as ((Hl & Ha & Hli & Hn) & Hr & Himg).
  unfold co_authority, co_epoch. cbn [co_store co_last_seen]. split_and!.
  - rewrite Hl. cbn. congruence.
  - done.
  - rewrite Hli. change (lists s3) with (lists s2). by rewrite Hli2.
  - intros id. rewrite Ha. unfold AuthorityTable.is_alive, AuthorityTable.find.
    assert (at_publishers (st_authority s3) = at_publishers (st_authority s1)) as ->.
    { rewrite <-Ha2. cbn. unfold t. destruct (cf_advance_epoch cfg); [|done].
      apply advance_epoch_publishers. }
    destruct (find_key ps_id id _) as [p|] eqn:Hf; [|done]. apply find_key_Some in Hf as [Hin _].
    rewrite list.Forall_forall in Hd. by destruct (Hd p Hin) as [-> _].
  - intros p Hp. rewrite Hr. by apply Hb.
  - intros Hback. apply Himg. intros Hnone. apply Hback.
    assert (is_none (st_persistence s2) = true) as Hz by by rewrite <-(eq_refl : st_persistence s3 = st_persistence s2), Hnone.
    rewrite Hn2, Hn1 in Hz. by destruct backend.
Qed.

(** A restarted server.  A server that starts over a durable image recovers every list of
    it, none of them active, with its history and its replay table, in an epoch later than
    the one the image was written in. *)
Theorem start_recovers cfg backend io out out' report c d :
  0 < max_reasons (cf_limits cfg) -> cf_load_persisted cfg = true ->
  holds_image d (new_store (cf_limits cfg) (Some (make_synthetic_fabric 64)) (Some backend)) ->
  fits 64 (ds_epoch d) -> ds_epoch d <> Generation.max_value ->
  start cfg (Some backend) io out = (true, out', report, c) ->
  lr_loaded report = true /\ lr_lists_recovered report = size (ds_lists d) /\
  lists (co_store c) = map recover_list (ds_lists d) /\
  ds_epoch d < co_epoch c /\
  (forall b, b ∈ ds_fenced_boots d -> AuthorityTable.is_fenced b (co_authority c) = true) /\
  (forall p, p ∈ ds_publishers d -> ps_boot p <> 0 ->
     AuthorityTable.is_fenced (ps_boot p) (co_authority c) = true).
Proof.
  intros Hcap Hlp Him Hfd Hmax Hs.
  apply start_steps in Hs as (s1 & s2 & Hload & Hreg & -> & Ht & Hfl & _ & _ & ->).
  set (s0 := new_store _ _ _) in *.
  assert (fits 64 (at_epoch (st_authority s0))) as Hf0 by (vm_compute; split; congruence).
  assert (recovery_base (ds_epoch d) (at_epoch (st_authority s0)) <> Generation.max_value) as Hbase.
  { change (at_epoch (st_authority s0)) with 1. unfold recovery_base, Generation.initial.
    destruct (valid (ds_epoch d)); [|done]. by destruct (ds_epoch d <? 1). }
  pose proof (load_recovered d s0 Him Hfd Hf0 Hbase) as Hrec.
  unfold start_load in Hload. rewrite Hlp in Hload. cbn [andb is_none negb] in Hload.
  change (st_persistence s0) with (Some backend) in Hload. cbn [is_none negb] in Hload.
  destruct (load s0) as [rep s1'] eqn:Hl0. injection Hload as _ -> ->.
  destruct Hrec as (Hld & _ & (Hlim & Hli1 & _ & _ & _ & Hep & _ & t0 & Hau) & Hcount).
  assert (0 < max_reasons (st_limits s1)) as Hcap1 by by rewrite Hlim.
  destruct (register_builtins_spec builtins s1 Hcap1 Hreg) as ((Hl2 & Ha2 & Hli2 & _) & _ & _).
  set (s2 := (register_builtins builtins s1).2) in *.
  set (t := if cf_advance_epoch cfg then _ else _) in *.
  set (s3 := {| s2 with st_authority := t.2 |}) in *.
  assert (0 < max_reasons (st_limits s3)) as Hcap3 by (cbn; by rewrite Hl2).
  destruct (persist_now_spec s3 Hcap3 Hfl) as ((_ & Ha & Hli & _) & _).
  destruct (recovery_base_above (ds_epoch d) (at_epoch (st_authority s0))) as [H1 H2].
  destruct (recovery_base_valid _ _ Hfd Hf0) as [_ Hbf].
  apply Generation.next_Some in Hep as (Hep & Hef & _); [|done].
  assert (ds_epoch d < at_epoch (st_authority s1)) as Hlt.
  { destruct (decide (ds_epoch d = 0)) as [Hz|Hz]; [|specialize (H2 Hz); lia].
    change (at_epoch (st_authority s0)) with 1 in H1. unfold fits in Hbf. lia. }
  assert (at_epoch (st_authority s1) <= at_epoch t.2 /\
    at_fenced_boots t.2 = at_fenced_boots (st_authority s1)) as [Hge Hfb].
  { unfold t. rewrite Ha2. destruct (cf_advance_epoch cfg); [|by split].
    unfold AuthorityTable.advance_epoch. destruct (Generation.next _) as [g|] eqn:Hg; [|by split].
    apply Generation.next_Some in Hg as (-> & _ & _); [|exact Hef]. cbn. split; [lia|done]. }
  destruct (restore_authority_spec d t0) as (_ & _ & Hfenced). rewrite <-Hau in Hfenced.
  unfold co_authority, co_epoch. cbn [co_store]. unfold AuthorityTable.is_fenced. rewrite Ha.
  change (st_authority s3) with t.2. rewrite Hfb. split_and!; try done.
  - rewrite Hli. change (lists s3) with (lists s2). by rewrite Hli2.
  - unfold co_authority. cbn [co_store]. rewrite Ha. cbn. lia.
  - intros b Hb. apply zmem_spec, Hfenced. auto.
  - intros p Hp Hb. apply zmem_spec, Hfenced. right. left. split; [|done]. by apply list_elem_of_fmap_2.
Qed.
End Start.
