(* ===== verification/Worker.v ===== *)
(** * The worker

    [include/srf/worker.hpp] and [src/worker.cpp]: the client half of the protocol.  A
    socket is what its calls come to: whether a send goes out, and the chunks that arrive
    until the transport ends. *)

From S2P Require Import Prelude.
From S2P Require Import Ids.
From S2P Require Import Bytes.
From S2P Require Import Digest.
From S2P Require Import Reason.
From S2P Require Import Governance.
From S2P Require Import Evidence.
From S2P Require Import Validation.
From S2P Require Import Registries.
From S2P Require Import Persistence.
From S2P Require Import Store.
From S2P Require Import Wire.

Record WorkerConfig := {
  wc_limits : Limits;
  wc_boot : WorkerBootId;
  wc_publisher : PublisherId;
  wc_scope : ScopeId;
  wc_expected_epoch : CoordinatorEpoch;
}.

Record WorkerClient := {
  wk_config : WorkerConfig;
  wk_connected : bool;
  wk_next_request : Z;
  wk_attempt_counter : Z;
  wk_session : WorkerSessionId;
  wk_session_epoch : CoordinatorEpoch;
  wk_transport_status : StatusCode;
}.

(** [WorkerClient{}]; the configuration of an unopened client is a default one. *)
Definition new_client (config : WorkerConfig) : WorkerClient := {|
  wk_config := config; wk_connected := false; wk_next_request := 1; wk_attempt_counter := 0;
  wk_session := 0; wk_session_epoch := 0; wk_transport_status := StOk;
|}.

(** What the network does during one exchange: whether the request goes out, and the
    chunks that arrive until the transport ends. *)
Record Line := {
  li_send : bool;
  li_chunks : list (list Byte.byte);
}.

(** [open]: the port file, and the reasons a connection fails for. *)
Definition open (config : WorkerConfig) (port : option Z) (connect : Z -> list Reason)
    (out : ValidationResult) (w : WorkerClient) : bool * ValidationResult * WorkerClient :=
  let w := {| w with wk_config := config |} in
  let out := set_limits (Some (wc_limits config)) out in
  match port with
  | None => (false, add PersistIoError 0 11 out, w)
  | Some port =>
      let connected := is_empty (connect port) in
      (connected, emit (connect port) out, {| w with wk_connected := connected |})
  end.

Definition close (w : WorkerClient) : WorkerClient := {| w with wk_connected := false |}.

(** The mix of the boot and the counter that makes an attempt. *)
Definition attempt_mix (boot counter : Z) : Z :=
  Z.lxor (u64 (boot * 0x9E3779B97F4A7C15)) (u64 (counter * 0x100000001B3)).

Definition next_attempt (w : WorkerClient) : MutationAttemptId * WorkerClient :=
  let counter := u64 (wk_attempt_counter w + 1) in
  let mixed := attempt_mix (wc_boot (wk_config w)) counter in
  (if mixed =? 0 then u64 (counter + 1) else mixed,
   {| w with wk_attempt_counter := counter |}).

Definition plain_reason (code : ReasonCode) (detail : Z) : WireReason :=
  to_wire (mkReason code 0 detail).

Definition refusal (status : StatusCode) (rs : list WireReason) (p : Response) : Response :=
  {| p with rp_status := status; rp_reasons := rs |}.

Definition with_status (s : StatusCode) (w : WorkerClient) : WorkerClient :=
  {| w with wk_transport_status := s |}.

(** The frame the client got back, decoded. *)
Definition take_response (limits : Limits) (f : Frame) (w : WorkerClient)
  : Response * WorkerClient :=
  if negb (fr_message f =? Message.Response)
  then (refusal StRejected [plain_reason WireUnknownMessageId (fr_message f)] empty_response, w)
  else
    match decode_response (fr_payload f) limits empty_response empty_result with
    | (false, p, result) => (refusal StRejected (map to_wire (reasons result)) p, w)
    | (true, p, _) => (p, with_status StOk w)
    end.

(** The loop of [exchange]: one turn per chunk that arrives. *)
Fixpoint await (limits : Limits) (chunks : list (list Byte.byte)) (a : FrameAssembler)
    (w : WorkerClient) : Response * WorkerClient :=
  match FrameAssembler.next limits empty_result a with
  | (Some f, _, _) => take_response limits f w
  | (None, result, a) =>
      if failed result
      then (refusal StRejected (map to_wire (reasons result)) empty_response,
            with_status StRejected w)
      else
        match chunks with
        | [] => (refusal StInternal [plain_reason InternalError 23] empty_response,
                 close (with_status StInternal w))
        | chunk :: chunks => await limits chunks (FrameAssembler.feed chunk a) w
        end
  end.

(** The frame of a request. *)
Definition request_frame (message : MessageId) (payload : ByteBuffer) (w : WorkerClient) : Frame :=
  {| empty_frame with fr_message := message; fr_request_id := wk_next_request w;
                      fr_payload := payload |}.

(** [exchange]: the response, and the bytes handed to the socket. *)
Definition exchange (message : MessageId) (payload : ByteBuffer) (line : Line) (w : WorkerClient)
  : Response * list Byte.byte * WorkerClient :=
  let limits := wc_limits (wk_config w) in
  if negb (wk_connected w)
  then (refusal StInternal [plain_reason InternalError 21] empty_response, [],
        with_status StInternal w)
  else
    let f := request_frame message payload w in
    let w := {| w with wk_next_request := u64 (wk_next_request w + 1) |} in
    let '(bytes, result) := encode_frame f limits empty_result in
    if failed result || negb (li_send line)
    then
      let rs := map to_wire (reasons result) in
      (refusal StInternal (if is_empty rs then [plain_reason InternalError 22] else rs)
         empty_response,
       if failed result then [] else bytes, with_status StInternal w)
    else
      let '(p, w) := await limits (li_chunks line) new_assembler w in (p, bytes, w).

Definition handshake (line : Line) (w : WorkerClient)
  : Response * list Byte.byte * WorkerClient :=
  let c := wk_config w in
  let hello := {| he_boot := wc_boot c; he_publisher := wc_publisher c; he_scope := wc_scope c;
                  he_epoch := wc_expected_epoch c |} in
  let '(p, sent, w) := exchange Message.Hello (encode_hello hello) line w in
  (p, sent,
   match rp_status p with
   | StOk => {| w with wk_session_epoch := rp_epoch p; wk_session := rp_session p |}
   | _ => w
   end).

Definition heartbeat (line : Line) (w : WorkerClient) :=
  let beat := {| hb_publisher := wc_publisher (wk_config w); hb_boot := wc_boot (wk_config w);
                 hb_epoch := wk_session_epoch w |} in
  exchange Message.Heartbeat (encode_heartbeat beat) line w.

Definition send_mutation (message : MessageId) (d : ListDraft) (line : Line) (w : WorkerClient)
  : Response * list Byte.byte * WorkerClient :=
  let '(attempt, w) := next_attempt w in
  let mutation := {| mu_attempt := attempt; mu_draft := d |} in
  let '(payload, result) := encode_mutation mutation (wc_limits (wk_config w)) empty_result in
  if failed result
  then (refusal StRejected (map to_wire (reasons result)) empty_response, [], w)
  else exchange message payload line w.

Definition message_for (op : LifecycleOp) : MessageId :=
  match op with
  | OpWithdraw => Message.Withdraw
  | OpWithdrawCommit => Message.WithdrawCommit
  | OpRevoke => Message.Revoke
  | OpRetire => Message.Retire
  | OpRevalidate => Message.Revalidate
  end.

Definition send_lifecycle (op : LifecycleOp) (list : SegmentListId)
    (expected : SegmentListGeneration) (line : Line) (w : WorkerClient) :=
  let '(attempt, w) := next_attempt w in
  exchange (message_for op)
    (encode_lifecycle {| lq_attempt := attempt; lq_op := op; lq_list := list;
                         lq_expected := expected |}) line w.

Definition send_get (list : SegmentListId) (line : Line) (w : WorkerClient) :=
  exchange Message.Get (encode_get {| ge_list := list |}) line w.

Definition send_summaries (line : Line) (w : WorkerClient) :=
  exchange Message.ListSummaries [] line w.

Definition send_explain_currentness (list : SegmentListId) (line : Line) (w : WorkerClient) :=
  exchange Message.ExplainCurrentness (encode_get {| ge_list := list |}) line w.

Definition send_refresh_currentness (line : Line) (w : WorkerClient) :=
  exchange Message.RefreshCurrentness [] line w.

Definition goodbye (line : Line) (w : WorkerClient) := exchange Message.Goodbye [] line w.
