(* ===== verification/WorkerProps.v ===== *)
(** * The worker and the coordinator together

    The attempts of a worker do not repeat, and an exchange over a line that delivers the
    bytes, however they are cut, returns exactly the response of the coordinator to
    exactly the request of the worker. *)

From stdpp Require Import relations.
From S2P Require Import Prelude.
From S2P Require Import Ids.
From S2P Require Import Bytes.
From S2P Require Import Digest.
From S2P Require Import Reason.
From S2P Require Import Governance.
From S2P Require Import Authority.
From S2P Require Import Evidence.
From S2P Require Import Validation.
From S2P Require Import Persistence.
From S2P Require Import Store.
From S2P Require Import StoreProps.
From S2P Require Import Codec.
From S2P Require Import Explain.
From S2P Require Import Wire.
From S2P Require Import WireProps.
From S2P Require Import WireFrames.
From S2P Require Import WireStream.
From S2P Require Import Coordinator.
From S2P Require Import CoordinatorProps.
From S2P Require Import Worker.

(** ** Attempts *)

Lemma attempt_mix_inj boot i j :
  fits 64 i -> fits 64 j -> attempt_mix boot i = attempt_mix boot j -> i = j.
Proof.
  intros Hi Hj H. apply lxor_cancel_l in H. by apply u64_mul_prime_inj.
Qed.

(** The next [n] attempts of a worker. *)
Fixpoint attempts (n : nat) (w : WorkerClient) : list MutationAttemptId :=
  match n with
  | O => []
  | S n => let '(a, w) := next_attempt w in a :: attempts n w
  end.

Lemma attempts_mix n w :
  0 <= wk_attempt_counter w -> wk_attempt_counter w + Z.of_nat n < 2 ^ 64 ->
  (forall k, wk_attempt_counter w < k <= wk_attempt_counter w + Z.of_nat n ->
     attempt_mix (wc_boot (wk_config w)) k <> 0) ->
  attempts n w = map (fun k => attempt_mix (wc_boot (wk_config w)) (wk_attempt_counter w + k))
    (seqZ 1 (Z.of_nat n)).
Proof.
  revert w. induction n as [|n IH]; intros w H0 Hn Hk; [done|].
  rewrite Nat2Z.inj_succ, seqZ_cons by lia. cbn [attempts map]. unfold next_attempt.
  assert (u64 (wk_attempt_counter w + 1) = wk_attempt_counter w + 1) as ->
    by (apply wrap_small; unfold fits; lia).
  destruct (Z.eqb_spec (attempt_mix (wc_boot (wk_config w)) (wk_attempt_counter w + 1)) 0) as [Hz|_].
  { exfalso. eapply Hk; [|exact Hz]. lia. }
  f_equal. rewrite IH; cbn [wk_attempt_counter wk_config]; [|lia|lia|].
  - rewrite Z.pred_succ. change (Z.succ 1) with (1 + 1).
    rewrite <-(fmap_add_seqZ 1 1 (Z.of_nat n)). rewrite <-list_fmap_compose.
    apply list_fmap_ext. intros i k _. cbn. f_equal. lia.
  - intros k Hr. apply Hk. lia.
Qed.

(** The attempts of a worker.  As long as its counter does not wrap around and no mix of
    its boot and the counter happens to be zero, no two mutations of a worker carry the
    same attempt and none carries the invalid one: none of them is mistaken for the replay
    of another. *)
Theorem attempts_distinct n w :
  0 <= wk_attempt_counter w -> wk_attempt_counter w + Z.of_nat n < 2 ^ 64 ->
  (forall k, wk_attempt_counter w < k <= wk_attempt_counter w + Z.of_nat n ->
     attempt_mix (wc_boot (wk_config w)) k <> 0) ->
  NoDup (attempts n w) /\ Forall (fun a => a <> 0) (attempts n w).
Proof.
  intros H0 Hn Hk. rewrite attempts_mix by done. split.
  - apply NoDup_fmap_2_strong; [|apply NoDup_seqZ].
    intros i j Hi%elem_of_seqZ Hj%elem_of_seqZ H.
    apply attempt_mix_inj in H; unfold fits; lia.
  - apply list.Forall_forall. intros a Ha. apply list_elem_of_fmap in Ha as (k & -> & Hk').
    apply elem_of_seqZ in Hk'. apply Hk. lia.
Qed.

(** ** Exchanges *)

(** A step that delivers nothing and does not overflow reports nothing. *)
Lemma next_silent limits a out a' :
  fa_overflowed a = false -> FrameAssembler.next limits empty_result a = (None, out, a') ->
  fa_overflowed a' = false -> failed out = false.
Proof.
  unfold FrameAssembler.next. intros ->.
  destruct (Z.ltb_spec (size (fa_buffer a)) kFrameHeaderBytes); [by intros [= <- <-]|].
  destruct (read_header_total (take (Z.to_nat kFrameHeaderBytes) (fa_buffer a)))
    as (h & r & -> & _); [apply size_take; unfold kFrameHeaderBytes in *; lia|].
  destruct (_ <? fh_payload_length h); [by intros [= <- <-]|]. cbv zeta.
  destruct (_ <? _); [by intros [= <- <-]|].
  destruct (decode_frame _ _ _) as [[f|] o]; [done|]. by intros [= <- <-].
Qed.

(** The loop of the client takes the first frame of the stream. *)
Lemma await_frame limits chunks a w g rest :
  frame_wire limits g -> fa_overflowed a = false ->
  fa_buffer a ++ concat chunks = frame_bytes g ++ rest ->
  await limits chunks a w = take_response limits g w.
Proof.
  intros Hg. revert a. induction chunks as [|chunk chunks IH]; intros a Ho Hb; cbn [await concat] in *.
  - rewrite app_nil_r in Hb. destruct (next_frame limits g rest Hg) as (out & Hn).
    assert (a = {| fa_buffer := frame_bytes g ++ rest; fa_overflowed := false |}) as ->
      by (destruct a; cbn in *; congruence).
    by rewrite Hn.
  - pose proof (next_with_rest limits a (chunk ++ concat chunks)) as H.
    assert (with_rest (chunk ++ concat chunks) a =
      {| fa_buffer := frame_bytes g ++ rest; fa_overflowed := false |}) as Hwr
      by (destruct a; cbn in *; unfold with_rest; cbn; congruence).
    rewrite Hwr in H. destruct (next_frame limits g rest Hg) as (out & Hn). rewrite Hn in H.
    destruct (FrameAssembler.next limits empty_result a) as [[[f|] o] a'] eqn:Ha.
    + destruct H as ([= <- _ _] & _). done.
    + destruct (fa_overflowed a') eqn:Ho'; [by destruct H as (? & ? & [=] & _)|].
      rewrite (next_silent _ _ _ _ Ho Ha Ho'). subst a'.
      rewrite feed_open by done. apply IH; [done|]. unfold with_rest. cbn.
      by rewrite <-app_assoc.
Qed.

Lemma encode_frame_ok limits f :
  frame_wire limits f ->
  encode_frame f limits empty_result = (frame_bytes f, set_limits (Some limits) empty_result).
Proof.
  intros (_ & Hm & _ & _ & Hp & _). unfold encode_frame.
  destruct (Z.ltb_spec (max_frame_bytes limits) (size (fr_payload f))); [lia|].
  destruct (Z.eqb_spec (fr_message f) Message.Invalid); [unfold Message.Invalid in *; lia|done].
Qed.

(** The frame the coordinator answers a request with. *)
Definition response_frame (id : Z) (p : Response) : Frame :=
  {| empty_frame with fr_message := Message.Response; fr_request_id := id;
                      fr_payload := response_bytes p |}.

Lemma take_response_frame limits id p w :
  response_wire limits p ->
  take_response limits (response_frame id p) w = (p, with_status StOk w).
Proof.
  intros Hp. unfold take_response.
  change (negb (fr_message (response_frame id p) =? Message.Response)) with false.
  change (fr_payload (response_frame id p)) with (response_bytes p). unfold decode_response.
  by destruct (decode_response_bytes limits p Hp _ (in_front_reader _)) as (r' & ->).
Qed.

(** An exchange whose request goes out and whose answer arrives. *)
Lemma exchange_answered limits message payload line w id p rest :
  limits = wc_limits (wk_config w) -> wk_connected w = true -> li_send line = true ->
  frame_wire limits (request_frame message payload w) ->
  frame_wire limits (response_frame id p) -> response_wire limits p ->
  concat (li_chunks line) = frame_bytes (response_frame id p) ++ rest ->
  exchange message payload line w =
    (p, frame_bytes (request_frame message payload w),
     with_status StOk {| w with wk_next_request := u64 (wk_next_request w + 1) |}).
Proof.
  intros Hl Hw Hs Hf Hg Hp Hc. unfold exchange. rewrite <-Hl, Hw, Hs. cbn [negb].
  rewrite encode_frame_ok by done. cbn [failed].
  rewrite (await_frame limits _ _ _ (response_frame id p) rest Hg) by done.
  by rewrite take_response_frame.
Qed.

(** ** The coordinator's answer *)
Section EndToEnd.
Context {P : Type} `{!IPersistence P} `{!PersistenceLaws P}.
Implicit Types (c : Coordinator (P := P)) (e : Env (P := P)) (n : Connection (P := P)).

(** Every response carries the identifier of its request. *)
Lemma dispatch_request_id e f se c :
  rp_request_id (dispatch e f se c).1.1 = fr_request_id f.
Proof.
  unfold dispatch.
  set (p := {| empty_response with rp_request_id := fr_request_id f; rp_epoch := co_epoch c |}).
  change (fr_request_id f) with (rp_request_id p). clearbody p.
  unfold dispatch_hello, dispatch_heartbeat, dispatch_mutation, dispatch_lifecycle, dispatch_get,
    dispatch_summaries, dispatch_refresh, dispatch_goodbye, answer.
  repeat match goal with |- context [match ?x with _ => _ end] => destruct x end; reflexivity.
Qed.

(** What the coordinator sends for a frame whose response fits the wire. *)
Lemma serve_frame_answers peer f n limits :
  let '(p, se, c) := dispatch (pe_env peer (length (cn_sent n))) f (cn_session n) (cn_server n) in
  co_limits c = limits -> response_wire limits p ->
  frame_wire limits (response_frame (fr_request_id f) p) ->
  pe_send peer (length (cn_sent n)) = true ->
  serve_frame peer f n =
    {| cn_session := se; cn_server := c;
       cn_sent := cn_sent n ++ [frame_bytes (response_frame (fr_request_id f) p)];
       cn_open := negb (fr_message f =? Message.Goodbye) |}.
Proof.
  unfold serve_frame. destruct (dispatch _ _ _ _) as [[p se] c]. intros -> Hp Hg Hs.
  pose proof Hp as (_ & _ & _ & _ & _ & _ & _ & _ & _ & Hsum & _).
  unfold encode_response. destruct (Z.ltb_spec (max_lists limits) (size (rp_summaries p))); [lia|].
  change (failed (set_limits (Some limits) empty_result)) with false. cbv iota.
  change {| empty_frame with fr_message := Message.Response; fr_request_id := fr_request_id f;
            fr_payload := response_bytes p |} with (response_frame (fr_request_id f) p).
  rewrite encode_frame_ok by done. rewrite Hs.
  change (failed (set_limits (Some limits) empty_result)) with false. reflexivity.
Qed.

(** C6: One request, end to end.  When a worker's request and the coordinator's response to it
    fit the wire and the network delivers the bytes, cut in whatever way in both
    directions, then the coordinator serves exactly the worker's frame, once, and the
    worker's exchange returns exactly what the coordinator's dispatch answered, under the
    identifier of the request. *)
Theorem request_answered peer n w message payload line chunks rest limits :
  wc_limits (wk_config w) = limits -> wk_connected w = true -> li_send line = true ->
  cn_open n = true -> pe_send peer (length (cn_sent n)) = true ->
  let f := request_frame message payload w in
  frame_wire limits f -> concat chunks = frame_bytes f ->
  let '(p, se, c) := dispatch (pe_env peer (length (cn_sent n))) f (cn_session n) (cn_server n) in
  co_limits c = limits -> response_wire limits p ->
  frame_wire limits (response_frame (fr_request_id f) p) ->
  let n' := serve_chunks peer limits chunks new_assembler n in
  exists bytes,
    cn_sent n' = cn_sent n ++ [bytes] /\ cn_server n' = c /\ cn_session n' = se /\
    (concat (li_chunks line) = bytes ++ rest ->
     let '(p', sent, w') := exchange message payload line w in
     p' = p /\ rp_request_id p' = wk_next_request w /\ sent = concat chunks /\
     wk_transport_status w' = StOk).
Proof.
  intros Hlim Hw Hs Hn Hsend f Hf Hc.
  pose proof (serve_frame_answers peer f n limits) as Hserve.
  pose proof (dispatch_request_id (pe_env peer (length (cn_sent n))) f (cn_session n) (cn_server n))
    as Hid.
  destruct (dispatch _ _ _ _) as [[p se] c]. cbn [fst] in Hid. intros Hcl Hp Hg n'.
  assert (n' = serve_frame peer f n) as ->.
  { unfold n'. rewrite serve_chunks_receive, Hn, receive_frames, Hc.
    rewrite <-(app_nil_r (frame_bytes f)).
    pose proof (stream_frames limits [f] [] ltac:(by constructor)) as Hst.
    cbn [map concat] in Hst. rewrite app_nil_r in Hst. rewrite Hst.
    change (stream limits []) with (@nil Frame, new_assembler). cbn [app fst]. unfold serve_frames. cbn [fold_left]. by rewrite Hn. }
  rewrite (Hserve Hcl Hp Hg Hsend). eexists. split; [done|]. split; [done|]. split; [done|].
  intros Hback. rewrite (exchange_answered limits message payload line w _ p rest) by done.
  by split_and!.
Qed.
End EndToEnd.
