(* ===== verification/Scenario.v ===== *)
(** * A concrete run

    A store over the synthetic fabric and the memory backend, with small inputs on which the
    definitions are evaluated: the witnesses of the theorems, and the behaviours recorded
    as examples. *)

From S2P Require Import Prelude.
From S2P Require Import Ids.
From S2P Require Import Bytes.
From S2P Require Import Digest.
From S2P Require Import Segment.
From S2P Require Import Reason.
From S2P Require Import Lifecycle.
From S2P Require Import Governance.
From S2P Require Import Authority.
From S2P Require Import Registries.
From S2P Require Import Evidence.
From S2P Require Import Validation.
From S2P Require Import ValidationProps.
From S2P Require Import Persistence.
From S2P Require Import PersistenceProps.
From S2P Require Import Store.
From S2P Require Import StoreProps.
From S2P Require Import Evolution.
From S2P Require Import StoreTheorems.
From S2P Require Import Recovery.

Definition DemoStore := SegmentListStore SyntheticEvidence MemoryPersistence.

Definition demo_caller (attempt : MutationAttemptId) : CallerIdentity := {|
  ci_epoch := 1; ci_publisher := 0x11; ci_boot := 0x21; ci_scope := kSyntheticScope;
  ci_attempt := attempt |}.

(** One node segment of the synthetic fabric. *)
Definition demo_segment (n : Z) : Segment := {| empty_segment with
  seg_kind := KNode; seg_encoding := expected_encoding_for KNode; seg_id := 0x3000 + n;
  seg_generation := 1; seg_node := 0x2000 + n; seg_payload := [Byte.x01; Byte.x02] |}.

Definition demo_draft (id : SegmentListId) (n : Z) : ListDraft := {| empty_draft with
  ld_id := id; ld_scope := kSyntheticScope; ld_profile := 0x00010001;
  ld_profile_generation := 1; ld_segments := [demo_segment n] |}.

Definition demo_authority : AuthorityTable :=
  (AuthorityTable.register_publisher 0x11 0x21 kSyntheticScope 1 default_limits
     initial_authority).2.

(** A fresh store, then one with a profile and a publisher, then one with a list. *)
Definition demo_new : DemoStore :=
  new_store default_limits (Some (make_synthetic_fabric 1)) (Some new_memory).

Definition demo_ready : DemoStore :=
  let s := (register_profile abstract_governance_profile demo_new).2 in
  surroundings (st_evidence s) (st_persistence s) demo_authority s.

Definition demo_created : DemoStore :=
  (create_list undisturbed (demo_caller 1) (demo_draft 7 1) demo_ready).2.

Example demo_create_ok :
  let o := (create_list undisturbed (demo_caller 1) (demo_draft 7 1) demo_ready).1 in
  (mo_status o, mo_list o, mo_generation o, mo_idempotent_replay o, mo_durable o,
   reasons (mo_result o)) = (StOk, 7, 1, false, true, []).
Proof. vm_compute. reflexivity. Qed.


(** A retirement, and a restart over the image of the created list. *)
Definition demo_retired : DemoStore :=
  (retire undisturbed (demo_caller 3) 7 1 demo_created).2.

Definition demo_restart : DemoStore :=
  new_store default_limits (Some (make_synthetic_fabric 1)) (st_persistence demo_created).

Definition demo_state : DurableState := Eval vm_compute in st_state demo_created.

Lemma demo_state_eq : st_state demo_created = demo_state.
Proof. vm_compute. reflexivity. Qed.

(** Another client creates a list between the evidence and the capture. *)
Definition demo_interference : Interference (E := SyntheticEvidence) (P := MemoryPersistence) :=
  {| if_reading := fun s => s;
     if_capture := fun s => (create_list undisturbed (demo_caller 2) (demo_draft 8 1) s).2;
     if_commit := fun s => s |}.

(** Decide a concrete proposition by evaluation. *)
Ltac concrete :=
  repeat first
    [ progress cbv zeta
    | progress unfold durable_storable, profile_storable, policy_storable, list_storable,
        segment_storable, segment_fits, history_storable, attempt_storable, publisher_storable,
        counts_within
    | match goal with
      | |- _ /\ _ => split
      | |- Forall _ [] => apply list.Forall_nil_2
      | |- Forall _ (_ :: _) => apply list.Forall_cons_2
      | |- Forall ?P ?l => let l' := eval vm_compute in l in progress change (Forall P l')
      | |- NoDup _ => apply (bool_decide_unpack _); vm_compute; exact I
      | |- _ ∈ _ => apply (bool_decide_unpack _); vm_compute; exact I
      | |- _ = 0 \/ _ => right
      | |- fits _ _ => vm_compute; split; congruence
      | |- _ <= _ => vm_compute; congruence
      | |- _ < _ => vm_compute; reflexivity
      | |- _ <> _ => vm_compute; congruence
      | |- @eq (_ _) _ _ => vm_compute; reflexivity
      | |- @eq _ _ _ => vm_compute; reflexivity
      end ].

Lemma demo_storable : durable_storable default_limits demo_state.
Proof.
  unfold durable_storable, demo_state. cbn [ds_profiles ds_policies ds_lists ds_history
    ds_attempts ds_publishers ds_fenced_boots].
  concrete.
Qed.

Lemma demo_counts : counts_within default_limits demo_state.
Proof. unfold demo_state. concrete. Qed.

Lemma demo_image : image_storable default_limits demo_state.
Proof. unfold image_storable, records_within. concrete. Qed.

(** The memory backend accepts what its framing can hold. *)
Lemma memory_accepts (s : DemoStore) next m :
  st_persistence s = Some m -> mp_fail_next m = false -> image_storable (st_limits s) next ->
  accepts next s.
Proof.
  intros Hm Hf Hi p out Hp Hout. rewrite Hm in Hp. injection Hp as <-.
  cbn [p_save memory_persistence]. unfold MemoryPersistence.save. cbn [mp_fail_next]. rewrite Hf.
  unfold encode_for_save. rewrite encode_durable_frame by done.
  unfold failed. replace (result_ok _) with true by (by destruct out). done.
Qed.

(** ** The demo stores are good *)

Lemma undisturbed_evolves (t : DemoStore) :
  evolves t (if_reading undisturbed t) /\ evolves t (if_capture undisturbed t) /\
  evolves t (if_commit undisturbed t).
Proof. split_and!; apply evolves_refl. Qed.

Lemma undisturbed_guarded : guarded (if_commit (undisturbed (E := SyntheticEvidence)
  (P := MemoryPersistence))).
Proof. by intros s. Qed.

Lemma create_evolves caller d (s : DemoStore) : evolves s (create_list undisturbed caller d s).2.
Proof.
  apply evolves_batch; try apply undisturbed_evolves; [apply undisturbed_guarded|by right; right].
Qed.

Lemma demo_ready_evolves : evolves demo_new demo_ready.
Proof.
  eapply evolves_trans; [apply evolves_profile|apply evolves_surroundings].
Qed.

Lemma demo_created_evolves : evolves demo_new demo_created.
Proof. eapply evolves_trans; [apply demo_ready_evolves|apply create_evolves]. Qed.

Lemma demo_good (s : DemoStore) : evolves demo_new s -> good s.
Proof.
  intros Hev. destruct (evolves_preserved _ _ Hev) as [Hi Hg].
  assert (good demo_new) as Hn by (by apply new_store_good).
  split; [apply Hi, Hn|apply Hg, Hn].
Qed.

Lemma demo_ready_inv : store_inv demo_ready.
Proof. apply demo_good, demo_ready_evolves. Qed.

Lemma demo_created_inv : store_inv demo_created.
Proof. apply demo_good, demo_created_evolves. Qed.

Lemma demo_interference_polite : polite demo_interference.
Proof.
  split_and!; try done. intros s Hs.
  exact (proj1 (evolves_preserved _ _ (create_evolves (demo_caller 2) (demo_draft 8 1) s)) Hs).
Qed.
