(* ===== verification/Witnesses.v ===== *)
(** * The theorems at concrete inputs

    Each lemma applies a theorem of the development to the run of [Scenario], with the
    hypotheses discharged by evaluation. *)

From stdpp Require Import relations.
From S2P Require Import Prelude.
From S2P Require Import Ids.
From S2P Require Import Bytes.
From S2P Require Import Digest.
From S2P Require Import Segment.
From S2P Require Import Reason.
From S2P Require Import Lifecycle.
From S2P Require Import Governance.
From S2P Require Import Authority.
From S2P Require Import Registries.
From S2P Require Import Evidence.
From S2P Require Import Validation.
From S2P Require Import ValidationProps.
From S2P Require Import Codec.
From S2P Require Import Persistence.
From S2P Require Import PersistenceProps.
From S2P Require Import Store.
From S2P Require Import StoreProps.
From S2P Require Import Evolution.
From S2P Require Import StoreTheorems.
From S2P Require Import Recovery.
From S2P Require Import Scenario.

(** ** The store *)

(** The creation of the demo list, as the batch it is. *)
Notation demo_batch i :=
  (run_batch i (demo_caller 1) [demo_draft 7 1] ValidateBegin false true demo_ready).

Lemma demo_evidence_moves : evidence_moves demo_interference demo_ready.
Proof.
  exists (make_synthetic_fabric 1), (make_synthetic_fabric 1), (make_synthetic_fabric 1), 0, 0.
  split; [reflexivity|]. split; [vm_compute; reflexivity|]. split; [vm_compute; reflexivity|].
  split; [vm_compute; split; congruence|]. split; [apply moves_refl|].
  split; [apply moves_refl|]. lia.
Qed.






Lemma replay_exact_witness :
  let '(o2, s2) := run_batch undisturbed (demo_caller 1) [demo_draft 7 1] ValidateBegin false true
                     (demo_batch undisturbed).2 in
  mo_status o2 = StOk /\ mo_idempotent_replay o2 = true /\
  unchanged (demo_batch undisturbed).2 s2 /\
  mo_list o2 = mo_list (demo_batch undisturbed).1 /\
  mo_generation o2 = mo_generation (demo_batch undisturbed).1 /\
  mo_digest o2 = mo_digest (demo_batch undisturbed).1.
Proof.
  destruct (replay_exact undisturbed (demo_caller 1) [demo_draft 7 1] ValidateBegin false true
    demo_ready (demo_batch undisturbed).1 (demo_batch undisturbed).2 ValidateBegin false true)
    as [H _].
  - apply undisturbed_polite.
  - apply demo_ready_inv.
  - exact (surjective_pairing _).
  - vm_compute. reflexivity.
  - vm_compute. reflexivity.
  - vm_compute. congruence.
  - exact H.
Defined.

Notation demo_creation := (create_list undisturbed (demo_caller 1) (demo_draft 7 1) demo_ready).

Lemma create_list_spec_witness :
  get 7 (commit_store undisturbed demo_ready) = None /\
  exists l, get 7 demo_creation.2 = Some l /\ sl_generation l = 1.
Proof.
  destruct (create_list_spec undisturbed (demo_caller 1) (demo_draft 7 1) demo_ready
    demo_creation.1 demo_creation.2) as (H1 & _ & (l & H2 & H3 & _) & _).
  - apply undisturbed_polite.
  - apply demo_ready_inv.
  - exact (surjective_pairing _).
  - vm_compute. reflexivity.
  - vm_compute. reflexivity.
  - split; [exact H1|]. exists l. split; [exact H2|exact H3].
Defined.

(** The same list with another segment, expected at generation 1. *)
Definition demo_replacement : ListDraft :=
  {| (demo_draft 7 1) with ld_expected_generation := 1;
       ld_segments := [{| (demo_segment 1) with seg_payload := [Byte.x09] |}] |}.

Notation demo_replace := (replace_list undisturbed (demo_caller 4) demo_replacement demo_created).

Lemma replace_list_spec_witness :
  exists old l, get 7 (commit_store undisturbed demo_created) = Some old /\
    get 7 demo_replace.2 = Some l /\ sl_generation l = u64 (sl_generation old + 1).
Proof.
  destruct (replace_list_spec undisturbed (demo_caller 4) demo_replacement demo_created
    demo_replace.1 demo_replace.2) as (old & l & H1 & _ & _ & _ & H2 & H3 & _).
  - apply undisturbed_polite.
  - apply demo_created_inv.
  - exact (surjective_pairing _).
  - vm_compute. reflexivity.
  - vm_compute. reflexivity.
  - exists old, l. split; [exact H1|]. split; [exact H2|exact H3].
Defined.

Notation demo_retirement :=
  (transition undisturbed (demo_caller 3) 7 1 Retire demo_created).

Lemma transition_spec_witness :
  exists l, get 7 demo_retirement.2 = Some l /\ sl_state l = Retired.
Proof.
  destruct (transition_spec undisturbed (demo_caller 3) 7 1 Retire demo_created
    demo_retirement.1 demo_retirement.2) as [_ H].
  - apply undisturbed_polite.
  - apply demo_created_inv.
  - exact (surjective_pairing _).
  - destruct H as (target & l & state & _ & _ & _ & _ & Ht & Hl & Hs & _).
    + vm_compute. reflexivity.
    + exists l. split; [exact Hl|]. rewrite Hs. exact (proj1 (Ht Retired eq_refl)).
Defined.


Lemma demo_ready_state : st_state demo_ready = {| empty_durable with
  ds_epoch := 1; ds_revision := 1; ds_profiles := [abstract_governance_profile] |}.
Proof. vm_compute. reflexivity. Qed.

Lemma demo_may_create : may_create (demo_caller 1) (demo_draft 7 1) demo_ready.
Proof.
  unfold may_create. split; [vm_compute; congruence|]. split; [vm_compute; congruence|].
  split; [vm_compute; reflexivity|]. split; [vm_compute; reflexivity|].
  split; [apply validate_request_ok; vm_compute; reflexivity|].
  split; [intros H; exfalso; apply H; reflexivity|].
  split; [vm_compute; reflexivity|vm_compute; congruence].
Qed.

(** The state the creation writes, as a closed value. *)
Lemma demo_creation_accepted :
  creation_accepted (demo_caller 1) (demo_draft 7 1) demo_ready.
Proof.
  intros next (d & Hall & ->).
  assert (exists m, st_persistence demo_ready = Some m /\ mp_fail_next m = false) as (m & Hm & Hf).
  { eexists. split; vm_compute; reflexivity. }
  apply (memory_accepts _ _ m Hm Hf).
  assert ({| (with_dependencies demo_ready d) with
             ds_epoch := cx_epoch (context demo_ready) |} = demo_state) as ->.
  { assert (inl (B := SegmentListId) d = commit_all (st_limits demo_ready) 1
      (batch_payload_digest [demo_draft 7 1]) [creation (demo_caller 1) (demo_draft 7 1) demo_ready]
      {| (st_state demo_ready) with ds_revision := u64 (ds_revision (st_state demo_ready) + 1) |})
      as H by (symmetry; exact Hall).
    vm_compute in H. injection H as ->. vm_compute. reflexivity. }
  exact demo_image.
Qed.

Lemma create_list_succeeds_witness : mo_status demo_creation.1 = StOk.
Proof.
  destruct (create_list_succeeds (demo_caller 1) (demo_draft 7 1) demo_ready) as [H _].
  - apply demo_ready_inv.
  - apply demo_may_create.
  - apply demo_creation_accepted.
  - exact H.
Defined.
