(* ===== verification/ComponentWitnesses.v ===== *)
(** * The theorems of the components at concrete inputs

    As [Witnesses], for recovery, validation, persistence, evidence, authority, registry,
    canonical forms, lifecycle and digests. *)

From stdpp Require Import relations.
From S2P Require Import Prelude.
From S2P Require Import Ids.
From S2P Require Import Bytes.
From S2P Require Import Digest.
From S2P Require Import Segment.
From S2P Require Import Reason.
From S2P Require Import Lifecycle.
From S2P Require Import Governance.
From S2P Require Import Authority.
From S2P Require Import Registries.
From S2P Require Import Evidence.
From S2P Require Import Validation.
From S2P Require Import ValidationProps.
From S2P Require Import Codec.
From S2P Require Import Persistence.
From S2P Require Import PersistenceProps.
From S2P Require Import Store.
From S2P Require Import StoreProps.
From S2P Require Import Evolution.
From S2P Require Import StoreTheorems.
From S2P Require Import Recovery.
From S2P Require Import Scenario.

(** ** Recovery *)

Lemma demo_restart_backend : exists p, st_persistence demo_restart = Some p /\
  p_image p = (encode_durable_state demo_state default_limits empty_result).1 /\
  p_image p = encoding demo_created demo_state.
Proof. eexists. split; [|split]; vm_compute; reflexivity. Qed.

Lemma memory_undisturbed (p : MemoryPersistence) : p_undisturbed p.
Proof. exact I. Qed.

Lemma demo_holds : holds_image demo_state demo_restart.
Proof.
  destruct demo_restart_backend as (p & Hp & Himg & _).
  apply (load_round_trip demo_state p demo_restart demo_storable demo_counts demo_image Hp
    (memory_undisturbed p) Himg).
Qed.

Lemma demo_restart_epoch :
  recovery_base (ds_epoch demo_state) (at_epoch (st_authority demo_restart)) <>
    Generation.max_value /\ fits 64 (at_epoch (st_authority demo_restart)).
Proof. vm_compute. repeat split; congruence. Qed.


Lemma load_recovers_witness :
  let '(report, s') := load demo_restart in
  lr_loaded report = true /\ list_count s' = 1 /\ AuthorityTable.is_alive 0x11 (st_authority s') = false.
Proof.
  destruct demo_restart_epoch as [He Hf].
  assert (fits 64 (ds_epoch demo_state)) as Hd by (vm_compute; split; congruence).
  assert (NoDup (keys sl_id (ds_lists demo_state))) as Hn
    by (apply (bool_decide_unpack _); vm_compute; exact I).
  pose proof (load_recovers demo_state demo_restart demo_holds Hd Hf He Hn) as H.
  assert (list_count (load demo_restart).2 = 1) as Hc by (vm_compute; reflexivity).
  destruct (load demo_restart) as [report s'].
  destruct H as (H1 & _ & _ & _ & _ & _ & _ & _ & H2 & _). split; [exact H1|].
  split; [exact Hc|].
  assert (exists p, p ∈ ds_publishers demo_state /\ ps_id p = 0x11) as (p & Hp & Hid).
  { eexists. split; [left|vm_compute; reflexivity]. }
  rewrite <-Hid. exact (proj1 (H2 p Hp)).
Defined.

(** The same run without a backend, and a new topology of the fabric. *)
Definition volatile_created : DemoStore :=
  let s := (register_profile abstract_governance_profile
    (new_store default_limits (Some (make_synthetic_fabric 1)) None)).2 in
  (create_list undisturbed (demo_caller 1) {| (demo_draft 7 1) with ld_topology := 1 |}
     (surroundings (st_evidence s) None demo_authority s)).2.

Definition volatile_moved : DemoStore :=
  surroundings (Some (SE.set_topology_generation 2 (make_synthetic_fabric 1))) None
    demo_authority volatile_created.


Lemma load_refuses_witness :
  let s := surroundings (E := SyntheticEvidence) (st_evidence demo_restart)
             (Some {| new_memory with mp_bytes := [Byte.x53] |}) demo_authority demo_restart in
  exists report, load s = (report, s) /\ lr_loaded report = false.
Proof.
  eexists. split.
  - eapply (load_refuses _ {| new_memory with mp_bytes := [Byte.x53] |}).
    + reflexivity.
    + apply memory_undisturbed.
    + discriminate.
    + vm_compute. reflexivity.
  - reflexivity.
Defined.

(** ** Validation *)

(** The request of the demo creation. *)
Definition demo_request : ValidationRequest :=
  {| (sequence_request (Some default_limits) (Some abstract_governance_profile)
        [demo_segment 1] (Some (SE.snapshot (make_synthetic_fabric 1))) 1) with
     vr_list_id := 7; vr_scope := kSyntheticScope; vr_intent := ValidateBegin |}.

Lemma validate_request_spec_witness :
  result_ok (validate_request demo_request) = true /\ admissible demo_request.
Proof.
  assert (result_ok (validate_request demo_request) = true) as Hok by (vm_compute; reflexivity).
  split; [exact Hok|].
  destruct (validate_request_spec demo_request) as (H & _ & _); [vm_compute; reflexivity|].
  exact (proj1 H Hok).
Defined.

(** A stale topology is reported, not the path binding of the later phase. *)
Lemma validate_request_precedence_witness :
  primary_phase (validate_request {| demo_request with vr_topology := 2; vr_path_authority := 3 |})
    = PhTopologyEvidence.
Proof.
  rewrite validate_request_precedence; vm_compute; congruence.
Defined.

Notation demo_sequence f :=
  (f (Some default_limits) (Some abstract_governance_profile) [demo_segment 1]
     (Some (SE.snapshot (make_synthetic_fabric 1))) 1).

Lemma validate_segment_sequence_spec_witness :
  result_ok (demo_sequence validate_segment_sequence) = true /\
  topology_admissible (demo_sequence sequence_request).
Proof.
  assert (result_ok (demo_sequence validate_segment_sequence) = true) as Hok
    by (vm_compute; reflexivity).
  split; [exact Hok|].
  apply validate_segment_sequence_spec in Hok as (_ & _ & _ & _ & H & _);
    [exact H|vm_compute; reflexivity].
Defined.

(** ** Persistence *)

(** A state with one profile, and its image. *)
Definition small_state : DurableState :=
  {| empty_durable with ds_epoch := 1; ds_profiles := [abstract_governance_profile] |}.

Lemma small_storable : durable_storable default_limits small_state.
Proof.
  unfold durable_storable, small_state. cbn [ds_profiles ds_policies ds_lists ds_history
    ds_attempts ds_publishers ds_fenced_boots ds_epoch].
  concrete.
Qed.

Definition small_image : list Byte.byte :=
  Eval vm_compute in (encode_durable_state small_state default_limits empty_result).1.

Lemma durable_round_trip_witness :
  decode_durable_state small_image default_limits empty_result =
    (Some small_state, set_limits (Some default_limits) empty_result).
Proof.
  pose proof (durable_round_trip default_limits small_state empty_result empty_result
    small_storable) as H.
  assert (counts_within default_limits small_state) as Hc by (unfold small_state; concrete).
  assert (image_storable default_limits small_state) as Hi
    by (unfold image_storable, records_within; concrete).
  specialize (H Hc Hi).
  assert ((encode_durable_state small_state default_limits empty_result).1 = small_image) as Himg
    by (vm_compute; reflexivity).
  destruct (encode_durable_state small_state default_limits empty_result) as [bytes out].
  cbn [fst] in Himg. rewrite <-Himg. exact (proj2 (proj2 H)).
Defined.

Lemma decode_durable_sound_witness :
  frame_valid small_image /\ decoded_valid default_limits small_state.
Proof.
  destruct (decode_durable_sound small_image default_limits empty_result small_state
    (set_limits (Some default_limits) empty_result)) as (H1 & H2 & _).
  - vm_compute. reflexivity.
  - vm_compute. reflexivity.
  - split; [exact H1|exact H2].
Defined.

Lemma memory_corruption_detected_witness :
  exists report', MemoryPersistence.load empty_report default_limits
      (MemoryPersistence.corrupt_byte 30 0x40
         (MemoryPersistence.save small_state default_limits empty_result new_memory).2).2 =
    (false, report') /\ lr_loaded report' = false.
Proof.
  destruct (memory_corruption_detected small_state default_limits default_limits empty_result
    new_memory (set_limits (Some default_limits) empty_result)
    (MemoryPersistence.save small_state default_limits empty_result new_memory).2 30 0x40
    (MemoryPersistence.corrupt_byte 30 0x40
       (MemoryPersistence.save small_state default_limits empty_result new_memory).2).2
    empty_report) as (report' & H1 & H2 & _).
  - vm_compute. reflexivity.
  - vm_compute. reflexivity.
  - lia.
  - lia.
  - vm_compute. reflexivity.
  - exists report'. split; [exact H1|exact H2].
Defined.

(** The stream breaks after ten bytes: the old image stays. *)
Definition broken_file : FilePersistence := {|
  fp_target := Some [Byte.x01]; fp_temp := None;
  fp_outcomes := {| fo_has_parent := true; fo_mkdir := 0; fo_open := true; fo_written := 10;
    fo_flush := false; fo_rename := 0; fo_open_read := true; fo_read := true; fo_remove := 0 |} |}.

Lemma file_save_atomic_witness :
  let '(r, _, trace) := FilePersistence.save_trace small_state default_limits empty_result broken_file in
  r = false /\ fp_target (hd broken_file trace) = Some [Byte.x01].
Proof.
  destruct (FilePersistence.save_trace small_state default_limits empty_result broken_file)
    as [[r out'] trace] eqn:E.
  assert ((FilePersistence.save_trace small_state default_limits empty_result broken_file).1.1
    = false) as Hr by (vm_compute; reflexivity).
  rewrite E in Hr. cbn [fst] in Hr. subst r.
  destruct (file_save_atomic small_state default_limits empty_result broken_file false out' trace E)
    as (_ & H & _).
  split; [reflexivity|exact H].
Defined.

Lemma decode_records_total_witness :
  decode_records 2 default_limits {| data := [Byte.x01; Byte.x02]; pos := 0; ok := true |} 0 empty_durable
    <> None.
Proof. apply (decode_records_total 2); [unfold reader_wf|]; vm_compute; repeat split; congruence. Defined.

(** ** Evidence, authority, registry *)

(** Removing a path that is not there leaves the watermark, hence the evidence. *)
Lemma synthetic_watermark_complete_witness :
  let s := make_synthetic_fabric 1 in
  SE.snapshot s = SE.snapshot (ev_apply (EvidenceSource := synthetic_source) (OpRemovePath 77) s).
Proof.
  intros s.
  apply (synthetic_watermark_complete (0 + ev_ticks (EvidenceSource := synthetic_source)
    (OpRemovePath 77) s)).
  - vm_compute. split; congruence.
  - apply moves_step, moves_refl.
  - vm_compute. reflexivity.
  - vm_compute. reflexivity.
Defined.

Lemma demo_authority_reachable : authority_reachable initial_authority demo_authority.
Proof. eapply rtc_l; [apply step_register|apply rtc_refl]. Qed.

Lemma fenced_boot_forever_witness :
  let t := (AuthorityTable.mark_dead 0x11 demo_authority).2 in
  let t' := (AuthorityTable.advance_epoch t).2 in
  (AuthorityTable.register_publisher 0x12 0x21 kSyntheticScope 2 default_limits t').2 = t'.
Proof.
  destruct (fenced_boot_forever (AuthorityTable.mark_dead 0x11 demo_authority).2
    (AuthorityTable.advance_epoch (AuthorityTable.mark_dead 0x11 demo_authority).2).2
    0x12 0x21 kSyntheticScope 2 default_limits) as (_ & H & _).
  - eapply authority_step_inv; [apply step_mark_dead|].
    eapply authority_step_inv; [apply step_register|apply initial_authority_inv].
  - apply (bool_decide_unpack _). vm_compute. exact I.
  - eapply rtc_l; [apply step_advance_epoch|apply rtc_refl].
  - vm_compute. reflexivity.
  - exact H.
Defined.

Lemma authority_reachable_inv_witness : authority_inv demo_authority.
Proof. apply (authority_reachable_inv _ demo_authority_reachable). Defined.

Lemma register_publisher_spec_witness :
  AuthorityTable.find 0x12 (AuthorityTable.register_publisher 0x12 0x22 kSyntheticScope 1
    default_limits demo_authority).2 =
  Some {| ps_id := 0x12; ps_boot := 0x22; ps_scope := kSyntheticScope; ps_epoch := 1;
          ps_alive := true; ps_fenced := false |}.
Proof.
  destruct (register_publisher_spec 0x12 0x22 kSyntheticScope 1 default_limits demo_authority)
    as (_ & _ & H & _).
  - vm_compute. reflexivity.
  - vm_compute. reflexivity.
  - exact H.
Defined.

Lemma registry_history_witness :
  let g := (Registry.register_profile abstract_governance_profile default_limits empty_registry).2 in
  registry_le g (Registry.advance_profile_generation 0x00010001 g).2.
Proof.
  intros g.
  destruct (registry_history default_limits g (Registry.advance_profile_generation 0x00010001 g).2)
    as [_ H].
  - eapply rtc_l; [apply rstep_advance_profile|apply rtc_refl].
  - eapply (registry_step_inv default_limits empty_registry).
    + apply rstep_profile. vm_compute. split; congruence.
    + split_and!; cbn; try apply NoDup_nil_2; try apply list.Forall_nil_2; by vm_compute.
  - exact H.
Defined.

(** ** Canonical forms *)

Lemma canonical_sequence_bytes_iff_witness :
  canonical_sequence_bytes (canonicalize_segments [demo_segment 1; demo_segment 2]) 64 <>
  canonical_sequence_bytes (canonicalize_segments [demo_segment 2; demo_segment 1]) 64.
Proof.
  assert (sequence_ok 64 [demo_segment 1; demo_segment 2]) as H1 by (unfold sequence_ok, payload_within, segment_fits; concrete).
  assert (sequence_ok 64 [demo_segment 2; demo_segment 1]) as H2 by (unfold sequence_ok, payload_within, segment_fits; concrete).
  intros H. apply (canonical_sequence_bytes_iff 64) in H; [|lia|exact H1|exact H2].
  inversion H as [|a b la lb Hab]. revert Hab. vm_compute. congruence.
Defined.

Definition demo_content (path : PathId) : SegmentListContent :=
  {| c_id := 7; c_scope := kSyntheticScope; c_profile := 0x00010001; c_profile_generation := 1;
     c_policy := 0; c_policy_generation := 0; c_strictness := Strict; c_topology := 0;
     c_capability := 0; c_path := path; c_path_authority := 1; c_route := 0;
     c_route_generation := 0; c_constraint := 0; c_constraint_generation := 0;
     c_segments := [demo_segment 1] |}.

Notation demo_bytes p :=
  (canonical_content_bytes {| (demo_content p) with c_segments :=
     canonicalize_segments (c_segments (demo_content p)) |} 64).

Lemma canonical_content_bytes_inj_witness : demo_bytes 1 <> demo_bytes 2.
Proof.
  intros H. apply canonical_content_bytes_inj in H as (_ & H & _).
  - revert H. vm_compute. congruence.
  - lia.
  - unfold content_fits, segment_fits. concrete.
  - unfold content_fits, segment_fits. concrete.
  - unfold payload_within. concrete.
  - unfold payload_within. concrete.
Defined.

(** A payload of nonzero bytes is not the empty one. *)
Lemma segment_eqb_spec_witness :
  ~ (demo_segment 1 ≡ {| (demo_segment 1) with seg_payload := [] |}).
Proof.
  intros H. apply segment_eqb_spec in H; revert H; vm_compute; (congruence || (repeat split; congruence)).
Defined.

(** ** Lifecycle and digests *)

Lemma never_active_iff_witness : never_active Withdrawing /\ ~ never_active RevalidationRequired.
Proof.
  assert (Withdrawing <> SInvalid) as H1 by discriminate.
  assert (RevalidationRequired <> SInvalid) as H2 by discriminate.
  split.
  - exact (proj2 (never_active_iff Withdrawing H1) (or_intror eq_refl)).
  - intros H. destruct (proj1 (never_active_iff RevalidationRequired H2) H); discriminate.
Defined.

Lemma crc32c_table_correct_witness :
  crc32c_ref 0 [Byte.x31; Byte.x32; Byte.x33; Byte.x34; Byte.x35; Byte.x36; Byte.x37; Byte.x38;
    Byte.x39] = 0xE3069283.
Proof. rewrite <-crc32c_table_correct; [|vm_compute; split; congruence]. vm_compute. reflexivity. Defined.

Lemma digest128_one_byte_witness :
  digest128 ([Byte.x01] ++ Byte.x02 :: [Byte.x03]) <> digest128 ([Byte.x01] ++ Byte.x42 :: [Byte.x03]).
Proof. apply digest128_one_byte. discriminate. Defined.
