(* ===== verification/CoordinatorWitnesses.v ===== *)
(** * The coordinator and the worker at concrete inputs

    A server over the synthetic fabric, a worker that says hello and creates a list over
    it, and the theorems of the wire, the coordinator and the worker applied to that run. *)

From stdpp Require Import relations.
From S2P Require Import Prelude.
From S2P Require Import Ids.
From S2P Require Import Bytes.
From S2P Require Import Digest.
From S2P Require Import Segment.
From S2P Require Import Reason.
From S2P Require Import Lifecycle.
From S2P Require Import Governance.
From S2P Require Import Authority.
From S2P Require Import Registries.
From S2P Require Import Evidence.
From S2P Require Import Validation.
From S2P Require Import Codec.
From S2P Require Import Persistence.
From S2P Require Import PersistenceProps.
From S2P Require Import Store.
From S2P Require Import StoreProps.
From S2P Require Import Evolution.
From S2P Require Import StoreTheorems.
From S2P Require Import Recovery.
From S2P Require Import Explain.
From S2P Require Import ExplainProps.
From S2P Require Import Wire.
From S2P Require Import WireProps.
From S2P Require Import WireRequests.
From S2P Require Import WireFrames.
From S2P Require Import WireStream.
From S2P Require Import Coordinator.
From S2P Require Import CoordinatorProps.
From S2P Require Import CoordinatorLife.
From S2P Require Import CoordinatorStart.
From S2P Require Import Worker.
From S2P Require Import WorkerProps.
From S2P Require Import Scenario.

(** ** The run *)

Definition DemoServer := Coordinator (P := MemoryPersistence).

Definition demo_config : CoordinatorConfig := {|
  cf_limits := default_limits; cf_lease_milliseconds := 1500; cf_load_persisted := true;
  cf_advance_epoch := true |}.

Definition demo_env : Env (P := MemoryPersistence) := {|
  ev_now := 1000; ev_before := fun _ c => c; ev_store := undisturbed |}.

Definition demo_peer : Peer (P := MemoryPersistence) := {|
  pe_env := fun _ => demo_env; pe_send := fun _ => true; pe_end := demo_env |}.

(** A server without a backend, with the profile of the drafts. *)
Definition demo_store : DemoStore :=
  (register_profile abstract_governance_profile
     (new_store default_limits (Some (make_synthetic_fabric 1)) None)).2.

Definition demo_server : DemoServer := {|
  co_config := demo_config; co_store := demo_store; co_last_seen := [] |}.

Definition demo_worker : WorkerClient :=
  {| (new_client {| wc_limits := default_limits; wc_boot := 0x21; wc_publisher := 0x11;
                    wc_scope := kSyntheticScope; wc_expected_epoch := 0 |})
     with wk_connected := true |}.

Definition hello_frame : Frame := {| empty_frame with
  fr_message := Message.Hello; fr_request_id := 1;
  fr_payload := encode_hello {| he_boot := 0x21; he_publisher := 0x11;
                                he_scope := kSyntheticScope; he_epoch := 0 |} |}.

Definition create_request : MutationRequest := {| mu_attempt := 5; mu_draft := demo_draft 7 1 |}.

(** The creation comes as a replacement. *)
Definition create_frame : Frame := {| empty_frame with
  fr_message := Message.ReplaceList; fr_request_id := 2;
  fr_payload := mutation_bytes create_request |}.

Definition demo_bytes : list Byte.byte := frame_bytes hello_frame ++ frame_bytes create_frame.

(** The bytes of the run, cut in the middle of the second frame. *)
Definition demo_chunks : list (list Byte.byte) := [take 100 demo_bytes; drop 100 demo_bytes].

Lemma demo_chunks_concat : concat demo_chunks = demo_bytes.
Proof. unfold demo_chunks. cbn [concat]. by rewrite app_nil_r, take_drop. Qed.

(** The connection after the hello and after both frames. *)
Definition greeted : Connection := serve_frame demo_peer hello_frame (opened demo_server).
Definition created : Connection := serve_frame demo_peer create_frame greeted.

Example created_run :
  se_registered (cn_session created) = true /\ se_boot (cn_session created) = 0x21 /\
  size (cn_sent created) = 2 /\ map sl_id (lists (co_store (cn_server created))) = [7].
Proof. vm_compute. repeat split. Qed.

Lemma demo_env_fair : fair_env demo_env.
Proof. split; [by intros n c|apply undisturbed_fair]. Qed.
Lemma demo_peer_fair : fair_peer demo_peer.
Proof. split; [intros n|]; apply demo_env_fair. Qed.
Lemma demo_env_quiet : quiet demo_env.
Proof. by split. Qed.

Lemma demo_store_good : good demo_store.
Proof.
  assert (evolves (new_store default_limits (Some (make_synthetic_fabric 1)) None) demo_store)
    as Hev by apply evolves_profile.
  apply (evolves_good _ _ Hev). by apply new_store_good.
Qed.

Lemma demo_cap : 0 < max_reasons (co_limits demo_server).
Proof. vm_compute. reflexivity. Qed.

Lemma greeted_good : good (co_store (cn_server greeted)).
Proof.
  destruct (serve_frame_serves demo_peer hello_frame (opened demo_server)
    (fun _ => demo_env_fair) demo_store_good demo_cap) as [H _]. exact H.
Qed.
Lemma created_good : good (co_store (cn_server created)).
Proof.
  assert (0 < max_reasons (co_limits (cn_server greeted))) as Hcap by (vm_compute; reflexivity).
  destruct (serve_frame_serves demo_peer create_frame greeted (fun _ => demo_env_fair)
    greeted_good Hcap) as [H _]. exact H.
Qed.

(** ** The wire *)

Lemma demo_frames_wire : Forall (frame_wire default_limits) [hello_frame; create_frame].
Proof.
  unfold frame_wire. concrete.
Qed.

Lemma receive_delivers_witness :
  (receive default_limits demo_chunks new_assembler).1 = [hello_frame; create_frame].
Proof.
  assert (concat demo_chunks = concat (map frame_bytes [hello_frame; create_frame]) ++ []) as Hc.
  { rewrite demo_chunks_concat. unfold demo_bytes. cbn [map concat]. by rewrite !app_nil_r. }
  pose proof (receive_delivers default_limits demo_chunks [hello_frame; create_frame] [] Hc
    demo_frames_wire) as H.
  destruct (receive default_limits demo_chunks new_assembler) as [fs b].
  change (stream default_limits []) with (@nil Frame, new_assembler) in H. cbv iota beta in H.
  exact (proj1 H).
Defined.

Lemma create_request_wire : mutation_wire default_limits create_request.
Proof. unfold mutation_wire, segment_wire. concrete. Qed.

Lemma decode_mutation_exact_witness :
  0 < max_reasons default_limits /\
  (decode_mutation (mutation_bytes create_request) default_limits empty_result).1 = Some create_request /\
  result_ok (decode_mutation [] default_limits empty_result).2 = false.
Proof.
  assert (0 < max_reasons default_limits) as Hcap by (vm_compute; reflexivity).
  split; [exact Hcap|]. split.
  - pose proof (decode_mutation_exact (mutation_bytes create_request) default_limits empty_result
      Hcap) as H.
    destruct (decode_mutation (mutation_bytes create_request) default_limits empty_result)
      as [[m|] out] eqn:Hd.
    + cbn [fst]. f_equal. assert (fst (decode_mutation (mutation_bytes create_request)
        default_limits empty_result) = Some create_request) as Hv by (vm_compute; reflexivity).
      rewrite Hd in Hv. cbn [fst] in Hv. congruence.
    + destruct H as [_ H]. exfalso. exact (H create_request create_request_wire eq_refl).
  - pose proof (decode_mutation_exact [] default_limits empty_result Hcap) as H.
    assert (fst (decode_mutation [] default_limits empty_result) = None) as Hn
      by (vm_compute; reflexivity).
    destruct (decode_mutation [] default_limits empty_result) as [[m|] out].
    + cbn [fst] in Hn. congruence.
    + exact (proj1 H).
Defined.

(** ** The coordinator *)

Lemma connection_safe_witness :
  good (co_store (handle_connection demo_peer demo_chunks demo_server).2).
Proof. exact (proj1 (connection_safe demo_peer demo_chunks demo_server demo_peer_fair
  demo_store_good demo_cap)). Defined.

(** The frames of the chunks, served. *)
Lemma stream_demo : (stream default_limits (concat demo_chunks)).1 = [hello_frame; create_frame].
Proof.
  rewrite demo_chunks_concat. unfold demo_bytes.
  pose proof (stream_frames default_limits [hello_frame; create_frame] [] demo_frames_wire) as H.
  cbn [map concat] in H. rewrite !app_nil_r in H. rewrite H.
  change (stream default_limits []) with (@nil Frame, new_assembler). cbv beta iota.
  cbn [fst]. by rewrite app_nil_r.
Qed.

Lemma greeted_open : cn_open greeted = true.
Proof. vm_compute. reflexivity. Qed.

Lemma served_frames :
  serve_frames demo_peer (stream (co_limits demo_server) (concat demo_chunks)).1
    (opened demo_server) = created.
Proof.
  change (co_limits demo_server) with default_limits. rewrite stream_demo.
  exact (serve_frames_two demo_peer hello_frame create_frame (opened demo_server) eq_refl
    greeted_open).
Qed.

Lemma created_parting : parting_accepted demo_env (cn_session created) (cn_server created).
Proof.
  intros p out Hp. exfalso. revert Hp.
  assert (st_persistence (co_store (parted demo_env (cn_session created) (cn_server created))) = None)
    as Hn by (vm_compute; reflexivity).
  change (if_capture (ev_store demo_env) ?s) with s. rewrite Hn. discriminate.
Qed.


Definition create_dispatch := dispatch demo_env create_frame (cn_session greeted) (cn_server greeted).

Lemma create_dispatch_eq :
  dispatch demo_env create_frame (cn_session greeted) (cn_server greeted) =
  (create_dispatch.1.1, create_dispatch.1.2, create_dispatch.2).
Proof. unfold create_dispatch. by destruct (dispatch _ _ _ _) as [[? ?] ?]. Qed.

Lemma create_dispatch_ok :
  rp_status create_dispatch.1.1 = StOk /\ rp_idempotent_replay create_dispatch.1.1 = false.
Proof. split; vm_compute; reflexivity. Qed.


Lemma mutation_frame_creates_witness :
  get 7 (co_store (cn_server greeted)) = None /\ rp_generation create_dispatch.1.1 = 1.
Proof.
  assert (0 < max_reasons (co_limits (cn_server greeted))) as Hcap by (vm_compute; reflexivity).
  destruct create_dispatch_ok as [Hok Hfresh].
  pose proof (mutation_frame_creates demo_env create_frame (cn_session greeted) (cn_server greeted)
    create_dispatch.1.1 create_dispatch.1.2 create_dispatch.2 Hcap undisturbed_polite
    (proj1 greeted_good) eq_refl create_dispatch_eq Hok Hfresh) as H.
  cbv zeta in H. destruct H as (m & s1 & l & _ & _ & _ & _ & _ & _ & _ & _ & _ & _ & Hg & _).
  split; [vm_compute; reflexivity|exact Hg].
Defined.

Lemma expire_leases_spec_witness :
  let c := {| (cn_server greeted) with co_last_seen := [(0x11, -600)] |} in
  (expire_leases demo_env c).1 = 1 /\ co_last_seen (expire_leases demo_env c).2 = [].
Proof.
  cbv zeta. set (c := {| co_config := co_config (cn_server greeted) |}).
  pose proof (expire_leases_spec demo_env c demo_env_quiet) as H.
  assert (size (List.filter (overdue demo_env c) (co_last_seen c)) = 1 /\
    List.filter (fun p => negb (overdue demo_env c p)) (co_last_seen c) = []) as [H1 H2]
    by (split; vm_compute; reflexivity).
  destruct (expire_leases demo_env c) as [n c']. cbn [fst snd].
  destruct H as (Hn & Hl & _). split; [by rewrite Hn, H1|by rewrite Hl, H2].
Defined.

(** ** Starting *)

Definition demo_io : StartIo := {| io_listen := []; io_write_port := true; io_port := 4711 |}.

Definition demo_start := start demo_config (Some new_memory) demo_io empty_result.

Lemma quadruple {A B C D : Type} (x : A * B * C * D) a :
  x.1.1.1 = a -> x = (a, x.1.1.2, x.1.2, x.2).
Proof. by destruct x as [[[? ?] ?] ?]; intros <-. Qed.

Lemma demo_start_eq :
  start demo_config (Some new_memory) demo_io empty_result =
  (true, demo_start.1.1.2, demo_start.1.2, demo_start.2).
Proof. unfold demo_start. refine (quadruple _ true _). vm_compute. reflexivity. Qed.

Lemma start_spec_witness :
  image (co_store demo_start.2) =
    Some (encoding (co_store demo_start.2) (st_state (co_store demo_start.2))) /\
  ds_epoch (st_state (co_store demo_start.2)) = co_epoch demo_start.2.
Proof.
  assert (0 < max_reasons (cf_limits demo_config)) as Hcap by (vm_compute; reflexivity).
  assert (Some new_memory <> None) as Hsome by congruence.
  destruct (start_spec demo_config (Some new_memory) demo_io empty_result _ _ _ Hcap demo_start_eq)
    as (_ & _ & _ & _ & _ & H).
  exact (H Hsome).
Defined.

(** ** The worker *)

Lemma attempts_distinct_witness :
  NoDup (attempts 3 demo_worker) /\ Forall (fun a => a <> 0) (attempts 3 demo_worker).
Proof.
  apply (attempts_distinct 3 demo_worker).
  - vm_compute. congruence.
  - vm_compute. reflexivity.
  - intros k Hk. assert (k = 1 \/ k = 2 \/ k = 3) as [->|[->| ->]];
      [cbn [wk_attempt_counter demo_worker new_client] in Hk; lia|vm_compute; congruence..].
Defined.

Definition create_response : Response := Eval vm_compute in create_dispatch.1.1.

Lemma create_response_eq : create_dispatch.1.1 = create_response.
Proof. vm_compute. reflexivity. Qed.

Lemma create_response_wire : response_wire default_limits create_response.
Proof. unfold response_wire, digest_fits, create_response. concrete. Qed.

Definition answer_frame : Frame := response_frame 2 create_response.

Lemma answer_frame_wire : frame_wire default_limits answer_frame.
Proof. unfold frame_wire. concrete. Qed.

(** The worker after its hello, and a line that answers in two chunks. *)
Definition greeted_worker : WorkerClient := {| demo_worker with wk_next_request := 2 |}.

Definition demo_line : Line := {|
  li_send := true;
  li_chunks := [take 10 (frame_bytes answer_frame); drop 10 (frame_bytes answer_frame)] |}.

Lemma request_answered_witness :
  exists bytes,
    cn_sent (serve_chunks demo_peer default_limits [frame_bytes create_frame] new_assembler greeted) =
      cn_sent greeted ++ [bytes] /\
    (concat (li_chunks demo_line) = bytes ++ [] ->
     (exchange Message.ReplaceList (mutation_bytes create_request) demo_line greeted_worker).1.1 =
       create_response).
Proof.
  pose proof (request_answered demo_peer greeted greeted_worker Message.ReplaceList
    (mutation_bytes create_request) demo_line [frame_bytes create_frame] [] default_limits
    eq_refl eq_refl eq_refl greeted_open eq_refl) as H.
  cbv zeta in H.
  change (request_frame Message.ReplaceList (mutation_bytes create_request) greeted_worker)
    with create_frame in H.
  change (pe_env demo_peer (length (cn_sent greeted))) with demo_env in H.
  pose proof demo_frames_wire as Hw. apply list.Forall_cons in Hw as [_ Hw].
  apply list.Forall_cons in Hw as [Hw _]. specialize (H Hw (app_nil_r _)).
  rewrite create_dispatch_eq, create_response_eq in H.
  assert (co_limits create_dispatch.2 = default_limits) as Hl by (vm_compute; reflexivity).
  specialize (H Hl create_response_wire answer_frame_wire).
  destruct H as (bytes & H1 & _ & _ & H2). exists bytes. split; [exact H1|].
  intros Hb. specialize (H2 Hb).
  destruct (exchange Message.ReplaceList (mutation_bytes create_request) demo_line greeted_worker)
    as [[p' sent] w']. exact (proj1 H2).
Defined.

(** ** Differences *)

Definition created_list : SegmentList :=
  Eval vm_compute in default empty_list (get 7 (co_store (cn_server created))).

(** The same list with a second segment. *)
Definition grown_list : SegmentList :=
  {| created_list with sl_generation := 2;
     sl_content := {| (sl_content created_list) with
       c_segments := [demo_segment 2; demo_segment 1] |} |}.

Definition snapshot_of (id : SnapshotId) (l : SegmentList) : SegmentListSnapshot := {|
  ss_id := id; ss_revision := 1; ss_epoch := 1; ss_list := Some l;
  ss_digest := sl_content_digest l |}.

