(* ===== verification/Oracle.v ===== *)
(** * The independent sequence oracle

    [src/oracle/oracle_main.cpp]: the standalone program that reads one scenario, decides
    the evidence-free rules of a segment sequence and prints the verdict, the canonical
    bytes and their digest.  It shares no code with the library, and no definition of this
    file uses the library's: the agreement of the two is the subject of [OracleProps].

    A thrown [ScenarioError] is the left value of a sum.  Text is a list of bytes. *)

From S2P Require Import Prelude.
From S2P Require Import Ids.
From S2P Require Import Segment.
From S2P Require Import Governance.

Module OracleMain.

(** ** Errors *)
Definition result (A : Type) : Type := (string + A)%type.

#[global] Instance result_ret : MRet result := fun A x => inr x.
#[global] Instance result_bind : MBind result := fun A B f m =>
  match m with inl e => inl e | inr x => f x end.

Definition fail {A} (reason : string) : result A := inl reason.

(** [if (!condition) fail(why);] *)
Definition ensure (condition : bool) (why : string) : result unit :=
  if condition then mret tt else fail why.

(** ** Input bounds *)
Definition kMaxLineBytes : Z := Z.shiftl 1 20.
Definition kMaxLines : Z := Z.shiftl 1 18.
Definition kMaxEncodedBytes : Z := Z.shiftl 1 24.

(** [std::numeric_limits<u64>::max()] *)
Definition u64_max : Z := 0xFFFFFFFFFFFFFFFF.

(** ** Kinds *)
Inductive Kind := Invalid | Node | Adjacency | Endpoint | Binding | Policy.

Definition kind_code (k : Kind) : Z :=
  match k with
  | Invalid => 0 | Node => 1 | Adjacency => 2 | Endpoint => 3 | Binding => 4 | Policy => 5
  end.

Inductive Enc :=
  | Unset | AbstractNodeV1 | AbstractAdjacencyV1 | AbstractEndpointV1
  | AbstractBindingV1 | AbstractPolicyV1.

Definition enc_code (e : Enc) : Z :=
  match e with
  | Unset => 0 | AbstractNodeV1 => 1 | AbstractAdjacencyV1 => 2
  | AbstractEndpointV1 => 3 | AbstractBindingV1 => 4 | AbstractPolicyV1 => 5
  end.

#[global] Instance Kind_eq_dec : EqDecision Kind.
Proof. solve_decision. Defined.
#[global] Instance Enc_eq_dec : EqDecision Enc.
Proof. solve_decision. Defined.

(** The tables indexed by the code of a kind. *)
Definition kRequiredEncoding : list Enc :=
  [Unset; AbstractNodeV1; AbstractAdjacencyV1; AbstractEndpointV1; AbstractBindingV1;
   AbstractPolicyV1].
Definition kUsesNode : list bool := [false; true; false; false; false; false].
Definition kUsesAdj : list bool := [false; false; true; false; false; false].
Definition kUsesTopo : list bool := [false; false; true; false; false; false].
Definition kUsesEndp : list bool := [false; false; false; true; false; false].
Definition kUsesBind : list bool := [false; false; false; false; true; false].
Definition kUsesPol : list bool := [false; false; false; false; false; true].
Definition kUsesPolgen : list bool := [false; false; false; false; false; true].

Definition index_of (k : Kind) : nat := Z.to_nat (kind_code k).
Definition at_kind (table : list bool) (k : Kind) : bool := nth (index_of k) table false.
Definition required_encoding (k : Kind) : Enc := nth (index_of k) kRequiredEncoding Unset.

Definition kKindNames : list (list Byte.byte * Kind) :=
  [(text "invalid", Invalid); (text "node", Node); (text "adjacency", Adjacency);
   (text "endpoint", Endpoint); (text "binding", Binding); (text "policy", Policy)].

Definition kEncNames : list (list Byte.byte * Enc) :=
  [(text "unset", Unset); (text "abstractnodev1", AbstractNodeV1);
   (text "abstractadjacencyv1", AbstractAdjacencyV1);
   (text "abstractendpointv1", AbstractEndpointV1);
   (text "abstractbindingv1", AbstractBindingV1);
   (text "abstractpolicyv1", AbstractPolicyV1)].

(** The first entry of a table of names. *)
Fixpoint from_name {A} (table : list (list Byte.byte * A)) (name : list Byte.byte)
  : option A :=
  match table with
  | [] => None
  | (n, x) :: table' => if bool_decide (n = name) then Some x else from_name table' name
  end.

Definition kindFromName : list Byte.byte -> option Kind := from_name kKindNames.
Definition encFromName : list Byte.byte -> option Enc := from_name kEncNames.

(** ** Reason codes *)
Definition kProfileUnknown : Z := 170.
Definition kProfileIdInvalid : Z := 171.
Definition kProfileKindNotAllowed : Z := 174.
Definition kProfilePayloadWidthExceeded : Z := 175.
Definition kProfileMaxDepthExceeded : Z := 176.
Definition kProfileRepeatNotPermitted : Z := 177.
Definition kProfileEmptyNotPermitted : Z := 178.
Definition kProfileKindMismatch : Z := 180.
Definition kSegmentKindInvalid : Z := 250.
Definition kSegmentIdInvalid : Z := 251.
Definition kSegmentGenerationInvalid : Z := 252.
Definition kSegmentReservedFieldSet : Z := 255.
Definition kSegmentMissingBinding : Z := 256.
Definition kSegmentBindingIncomplete : Z := 258.
Definition kSegmentEncodingMismatch : Z := 259.
Definition kSegmentDuplicateConsecutive : Z := 264.
Definition kSegmentDuplicateNonConsecutive : Z := 265.
Definition kCapabilityEvidenceUnavailable : Z := 293.
Definition kTopologyEvidenceUnavailable : Z := 325.
Definition kLimitMaxSegmentsPerList : Z := 421.
Definition kLimitMaxSegmentPayloadBytes : Z := 422.

Definition kPhaseProfile : Z := 5.
Definition kPhaseStructural : Z := 7.
Definition kPhaseCapability : Z := 8.
Definition kPhaseTopology : Z := 9.
Definition kPhaseLimits : Z := 13.

Definition kReasonNames : list (Z * string) := [
  (kProfileUnknown, "ProfileUnknown"%string);
  (kProfileIdInvalid, "ProfileIdInvalid"%string);
  (kProfileKindNotAllowed, "ProfileKindNotAllowed"%string);
  (kProfilePayloadWidthExceeded, "ProfilePayloadWidthExceeded"%string);
  (kProfileMaxDepthExceeded, "ProfileMaxDepthExceeded"%string);
  (kProfileRepeatNotPermitted, "ProfileRepeatNotPermitted"%string);
  (kProfileEmptyNotPermitted, "ProfileEmptyNotPermitted"%string);
  (kProfileKindMismatch, "ProfileKindMismatch"%string);
  (kSegmentKindInvalid, "SegmentKindInvalid"%string);
  (kSegmentIdInvalid, "SegmentIdInvalid"%string);
  (kSegmentGenerationInvalid, "SegmentGenerationInvalid"%string);
  (kSegmentReservedFieldSet, "SegmentReservedFieldSet"%string);
  (kSegmentMissingBinding, "SegmentMissingBinding"%string);
  (kSegmentBindingIncomplete, "SegmentBindingIncomplete"%string);
  (kSegmentEncodingMismatch, "SegmentEncodingMismatch"%string);
  (kSegmentDuplicateConsecutive, "SegmentDuplicateConsecutive"%string);
  (kSegmentDuplicateNonConsecutive, "SegmentDuplicateNonConsecutive"%string);
  (kCapabilityEvidenceUnavailable, "CapabilityEvidenceUnavailable"%string);
  (kTopologyEvidenceUnavailable, "TopologyEvidenceUnavailable"%string);
  (kLimitMaxSegmentsPerList, "LimitMaxSegmentsPerList"%string);
  (kLimitMaxSegmentPayloadBytes, "LimitMaxSegmentPayloadBytes"%string)].

Fixpoint lookup_name (code : Z) (table : list (Z * string)) : string :=
  match table with
  | [] => "Unknown"%string
  | (c, name) :: table' => if c =? code then name else lookup_name code table'
  end.

Definition reasonName (code : Z) : string := lookup_name code kReasonNames.

(** ** Scenarios *)
Record Segment := {
  kind : Kind;
  enc : Enc;
  id : Z;
  gen : Z;
  node : Z;
  adj : Z;
  endp : Z;
  bind : Z;
  pol : Z;
  polgen : Z;
  topo : Z;
  payload : list Byte.byte;
}.

(** [Segment{}] *)
Definition empty_seg : Segment := {|
  kind := Invalid; enc := Unset; id := 0; gen := 0; node := 0; adj := 0; endp := 0;
  bind := 0; pol := 0; polgen := 0; topo := 0; payload := [];
|}.

Record Scenario := {
  profileId : Z;
  profileGen : Z;
  kindAllowed : list bool;
  depth : Z;
  width : Z;
  empty : Z;
  consec : Z;
  nonconsec : Z;
  loose : Z;
  reqcaps : Z;
  maxseg : Z;
  maxpayload : Z;
  segments : list Segment;
}.

(** [Scenario{}] *)
Definition empty_scenario : Scenario := {|
  profileId := 0; profileGen := 0; kindAllowed := replicate 6 false; depth := 0;
  width := 0; empty := 0; consec := 0; nonconsec := 0; loose := 0; reqcaps := 0;
  maxseg := 0; maxpayload := 0; segments := [];
|}.

(** ** Parsing *)
Definition newline : Byte.byte := Byte.x0a.
Definition carriage_return : Byte.byte := Byte.x0d.
Definition space : Byte.byte := Byte.x20.
Definition comma : Byte.byte := Byte.x2c.
Definition equals : Byte.byte := Byte.x3d.

(** [text.compare(0, key.size(), key) == 0 && text[key.size()] == c] *)
Definition prefix_then (key : list Byte.byte) (c : Byte.byte) (text : list Byte.byte)
  : bool :=
  bool_decide (take (length key) text = key) &&
  match text !! length key with Some x => byte_eqb x c | None => false end.

Definition hasKeyword (line keyword : list Byte.byte) : bool :=
  if bool_decide (line = keyword) then true
  else (size keyword <? size line) && prefix_then keyword space line.

(** The substrings between the occurrences of [c]; [token] is the one being read. *)
Fixpoint split_at (c : Byte.byte) (token line : list Byte.byte) : list (list Byte.byte) :=
  match line with
  | [] => [token]
  | x :: line' =>
      if byte_eqb x c then token :: split_at c [] line' else split_at c (token ++ [x]) line'
  end.

Definition is_nil {A} (l : list A) : bool := match l with [] => true | _ => false end.

Definition splitFields (line : list Byte.byte) (what : string)
  : result (list (list Byte.byte)) :=
  let tokens := split_at space [] line in
  if existsb is_nil tokens then fail (String.append "malformed-" what) else mret tokens.

Definition field (token key : list Byte.byte) : option (list Byte.byte) :=
  if size token <=? size key then None
  else if negb (prefix_then key equals token) then None
  else
    let value := drop (length key + 1) token in
    if is_nil value then None else Some value.

(** [if (!field(tokens[i], key, value)) fail(why);] *)
Definition need_field (tokens : list (list Byte.byte)) (i : nat) (key why : string)
  : result (list Byte.byte) :=
  match field (nth i tokens []) (text key) with
  | Some value => mret value
  | None => fail why
  end.

Fixpoint toU64_loop (acc : Z) (text : list Byte.byte) (why : string) : result Z :=
  match text with
  | [] => mret acc
  | c :: text' =>
      let v := byte.unsigned c in
      if (v <? 48) || (57 <? v) then fail why
      else
        let digit := v - 48 in
        if (u64_max - digit) / 10 <? acc then fail "integer-overflow"
        else toU64_loop (u64 (u64 (acc * 10) + digit)) text' why
  end.

Definition toU64 (text : list Byte.byte) (why : string) : result Z :=
  if is_nil text then fail why else toU64_loop 0 text why.

Definition toBit (value : list Byte.byte) (why : string) : result Z :=
  if bool_decide (value = text "0") then mret 0
  else if bool_decide (value = text "1") then mret 1
  else fail why.

Definition hexNibble (c : Byte.byte) : Z :=
  let v := byte.unsigned c in
  if (48 <=? v) && (v <=? 57) then v - 48
  else if (97 <=? v) && (v <=? 102) then v - 97 + 10
  else -1.

(** The loop over the pairs of digits. *)
Fixpoint hexDecode_loop (text : list Byte.byte) : result (list Byte.byte) :=
  match text with
  | h :: l :: text' =>
      let hi := hexNibble h in
      let lo := hexNibble l in
      if (hi <? 0) || (lo <? 0) then fail "invalid-hex"
      else out ← hexDecode_loop text'; mret (byte.of_Z (Z.lor (Z.shiftl hi 4) lo) :: out)
  | _ => mret []
  end.

Definition hexDecode (text : list Byte.byte) : result (list Byte.byte) :=
  if is_nil text || negb (size text mod 2 =? 0) then fail "invalid-hex"
  else hexDecode_loop text.

(** [if (!line.empty() && line.back() == '\r') line.pop_back();] *)
Definition pop_cr (line : list Byte.byte) : list Byte.byte :=
  match list.last line with
  | Some c => if byte_eqb c carriage_return then removelast line else line
  | None => line
  end.

(** The loop over the characters: the lines so far and the unfinished one. *)
Fixpoint readLines_loop (input : list Byte.byte) (lines : list (list Byte.byte))
    (line : list Byte.byte) : result (list (list Byte.byte) * list Byte.byte) :=
  match input with
  | [] => mret (lines, line)
  | ch :: input' =>
      if byte_eqb ch newline then
        let lines := lines ++ [pop_cr line] in
        if kMaxLines <? size lines then fail "input-too-large"
        else readLines_loop input' lines []
      else if kMaxLineBytes <=? size line then fail "line-too-long"
      else readLines_loop input' lines (line ++ [ch])
  end.

(** [input] is what the stream gives before it ends, [bad] whether it ends in an error. *)
Definition readLines (input : list Byte.byte) (bad : bool)
  : result (list (list Byte.byte)) :=
  '(lines, line) ← readLines_loop input [] [];
  ensure (negb bad) "input-read-error";;
  if is_nil line then mret lines
  else
    let lines := lines ++ [pop_cr line] in
    if kMaxLines <? size lines then fail "input-too-large" else mret lines.

(** The loop over the names of [kinds=]. *)
Fixpoint parse_kinds (names : list (list Byte.byte)) (allowed : list bool)
  : result (list bool) :=
  match names with
  | [] => mret allowed
  | name :: names' =>
      match kindFromName name with
      | None | Some Invalid => fail "invalid-kind"
      | Some k => parse_kinds names' (<[index_of k := true]> allowed)
      end
  end.

Definition need_u64 (tokens : list (list Byte.byte)) (i : nat) (key why : string)
  : result Z := value ← need_field tokens i key why; toU64 value why.

Definition need_bit (tokens : list (list Byte.byte)) (i : nat) (key why : string)
  : result Z := value ← need_field tokens i key why; toBit value why.

Definition token_is (tokens : list (list Byte.byte)) (word : string) : bool :=
  bool_decide (nth 0 tokens [] = text word).

Definition parseProfile (line : list Byte.byte) (scenario : Scenario) : result Scenario :=
  let why := "malformed-profile"%string in
  tokens ← splitFields line "profile-line";
  ensure ((size tokens =? 11) && token_is tokens "PROFILE") why;;
  profileId ← need_u64 tokens 1 "id" why;
  profileGen ← need_u64 tokens 2 "gen" why;
  kinds ← need_field tokens 3 "kinds" why;
  kindAllowed ← parse_kinds (split_at comma [] kinds) (kindAllowed scenario);
  depth ← need_u64 tokens 4 "depth" why;
  width ← need_u64 tokens 5 "width" why;
  empty ← need_bit tokens 6 "empty" why;
  consec ← need_bit tokens 7 "consec" why;
  nonconsec ← need_bit tokens 8 "nonconsec" why;
  loose ← need_bit tokens 9 "loose" why;
  reqcaps ← need_u64 tokens 10 "reqcaps" why;
  mret {| scenario with
    profileId := profileId; profileGen := profileGen; kindAllowed := kindAllowed;
    depth := depth; width := width; empty := empty; consec := consec;
    nonconsec := nonconsec; loose := loose; reqcaps := reqcaps |}.

Definition of_option {A} (o : option A) (why : string) : result A :=
  match o with Some x => mret x | None => fail why end.

Definition parseSegment (line : list Byte.byte) (scenario : Scenario) : result Scenario :=
  let why := "malformed-segment"%string in
  tokens ← splitFields line "segment-line";
  ensure ((size tokens =? 14) && token_is tokens "SEG") why;;
  index ← need_u64 tokens 1 "index" why;
  ensure (index =? size (segments scenario)) "segment-index-out-of-order";;
  value ← need_field tokens 2 "kind" why;
  kind ← of_option (kindFromName value) "invalid-kind";
  value ← need_field tokens 3 "enc" why;
  enc ← of_option (encFromName value) "invalid-encoding";
  id ← need_u64 tokens 4 "id" why;
  gen ← need_u64 tokens 5 "gen" why;
  node ← need_u64 tokens 6 "node" why;
  adj ← need_u64 tokens 7 "adj" why;
  endp ← need_u64 tokens 8 "endp" why;
  bind ← need_u64 tokens 9 "bind" why;
  pol ← need_u64 tokens 10 "pol" why;
  polgen ← need_u64 tokens 11 "polgen" why;
  topo ← need_u64 tokens 12 "topo" why;
  value ← need_field tokens 13 "payload" why;
  payload ← (if bool_decide (value = text "-") then mret [] else hexDecode value);
  mret {| scenario with segments := segments scenario ++ [{|
    kind := kind; enc := enc; id := id; gen := gen; node := node; adj := adj;
    endp := endp; bind := bind; pol := pol; polgen := polgen; topo := topo;
    payload := payload |}] |}.

Definition parseLimits (line : list Byte.byte) (scenario : Scenario) : result Scenario :=
  let why := "malformed-limits"%string in
  tokens ← splitFields line "limits-line";
  ensure ((size tokens =? 3) && token_is tokens "LIMITS") why;;
  maxseg ← need_u64 tokens 1 "maxseg" why;
  maxpayload ← need_u64 tokens 2 "maxpayload" why;
  mret {| scenario with maxseg := maxseg; maxpayload := maxpayload |}.

(** [while (at < lines.size() && hasKeyword(lines[at], "SEG"))]: the lines that remain. *)
Fixpoint parseSegments (lines : list (list Byte.byte)) (scenario : Scenario)
  : result (Scenario * list (list Byte.byte)) :=
  match lines with
  | [] => mret (scenario, [])
  | line :: lines' =>
      if hasKeyword line (text "SEG") then
        scenario ← parseSegment line scenario; parseSegments lines' scenario
      else mret (scenario, lines)
  end.

Definition parseScenario (lines : list (list Byte.byte)) : result Scenario :=
  match lines with
  | [] => fail "missing-profile"
  | first :: lines =>
      ensure (hasKeyword first (text "PROFILE")) "missing-profile";;
      scenario ← parseProfile first empty_scenario;
      '(scenario, lines) ← parseSegments lines scenario;
      match lines with
      | [] => fail "missing-limits"
      | line :: lines =>
          ensure (hasKeyword line (text "LIMITS")) "missing-limits";;
          scenario ← parseLimits line scenario;
          match lines with
          | [] => fail "missing-end"
          | line :: lines =>
              ensure (bool_decide (line = text "END")) "missing-end";;
              ensure (forallb is_nil lines) "trailing-input";;
              mret scenario
          end
      end
  end.

(** ** Canonical form *)
Record CanonSegment := {
  c_kind : Z;
  c_enc : Z;
  c_id : Z;
  c_gen : Z;
  c_node : Z;
  c_adj : Z;
  c_endp : Z;
  c_bind : Z;
  c_pol : Z;
  c_polgen : Z;
  c_topo : Z;
  c_payload : list Byte.byte;
}.

(** [operator<] of [std::vector<u8>]. *)
Fixpoint bytes_before (a b : list Byte.byte) : bool :=
  match a, b with
  | _, [] => false
  | [], _ => true
  | x :: a', y :: b' =>
      if byte.unsigned x <? byte.unsigned y then true
      else if byte.unsigned y <? byte.unsigned x then false
      else bytes_before a' b'
  end.

(** [operator<] of [CanonSegment]. *)
Definition canon_before (a b : CanonSegment) : bool :=
  if negb (c_kind a =? c_kind b) then c_kind a <? c_kind b
  else if negb (c_enc a =? c_enc b) then c_enc a <? c_enc b
  else if negb (c_id a =? c_id b) then c_id a <? c_id b
  else if negb (c_gen a =? c_gen b) then c_gen a <? c_gen b
  else if negb (c_node a =? c_node b) then c_node a <? c_node b
  else if negb (c_adj a =? c_adj b) then c_adj a <? c_adj b
  else if negb (c_endp a =? c_endp b) then c_endp a <? c_endp b
  else if negb (c_bind a =? c_bind b) then c_bind a <? c_bind b
  else if negb (c_pol a =? c_pol b) then c_pol a <? c_pol b
  else if negb (c_polgen a =? c_polgen b) then c_polgen a <? c_polgen b
  else if negb (c_topo a =? c_topo b) then c_topo a <? c_topo b
  else bytes_before (c_payload a) (c_payload b).

(** [while (!payload.empty() && payload.back() == 0u) payload.pop_back();] *)
Fixpoint pop_zeros (l : list Byte.byte) : list Byte.byte :=
  match l with
  | [] => []
  | b :: l' =>
      match pop_zeros l' with
      | [] => if byte.unsigned b =? 0 then [] else [b]
      | kept => b :: kept
      end
  end.

Definition canonicalize_one (width : Z) (seg : Segment) : CanonSegment := {|
  c_kind := kind_code (kind seg);
  c_enc := match enc seg with
           | Unset => enc_code (required_encoding (kind seg))
           | e => enc_code e
           end;
  c_id := id seg; c_gen := gen seg; c_node := node seg; c_adj := adj seg;
  c_endp := endp seg; c_bind := bind seg; c_pol := pol seg; c_polgen := polgen seg;
  c_topo := topo seg;
  c_payload := pop_zeros (take (Z.to_nat (Z.min (size (payload seg)) width)) (payload seg));
|}.

Definition canonicalize (scenario : Scenario) : list CanonSegment :=
  map (canonicalize_one (width scenario)) (segments scenario).

Definition scannedCount (scenario : Scenario) : Z :=
  let limit := if maxseg scenario =? u64_max then u64_max else maxseg scenario + 1 in
  Z.min (size (segments scenario)) limit.

Record DuplicateFacts := mkFacts { consecutive : bool; nonConsecutive : bool }.

(** [DuplicateFacts{}] *)
Definition no_duplicate : DuplicateFacts := mkFacts false false.

Definition duplicateFacts (prior : list Z) (i : Z) : DuplicateFacts :=
  match prior with
  | [] => no_duplicate
  | front :: _ =>
      let previous := if i =? 0 then u64_max else i - 1 in
      mkFacts (match list.last prior with Some back => back =? previous | None => false end)
        ((2 <=? size prior) || negb (front =? previous))
  end.

(** [std::map<CanonSegment, std::vector<u64>>]: keys are the same when neither is before
    the other; [seen[key]] of an absent key is the empty vector. *)
Definition same_key (a b : CanonSegment) : bool :=
  negb (canon_before a b) && negb (canon_before b a).

Fixpoint seen_at (key : CanonSegment) (seen : list (CanonSegment * list Z)) : list Z :=
  match seen with
  | [] => []
  | (k, prior) :: seen' => if same_key k key then prior else seen_at key seen'
  end.

Fixpoint seen_push (key : CanonSegment) (i : Z) (seen : list (CanonSegment * list Z))
  : list (CanonSegment * list Z) :=
  match seen with
  | [] => [(key, [i])]
  | (k, prior) :: seen' =>
      if same_key k key then (k, prior ++ [i]) :: seen' else (k, prior) :: seen_push key i seen'
  end.

(** The loop over the scanned prefix, from index [i] on. *)
Fixpoint facts_loop (i : Z) (canon : list CanonSegment) (seen : list (CanonSegment * list Z))
  : list DuplicateFacts :=
  match canon with
  | [] => []
  | key :: canon' =>
      duplicateFacts (seen_at key seen) i :: facts_loop (i + 1) canon' (seen_push key i seen)
  end.

Definition scan_facts (scanned : Z) (canon : list CanonSegment) : list DuplicateFacts :=
  facts_loop 0 (take (Z.to_nat scanned) canon) [].

(** ** Checks *)
Record Reason := mkReason { r_phase : Z; r_code : Z; r_index : Z; r_detail : Z }.

#[global] Instance Reason_eq_dec : EqDecision Reason.
Proof. solve_decision. Defined.

(** [if (b) emit(reasons, phase, code, index, detail);] *)
Definition emit_if (b : bool) (phase code index detail : Z) : list Reason :=
  if b then [mkReason phase code index detail] else [].

(** [for (i = 0; i < n; ++i)] over the segments, with the facts of each. *)
Definition for_scanned (n : Z) (facts : list DuplicateFacts) (segments : list Segment)
    (f : Z -> DuplicateFacts -> Segment -> list Reason) : list Reason :=
  flat_map (fun i =>
    match segments !! i with
    | Some seg => f (Z.of_nat i) (nth i facts no_duplicate) seg
    | None => []
    end) (seq 0 (Z.to_nat n)).

Definition check_profile_segment (scenario : Scenario) (i : Z) (fact : DuplicateFacts)
    (seg : Segment) : list Reason :=
  emit_if (consecutive fact && (consec scenario =? 0)) kPhaseProfile
    kProfileRepeatNotPermitted i 0 ++
  emit_if (nonConsecutive fact && (nonconsec scenario =? 0)) kPhaseProfile
    kProfileRepeatNotPermitted i 0 ++
  emit_if (negb (at_kind (kindAllowed scenario) (kind seg))) kPhaseProfile
    kProfileKindNotAllowed i (kind_code (kind seg)) ++
  emit_if (width scenario <? size (payload seg)) kPhaseProfile
    kProfilePayloadWidthExceeded i (width scenario) ++
  emit_if (enc_code (required_encoding (kind seg)) =? 0) kPhaseProfile
    kProfileKindMismatch i 0.

Definition check_phase5 (scenario : Scenario) (facts : list DuplicateFacts) : list Reason :=
  if width scenario =? 0 then [mkReason kPhaseProfile kProfileIdInvalid 0 0]
  else
    emit_if (depth scenario <? size (segments scenario)) kPhaseProfile
      kProfileMaxDepthExceeded 0 (depth scenario) ++
    emit_if (is_nil (segments scenario) && (empty scenario =? 0)) kPhaseProfile
      kProfileEmptyNotPermitted 0 0 ++
    for_scanned (scannedCount scenario) facts (segments scenario)
      (check_profile_segment scenario).

Definition requiredMissing (seg : Segment) : bool :=
  let k := kind seg in
  (at_kind kUsesNode k && (node seg =? 0)) || (at_kind kUsesAdj k && (adj seg =? 0)) ||
  (at_kind kUsesTopo k && (topo seg =? 0)) || (at_kind kUsesEndp k && (endp seg =? 0)) ||
  (at_kind kUsesBind k && (bind seg =? 0)) || (at_kind kUsesPol k && (pol seg =? 0)) ||
  (at_kind kUsesPolgen k && (polgen seg =? 0)).

Definition reservedSet (seg : Segment) : bool :=
  let k := kind seg in
  (negb (at_kind kUsesNode k) && negb (node seg =? 0)) ||
  (negb (at_kind kUsesAdj k) && negb (adj seg =? 0)) ||
  (negb (at_kind kUsesTopo k) && negb (topo seg =? 0)) ||
  (negb (at_kind kUsesEndp k) && negb (endp seg =? 0)) ||
  (negb (at_kind kUsesBind k) && negb (bind seg =? 0)) ||
  (negb (at_kind kUsesPol k) && negb (pol seg =? 0)) ||
  (negb (at_kind kUsesPolgen k) && negb (polgen seg =? 0)).

Definition allZero (seg : Segment) : bool :=
  (node seg =? 0) && (adj seg =? 0) && (endp seg =? 0) && (bind seg =? 0) &&
  (pol seg =? 0) && (polgen seg =? 0) && (topo seg =? 0).

(** [canon[i].enc]; [canon] is as long as the segments. *)
Definition canon_enc (canon : list CanonSegment) (i : Z) : Z :=
  match canon !! Z.to_nat i with Some can => c_enc can | None => 0 end.

Definition check_structure (canon : list CanonSegment) (i : Z) (fact : DuplicateFacts)
    (seg : Segment) : list Reason :=
  match kind seg with
  | Invalid => [mkReason kPhaseStructural kSegmentKindInvalid i 0]
  | _ =>
      let can_enc := canon_enc canon i in
      emit_if (id seg =? 0) kPhaseStructural kSegmentIdInvalid i 0 ++
      emit_if (gen seg =? 0) kPhaseStructural kSegmentGenerationInvalid i 0 ++
      emit_if (negb (can_enc =? enc_code (required_encoding (kind seg))))
        kPhaseStructural kSegmentEncodingMismatch i can_enc ++
      (if allZero seg then [mkReason kPhaseStructural kSegmentMissingBinding i 0]
       else emit_if (requiredMissing seg) kPhaseStructural kSegmentBindingIncomplete i 0) ++
      emit_if (reservedSet seg) kPhaseStructural kSegmentReservedFieldSet i 0
  end ++
  emit_if (consecutive fact) kPhaseStructural kSegmentDuplicateConsecutive i (id seg) ++
  emit_if (nonConsecutive fact) kPhaseStructural kSegmentDuplicateNonConsecutive i (id seg).

Definition is_adjacency (seg : Segment) : bool :=
  match kind seg with Adjacency => true | _ => false end.

Definition check_limits (scenario : Scenario) : list Reason :=
  emit_if (maxseg scenario <? size (segments scenario)) kPhaseLimits
    kLimitMaxSegmentsPerList 0 (maxseg scenario) ++
  for_scanned (size (segments scenario)) [] (segments scenario) (fun i _ seg =>
    emit_if (maxpayload scenario <? size (payload seg)) kPhaseLimits
      kLimitMaxSegmentPayloadBytes i (maxpayload scenario)).

(** What [check] pushes, in program order. *)
Definition emitted (scenario : Scenario) (canon : list CanonSegment) : list Reason :=
  let scanned := scannedCount scenario in
  let facts := scan_facts scanned canon in
  check_phase5 scenario facts ++
  for_scanned scanned facts (segments scenario) (check_structure canon) ++
  emit_if (0 <? reqcaps scenario) kPhaseCapability kCapabilityEvidenceUnavailable 0 0 ++
  emit_if (existsb is_adjacency (take (Z.to_nat scanned) (segments scenario)))
    kPhaseTopology kTopologyEvidenceUnavailable 0 0 ++
  check_limits scenario.

(** The comparator of [std::sort]. *)
Definition reason_before (a b : Reason) : bool :=
  if negb (r_phase a =? r_phase b) then r_phase a <? r_phase b
  else if negb (r_code a =? r_code b) then r_code a <? r_code b
  else if negb (r_index a =? r_index b) then r_index a <? r_index b
  else r_detail a <? r_detail b.

Definition not_after (a b : Reason) : Prop := reason_before b a = false.

#[global] Instance not_after_dec a b : Decision (not_after a b).
Proof. unfold not_after. apply _. Defined.

(** The predicate of [std::unique]. *)
Definition reason_same (a b : Reason) : bool :=
  (r_code a =? r_code b) && (r_index a =? r_index b) && (r_detail a =? r_detail b).

(** [std::unique]: each element is compared with the last one kept. *)
Fixpoint unique_from {A} (same : A -> A -> bool) (x : A) (l : list A) : list A :=
  match l with
  | [] => [x]
  | y :: l' => if same x y then unique_from same x l' else x :: unique_from same y l'
  end.

Definition unique_by {A} (same : A -> A -> bool) (l : list A) : list A :=
  match l with [] => [] | x :: l' => unique_from same x l' end.

Definition check (scenario : Scenario) (canon : list CanonSegment) : list Reason :=
  unique_by reason_same (merge_sort not_after (emitted scenario canon)).

(** ** Canonical encoding *)
Definition putU16 (value : Z) : list Byte.byte :=
  [byte.of_Z (Z.land value 0xFF); byte.of_Z (Z.land (Z.shiftr value 8) 0xFF)].

Definition put_shifts (shifts : list Z) (value : Z) : list Byte.byte :=
  map (fun shift => byte.of_Z (Z.land (Z.shiftr value shift) 0xFF)) shifts.

Definition putU32 : Z -> list Byte.byte := put_shifts [0; 8; 16; 24].
Definition putU64 : Z -> list Byte.byte := put_shifts [0; 8; 16; 24; 32; 40; 48; 56].

Definition encode_segment (width : Z) (seg : CanonSegment) : list Byte.byte :=
  putU16 (c_kind seg) ++ putU16 (c_enc seg) ++ putU64 (c_id seg) ++ putU64 (c_gen seg) ++
  putU64 (c_node seg) ++ putU64 (c_adj seg) ++ putU64 (c_endp seg) ++
  putU64 (c_bind seg) ++ putU64 (c_pol seg) ++ putU64 (c_polgen seg) ++
  putU64 (c_topo seg) ++ putU16 (u16 width) ++
  map (fun k => nth k (c_payload seg) Byte.x00) (seq 0 (Z.to_nat width)).

Definition encodeSequence (scenario : Scenario) (canon : list CanonSegment)
  : result (list Byte.byte) :=
  let perSegment := 78 in
  let count := size canon in
  let cap := kMaxEncodedBytes in
  ensure (width scenario <=? cap) "output-too-large";;
  let per := perSegment + width scenario in
  ensure (count <=? (cap - 6) / per) "output-too-large";;
  mret (putU16 0xC503 ++ putU32 (u32 count) ++
        concat (map (encode_segment (width scenario)) canon)).

(** ** Digest *)
Definition kPrime : Z := 0x00000100000001B3.
Definition kDigestA : Z := 0xCBF29CE484222325.
Definition kDigestB : Z := 0x9E3779B97F4A7C15.
Definition kDigestC : Z := 0x2545F4914F6CDD1D.

Definition fnv (seed : Z) (data : list Byte.byte) : Z :=
  fold_left (fun h b => u64 (Z.lxor h (byte.unsigned b) * kPrime)) data seed.

(** The lanes [hi] and [lo]. *)
Definition digest128 (data : list Byte.byte) : Z * Z :=
  let hi := fnv kDigestA data in
  let lo := fnv kDigestB data in
  let lengthBytes := put_shifts [0; 8; 16; 24; 32; 40; 48; 56] (u64 (size data)) in
  let lo := fnv lo lengthBytes in
  let lo := fnv (Z.lxor lo kDigestC) data in
  if (hi =? 0) && (lo =? 0) then (hi, 1) else (hi, lo).

(** ** Output *)
Definition hex_digit (nibble : Z) : Byte.byte :=
  nth (Z.to_nat nibble) (text "0123456789abcdef") Byte.x00.

Definition toHex (bytes : list Byte.byte) : list Byte.byte :=
  flat_map (fun b => [hex_digit (Z.shiftr (byte.unsigned b) 4);
                      hex_digit (Z.land (byte.unsigned b) 0x0F)]) bytes.

(** [%016llx] *)
Definition hex16 (value : Z) : list Byte.byte :=
  map (fun k => hex_digit (Z.land (Z.shiftr value (4 * (15 - Z.of_nat k))) 0x0F)) (seq 0 16).

(** The names, separated by commas. *)
Fixpoint join_names (names : list string) : list Byte.byte :=
  match names with
  | [] => []
  | [name] => text name
  | name :: names' => text name ++ [comma] ++ join_names names'
  end.

(** The block printed for a verdict. *)
Definition report (reasons : list Reason) (bytes : list Byte.byte) (hi lo : Z)
  : list Byte.byte :=
  let names := map (fun r => reasonName (r_code r)) reasons in
  text "valid=" ++ text (if is_nil reasons then "1" else "0") ++ [newline] ++
  text "primary=" ++ text (hd "Ok"%string names) ++ [newline] ++
  text "reasons=" ++ join_names names ++ [newline] ++
  text "bytes=" ++ toHex bytes ++ [newline] ++
  text "digest=" ++ hex16 hi ++ hex16 lo ++ [newline].

Definition run (input : list Byte.byte) (bad : bool) : result (list Byte.byte) :=
  lines ← readLines input bad;
  scenario ← parseScenario lines;
  let canon := canonicalize scenario in
  let reasons := check scenario canon in
  bytes ← encodeSequence scenario canon;
  let '(hi, lo) := digest128 bytes in
  mret (report reasons bytes hi lo).

(** The output and the exit code; running out of memory is not modelled. *)
Definition main (input : list Byte.byte) (bad : bool) : list Byte.byte * Z :=
  match run input bad with
  | inr output => (output, 0)
  | inl reason => (text "ERROR " ++ text reason ++ [newline], 2)
  end.

End OracleMain.
