(* ===== verification/OracleProps.v ===== *)
(** * The oracle against the library: canonical bytes and digest

    The two implementations share no definition.  Here the oracle's canonical form, its
    encoding and its digest are proved to be the library's. *)

From coqutil Require Import Word.LittleEndianList.
From S2P Require Import Prelude.
From S2P Require Import Ids.
From S2P Require Import Bytes.
From S2P Require Import Digest.
From S2P Require Import Segment.
From S2P Require Import Oracle.

(** ** The same data in the types of the library *)
Definition lib_kind (k : OracleMain.Kind) : SegmentKind :=
  match k with
  | OracleMain.Invalid => KInvalid
  | OracleMain.Node => KNode
  | OracleMain.Adjacency => KAdjacency
  | OracleMain.Endpoint => KEndpoint
  | OracleMain.Binding => KBinding
  | OracleMain.Policy => KPolicy
  end.

Definition lib_enc (e : OracleMain.Enc) : SegmentEncodingId :=
  match e with
  | OracleMain.Unset => EInvalid
  | OracleMain.AbstractNodeV1 => AbstractNodeV1
  | OracleMain.AbstractAdjacencyV1 => AbstractAdjacencyV1
  | OracleMain.AbstractEndpointV1 => AbstractEndpointV1
  | OracleMain.AbstractBindingV1 => AbstractBindingV1
  | OracleMain.AbstractPolicyV1 => AbstractPolicyV1
  end.

Definition lib_segment (s : OracleMain.Segment) : Segment := {|
  seg_kind := lib_kind (OracleMain.kind s);
  seg_encoding := lib_enc (OracleMain.enc s);
  seg_id := OracleMain.id s;
  seg_generation := OracleMain.gen s;
  seg_node := OracleMain.node s;
  seg_adjacency := OracleMain.adj s;
  seg_endpoint := OracleMain.endp s;
  seg_binding := OracleMain.bind s;
  seg_policy := OracleMain.pol s;
  seg_policy_generation := OracleMain.polgen s;
  seg_topology := OracleMain.topo s;
  seg_payload := OracleMain.payload s;
|}.

Definition lib_segments (sc : OracleMain.Scenario) : list Segment :=
  map lib_segment (OracleMain.segments sc).

Lemma lib_kind_code k : kind_value (lib_kind k) = OracleMain.kind_code k.
Proof. by destruct k. Qed.

Lemma lib_enc_code e : encoding_value (lib_enc e) = OracleMain.enc_code e.
Proof. by destruct e. Qed.

Lemma lib_required_encoding k :
  lib_enc (OracleMain.required_encoding k) = expected_encoding_for (lib_kind k).
Proof. by destruct k. Qed.

(** ** Integers *)

Lemma byte_of_land z : byte.of_Z (Z.land z 0xFF) = byte.of_Z z.
Proof.
  change 0xFF with (Z.ones 8). rewrite Z.land_ones by lia.
  apply byte.unsigned_inj. rewrite !byte.unsigned_of_Z. unfold byte.wrap.
  by rewrite Zmod_mod.
Qed.

Lemma putU16_put16 v : OracleMain.putU16 v = put16 v.
Proof. unfold OracleMain.putU16. by rewrite !byte_of_land. Qed.

Lemma put_shifts_le_split n s v :
  0 <= s ->
  OracleMain.put_shifts (map (fun k => s + 8 * Z.of_nat k) (seq 0 n)) v =
    le_split n (Z.shiftr v s).
Proof.
  unfold OracleMain.put_shifts. revert s. induction n as [|n IH]; intros s Hs; [done|].
  cbn [seq map]. rewrite byte_of_land, Z.add_0_r.
  change (le_split (S n) (Z.shiftr v s)) with
    (byte.of_Z (Z.shiftr v s) :: le_split n (Z.shiftr (Z.shiftr v s) 8)).
  f_equal. rewrite Z.shiftr_shiftr by lia. rewrite <-IH by lia.
  rewrite <-seq_shift, !map_map. apply map_ext. intros k. do 3 f_equal. lia.
Qed.

Lemma putU32_put32 v : OracleMain.putU32 v = put32 v.
Proof.
  unfold OracleMain.putU32. etransitivity; [apply (put_shifts_le_split 4 0 v); lia|].
  by rewrite Z.shiftr_0_r.
Qed.

Lemma putU64_put64 v : OracleMain.putU64 v = put64 v.
Proof.
  unfold OracleMain.putU64. etransitivity; [apply (put_shifts_le_split 8 0 v); lia|].
  by rewrite Z.shiftr_0_r.
Qed.

(** A field writes its value modulo its width. *)
Lemma le_split_wrap n v : le_split n (wrap (8 * Z.of_nat n) v) = le_split n v.
Proof.
  unfold wrap. rewrite (Z.mul_comm 8). symmetry. apply le_split_mod.
Qed.

(** ** Payloads *)

Lemma nth_pop_zeros k l :
  nth k (OracleMain.pop_zeros l) Byte.x00 = nth k l Byte.x00.
Proof.
  revert k. induction l as [|b l IH]; intros k; [done|]. cbn.
  destruct (OracleMain.pop_zeros l) as [|b' l'] eqn:E.
  - assert (forall j, nth j l Byte.x00 = Byte.x00) as Hz.
    { intros j. rewrite <-IH. by destruct j. }
    destruct (Z.eqb_spec (byte.unsigned b) 0) as [Hb|Hb].
    + assert (b = Byte.x00) as -> by (apply byte.unsigned_inj; exact Hb).
      by destruct k.
    + destruct k as [|k]; [done|]. cbn. rewrite Hz. by destruct k.
  - destruct k as [|k]; [done|]. cbn. apply IH.
Qed.

Lemma nth_take_min k l w :
  0 <= w ->
  nth k (take (Z.to_nat (Z.min (size l) w)) l) Byte.x00 =
    if Z.of_nat k <? w then payload_byte l k else Byte.x00.
Proof.
  intros Hw. unfold payload_byte, size, zero_byte. rewrite nth_firstn.
  destruct (Z.ltb_spec (Z.of_nat k) w);
    destruct (Nat.ltb_spec k (Z.to_nat (Z.min (Z.of_nat (length l)) w))); try lia; try done.
  symmetry. apply nth_overflow. lia.
Qed.

Lemma padded_payload l w :
  0 <= w ->
  map (fun k => nth k (OracleMain.pop_zeros (take (Z.to_nat (Z.min (size l) w)) l)) Byte.x00)
    (seq 0 (Z.to_nat w)) = pad_payload l w.
Proof.
  intros Hw. apply list_eq_same_length with (Z.to_nat w).
  - by rewrite length_pad_payload.
  - by rewrite length_map, length_seq.
  - intros i x y Hi. rewrite lookup_pad_payload by done.
    rewrite list_lookup_fmap, lookup_seq_lt by done. cbn.
    rewrite nth_pop_zeros, nth_take_min by done. intros Hx Hy. simplify_eq.
    destruct (Z.ltb_spec (Z.of_nat i) w); [done|lia].
Qed.

(** ** Segments and sequences *)

Lemma canonical_encoding w seg :
  OracleMain.c_enc (OracleMain.canonicalize_one w seg) =
    encoding_value (seg_encoding (canonicalize_segment (lib_segment seg))).
Proof. destruct seg as [k e]. by destruct k, e. Qed.

Lemma encode_segment_write w seg :
  0 <= w ->
  OracleMain.encode_segment w (OracleMain.canonicalize_one w seg) =
    write_segment (canonicalize_segment (lib_segment seg)) w.
Proof.
  intros Hw. unfold OracleMain.encode_segment, write_segment.
  rewrite canonicalize_segment_kind, canonicalize_segment_scalars,
    canonicalize_segment_payload, <-(canonical_encoding w).
  generalize (OracleMain.c_enc (OracleMain.canonicalize_one w seg)) as e. intros e.
  unfold segment_scalars, put64s.
  cbn -[OracleMain.putU16 OracleMain.putU64 put16 put64 app]. rewrite padded_payload by done.
  rewrite !putU16_put16, !putU64_put64, lib_kind_code.
  rewrite (le_split_wrap 2 w : put16 (u16 w) = put16 w).
  by rewrite <-!app_assoc.
Qed.

Definition encodable (sc : OracleMain.Scenario) : bool :=
  (OracleMain.width sc <=? OracleMain.kMaxEncodedBytes) &&
  (6 + size (OracleMain.segments sc) * (78 + OracleMain.width sc)
     <=? OracleMain.kMaxEncodedBytes).

(** The oracle encodes exactly the sequences whose encoding stays within its bound, to
    exactly the bytes of the library, payloads wider than the width included. *)
Theorem encodeSequence_spec sc :
  0 <= OracleMain.width sc ->
  OracleMain.encodeSequence sc (OracleMain.canonicalize sc) =
    if encodable sc
    then inr (canonical_sequence_bytes (canonicalize_segments (lib_segments sc))
                (OracleMain.width sc))
    else inl "output-too-large"%string.
Proof.
  intros Hw. unfold OracleMain.encodeSequence, OracleMain.canonicalize, encodable.
  set (w := OracleMain.width sc) in *. set (ss := OracleMain.segments sc).
  destruct (Z.leb_spec w OracleMain.kMaxEncodedBytes) as [Hc|Hc]; [|done]. cbn [andb].
  assert (size (map (OracleMain.canonicalize_one w) ss) = size ss) as ->
    by (unfold size; by rewrite length_map).
  assert ((size ss <=? (OracleMain.kMaxEncodedBytes - 6) / (78 + w)) =
          (6 + size ss * (78 + w) <=? OracleMain.kMaxEncodedBytes)) as ->.
  { apply eq_true_iff_eq. rewrite !Z.leb_le. split; intros H.
    - pose proof (Z.mul_div_le (OracleMain.kMaxEncodedBytes - 6) (78 + w) ltac:(lia)). nia.
    - apply Z.div_le_lower_bound; lia. }
  destruct (_ <=? OracleMain.kMaxEncodedBytes); [|done].
  apply (f_equal (@inr string (list Byte.byte))).
  unfold canonical_sequence_bytes, write_segments.
  rewrite putU16_put16, putU32_put32.
  rewrite (le_split_wrap 4 (size ss) : put32 (u32 (size ss)) = put32 (size ss)).
  unfold lib_segments, canonicalize_segments, size. fold ss.
  rewrite !length_map, !map_map. do 3 f_equal. apply map_ext. intros seg.
  by apply encode_segment_write.
Qed.

(** ** Digest *)

Lemma fnv_fnv1a : OracleMain.fnv = fnv1a_seeded.
Proof. reflexivity. Qed.

Lemma put_shifts_length_bytes n :
  OracleMain.put_shifts [0; 8; 16; 24; 32; 40; 48; 56] n = length_bytes n.
Proof. reflexivity. Qed.

Lemma lanes a b :
  (if (a =? 0) && (b =? 0) then (a, 1) else (a, b)) =
  (hi (if (a =? 0) && (b =? 0) then mkDigest a 1 else mkDigest a b),
   lo (if (a =? 0) && (b =? 0) then mkDigest a 1 else mkDigest a b)).
Proof. by destruct (_ && _). Qed.

Lemma digest_agrees data :
  OracleMain.digest128 data = (hi (digest128 data), lo (digest128 data)).
Proof.
  unfold OracleMain.digest128, digest128. cbv zeta. rewrite put_shifts_length_bytes.
  rewrite fnv_fnv1a. apply lanes.
Qed.
