(* ===== verification/OracleFacts.v ===== *)
(** * The oracle: repeats

    The map of canonical segments finds exactly the earlier positions of a segment, and two
    segments share a key exactly when the library holds their canonical content equal. *)

From S2P Require Import Prelude.
From S2P Require Import Ids.
From S2P Require Import Bytes.
From S2P Require Import Digest.
From S2P Require Import Segment.
From S2P Require Import Oracle.
From S2P Require Import OracleProps.

(** ** The keys of the oracle's map *)

Lemma bytes_before_same a b :
  OracleMain.bytes_before a b = false -> OracleMain.bytes_before b a = false -> a = b.
Proof.
  revert b. induction a as [|x a IH]; intros [|y b]; cbn; try done.
  destruct (Z.ltb_spec (byte.unsigned x) (byte.unsigned y)); [done|].
  destruct (Z.ltb_spec (byte.unsigned y) (byte.unsigned x)); [done|].
  intros. f_equal; [apply byte.unsigned_inj; lia|by apply IH].
Qed.

Lemma bytes_before_irrefl a : OracleMain.bytes_before a a = false.
Proof. induction a as [|x a IH]; cbn; [done|]. by rewrite Z.ltb_irrefl. Qed.

(** Two keys of the map are the same exactly when they are equal. *)
Lemma same_key_spec a b : OracleMain.same_key a b = true <-> a = b.
Proof.
  unfold OracleMain.same_key. rewrite andb_true_iff, !negb_true_iff. split.
  - destruct a, b. unfold OracleMain.canon_before. cbn.
    intros [H H'].
    repeat match type of H with
    | (if negb (?x =? ?y) then _ else _) = false =>
        rewrite (Z.eqb_sym y x) in H';
        destruct (Z.eqb_spec x y) as [->|?]; cbn [negb] in H, H';
        [|apply Z.ltb_ge in H, H'; lia]
    end.
    by rewrite (bytes_before_same _ _ H H').
  - intros ->. unfold OracleMain.canon_before. by rewrite !Z.eqb_refl, bytes_before_irrefl.
Qed.

(** ** The duplicate facts *)

Lemma flat_map_ext_elem {A B} (f g : A -> list B) l :
  (forall x, x ∈ l -> f x = g x) -> flat_map f l = flat_map g l.
Proof.
  intros H. induction l as [|x l IH]; cbn; [done|]. rewrite H by (by left).
  f_equal. apply IH. intros y Hy. apply H. by right.
Qed.

(** The positions before the end of [pre] that hold [key], as the oracle counts them. *)
Definition positions (key : OracleMain.CanonSegment) (pre : list OracleMain.CanonSegment)
  : list Z :=
  flat_map (fun j => match pre !! j with
                     | Some k => if OracleMain.same_key k key then [Z.of_nat j] else []
                     | None => []
                     end) (seq 0 (length pre)).

Lemma positions_snoc key k pre :
  positions key (pre ++ [k]) =
    positions key pre ++ if OracleMain.same_key k key then [size pre] else [].
Proof.
  unfold positions. rewrite length_app, seq_app, flat_map_app. cbn [length seq Nat.add flat_map].
  f_equal.
  - apply flat_map_ext_elem. intros j Hj%elem_of_seq. by rewrite lookup_app_l by lia.
  - rewrite lookup_app_r, Nat.sub_diag by lia. cbn. by rewrite app_nil_r.
Qed.

Lemma elem_of_positions key pre z :
  z ∈ positions key pre <-> exists j, z = Z.of_nat j /\ pre !! j = Some key.
Proof.
  unfold positions. rewrite list_elem_of_In, in_flat_map. split.
  - intros (j & _ & H). destruct (pre !! j) as [k|] eqn:E; [|done].
    destruct (OracleMain.same_key k key) eqn:Ek; [|done].
    apply same_key_spec in Ek as ->. destruct H as [<-|[]]. by exists j.
  - intros (j & -> & H). exists j. split.
    + apply in_seq. apply lookup_lt_Some in H. lia.
    + rewrite H. rewrite (proj2 (same_key_spec key key) eq_refl). by left.
Qed.

(** The positions ascend. *)
Lemma positions_sorted key pre : StronglySorted Z.lt (positions key pre).
Proof.
  induction pre as [|k pre IH] using rev_ind; [constructor|].
  rewrite positions_snoc. destruct (OracleMain.same_key k key); [|by rewrite app_nil_r].
  apply StronglySorted_app_2; [|done|repeat constructor].
  intros a b (j & -> & Hj)%elem_of_positions ->%list_elem_of_singleton.
  apply lookup_lt_Some in Hj. unfold size. lia.
Qed.

Lemma seen_push_at key i seen k :
  OracleMain.seen_at k (OracleMain.seen_push key i seen) =
    OracleMain.seen_at k seen ++ if OracleMain.same_key key k then [i] else [].
Proof.
  induction seen as [|[k' prior] seen IH]; cbn; [done|].
  destruct (OracleMain.same_key k' key) eqn:E; cbn.
  - apply same_key_spec in E as ->. by destruct (OracleMain.same_key key k); rewrite ?app_nil_r.
  - destruct (OracleMain.same_key k' k) eqn:E'; [|done].
    apply same_key_spec in E' as ->. destruct (OracleMain.same_key key k) eqn:E'';
      [|by rewrite app_nil_r].
    apply same_key_spec in E'' as ->. by rewrite (proj2 (same_key_spec k k) eq_refl) in E.
Qed.

Lemma facts_loop_positions canon : forall pre seen i,
  (forall k, OracleMain.seen_at k seen = positions k pre) ->
  nth i (OracleMain.facts_loop (size pre) canon seen) OracleMain.no_duplicate =
    match canon !! i with
    | Some key =>
        OracleMain.duplicateFacts (positions key (pre ++ take i canon))
          (size pre + Z.of_nat i)
    | None => OracleMain.no_duplicate
    end.
Proof.
  induction canon as [|key canon IH]; intros pre seen i Hs; [by destruct i|].
  destruct i as [|i]; cbn [OracleMain.facts_loop nth lookup list_lookup take].
  - by rewrite Hs, app_nil_r, Z.add_0_r.
  - replace (size pre + 1) with (size (pre ++ [key])) by (by rewrite size_snoc).
    rewrite IH.
    + change (list_lookup i canon) with (canon !! i). destruct (canon !! i); [|done].
      rewrite <-app_assoc, size_snoc. f_equal. lia.
    + intros k. rewrite seen_push_at, positions_snoc. by rewrite Hs.
Qed.

Lemma sorted_last_max l x z :
  StronglySorted Z.lt l -> list.last l = Some x -> z ∈ l -> z <= x.
Proof.
  intros Hs Hl Hz. induction l as [|y l IH] using rev_ind; [by apply not_elem_of_nil in Hz|].
  rewrite list.last_snoc in Hl. simplify_eq. apply elem_of_app in Hz as [Hz|Hz].
  - apply StronglySorted_app in Hs as (H & _). specialize (H z x Hz ltac:(by left)). lia.
  - apply list_elem_of_singleton in Hz. lia.
Qed.

Lemma duplicateFacts_spec prior i :
  StronglySorted Z.lt prior -> (forall z, z ∈ prior -> 0 <= z < i) ->
  (OracleMain.consecutive (OracleMain.duplicateFacts prior i) = true <-> i - 1 ∈ prior) /\
  (OracleMain.nonConsecutive (OracleMain.duplicateFacts prior i) = true <->
   exists z, z ∈ prior /\ z <> i - 1).
Proof.
  intros Hs Hb. destruct prior as [|front prior]; cbn [OracleMain.duplicateFacts].
  { split; (split; [done|]); [by intros ?%not_elem_of_nil|].
    by intros (z & ?%not_elem_of_nil & _). }
  pose proof (Hb front ltac:(by left)) as Hf.
  destruct (Z.eqb_spec i 0); [lia|].
  cbn [OracleMain.consecutive OracleMain.nonConsecutive]. split.
  - destruct (list.last (front :: prior)) as [back|] eqn:El.
    2: { by apply list.last_None in El. }
    assert (back ∈ front :: prior) as Hin.
    { apply list.last_Some in El as [l' ->]. apply elem_of_app. right. by left. }
    rewrite Z.eqb_eq. split; [by intros <-|].
    intros Hi. pose proof (sorted_last_max _ _ _ Hs El Hi). specialize (Hb back Hin). lia.
  - rewrite orb_true_iff, negb_true_iff, Z.eqb_neq, Z.leb_le. split.
    + intros [H2|Hne]; [|exists front; split; [by left|done]].
      destruct prior as [|z prior]; [by vm_compute in H2|].
      apply StronglySorted_inv in Hs as [_ Hs]. apply list.Forall_cons in Hs as [Hlt _].
      destruct (decide (front = i - 1)); [|exists front; split; [by left|done]].
      exists z. split; [by right; left|lia].
    + intros (z & Hz & Hne). apply elem_of_cons in Hz as [->|Hz]; [by right|].
      left. destruct prior; [by apply not_elem_of_nil in Hz|].
      rewrite !size_cons. pose proof (size_nonneg prior). lia.
Qed.

(** An earlier position of [canon] with the key of position [i]. *)
Definition earlier (canon : list OracleMain.CanonSegment) (i j : nat) : Prop :=
  (j < i)%nat /\ canon !! j = canon !! i.

Lemma scan_facts_spec scanned canon i :
  (i < length canon)%nat -> Z.of_nat i < scanned ->
  let fact := nth i (OracleMain.scan_facts scanned canon) OracleMain.no_duplicate in
  (OracleMain.consecutive fact = true <-> exists j, earlier canon i j /\ S j = i) /\
  (OracleMain.nonConsecutive fact = true <-> exists j, earlier canon i j /\ S j <> i).
Proof.
  intros Hi Hn. cbv zeta. unfold OracleMain.scan_facts.
  rewrite (facts_loop_positions _ [] [] i) by done.
  rewrite lookup_take_lt by lia.
  destruct (lookup_lt_is_Some_2 _ _ Hi) as [key Hkey]. rewrite Hkey.
  rewrite size_nil, Z.add_0_l, app_nil_l, take_take.
  replace (Nat.min i (Z.to_nat scanned)) with i by lia.
  assert (forall z, z ∈ positions key (take i canon) <->
            exists j, z = Z.of_nat j /\ earlier canon i j) as Hp.
  { intros z. rewrite elem_of_positions. unfold earlier. rewrite Hkey. split.
    - intros (j & -> & Hj). exists j. apply lookup_take_Some in Hj as [Hj ?]. done.
    - intros (j & -> & Hj & He). exists j. split; [done|]. by rewrite lookup_take_lt. }
  destruct (duplicateFacts_spec _ (Z.of_nat i) (positions_sorted key (take i canon)))
    as [Hc Hd].
  { intros z (j & -> & Hj & _)%Hp. lia. }
  rewrite Hc, Hd. setoid_rewrite Hp. split.
  - split.
    + intros (j & Hz & He). exists j. split; [done|]. destruct He. lia.
    + intros (j & He & <-). exists j. split; [lia|done].
  - split.
    + intros (z & (j & -> & He) & Hne). exists j. split; [done|]. lia.
    + intros (j & He & Hne). exists (Z.of_nat j). split; [by exists j|lia].
Qed.

(** ** Canonical equality *)

Lemma pop_zeros_last l b :
  list.last (OracleMain.pop_zeros l) = Some b -> b <> Byte.x00.
Proof.
  induction l as [|x l IH]; cbn; [done|].
  destruct (OracleMain.pop_zeros l) as [|y k] eqn:E.
  - destruct (Z.eqb_spec (byte.unsigned x) 0) as [|Hx]; [done|]. cbn.
    intros ?. simplify_eq. by intros ->.
  - exact IH.
Qed.

Lemma pop_zeros_spec l l' :
  OracleMain.pop_zeros l = OracleMain.pop_zeros l' <->
  forall k, nth k l Byte.x00 = nth k l' Byte.x00.
Proof.
  split.
  - intros H k. by rewrite <-nth_pop_zeros, H, nth_pop_zeros.
  - intros H.
    assert (forall k, nth k (OracleMain.pop_zeros l) Byte.x00 =
                      nth k (OracleMain.pop_zeros l') Byte.x00) as Hn
      by (intros k; by rewrite !nth_pop_zeros).
    assert (forall a b : list Byte.byte, (forall k, nth k a Byte.x00 = nth k b Byte.x00) ->
              (forall x, list.last a = Some x -> x <> Byte.x00) ->
              (length a <= length b)%nat) as Hle.
    { intros a b Hab Ha. destruct (decide (length b < length a)%nat) as [Hlt|]; [|lia].
      exfalso. destruct (list.last a) as [x|] eqn:El.
      2: { apply list.last_None in El as ->. cbn in Hlt. lia. }
      apply (Ha x eq_refl). rewrite list.last_lookup in El.
      apply nth_lookup_Some with (d := Byte.x00) in El. rewrite <-El, Hab.
      apply nth_overflow. lia. }
    assert (length (OracleMain.pop_zeros l) = length (OracleMain.pop_zeros l')) as Hlen.
    { apply Nat.le_antisymm; apply Hle; eauto using pop_zeros_last. }
    apply (nth_ext _ _ Byte.x00 Byte.x00); [done|]. intros k _. apply Hn.
Qed.

Lemma lib_kind_inj a b : lib_kind a = lib_kind b -> a = b.
Proof. by destruct a, b. Qed.

Lemma c_enc_effective w s :
  OracleMain.c_enc (OracleMain.canonicalize_one w s) =
    encoding_value (effective_encoding (lib_segment s)).
Proof. by rewrite canonical_encoding, canonicalize_segment_encoding. Qed.

Lemma canon_ext x y :
  OracleMain.c_kind x = OracleMain.c_kind y -> OracleMain.c_enc x = OracleMain.c_enc y ->
  OracleMain.c_id x = OracleMain.c_id y -> OracleMain.c_gen x = OracleMain.c_gen y ->
  OracleMain.c_node x = OracleMain.c_node y -> OracleMain.c_adj x = OracleMain.c_adj y ->
  OracleMain.c_endp x = OracleMain.c_endp y -> OracleMain.c_bind x = OracleMain.c_bind y ->
  OracleMain.c_pol x = OracleMain.c_pol y -> OracleMain.c_polgen x = OracleMain.c_polgen y ->
  OracleMain.c_topo x = OracleMain.c_topo y ->
  OracleMain.c_payload x = OracleMain.c_payload y -> x = y.
Proof. destruct x, y. cbn. congruence. Qed.

(** Equal canonical segments: the same scalars and the same padded payload. *)
Lemma canonicalize_one_spec w a b :
  0 <= w ->
  OracleMain.canonicalize_one w a = OracleMain.canonicalize_one w b <->
  same_scalar_content (lib_segment a) (lib_segment b) = true /\
  pad_payload (OracleMain.payload a) w = pad_payload (OracleMain.payload b) w.
Proof.
  intros Hw. rewrite same_scalar_content_spec. split.
  - intros H. pose proof (f_equal OracleMain.c_enc H) as He. rewrite !c_enc_effective in He.
    rewrite <-!padded_payload by done.
    pose proof (f_equal OracleMain.c_payload H) as Hp. cbn in Hp. rewrite Hp.
    unfold OracleMain.canonicalize_one in H. injection H as Hk _ H.
    rewrite <-!lib_kind_code in Hk. apply kind_value_inj in Hk.
    split_and!; [done|by apply encoding_value_inj| |done].
    unfold segment_scalars. cbn. congruence.
  - intros [(Hk & He & Hs) Hp].
    assert (OracleMain.c_enc (OracleMain.canonicalize_one w a) =
            OracleMain.c_enc (OracleMain.canonicalize_one w b)) as Hc
      by (by rewrite !c_enc_effective, He).
    apply lib_kind_inj in Hk. unfold segment_scalars in Hs. cbn in Hs. injection Hs. intros.
    apply canon_ext; cbn -[OracleMain.c_enc OracleMain.pop_zeros]; try congruence.
    apply pop_zeros_spec. intros k. rewrite !nth_take_min by done.
    case_match; [|done]. apply (f_equal (fun l => l !! k)) in Hp.
    rewrite !lookup_pad_payload in Hp by lia. by simplify_eq.
Qed.
