(* ===== verification/OracleChecks.v ===== *)
(** * The oracle against the library: the verdict

    Within the scope both implementations claim, stated as [joint_scope], the reasons of
    the oracle are the reasons of [validate_segment_sequence], in the same order. *)

From Stdlib Require Import Btauto.
From S2P Require Import Prelude.
From S2P Require Import Ids.
From S2P Require Import Bytes.
From S2P Require Import Digest.
From S2P Require Import Segment.
From S2P Require Import Reason.
From S2P Require Import Governance.
From S2P Require Import Validation.
From S2P Require Import ValidationProps.
From S2P Require Import Oracle.
From S2P Require Import OracleProps.
From S2P Require Import OracleFacts.

(** ** The same question put to both *)
Definition oracle_kind (k : SegmentKind) : OracleMain.Kind :=
  match k with
  | KInvalid => OracleMain.Invalid
  | KNode => OracleMain.Node
  | KAdjacency => OracleMain.Adjacency
  | KEndpoint => OracleMain.Endpoint
  | KBinding => OracleMain.Binding
  | KPolicy => OracleMain.Policy
  end.

Definition oracle_enc (e : SegmentEncodingId) : OracleMain.Enc :=
  match e with
  | EInvalid => OracleMain.Unset
  | AbstractNodeV1 => OracleMain.AbstractNodeV1
  | AbstractAdjacencyV1 => OracleMain.AbstractAdjacencyV1
  | AbstractEndpointV1 => OracleMain.AbstractEndpointV1
  | AbstractBindingV1 => OracleMain.AbstractBindingV1
  | AbstractPolicyV1 => OracleMain.AbstractPolicyV1
  end.

Definition oracle_segment (s : Segment) : OracleMain.Segment := {|
  OracleMain.kind := oracle_kind (seg_kind s);
  OracleMain.enc := oracle_enc (seg_encoding s);
  OracleMain.id := seg_id s;
  OracleMain.gen := seg_generation s;
  OracleMain.node := seg_node s;
  OracleMain.adj := seg_adjacency s;
  OracleMain.endp := seg_endpoint s;
  OracleMain.bind := seg_binding s;
  OracleMain.pol := seg_policy s;
  OracleMain.polgen := seg_policy_generation s;
  OracleMain.topo := seg_topology s;
  OracleMain.payload := seg_payload s;
|}.

Lemma lib_oracle_segment s : lib_segment (oracle_segment s) = s.
Proof. destruct s as [k e]. by destruct k, e. Qed.

Definition all_kinds : list SegmentKind :=
  [KInvalid; KNode; KAdjacency; KEndpoint; KBinding; KPolicy].

(** The scenario that asks the oracle about a profile, limits and a sequence. *)
Definition scenario_of (p : SegmentProfile) (l : Limits) (ss : list Segment)
  : OracleMain.Scenario := {|
  OracleMain.profileId := pr_id p;
  OracleMain.profileGen := pr_generation p;
  OracleMain.kindAllowed := map (allows_kind p) all_kinds;
  OracleMain.depth := pr_max_depth p;
  OracleMain.width := pr_payload_width p;
  OracleMain.empty := bool_byte (pr_allow_empty p);
  OracleMain.consec := bool_byte (pr_allow_consecutive_repeats p);
  OracleMain.nonconsec := bool_byte (pr_allow_nonconsecutive_repeats p);
  OracleMain.loose := bool_byte (pr_allow_loose p);
  OracleMain.reqcaps := size (pr_required_capabilities p);
  OracleMain.maxseg := max_segments_per_list l;
  OracleMain.maxpayload := max_segment_payload_bytes l;
  OracleMain.segments := map oracle_segment ss;
|}.

Lemma lib_scenario_segments p l ss : lib_segments (scenario_of p l ss) = ss.
Proof.
  unfold lib_segments. cbn. rewrite map_map. rewrite <-(map_id ss) at 2.
  apply map_ext. apply lib_oracle_segment.
Qed.

(** The library's question: the evidence-free validation of the sequence. *)
Definition sequence_question (p : SegmentProfile) (l : Limits) (ss : list Segment)
  : ValidationRequest := sequence_request (Some l) (Some p) ss None 0.

(** Everything its checks report, before the result bounds and orders it. *)
Definition sequence_reports (p : SegmentProfile) (l : Limits) (ss : list Segment)
  : list Reason :=
  let r := sequence_question p l ss in
  concat [check_list_content_lifecycle r; check_profile r;
          check_structural r (request_width r); check_capability r; check_topology r;
          check_resource_limits r].

(** The segments both scan. *)
Definition scanned_prefix (l : Limits) (ss : list Segment) : list Segment :=
  take (Z.to_nat (max_segments_per_list l + 1)) ss.

(** The scope on which both implementations claim the same verdict.  Outside it they
    differ, each in its own reading of docs/ORACLE_SPEC.md: a width or a profile
    generation of zero, an empty sequence that is not permitted, a segment without any
    reference, over-wide payloads that agree up to the width, repeats that the profile
    permits, an adjacency after the scanned prefix, and more reasons than are kept. *)
Record joint_scope (p : SegmentProfile) (l : Limits) (ss : list Segment) : Prop := {
  js_width : 0 < pr_payload_width p;
  js_generation : pr_generation p <> 0;
  js_empty : ss = [] -> pr_allow_empty p = true;
  js_bound : Forall (fun s => missing_binding s = false) (scanned_prefix l ss);
  js_payloads : forall j i a b, (j < i)%nat ->
    scanned_prefix l ss !! j = Some a -> scanned_prefix l ss !! i = Some b ->
    same_scalar_content a b = true ->
    payload_within (pr_payload_width p) a /\ payload_within (pr_payload_width p) b;
  js_repeats : forall j i a b, (j < i)%nat ->
    scanned_prefix l ss !! j = Some a -> scanned_prefix l ss !! i = Some b ->
    segment_semantic_equal a b (pr_payload_width p) = true ->
    if Nat.eqb (j + 1) i then pr_allow_consecutive_repeats p = false
    else pr_allow_nonconsecutive_repeats p = false;
  js_adjacency : existsb (fun s => kind_eqb (seg_kind s) KAdjacency) ss =
    existsb (fun s => kind_eqb (seg_kind s) KAdjacency) (scanned_prefix l ss);
  js_size : fits 32 (size ss);
  js_maxseg : fits 32 (max_segments_per_list l);
  js_reasons : size (sort_and_dedup (sequence_reports p l ss)) < max_reasons l;
}.

(** The number the oracle gives a code.  From [SegmentReservedFieldSet] on within the
    structural phase, and from [TopologyEvidenceUnavailable] on within the topology phase,
    the table of docs/ORACLE_SPEC.md is one above the enumerators of reason.hpp. *)
Definition oracle_code (c : ReasonCode) : Z :=
  let v := code_value c in
  if ((254 <=? v) && (v <? 290)) || ((324 <=? v) && (v <? 350)) then v + 1 else v.

(** A reason of the library as the oracle writes it; the oracle leaves out the segment
    of a repeat. *)
Definition oracle_view (r : Reason) : OracleMain.Reason :=
  OracleMain.mkReason (phase_value (phase_of (r_code r))) (oracle_code (r_code r)) (r_index r)
    (if code_eqb (r_code r) ProfileRepeatNotPermitted then 0 else r_detail r).

(** ** Agreement of two runs of reports, as sets *)
Definition agree (os : list OracleMain.Reason) (ls : list Reason) : Prop :=
  forall x, x ∈ os <-> x ∈ map oracle_view ls.

Lemma agree_nil : agree [] [].
Proof. done. Qed.

Lemma agree_app os os' ls ls' : agree os ls -> agree os' ls' -> agree (os ++ os') (ls ++ ls').
Proof. intros H H' x. by rewrite map_app, !elem_of_app, (H x), (H' x). Qed.

Lemma agree_emit b b' phase code index detail c i d :
  b = b' -> oracle_view (mkReason c i d) = OracleMain.mkReason phase code index detail ->
  agree (OracleMain.emit_if b phase code index detail) (report b' c i d).
Proof. intros <- H. destruct b; [|done]. unfold agree. cbn [report map]. by rewrite H. Qed.

Lemma elem_of_map_view r ls : r ∈ ls -> oracle_view r ∈ map oracle_view ls.
Proof. apply list_elem_of_fmap_2. Qed.

Lemma elem_of_flat_map {A B} (f : A -> list B) l y :
  y ∈ flat_map f l <-> exists x, x ∈ l /\ y ∈ f x.
Proof.
  rewrite list_elem_of_In, in_flat_map. by setoid_rewrite list_elem_of_In.
Qed.

Lemma elem_of_for_each {A} (f : Z -> A -> list Reason) l r :
  r ∈ for_each f l <->
  exists i x, l !! i = Some x /\ r ∈ f (u32 (Z.of_nat i)) x.
Proof.
  unfold for_each. rewrite elem_of_flat_map. split.
  - intros (i & _ & H). destruct (l !! i) as [x|] eqn:E; [|by apply not_elem_of_nil in H].
    by exists i, x.
  - intros (i & x & Hx & H). exists i. rewrite Hx. split; [|done].
    apply elem_of_seq. apply lookup_lt_Some in Hx. lia.
Qed.

Lemma elem_of_for_pairs {A} (f : nat -> nat -> A -> A -> list Reason) l r :
  r ∈ for_pairs f l <->
  exists j i a b, (j < i)%nat /\ l !! j = Some a /\ l !! i = Some b /\ r ∈ f j i a b.
Proof.
  unfold for_pairs. rewrite elem_of_flat_map. split.
  - intros (i & _ & H). apply elem_of_flat_map in H as (j & Hj%elem_of_seq & H).
    destruct (l !! j) as [a|] eqn:Ea; [|by apply not_elem_of_nil in H].
    destruct (l !! i) as [b|] eqn:Eb; [|by apply not_elem_of_nil in H].
    exists j, i, a, b. split_and!; [lia|done..].
  - intros (j & i & a & b & Hji & Ha & Hb & H). exists i. split.
    + apply elem_of_seq. apply lookup_lt_Some in Hb. lia.
    + apply elem_of_flat_map. exists j. rewrite Ha, Hb. split; [apply elem_of_seq; lia|done].
Qed.

Lemma elem_of_for_scanned n facts segments f x :
  x ∈ OracleMain.for_scanned n facts segments f <->
  exists i seg, Z.of_nat i < n /\ segments !! i = Some seg /\
    x ∈ f (Z.of_nat i) (nth i facts OracleMain.no_duplicate) seg.
Proof.
  unfold OracleMain.for_scanned. rewrite elem_of_flat_map. split.
  - intros (i & Hi%elem_of_seq & H). destruct (segments !! i) as [seg|] eqn:E.
    + exists i, seg. split_and!; [lia|done..].
    + by apply not_elem_of_nil in H.
  - intros (i & seg & Hi & Hs & H). exists i. rewrite Hs. split; [apply elem_of_seq; lia|done].
Qed.


(** ** One question in the joint scope *)
Section Scope.
Context (p : SegmentProfile) (l : Limits) (ss : list Segment).
Context (Hscope : joint_scope p l ss).

#[local] Abbreviation w := (pr_payload_width p).
#[local] Abbreviation sc := (scenario_of p l ss).
#[local] Abbreviation prefix := (scanned_prefix l ss).
#[local] Abbreviation scanned := (OracleMain.scannedCount sc).
#[local] Abbreviation facts :=
  (OracleMain.scan_facts scanned (OracleMain.canonicalize sc)).

Lemma scanned_eq : scanned = Z.min (size ss) (max_segments_per_list l + 1).
Proof.
  unfold OracleMain.scannedCount. cbn.
  destruct (js_maxseg _ _ _ Hscope) as [Hl Hu].
  destruct (Z.eqb_spec (max_segments_per_list l) OracleMain.u64_max) as [E|_].
  - rewrite E in Hu. by vm_compute in Hu.
  - f_equal. unfold size. by rewrite length_map.
Qed.

Lemma lookup_scanned i s :
  Z.of_nat i < scanned /\ ss !! i = Some s <-> prefix !! i = Some s.
Proof.
  rewrite scanned_eq. unfold scanned_prefix. rewrite lookup_take_Some.
  destruct (js_maxseg _ _ _ Hscope) as [Hl _]. split.
  - intros [Hi Hs]. split; [done|]. lia.
  - intros [Hs Hi]. split; [|done]. apply lookup_lt_Some in Hs. unfold size. lia.
Qed.

Lemma index_small i s : prefix !! i = Some s -> u32 (Z.of_nat i) = Z.of_nat i.
Proof.
  intros [_ Hs]%lookup_scanned. apply lookup_lt_Some in Hs. apply wrap_small.
  destruct (js_size _ _ _ Hscope) as [_ Hu]. unfold size in Hu. split; lia.
Qed.

Lemma lookup_canon i :
  OracleMain.canonicalize sc !! i =
    (fun s => OracleMain.canonicalize_one w (oracle_segment s)) <$> ss !! i.
Proof.
  unfold OracleMain.canonicalize. cbn. rewrite list_lookup_fmap.
  change (map oracle_segment ss) with (oracle_segment <$> ss).
  rewrite list_lookup_fmap. by destruct (ss !! i).
Qed.

(** Canonical equality of two scanned segments is the library's semantic equality. *)
Lemma canon_equal_semantic j i a b :
  (j < i)%nat -> prefix !! j = Some a -> prefix !! i = Some b ->
  OracleMain.canonicalize_one w (oracle_segment a) =
    OracleMain.canonicalize_one w (oracle_segment b) <->
  segment_semantic_equal a b w = true.
Proof.
  intros Hji Ha Hb. pose proof (js_width _ _ _ Hscope).
  rewrite canonicalize_one_spec by lia. rewrite !lib_oracle_segment.
  unfold segment_semantic_equal.
  destruct (same_scalar_content a b) eqn:E; cbn [negb]; [|naive_solver].
  destruct (js_payloads _ _ _ Hscope j i a b Hji Ha Hb E) as [Hpa Hpb].
  rewrite canonical_payload_equal_spec by lia. unfold payload_within in *. cbn. naive_solver.
Qed.

(** The facts of a scanned segment in the words of the library. *)
Lemma fact_spec i b :
  prefix !! i = Some b ->
  (OracleMain.consecutive (nth i facts OracleMain.no_duplicate) = true <->
   exists j a, (j < i)%nat /\ prefix !! j = Some a /\
     segment_semantic_equal a b w = true /\ Nat.eqb (j + 1) i = true) /\
  (OracleMain.nonConsecutive (nth i facts OracleMain.no_duplicate) = true <->
   exists j a, (j < i)%nat /\ prefix !! j = Some a /\
     segment_semantic_equal a b w = true /\ Nat.eqb (j + 1) i = false).
Proof.
  intros Hb. pose proof (proj2 (lookup_scanned i b) Hb) as [Hi Hs].
  assert (forall j, earlier (OracleMain.canonicalize sc) i j <->
            exists a, (j < i)%nat /\ prefix !! j = Some a /\
              segment_semantic_equal a b w = true) as He.
  { intros j. unfold earlier. rewrite !lookup_canon, Hs. cbn. split.
    - intros [Hj H]. destruct (ss !! j) as [a|] eqn:Ea; [|done].
      apply (inj Some) in H.
      assert (prefix !! j = Some a) as Hpa by (apply lookup_scanned; split; [lia|done]).
      exists a. split_and!; [done|done|]. by apply (canon_equal_semantic j i).
    - intros (a & Hj & Hpa & H). split; [done|].
      pose proof (proj2 (lookup_scanned j a) Hpa) as [_ Ea]. rewrite Ea. cbn. f_equal.
      by apply (canon_equal_semantic j i). }
  destruct (scan_facts_spec scanned (OracleMain.canonicalize sc) i) as [Hc Hn].
  { apply lookup_lt_is_Some. rewrite lookup_canon, Hs. by eexists. }
  { done. }
  rewrite Hc, Hn. setoid_rewrite He. setoid_rewrite Nat.eqb_eq. setoid_rewrite Nat.eqb_neq.
  split.
  - split; [intros (j & (a & ? & ? & ?) & ?)|intros (j & a & ? & ? & ? & ?)].
    + exists j, a. split_and!; [done..|lia].
    + exists j. split; [by exists a|lia].
  - split; [intros (j & (a & ? & ? & ?) & ?)|intros (j & a & ? & ? & ? & ?)].
    + exists j, a. split_and!; [done..|lia].
    + exists j. split; [by exists a|lia].
Qed.

(** A scan of the oracle against a scan of the library followed by its pairs: what is
    reported of each segment agrees, and the reports of repeats agree position by
    position. *)
Lemma agree_scan (f : Z -> OracleMain.DuplicateFacts -> OracleMain.Segment ->
      list OracleMain.Reason) (B D : Z -> OracleMain.DuplicateFacts -> OracleMain.Segment ->
      list OracleMain.Reason)
    (A : Z -> Segment -> list Reason) (P : nat -> nat -> Segment -> Segment -> list Reason) :
  (forall i fact s x, prefix !! i = Some s ->
     x ∈ f (Z.of_nat i) fact (oracle_segment s) <->
     x ∈ B (Z.of_nat i) fact (oracle_segment s) \/ x ∈ D (Z.of_nat i) fact (oracle_segment s)) ->
  (forall i s fact, prefix !! i = Some s ->
     agree (B (Z.of_nat i) fact (oracle_segment s)) (A (Z.of_nat i) s)) ->
  (forall i b x, prefix !! i = Some b ->
     x ∈ D (Z.of_nat i) (nth i facts OracleMain.no_duplicate) (oracle_segment b) <->
     exists j a, (j < i)%nat /\ prefix !! j = Some a /\ x ∈ map oracle_view (P j i a b)) ->
  agree (OracleMain.for_scanned scanned facts (OracleMain.segments sc) f)
    (for_each A prefix ++ for_pairs P prefix).
Proof.
  intros Hf HB HD x. rewrite elem_of_for_scanned, map_app, elem_of_app, !list_elem_of_fmap.
  cbn [OracleMain.segments scenario_of].
  change (map oracle_segment ss) with (oracle_segment <$> ss).
  setoid_rewrite elem_of_for_each. setoid_rewrite elem_of_for_pairs. split.
  - intros (i & seg & Hi & Hs & Hx). rewrite list_lookup_fmap in Hs.
    destruct (ss !! i) as [s|] eqn:Es; [|done]. apply (inj Some) in Hs as <-.
    assert (prefix !! i = Some s) as Hps by (by apply lookup_scanned).
    apply (Hf i _ s x Hps) in Hx as [Hx|Hx].
    + left. apply (HB i s _ Hps) in Hx. apply list_elem_of_fmap in Hx as (r & -> & Hr).
      exists r. split; [done|]. exists i, s. by rewrite (index_small i s Hps).
    + right. apply (HD i s x Hps) in Hx as (j & a & Hj & Ha & Hx).
      apply list_elem_of_fmap in Hx as (r & -> & Hr).
      exists r. split; [done|]. by exists j, i, a, s.
  - intros [(r & -> & i & s & Hps & Hr)|(r & -> & j & i & a & s & Hj & Ha & Hps & Hr)];
      pose proof (proj2 (lookup_scanned i s) Hps) as [Hi Es]; exists i, (oracle_segment s);
      (split; [done|]); (split; [by rewrite list_lookup_fmap, Es|]); apply (Hf i _ s _ Hps).
    + left. rewrite (index_small i s Hps) in Hr. apply (HB i s _ Hps). by apply elem_of_map_view.
    + right. apply (HD i s _ Hps). exists j, a. split_and!; [done..|]. by apply elem_of_map_view.
Qed.

Lemma elem_of_emit_if b phase code index detail x :
  x ∈ OracleMain.emit_if b phase code index detail <->
  b = true /\ x = OracleMain.mkReason phase code index detail.
Proof.
  destruct b; cbn; rewrite ?list_elem_of_singleton; [naive_solver|].
  split; [by intros ?%not_elem_of_nil|by intros [? _]].
Qed.

(** ** Phase by phase *)

Lemma content_agrees : check_list_content_lifecycle (sequence_question p l ss) = [].
Proof.
  unfold check_list_content_lifecycle. cbn. pose proof (js_empty _ _ _ Hscope) as He.
  destruct ss; [|done]. by rewrite He.
Qed.

Lemma kind_allowed k :
  OracleMain.at_kind (map (allows_kind p) all_kinds) (oracle_kind k) = allows_kind p k.
Proof. by destruct k. Qed.

Lemma oracle_kind_code k : OracleMain.kind_code (oracle_kind k) = kind_value k.
Proof. by destruct k. Qed.

Lemma unset_required k :
  (OracleMain.enc_code (OracleMain.required_encoding (oracle_kind k)) =? 0) =
    encoding_eqb (expected_encoding_for k) EInvalid.
Proof. by destruct k. Qed.

Definition profile_pair (j i : nat) (a b : Segment) : list Reason :=
  if negb (segment_semantic_equal a b w) then []
  else
    let consecutive := Nat.eqb (j + 1) i in
    report (consecutive && negb (pr_allow_consecutive_repeats p))
      ProfileRepeatNotPermitted (u32 (Z.of_nat i)) (seg_id b) ++
    report (negb consecutive && negb (pr_allow_nonconsecutive_repeats p))
      ProfileRepeatNotPermitted (u32 (Z.of_nat i)) (seg_id b).

Definition profile_segment (index : Z) (s : Segment) : list Reason :=
  report (negb (allows_kind p (seg_kind s))) ProfileKindNotAllowed index
    (kind_value (seg_kind s)) ++
  report (encoding_eqb (expected_encoding_for (seg_kind s)) EInvalid)
    ProfileKindMismatch index (kind_value (seg_kind s)) ++
  report (w <? size (seg_payload s)) ProfilePayloadWidthExceeded index w.

Lemma check_profile_reports :
  check_profile (sequence_question p l ss) =
    report (pr_max_depth p <? size ss) ProfileMaxDepthExceeded kNoIndex (pr_max_depth p) ++
    for_each profile_segment prefix ++
    if negb (pr_allow_consecutive_repeats p) || negb (pr_allow_nonconsecutive_repeats p)
    then for_pairs profile_pair prefix else [].
Proof.
  unfold check_profile. cbn [sequence_question sequence_request vr_profile vr_profile_found
    vr_profile_id vr_profile_generation vr_segments vr_strictness empty_request is_none negb].
  rewrite Z.eqb_refl. cbn [negb report app].
  rewrite (proj2 (valid_true _) (js_generation _ _ _ Hscope)). cbn [negb report app valid andb].
  change (strictness_eqb Strict Loose) with false. cbn [andb report app].
  assert (negb (pr_allow_empty p) && is_empty ss = false) as ->; [|done].
  pose proof (js_empty _ _ _ Hscope) as He. destruct ss; [by rewrite He|by rewrite andb_false_r].
Qed.

(** With every repeat permitted the pairs report nothing, so the guard is idle. *)
Lemma profile_pairs_guarded r :
  r ∈ (if negb (pr_allow_consecutive_repeats p) || negb (pr_allow_nonconsecutive_repeats p)
       then for_pairs profile_pair prefix else []) <->
  r ∈ for_pairs profile_pair prefix.
Proof.
  destruct (negb _ || negb _) eqn:E; [done|]. simpl_bools.
  split; [by intros ?%not_elem_of_nil|].
  rewrite elem_of_for_pairs. intros (j & i & a & b & _ & _ & _ & Hr). exfalso. revert Hr.
  unfold profile_pair. destruct (segment_semantic_equal a b w); cbn [negb];
    [|apply not_elem_of_nil]. rewrite H, H0. cbn [negb]. rewrite !andb_false_r.
  apply not_elem_of_nil.
Qed.

Lemma bool_byte_zero b : (bool_byte b =? 0) = negb b.
Proof. by destruct b. Qed.

Definition repeat_reports (i : Z) (fact : OracleMain.DuplicateFacts) : list OracleMain.Reason :=
  OracleMain.emit_if (OracleMain.consecutive fact && negb (pr_allow_consecutive_repeats p))
    OracleMain.kPhaseProfile OracleMain.kProfileRepeatNotPermitted i 0 ++
  OracleMain.emit_if (OracleMain.nonConsecutive fact && negb (pr_allow_nonconsecutive_repeats p))
    OracleMain.kPhaseProfile OracleMain.kProfileRepeatNotPermitted i 0.

Lemma elem_of_map_report b c i d x :
  x ∈ map oracle_view (report b c i d) <-> b = true /\ x = oracle_view (mkReason c i d).
Proof.
  destruct b; cbn [report map]; rewrite ?list_elem_of_singleton; [naive_solver|].
  split; [by intros ?%not_elem_of_nil|by intros [? _]].
Qed.

Lemma repeats_agree i b x :
  prefix !! i = Some b ->
  x ∈ repeat_reports (Z.of_nat i) (nth i facts OracleMain.no_duplicate) <->
  exists j a, (j < i)%nat /\ prefix !! j = Some a /\ x ∈ map oracle_view (profile_pair j i a b).
Proof.
  intros Hb. destruct (fact_spec i b Hb) as [Hc Hn]. unfold repeat_reports, profile_pair.
  rewrite elem_of_app, !elem_of_emit_if, !andb_true_iff, Hc, Hn, (index_small i b Hb). split.
  - intros [[[(j & a & Hj & Ha & Hs & He) Hp] ->]|[[(j & a & Hj & Ha & Hs & He) Hp] ->]];
      exists j, a; split_and!; try done; rewrite Hs, He; cbn [negb andb];
      rewrite Hp, map_app, elem_of_app, !elem_of_map_report; naive_solver.
  - intros (j & a & Hj & Ha & Hx). destruct (segment_semantic_equal a b w) eqn:Hs;
      cbn [negb] in Hx; [|by apply not_elem_of_nil in Hx].
    rewrite map_app, elem_of_app, !elem_of_map_report in Hx.
    destruct (Nat.eqb (j + 1) i) eqn:He; cbn [negb andb] in Hx;
      destruct Hx as [[Hp ->]|[Hp ->]]; try done; [left|right]; (split; [|done]);
      (split; [by exists j, a|done]).
Qed.

(** The reports of one segment under the profile, its repeats apart. *)
Definition own_reports (i : Z) (seg : OracleMain.Segment) : list OracleMain.Reason :=
  OracleMain.emit_if (negb (OracleMain.at_kind (OracleMain.kindAllowed sc)
    (OracleMain.kind seg))) OracleMain.kPhaseProfile OracleMain.kProfileKindNotAllowed i
    (OracleMain.kind_code (OracleMain.kind seg)) ++
  OracleMain.emit_if (OracleMain.enc_code (OracleMain.required_encoding
    (OracleMain.kind seg)) =? 0) OracleMain.kPhaseProfile OracleMain.kProfileKindMismatch i 0 ++
  OracleMain.emit_if (w <? size (OracleMain.payload seg)) OracleMain.kPhaseProfile
    OracleMain.kProfilePayloadWidthExceeded i w.

Lemma own_reports_agree i s : agree (own_reports i (oracle_segment s)) (profile_segment i s).
Proof.
  unfold own_reports, profile_segment. cbn [oracle_segment OracleMain.kind OracleMain.payload
    scenario_of OracleMain.kindAllowed].
  rewrite kind_allowed, oracle_kind_code, unset_required.
  repeat apply agree_app; try (apply agree_emit; [done|]; vm_compute; reflexivity).
  destruct (encoding_eqb (expected_encoding_for (seg_kind s)) EInvalid) eqn:E; [|done].
  assert (seg_kind s = KInvalid) as -> by (by destruct (seg_kind s)).
  by apply agree_emit.
Qed.

Lemma profile_agrees :
  agree (OracleMain.check_phase5 sc facts) (check_profile (sequence_question p l ss)).
Proof.
  rewrite check_profile_reports. unfold OracleMain.check_phase5.
  cbn [scenario_of OracleMain.width OracleMain.depth OracleMain.empty].
  destruct (Z.eqb_spec w 0) as [E|_]; [pose proof (js_width _ _ _ Hscope); lia|].
  cbn [OracleMain.segments scenario_of].
  assert (size (map oracle_segment ss) = size ss) as ->
    by (unfold size; by rewrite length_map).
  apply agree_app; [by apply agree_emit|].
  assert (OracleMain.is_nil (map oracle_segment ss) && (bool_byte (pr_allow_empty p) =? 0)
          = false) as ->.
  { rewrite bool_byte_zero. pose proof (js_empty _ _ _ Hscope) as He.
    destruct ss; [by rewrite He|done]. }
  cbn [OracleMain.emit_if app]. intros x.
  rewrite map_app, elem_of_app.
  assert (x ∈ map oracle_view (if negb (pr_allow_consecutive_repeats p)
            || negb (pr_allow_nonconsecutive_repeats p) then for_pairs profile_pair prefix
            else []) <-> x ∈ map oracle_view (for_pairs profile_pair prefix)) as ->.
  { rewrite !list_elem_of_fmap. by setoid_rewrite profile_pairs_guarded. }
  rewrite <-elem_of_app, <-map_app.
  apply (agree_scan _ (fun i _ => own_reports i) (fun i fact _ => repeat_reports i fact)).
  - intros i fact s y _. unfold OracleMain.check_profile_segment, own_reports, repeat_reports.
    cbn [scenario_of OracleMain.consec OracleMain.nonconsec OracleMain.width].
    rewrite !bool_byte_zero, !elem_of_app. tauto.
  - intros i s _ _. apply own_reports_agree.
  - intros i b y. apply repeats_agree.
Qed.

Definition structural_pair (j i : nat) (a b : Segment) : list Reason :=
  if negb (segment_semantic_equal a b w) then []
  else if Nat.eqb (j + 1) i then
    report (negb (pr_allow_consecutive_repeats p)) SegmentDuplicateConsecutive
      (u32 (Z.of_nat i)) (seg_id b)
  else
    report (negb (pr_allow_nonconsecutive_repeats p)) SegmentDuplicateNonConsecutive
      (u32 (Z.of_nat i)) (seg_id b).

Definition duplicate_reports (i : Z) (fact : OracleMain.DuplicateFacts)
    (seg : OracleMain.Segment) : list OracleMain.Reason :=
  OracleMain.emit_if (OracleMain.consecutive fact) OracleMain.kPhaseStructural
    OracleMain.kSegmentDuplicateConsecutive i (OracleMain.id seg) ++
  OracleMain.emit_if (OracleMain.nonConsecutive fact) OracleMain.kPhaseStructural
    OracleMain.kSegmentDuplicateNonConsecutive i (OracleMain.id seg).

Lemma duplicates_agree i b x :
  prefix !! i = Some b ->
  x ∈ duplicate_reports (Z.of_nat i) (nth i facts OracleMain.no_duplicate) (oracle_segment b) <->
  exists j a, (j < i)%nat /\ prefix !! j = Some a /\
    x ∈ map oracle_view (structural_pair j i a b).
Proof.
  intros Hb. destruct (fact_spec i b Hb) as [Hc Hn]. unfold duplicate_reports, structural_pair.
  rewrite elem_of_app, !elem_of_emit_if, Hc, Hn, (index_small i b Hb). split.
  - intros [[(j & a & Hj & Ha & Hs & He) ->]|[(j & a & Hj & Ha & Hs & He) ->]];
      exists j, a; split_and!; try done; rewrite Hs, He; cbn [negb];
      pose proof (js_repeats _ _ _ Hscope j i a b Hj Ha Hb Hs) as Hr; rewrite He in Hr;
      rewrite Hr; rewrite elem_of_map_report; by split.
  - intros (j & a & Hj & Ha & Hx). destruct (segment_semantic_equal a b w) eqn:Hs;
      cbn [negb] in Hx; [|by apply not_elem_of_nil in Hx].
    destruct (Nat.eqb (j + 1) i) eqn:He;
      apply elem_of_map_report in Hx as [Hp ->]; [left|right]; (split; [|done]); by exists j, a.
Qed.

(** What the oracle reports of the shape of one segment. *)
Definition shape_reports (i : Z) (seg : OracleMain.Segment) : list OracleMain.Reason :=
  match OracleMain.kind seg with
  | OracleMain.Invalid =>
      [OracleMain.mkReason OracleMain.kPhaseStructural OracleMain.kSegmentKindInvalid i 0]
  | _ =>
      let can := OracleMain.canonicalize_one w seg in
      OracleMain.emit_if (OracleMain.id seg =? 0) OracleMain.kPhaseStructural
        OracleMain.kSegmentIdInvalid i 0 ++
      OracleMain.emit_if (OracleMain.gen seg =? 0) OracleMain.kPhaseStructural
        OracleMain.kSegmentGenerationInvalid i 0 ++
      OracleMain.emit_if (negb (OracleMain.c_enc can =?
        OracleMain.enc_code (OracleMain.required_encoding (OracleMain.kind seg))))
        OracleMain.kPhaseStructural OracleMain.kSegmentEncodingMismatch i
        (OracleMain.c_enc can) ++
      (if OracleMain.allZero seg
       then [OracleMain.mkReason OracleMain.kPhaseStructural
               OracleMain.kSegmentMissingBinding i 0]
       else OracleMain.emit_if (OracleMain.requiredMissing seg) OracleMain.kPhaseStructural
              OracleMain.kSegmentBindingIncomplete i 0) ++
      OracleMain.emit_if (OracleMain.reservedSet seg) OracleMain.kPhaseStructural
        OracleMain.kSegmentReservedFieldSet i 0
  end.

(** Decide an equation between tests of the references of a segment, kind by kind. *)
Ltac by_references s :=
  let k := fresh "k" in
  destruct s as [k ? ? ? n a ep b po pg t ?];
  cbn [oracle_segment OracleMain.kind OracleMain.node OracleMain.adj OracleMain.endp
    OracleMain.bind OracleMain.pol OracleMain.polgen OracleMain.topo seg_kind seg_node
    seg_adjacency seg_endpoint seg_binding seg_policy seg_policy_generation seg_topology];
  unfold valid;
  generalize (n =? 0), (a =? 0), (ep =? 0), (b =? 0), (po =? 0), (pg =? 0), (t =? 0);
  intros; destruct k; cbv -[andb orb negb] in *; try done; btauto.

Lemma requiredMissing_spec s :
  OracleMain.requiredMissing (oracle_segment s) = negb (binding_complete s).
Proof. unfold OracleMain.requiredMissing, binding_complete. by_references s. Qed.

Lemma reservedSet_spec s :
  kind_eqb (seg_kind s) KInvalid = false ->
  OracleMain.reservedSet (oracle_segment s) = reserved_field_set s.
Proof. unfold OracleMain.reservedSet, reserved_field_set. by_references s. Qed.

Lemma allZero_missing s :
  kind_eqb (seg_kind s) KInvalid = false ->
  OracleMain.allZero (oracle_segment s) = true -> missing_binding s = true.
Proof.
  unfold OracleMain.allZero, missing_binding, valid. intros -> H.
  cbn [oracle_segment OracleMain.node OracleMain.adj OracleMain.endp OracleMain.bind
    OracleMain.pol OracleMain.polgen OracleMain.topo] in H.
  simpl_bools. rewrite !negb_involutive, !andb_true_iff, !Z.eqb_eq. tauto.
Qed.

Lemma encoding_mismatch s :
  kind_eqb (seg_kind s) KInvalid = false ->
  negb (OracleMain.c_enc (OracleMain.canonicalize_one w (oracle_segment s)) =?
        OracleMain.enc_code (OracleMain.required_encoding (oracle_kind (seg_kind s)))) =
    negb (encoding_eqb (seg_encoding s) EInvalid) &&
    negb (encoding_eqb (seg_encoding s) (expected_encoding_for (seg_kind s))).
Proof. destruct s as [k e]. by destruct k, e. Qed.

Lemma mismatched_encoding s :
  encoding_eqb (seg_encoding s) EInvalid = false ->
  OracleMain.c_enc (OracleMain.canonicalize_one w (oracle_segment s)) =
    encoding_value (seg_encoding s).
Proof. destruct s as [k e]. by destruct e. Qed.

Lemma valid_kind_reports i s :
  kind_eqb (seg_kind s) KInvalid = false ->
  shape_reports i (oracle_segment s) =
    OracleMain.emit_if (seg_id s =? 0) OracleMain.kPhaseStructural
      OracleMain.kSegmentIdInvalid i 0 ++
    OracleMain.emit_if (seg_generation s =? 0) OracleMain.kPhaseStructural
      OracleMain.kSegmentGenerationInvalid i 0 ++
    OracleMain.emit_if (negb (OracleMain.c_enc (OracleMain.canonicalize_one w
        (oracle_segment s)) =? OracleMain.enc_code (OracleMain.required_encoding
        (oracle_kind (seg_kind s))))) OracleMain.kPhaseStructural
      OracleMain.kSegmentEncodingMismatch i
      (OracleMain.c_enc (OracleMain.canonicalize_one w (oracle_segment s))) ++
    (if OracleMain.allZero (oracle_segment s)
     then [OracleMain.mkReason OracleMain.kPhaseStructural
             OracleMain.kSegmentMissingBinding i 0]
     else OracleMain.emit_if (OracleMain.requiredMissing (oracle_segment s))
            OracleMain.kPhaseStructural OracleMain.kSegmentBindingIncomplete i 0) ++
    OracleMain.emit_if (OracleMain.reservedSet (oracle_segment s))
      OracleMain.kPhaseStructural OracleMain.kSegmentReservedFieldSet i 0.
Proof. destruct s as [k e]. by destruct k. Qed.

Lemma shape_agrees i s :
  missing_binding s = false ->
  agree (shape_reports i (oracle_segment s)) (check_segment None i s).
Proof.
  intros Hm. unfold check_segment. destruct (kind_eqb (seg_kind s) KInvalid) eqn:Hk.
  { apply kind_eqb_eq in Hk. unfold shape_reports. cbn [oracle_segment OracleMain.kind].
    rewrite Hk. by apply (agree_emit true true). }
  rewrite valid_kind_reports, encoding_mismatch, reservedSet_spec, requiredMissing_spec by done.
  destruct (OracleMain.allZero (oracle_segment s)) eqn:Hz.
  { apply allZero_missing in Hz; [congruence|done]. }
  rewrite Hm. cbn [report app]. rewrite app_nil_r.
  repeat apply agree_app; try (apply agree_emit; [unfold valid; by rewrite ?negb_involutive
    | vm_compute; reflexivity]).
  destruct (encoding_eqb (seg_encoding s) EInvalid) eqn:He; [done|].
  apply agree_emit; [done|]. by rewrite mismatched_encoding.
Qed.

Lemma structural_agrees :
  agree (OracleMain.for_scanned scanned facts (OracleMain.segments sc)
           (OracleMain.check_structure (OracleMain.canonicalize sc)))
    (check_structural (sequence_question p l ss) w).
Proof.
  apply (agree_scan _ (fun i _ => shape_reports i) duplicate_reports _ structural_pair).
  - intros i fact s y Hs. unfold OracleMain.check_structure, shape_reports, duplicate_reports.
    assert (OracleMain.canon_enc (OracleMain.canonicalize sc) (Z.of_nat i) =
      OracleMain.c_enc (OracleMain.canonicalize_one w (oracle_segment s))) as ->.
    { apply lookup_scanned in Hs as [_ Hs]. unfold OracleMain.canon_enc.
      by rewrite Nat2Z.id, lookup_canon, Hs. }
    by rewrite elem_of_app.
  - intros i s _ Hs. apply shape_agrees.
    by apply (list.Forall_lookup_1 _ _ _ _ (js_bound _ _ _ Hscope) Hs).
  - intros i b y. apply duplicates_agree.
Qed.

Lemma size_segments : size (OracleMain.segments sc) = size ss.
Proof. cbn. unfold size. by rewrite length_map. Qed.

Lemma capability_agrees :
  agree (OracleMain.emit_if (0 <? OracleMain.reqcaps sc) OracleMain.kPhaseCapability
           OracleMain.kCapabilityEvidenceUnavailable 0 0)
    (check_capability (sequence_question p l ss)).
Proof.
  unfold check_capability. cbn [sequence_question sequence_request vr_profile vr_evidence].
  apply agree_emit; [|vm_compute; reflexivity]. cbn [scenario_of OracleMain.reqcaps].
  destruct (pr_required_capabilities p) as [|c cs]; [done|].
  cbn [is_empty negb]. rewrite size_cons. pose proof (size_nonneg cs). apply Z.ltb_lt. lia.
Qed.

Lemma scanned_segments :
  take (Z.to_nat scanned) (OracleMain.segments sc) = map oracle_segment prefix.
Proof.
  rewrite scanned_eq. unfold scanned_prefix. cbn [scenario_of OracleMain.segments].
  rewrite <-firstn_map. destruct (js_maxseg _ _ _ Hscope) as [Hl _].
  replace (Z.to_nat (Z.min (size ss) (max_segments_per_list l + 1))) with
    (Nat.min (Z.to_nat (max_segments_per_list l + 1)) (length (map oracle_segment ss))).
  - by rewrite <-firstn_firstn, firstn_all.
  - rewrite length_map. unfold size. lia.
Qed.

Lemma existsb_adjacency k :
  existsb OracleMain.is_adjacency (map oracle_segment k) =
    existsb (fun s => kind_eqb (seg_kind s) KAdjacency) k.
Proof.
  induction k as [|s k IH]; cbn [map existsb]; [done|]. rewrite IH. f_equal.
  destruct s as [kd]. by destruct kd.
Qed.

Lemma topology_agrees :
  agree (OracleMain.emit_if
           (existsb OracleMain.is_adjacency (take (Z.to_nat scanned) (OracleMain.segments sc)))
           OracleMain.kPhaseTopology OracleMain.kTopologyEvidenceUnavailable 0 0)
    (check_topology (sequence_question p l ss)).
Proof.
  unfold check_topology. cbn [sequence_question sequence_request vr_evidence vr_segments].
  apply agree_emit; [|vm_compute; reflexivity].
  by rewrite scanned_segments, existsb_adjacency, (js_adjacency _ _ _ Hscope).
Qed.

Lemma limits_agree :
  agree (OracleMain.check_limits sc) (check_resource_limits (sequence_question p l ss)).
Proof.
  unfold OracleMain.check_limits, check_resource_limits. rewrite size_segments.
  cbn [sequence_question sequence_request vr_limits vr_segments].
  apply agree_app; [by apply agree_emit|]. intros x.
  rewrite elem_of_for_scanned, list_elem_of_fmap. setoid_rewrite elem_of_for_each.
  cbn [OracleMain.segments OracleMain.maxpayload scenario_of].
  change (map oracle_segment ss) with (oracle_segment <$> ss).
  assert (forall i s, ss !! i = Some s -> Z.of_nat i < size ss /\
            u32 (Z.of_nat i) = Z.of_nat i) as Hi.
  { intros i s Hs%lookup_lt_Some. destruct (js_size _ _ _ Hscope) as [_ Hu].
    unfold size in *. split; [lia|]. apply wrap_small. split; lia. }
  split.
  - intros (i & seg & _ & Hs & Hx). rewrite list_lookup_fmap in Hs.
    destruct (ss !! i) as [s|] eqn:Es; [|done]. apply (inj Some) in Hs as <-.
    apply elem_of_emit_if in Hx as [Hx ->].
    exists (mkReason LimitMaxSegmentPayloadBytes (Z.of_nat i) (max_segment_payload_bytes l)).
    split; [done|]. exists i, s. split; [done|]. cbn [oracle_segment OracleMain.payload] in Hx.
    rewrite (proj2 (Hi i s Es)), Hx. by left.
  - intros (r & -> & i & s & Es & Hr). destruct (Hi i s Es) as [Hlt Hu].
    exists i, (oracle_segment s). rewrite list_lookup_fmap, Es. split_and!; [done..|].
    apply elem_of_map_view in Hr. apply elem_of_map_report in Hr as [Hb ->].
    apply elem_of_emit_if. by rewrite Hu.
Qed.

(** Everything the oracle pushes is everything the library reports. *)
Lemma emitted_agrees :
  agree (OracleMain.emitted sc (OracleMain.canonicalize sc)) (sequence_reports p l ss).
Proof.
  unfold OracleMain.emitted, sequence_reports. cbv zeta. cbn [concat].
  rewrite content_agrees, app_nil_l, app_nil_r.
  apply agree_app; [apply profile_agrees|].
  apply agree_app; [apply structural_agrees|].
  apply agree_app; [apply capability_agrees|].
  apply agree_app; [apply topology_agrees|apply limits_agree].
Qed.

End Scope.
