(* ===== verification/OracleVerdict.v ===== *)
(** * The oracle against the library: the order of the reasons

    Both sort what they collected and drop duplicates; the oracle compares phases, codes,
    indices and details at the end, the library keeps its result sorted all along.  Within
    the joint scope the two lists are the same. *)

From S2P Require Import Prelude.
From S2P Require Import Ids.
From S2P Require Import Bytes.
From S2P Require Import Digest.
From S2P Require Import Segment.
From S2P Require Import Reason.
From S2P Require Import Governance.
From S2P Require Import Validation.
From S2P Require Import ValidationProps.
From S2P Require Import Oracle.
From S2P Require Import OracleProps.
From S2P Require Import OracleChecks.

(** ** The result below its cap *)

Lemma NoDup_size_le {A} (k k' : list A) :
  NoDup k -> (forall x, x ∈ k -> x ∈ k') -> size k <= size k'.
Proof.
  intros Hn Hsub. unfold size. apply inj_le, submseteq_length, NoDup_submseteq; done.
Qed.

(** As long as fewer distinct reasons are added than the cap, the result is exactly the
    sorted set of what was added. *)
Lemma emit_distinct rs : forall o,
  no_ok rs -> reasons_ordered (reasons o) ->
  size (sort_and_dedup (reasons o ++ rs)) < reason_cap o ->
  emit rs o = {| o with reasons := sort_and_dedup (reasons o ++ rs) |}.
Proof.
  induction rs as [|r rs IH]; intros o Hn Ho Hs.
  - rewrite app_nil_r, sort_and_dedup_id by done. by destruct o.
  - apply list.Forall_cons in Hn as [Hr Hn]. rewrite emit_cons. unfold add_reason.
    rewrite add_below_cap; [|done|].
    2: { eapply Z.le_lt_trans; [|exact Hs]. apply NoDup_size_le; [apply Ho|].
         intros x Hx. rewrite elem_of_sort_and_dedup. apply elem_of_app. by left. }
    assert (sort_and_dedup (sort_and_dedup (reasons o ++ [mkReason (r_code r) (r_index r)
              (r_detail r)]) ++ rs) = sort_and_dedup (reasons o ++ r :: rs)) as E.
    { apply sort_and_dedup_ext. intros x. destruct r.
      rewrite !elem_of_app, elem_of_sort_and_dedup, elem_of_app, list_elem_of_singleton,
        elem_of_cons. cbn. tauto. }
    rewrite IH; cbn [reasons].
    + by rewrite E.
    + done.
    + apply sort_and_dedup_ordered.
    + rewrite E. exact Hs.
Qed.

(** ** The order of the oracle *)

Definition oracle_rank (a : OracleMain.Reason) : Z * Z * Z * Z :=
  (OracleMain.r_phase a, OracleMain.r_code a, OracleMain.r_index a, OracleMain.r_detail a).

Lemma oracle_not_after_spec a b :
  OracleMain.not_after a b <->
  let '(p, c, i, d) := oracle_rank a in
  let '(p', c', i', d') := oracle_rank b in
  p < p' \/ (p = p' /\ (c < c' \/ (c = c' /\ (i < i' \/ (i = i' /\ d <= d'))))).
Proof.
  unfold OracleMain.not_after, OracleMain.reason_before, oracle_rank.
  repeat match goal with |- context [?x =? ?y] => destruct (Z.eqb_spec x y) end;
    cbn [negb]; rewrite Z.ltb_ge; lia.
Qed.

(** Properties of the order by comparing ranks. *)
Ltac by_rank :=
  rewrite ?oracle_not_after_spec; unfold oracle_rank; lia.

#[global] Instance oracle_not_after_total : Total OracleMain.not_after.
Proof. intros a b. by_rank. Qed.

#[global] Instance oracle_not_after_trans : Transitive OracleMain.not_after.
Proof. intros a b c. by_rank. Qed.

#[global] Instance oracle_not_after_antisymm : AntiSymm (=) OracleMain.not_after.
Proof.
  intros [p c i d] [p' c' i' d']. rewrite !oracle_not_after_spec. cbn. intros. f_equal; lia.
Qed.

(** [std::unique] under a predicate that is equality on the list. *)
Lemma unique_from_adjacent {A} `{EqDecision A} (same : A -> A -> bool) x k :
  (forall y z, y ∈ x :: k -> z ∈ x :: k -> same y z = true <-> y = z) ->
  OracleMain.unique_from same x k = unique_adjacent (x :: k).
Proof.
  revert x. induction k as [|y k IH]; intros x H; [done|].
  change (unique_adjacent (x :: y :: k)) with
    (if bool_decide (x = y) then unique_adjacent (y :: k)
     else x :: unique_adjacent (y :: k)).
  cbn [OracleMain.unique_from].
  destruct (same x y) eqn:E.
  - apply H in E; [|by left|by right; left]. subst y. rewrite bool_decide_eq_true_2 by done.
    apply IH. intros u v Hu Hv. apply H; by right.
  - rewrite bool_decide_eq_false_2.
    + f_equal. apply IH. intros u v Hu Hv. apply H; by right.
    + intros ->. by rewrite (proj2 (H y y ltac:(by left) ltac:(by left)) eq_refl) in E.
Qed.

Lemma unique_by_adjacent {A} `{EqDecision A} (same : A -> A -> bool) k :
  (forall y z, y ∈ k -> z ∈ k -> same y z = true <-> y = z) ->
  OracleMain.unique_by same k = unique_adjacent k.
Proof. destruct k; [done|]. apply unique_from_adjacent. Qed.

(** ** The view of a reason *)

(** The shifted ranges end before the next phase begins. *)
Lemma code_value_gaps c : code_value c <> 289 /\ code_value c <> 349.
Proof. by destruct c. Qed.

Lemma oracle_code_mono c c' :
  code_value c < code_value c' -> oracle_code c < oracle_code c'.
Proof.
  unfold oracle_code. intros. pose proof (code_value_gaps c).
  repeat match goal with |- context [?x <=? ?y] => destruct (Z.leb_spec x y) end;
    repeat match goal with |- context [?x <? ?y] => destruct (Z.ltb_spec x y) end;
    cbn [andb orb]; lia.
Qed.

Lemma oracle_code_inj c c' : oracle_code c = oracle_code c' -> c = c'.
Proof.
  intros H. apply code_value_inj.
  destruct (Z.lt_trichotomy (code_value c) (code_value c')) as [Hl|[He|Hl]]; [|done|];
    apply oracle_code_mono in Hl; lia.
Qed.

Lemma oracle_view_mono a b :
  not_after a b -> OracleMain.not_after (oracle_view a) (oracle_view b).
Proof.
  rewrite not_after_spec, oracle_not_after_spec.
  unfold reason_rank, oracle_rank, oracle_view.
  cbn [OracleMain.r_phase OracleMain.r_code OracleMain.r_index OracleMain.r_detail].
  intros [H|[H [Hc|[Hc Hr]]]]; [by left|right; split; [done|left]; by apply oracle_code_mono|].
  apply code_value_inj in Hc. rewrite Hc.
  destruct (code_eqb (r_code b) ProfileRepeatNotPermitted); lia.
Qed.

Lemma oracle_view_same a b :
  OracleMain.reason_same (oracle_view a) (oracle_view b) = true <->
  oracle_view a = oracle_view b.
Proof.
  unfold OracleMain.reason_same. rewrite !andb_true_iff, !Z.eqb_eq. split.
  - intros [[Hc Hi] Hd]. unfold oracle_view in *.
    cbn [OracleMain.r_code OracleMain.r_index OracleMain.r_detail] in *.
    apply oracle_code_inj in Hc. rewrite Hc in *. by rewrite Hi, Hd.
  - by intros ->.
Qed.

(** ** The verdict *)
Section Verdict.
Context (p : SegmentProfile) (l : Limits) (ss : list Segment).
Context (Hscope : joint_scope p l ss).

#[local] Abbreviation sc := (scenario_of p l ss).
#[local] Abbreviation prefix := (scanned_prefix l ss).

Lemma not_in_phase q k r :
  phase_of (r_code r) <> q -> in_phase q k -> r ∉ k.
Proof. intros Hr Hk Hin. by apply Hr, (proj1 (list.Forall_forall _ _) Hk). Qed.

(** The phases of the checks of a sequence. *)
Lemma sequence_reports_phases :
  in_phase PhListLifecycleGeneration (check_list_content_lifecycle (sequence_question p l ss)) /\
  in_phase PhStructuralSegment (check_structural (sequence_question p l ss)
    (request_width (sequence_question p l ss))) /\
  in_phase PhCapabilityEvidence (check_capability (sequence_question p l ss)) /\
  in_phase PhTopologyEvidence (check_topology (sequence_question p l ss)) /\
  in_phase PhResourceLimits (check_resource_limits (sequence_question p l ss)).
Proof.
  pose proof (phased_checks_phase (sequence_question p l ss)) as H.
  unfold phased_checks in H. change (vr_full (sequence_question p l ss)) with true in H.
  cbn [app] in H. rewrite !list.Forall_cons in H. cbn [fst snd] in H. tauto.
Qed.

Lemma elem_of_profile_pair j i a b r :
  prefix !! i = Some b -> r ∈ profile_pair p j i a b ->
  r = mkReason ProfileRepeatNotPermitted (Z.of_nat i) (seg_id b).
Proof.
  intros Hb. unfold profile_pair. rewrite (index_small p l ss Hscope i b Hb).
  destruct (negb _); [by intros ?%not_elem_of_nil|]. rewrite elem_of_app.
  destruct (_ && _), (_ && _); cbn [report]; rewrite ?list_elem_of_singleton;
    intros [H|H]; try done; by apply not_elem_of_nil in H.
Qed.

Lemma elem_of_report b c i d r : r ∈ report b c i d -> r_code r = c.
Proof.
  destruct b; cbn [report]; [|by intros ?%not_elem_of_nil].
  by intros ->%list_elem_of_singleton.
Qed.

(** A repeat is reported once for each segment that repeats, whatever it repeats. *)
Lemma repeat_report r :
  r ∈ sequence_reports p l ss -> r_code r = ProfileRepeatNotPermitted ->
  exists i s, prefix !! i = Some s /\
    r = mkReason ProfileRepeatNotPermitted (Z.of_nat i) (seg_id s).
Proof.
  intros Hr Hc. unfold sequence_reports in Hr. cbv zeta in Hr. cbn [concat] in Hr.
  destruct sequence_reports_phases as (H1 & H2 & H3 & H4 & H5).
  assert (phase_of (r_code r) = PhProfile) as Hph by (by rewrite Hc).
  rewrite !elem_of_app in Hr.
  destruct Hr as [Hr|[Hr|[Hr|[Hr|[Hr|[Hr|Hr]]]]]];
    try (exfalso; revert Hr; eapply not_in_phase; [|eassumption]; by rewrite Hph);
    [|by apply not_elem_of_nil in Hr].
  rewrite (check_profile_reports p l ss Hscope), !elem_of_app in Hr.
  destruct Hr as [Hr|[Hr|Hr]].
  - apply elem_of_report in Hr. congruence.
  - apply elem_of_for_each in Hr as (i & s & _ & Hr). unfold profile_segment in Hr.
    rewrite !elem_of_app in Hr.
    destruct Hr as [Hr|[Hr|Hr]]; apply elem_of_report in Hr; congruence.
  - apply profile_pairs_guarded in Hr.
    apply elem_of_for_pairs in Hr as (j & i & a & b & _ & _ & Hb & Hr).
    exists i, b. split; [done|]. by eapply elem_of_profile_pair.
Qed.

Lemma oracle_view_inj a b :
  a ∈ sequence_reports p l ss -> b ∈ sequence_reports p l ss ->
  oracle_view a = oracle_view b -> a = b.
Proof.
  intros Ha Hb H. pose proof (f_equal OracleMain.r_code H) as Hc. cbn in Hc.
  apply oracle_code_inj in Hc. pose proof (f_equal OracleMain.r_index H) as Hi. cbn in Hi.
  pose proof (f_equal OracleMain.r_detail H) as Hd. cbn in Hd. rewrite Hc in Hd.
  destruct (code_eqb (r_code b) ProfileRepeatNotPermitted) eqn:E.
  - apply code_eqb_eq in E. rewrite E in Hc.
    destruct (repeat_report a Ha Hc) as (i & s & Hs & ->).
    destruct (repeat_report b Hb E) as (i' & s' & Hs' & ->).
    cbn in Hi. apply Nat2Z.inj in Hi as <-. by simplify_eq.
  - destruct a, b. cbn in *. congruence.
Qed.

Lemma sequence_reports_no_ok : no_ok (sequence_reports p l ss).
Proof.
  pose proof (phased_checks_no_ok (sequence_question p l ss)) as H. unfold phased_checks in H.
  change (vr_full (sequence_question p l ss)) with true in H. unfold no_ok, sequence_reports in *.
  cbv zeta. cbn [map snd concat app] in *. rewrite !Forall_app in *. tauto.
Qed.

(** The library keeps every distinct reason. *)
Lemma library_reasons :
  reasons (validate_segment_sequence (Some l) (Some p) ss None 0) =
    sort_and_dedup (sequence_reports p l ss).
Proof.
  unfold validate_segment_sequence. cbv zeta. rewrite run_checks_emit.
  fold (sequence_question p l ss). fold (sequence_reports p l ss).
  rewrite emit_distinct.
  - done.
  - apply sequence_reports_no_ok.
  - by split; constructor.
  - apply (js_reasons _ _ _ Hscope).
Qed.

Lemma StronglySorted_map {A B} (R : relation A) (S : relation B) (f : A -> B) k :
  (forall a b, R a b -> S (f a) (f b)) -> StronglySorted R k -> StronglySorted S (map f k).
Proof.
  intros Hf. induction 1 as [|a k Hk IH Ha]; [constructor|]. cbn. constructor; [done|].
  apply list.Forall_fmap. eapply list.Forall_impl; [exact Ha|]. intros b. apply Hf.
Qed.

(** The reasons of the oracle are those of the library, in the same order. *)
Theorem check_agrees :
  OracleMain.check sc (OracleMain.canonicalize sc) =
    map oracle_view (reasons (validate_segment_sequence (Some l) (Some p) ss None 0)).
Proof.
  rewrite library_reasons. unfold OracleMain.check.
  set (em := OracleMain.emitted sc (OracleMain.canonicalize sc)).
  assert (forall x, x ∈ merge_sort OracleMain.not_after em <-> x ∈ em) as Hms.
  { intros x. by rewrite (merge_sort_Permutation OracleMain.not_after em). }
  assert (forall x, x ∈ em <-> x ∈ map oracle_view (sequence_reports p l ss)) as Hem
    by apply (emitted_agrees p l ss Hscope).
  rewrite unique_by_adjacent.
  2: { intros y z Hy Hz. apply Hms, Hem, list_elem_of_fmap in Hy as (a & -> & _).
       apply Hms, Hem, list_elem_of_fmap in Hz as (b & -> & _). apply oracle_view_same. }
  destruct (unique_adjacent_sorted OracleMain.not_after
    (merge_sort OracleMain.not_after em)) as [Hs Hn].
  { apply StronglySorted_merge_sort; apply _. }
  destruct (sort_and_dedup_ordered (sequence_reports p l ss)) as [Hs' Hn'].
  apply (sorted_nodup_unique OracleMain.not_after); [done| |done| |].
  - eapply StronglySorted_map; [apply oracle_view_mono|done].
  - apply NoDup_fmap_2_strong; [|done]. intros a b Ha Hb.
    apply oracle_view_inj; by apply elem_of_sort_and_dedup.
  - intros x. rewrite elem_of_unique_adjacent, Hms, Hem, !list_elem_of_fmap.
    by setoid_rewrite elem_of_sort_and_dedup.
Qed.
End Verdict.
