(* ===== verification/OracleText.v ===== *)
(** * The oracle: reading scenarios

    Numerals are read exactly, overflow included; and a scenario written out in the grammar
    of docs/ORACLE_SPEC.md, as [render_scenario] of tests/oracle/test_oracle.cpp writes it,
    is read back as it was. *)

From S2P Require Import Prelude.
From S2P Require Import Ids.
From S2P Require Import Segment.
From S2P Require Import Governance.
From S2P Require Import Oracle.

(** ** Numerals *)
Definition is_digit (c : Byte.byte) : Prop := 48 <= byte.unsigned c <= 57.

#[global] Instance is_digit_dec c : Decision (is_digit c).
Proof. unfold is_digit. apply _. Defined.

(** The number a run of digits denotes, after the digits of [acc]. *)
Definition numeral (acc : Z) (digits : list Byte.byte) : Z :=
  fold_left (fun a c => a * 10 + (byte.unsigned c - 48)) digits acc.

Lemma numeral_cons acc c digits :
  numeral acc (c :: digits) = numeral (acc * 10 + (byte.unsigned c - 48)) digits.
Proof. done. Qed.

Lemma numeral_app acc ds ds' : numeral acc (ds ++ ds') = numeral (numeral acc ds) ds'.
Proof. unfold numeral. apply fold_left_app. Qed.

Lemma numeral_ge acc digits : 0 <= acc -> Forall is_digit digits -> acc <= numeral acc digits.
Proof.
  intros Ha H. revert acc Ha. induction H as [|c digits Hc H IH]; intros acc Ha; [done|].
  rewrite numeral_cons. unfold is_digit in Hc.
  etransitivity; [|apply IH]; lia.
Qed.

(** The overflow test of the loop is exact. *)
Lemma overflow_test acc d :
  (OracleMain.u64_max - d) / 10 < acc <-> OracleMain.u64_max < acc * 10 + d.
Proof. split; intros; [|]; Z.div_mod_to_equations; lia. Qed.

Lemma toU64_loop_spec why digits : forall acc v, fits 64 acc ->
  OracleMain.toU64_loop acc digits why = inr v <->
  Forall is_digit digits /\ v = numeral acc digits /\ v <= OracleMain.u64_max.
Proof.
  induction digits as [|c digits IH]; intros acc v Ha; cbn [OracleMain.toU64_loop].
  - unfold fits, OracleMain.u64_max in *. split.
    + intros [= <-]. split_and!; [constructor|done|lia].
    + by intros (_ & -> & _).
  - destruct ((byte.unsigned c <? 48) || (57 <? byte.unsigned c)) eqn:Hc.
    { split; [done|]. intros (Hd & _). apply list.Forall_cons in Hd as [[Hl Hu] _].
      apply orb_true_iff in Hc as [Hc|Hc]; simpl_bools; lia. }
    simpl_bools. assert (is_digit c) as Hd by (unfold is_digit; lia).
    set (d := byte.unsigned c - 48). assert (0 <= d <= 9) as Hd' by (subst d; lia).
    destruct (Z.ltb_spec ((OracleMain.u64_max - d) / 10) acc) as [Ho|Ho].
    + apply overflow_test in Ho. split; [done|]. intros (Hf & -> & Hv).
      apply list.Forall_cons in Hf as [_ Hf]. rewrite numeral_cons in Hv. fold d in Hv.
      unfold fits in Ha. pose proof (numeral_ge (acc * 10 + d) digits ltac:(lia) Hf). lia.
    + assert (acc * 10 + d <= OracleMain.u64_max) as Hb.
      { apply Z.nlt_ge. by rewrite <-overflow_test, Z.nlt_ge. }
      assert (u64 (u64 (acc * 10) + d) = acc * 10 + d) as ->.
      { unfold fits, OracleMain.u64_max in *.
        rewrite (wrap_small 64 (acc * 10)) by (split; lia). apply wrap_small. split; lia. }
      rewrite IH by (unfold fits, OracleMain.u64_max in *; lia).
      rewrite list.Forall_cons, numeral_cons. fold d. tauto.
Qed.

(** [toU64] reads exactly the decimal numerals of 64-bit values: it neither wraps nor
    refuses a value that fits, leading zeros included. *)
Theorem toU64_exact digits why v :
  OracleMain.toU64 digits why = inr v <->
  digits <> [] /\ Forall is_digit digits /\ v = numeral 0 digits /\ fits 64 v.
Proof.
  unfold OracleMain.toU64. destruct digits as [|c digits]; cbn [OracleMain.is_nil].
  { split; [done|]. by intros []. }
  rewrite toU64_loop_spec by done. unfold fits, OracleMain.u64_max.
  split; intros H; [|by destruct_and!; split_and!; [..|lia]].
  destruct H as (Hf & -> & Hv). split_and!; [done..| |lia].
  by apply numeral_ge.
Qed.

(** ** Writing numerals *)
Definition digit (d : Z) : Byte.byte := byte.of_Z (48 + d).

Fixpoint decimal_loop (fuel : nat) (z : Z) : list Byte.byte :=
  match fuel with
  | O => []
  | S fuel => (if z <? 10 then [] else decimal_loop fuel (z / 10)) ++ [digit (z mod 10)]
  end.

(** Twenty digits are enough for 64 bits. *)
Definition decimal (z : Z) : list Byte.byte := decimal_loop 20 z.

Lemma digit_value d : 0 <= d < 10 -> byte.unsigned (digit d) = 48 + d.
Proof.
  intros Hd. unfold digit. rewrite byte.unsigned_of_Z. unfold byte.wrap.
  apply Z.mod_small. lia.
Qed.

Lemma decimal_loop_spec fuel z :
  0 <= z < 10 ^ Z.of_nat fuel ->
  Forall is_digit (decimal_loop fuel z) /\ numeral 0 (decimal_loop fuel z) = z.
Proof.
  revert z. induction fuel as [|fuel IH]; intros z Hz; [cbn in Hz; split; [constructor|cbn; lia]|].
  cbn [decimal_loop]. pose proof (Z.mod_pos_bound z 10 ltac:(lia)) as Hm.
  pose proof (digit_value _ Hm) as Hv. pose proof (Z.div_mod z 10 ltac:(lia)) as Hdm.
  assert (is_digit (digit (z mod 10))) as Hd by (unfold is_digit; lia).
  rewrite Nat2Z.inj_succ, Z.pow_succ_r in Hz by lia.
  destruct (Z.ltb_spec z 10).
  - cbn [app]. split; [by apply list.Forall_singleton|]. rewrite numeral_cons, Hv. cbn.
    rewrite Z.mod_small by lia. lia.
  - destruct (IH (z / 10)) as [Hf Hn].
    { split; [apply Z.div_pos; lia|apply Z.div_lt_upper_bound; lia]. }
    split; [apply Forall_app; split; [done|by apply list.Forall_singleton]|].
    rewrite numeral_app, Hn, numeral_cons, Hv. cbn. lia.
Qed.

Lemma decimal_spec z :
  fits 64 z -> Forall is_digit (decimal z) /\ numeral 0 (decimal z) = z.
Proof. intros [? ?]. apply decimal_loop_spec. change (10 ^ Z.of_nat 20) with 100000000000000000000. lia. Qed.

Lemma decimal_nonempty z : decimal z <> [].
Proof. unfold decimal. cbn [decimal_loop]. by destruct (if z <? 10 then _ else _). Qed.

Lemma length_decimal_loop fuel z : (length (decimal_loop fuel z) <= fuel)%nat.
Proof.
  revert z. induction fuel as [|fuel IH]; intros z; cbn [decimal_loop]; [done|].
  rewrite length_app. cbn [length]. specialize (IH (z / 10)).
  destruct (z <? 10); cbn [length]; lia.
Qed.

(** Every 64-bit value is read back from its numeral. *)
Lemma toU64_decimal z why : fits 64 z -> OracleMain.toU64 (decimal z) why = inr z.
Proof.
  intros Hz. unfold OracleMain.toU64. pose proof (decimal_nonempty z).
  assert (OracleMain.is_nil (decimal z) = false) as -> by (by destruct (decimal z)).
  destruct (decimal_spec z Hz) as [Hd Hn]. apply toU64_loop_spec; [done|].
  unfold fits, OracleMain.u64_max in *. split_and!; [done|by rewrite Hn|lia].
Qed.
