(* ===== verification/OracleRender.v ===== *)
(** * The oracle: a rendered scenario is read back

    [render] writes a scenario in the grammar of docs/ORACLE_SPEC.md; the reader of the
    oracle returns exactly that scenario. *)

From S2P Require Import Prelude.
From S2P Require Import Ids.
From S2P Require Import Segment.
From S2P Require Import Governance.
From S2P Require Import Oracle.
From S2P Require Import OracleText.

(** ** Writing *)

(** Tokens separated by one byte. *)
Fixpoint join (sep : Byte.byte) (tokens : list (list Byte.byte)) : list Byte.byte :=
  match tokens with
  | [] => []
  | [t] => t
  | t :: ts => t ++ sep :: join sep ts
  end.

Definition entry (key : string) (value : list Byte.byte) : list Byte.byte :=
  text key ++ OracleMain.equals :: value.

Definition number (key : string) (z : Z) : list Byte.byte := entry key (decimal z).

Definition bit (key : string) (z : Z) : list Byte.byte :=
  entry key (text (if z =? 0 then "0" else "1")).

Definition kind_token (k : OracleMain.Kind) : list Byte.byte :=
  text match k with
       | OracleMain.Invalid => "invalid" | OracleMain.Node => "node"
       | OracleMain.Adjacency => "adjacency" | OracleMain.Endpoint => "endpoint"
       | OracleMain.Binding => "binding" | OracleMain.Policy => "policy"
       end.

Definition encoding_token (e : OracleMain.Enc) : list Byte.byte :=
  text match e with
       | OracleMain.Unset => "unset"
       | OracleMain.AbstractNodeV1 => "abstractnodev1"
       | OracleMain.AbstractAdjacencyV1 => "abstractadjacencyv1"
       | OracleMain.AbstractEndpointV1 => "abstractendpointv1"
       | OracleMain.AbstractBindingV1 => "abstractbindingv1"
       | OracleMain.AbstractPolicyV1 => "abstractpolicyv1"
       end.

Definition payload_token (payload : list Byte.byte) : list Byte.byte :=
  if OracleMain.is_nil payload then text "-" else OracleMain.toHex payload.

Definition allowed_kinds (allowed : list bool) : list OracleMain.Kind :=
  List.filter (OracleMain.at_kind allowed)
    [OracleMain.Node; OracleMain.Adjacency; OracleMain.Endpoint; OracleMain.Binding;
     OracleMain.Policy].

Definition kinds_token (allowed : list bool) : list Byte.byte :=
  join OracleMain.comma (map kind_token (allowed_kinds allowed)).

Definition profile_tokens (sc : OracleMain.Scenario) : list (list Byte.byte) :=
  [text "PROFILE"; number "id" (OracleMain.profileId sc);
   number "gen" (OracleMain.profileGen sc);
   entry "kinds" (kinds_token (OracleMain.kindAllowed sc));
   number "depth" (OracleMain.depth sc); number "width" (OracleMain.width sc);
   bit "empty" (OracleMain.empty sc); bit "consec" (OracleMain.consec sc);
   bit "nonconsec" (OracleMain.nonconsec sc); bit "loose" (OracleMain.loose sc);
   number "reqcaps" (OracleMain.reqcaps sc)].

Definition segment_tokens (index : Z) (seg : OracleMain.Segment) : list (list Byte.byte) :=
  [text "SEG"; number "index" index; entry "kind" (kind_token (OracleMain.kind seg));
   entry "enc" (encoding_token (OracleMain.enc seg)); number "id" (OracleMain.id seg);
   number "gen" (OracleMain.gen seg); number "node" (OracleMain.node seg);
   number "adj" (OracleMain.adj seg); number "endp" (OracleMain.endp seg);
   number "bind" (OracleMain.bind seg); number "pol" (OracleMain.pol seg);
   number "polgen" (OracleMain.polgen seg); number "topo" (OracleMain.topo seg);
   entry "payload" (payload_token (OracleMain.payload seg))].

Definition limits_tokens (sc : OracleMain.Scenario) : list (list Byte.byte) :=
  [text "LIMITS"; number "maxseg" (OracleMain.maxseg sc);
   number "maxpayload" (OracleMain.maxpayload sc)].

Definition line_of (tokens : list (list Byte.byte)) : list Byte.byte :=
  join OracleMain.space tokens.

(** The lines of the segments, the first with index [i]. *)
Fixpoint segment_lines (i : Z) (segs : list OracleMain.Segment) : list (list Byte.byte) :=
  match segs with
  | [] => []
  | seg :: segs' => line_of (segment_tokens i seg) :: segment_lines (i + 1) segs'
  end.

Definition scenario_lines (sc : OracleMain.Scenario) : list (list Byte.byte) :=
  line_of (profile_tokens sc) :: segment_lines 0 (OracleMain.segments sc) ++
  [line_of (limits_tokens sc); text "END"].

Definition end_lines (lines : list (list Byte.byte)) : list Byte.byte :=
  flat_map (fun line => line ++ [OracleMain.newline]) lines.

Definition render (sc : OracleMain.Scenario) : list Byte.byte :=
  end_lines (scenario_lines sc).

(** ** Scenarios that can be written *)
Definition seg_ok (seg : OracleMain.Segment) : Prop :=
  Forall (fits 64) [OracleMain.id seg; OracleMain.gen seg; OracleMain.node seg;
    OracleMain.adj seg; OracleMain.endp seg; OracleMain.bind seg; OracleMain.pol seg;
    OracleMain.polgen seg; OracleMain.topo seg] /\
  size (OracleMain.payload seg) <= 2 ^ 18.

#[global] Instance seg_ok_dec seg : Decision (seg_ok seg).
Proof. unfold seg_ok. apply _. Defined.

(** Values of their width, some kind allowed and [invalid] never, and no more than the
    reader takes. *)
Definition scenario_ok (sc : OracleMain.Scenario) : Prop :=
  Forall (fits 64) [OracleMain.profileId sc; OracleMain.profileGen sc; OracleMain.depth sc;
    OracleMain.width sc; OracleMain.reqcaps sc; OracleMain.maxseg sc;
    OracleMain.maxpayload sc] /\
  Forall (fits 1) [OracleMain.empty sc; OracleMain.consec sc; OracleMain.nonconsec sc;
    OracleMain.loose sc] /\
  length (OracleMain.kindAllowed sc) = 6%nat /\
  OracleMain.at_kind (OracleMain.kindAllowed sc) OracleMain.Invalid = false /\
  allowed_kinds (OracleMain.kindAllowed sc) <> [] /\
  Forall seg_ok (OracleMain.segments sc) /\
  size (OracleMain.segments sc) + 3 <= OracleMain.kMaxLines.

#[global] Instance scenario_ok_dec sc : Decision (scenario_ok sc).
Proof. unfold scenario_ok. apply _. Defined.

(** ** Tokens *)

(** A byte of a token: printable, and not a space. *)
Definition printable (c : Byte.byte) : bool := 32 <? byte.unsigned c.

Lemma byte_eqb_false x y : byte.unsigned x <> byte.unsigned y -> byte_eqb x y = false.
Proof. intros H. unfold byte_eqb. by apply Z.eqb_neq. Qed.

Lemma byte_eqb_refl x : byte_eqb x x = true.
Proof. by apply byte_eqb_eq. Qed.

Lemma split_at_skip c token acc l :
  c ∉ token ->
  OracleMain.split_at c acc (token ++ l) = OracleMain.split_at c (acc ++ token) l.
Proof.
  revert acc. induction token as [|x token IH]; intros acc Hc; [by rewrite app_nil_r|].
  apply not_elem_of_cons in Hc as [Hx Hc]. cbn [app OracleMain.split_at].
  rewrite byte_eqb_false by (intros E; by apply Hx, byte.unsigned_inj).
  rewrite IH by done. by rewrite <-app_assoc.
Qed.

Lemma split_join c tokens :
  tokens <> [] -> Forall (fun t => c ∉ t) tokens ->
  OracleMain.split_at c [] (join c tokens) = tokens.
Proof.
  intros Hn H. induction H as [|t tokens Ht H IH]; [done|]. destruct tokens as [|t' tokens].
  - cbn [join]. rewrite <-(app_nil_r t) at 1. by rewrite split_at_skip.
  - change (join c (t :: t' :: tokens)) with (t ++ c :: join c (t' :: tokens)).
    rewrite split_at_skip by done. cbn [app OracleMain.split_at]. rewrite byte_eqb_refl.
    by rewrite IH.
Qed.

Definition token_ok (t : list Byte.byte) : bool :=
  negb (OracleMain.is_nil t) && forallb printable t.

Lemma printable_not_in c t :
  byte.unsigned c <= 32 -> forallb printable t = true -> c ∉ t.
Proof.
  intros Hc Ht Hin. rewrite forallb_forall in Ht. apply list_elem_of_In in Hin.
  apply Ht in Hin. unfold printable in Hin. simpl_bools. lia.
Qed.

(** A line of good tokens is split into its tokens. *)
Lemma splitFields_line tokens what :
  tokens <> [] -> forallb token_ok tokens = true ->
  OracleMain.splitFields (line_of tokens) what = inr tokens.
Proof.
  intros Hn Ht. rewrite forallb_forall in Ht. unfold OracleMain.splitFields, line_of.
  rewrite split_join.
  - destruct (existsb OracleMain.is_nil tokens) eqn:E; [|done].
    apply existsb_exists in E as (t & Hin & E). apply Ht in Hin. unfold token_ok in Hin.
    by rewrite E in Hin.
  - done.
  - apply list.Forall_forall. intros t Hin%list_elem_of_In. apply Ht in Hin.
    unfold token_ok in Hin. simpl_bools. by apply printable_not_in.
Qed.

Lemma prefix_then_app key c l : OracleMain.prefix_then key c (key ++ c :: l) = true.
Proof.
  unfold OracleMain.prefix_then. rewrite firstn_app, Nat.sub_diag, firstn_all, app_nil_r.
  rewrite bool_decide_eq_true_2 by done. rewrite lookup_app_r, Nat.sub_diag by lia.
  cbn. apply byte_eqb_refl.
Qed.

Lemma field_entry key value :
  value <> [] -> OracleMain.field (entry key value) (text key) = Some value.
Proof.
  intros Hv. unfold OracleMain.field, entry.
  destruct (Z.leb_spec (size (text key ++ OracleMain.equals :: value)) (size (text key)))
    as [H|_].
  { rewrite size_app, size_cons in H. pose proof (size_nonneg value). lia. }
  rewrite prefix_then_app. cbn [negb].
  rewrite drop_app_add' by done. cbn [drop].
  by destruct value.
Qed.

(** ** Fields *)

Lemma need_field_entry tokens i key value why :
  nth i tokens [] = entry key value -> value <> [] ->
  OracleMain.need_field tokens i key why = inr value.
Proof. intros Hi Hv. unfold OracleMain.need_field. by rewrite Hi, field_entry. Qed.

Lemma need_number tokens i key z why :
  nth i tokens [] = number key z -> fits 64 z ->
  OracleMain.need_u64 tokens i key why = inr z.
Proof.
  intros Hi Hz. unfold OracleMain.need_u64.
  rewrite (need_field_entry _ _ _ (decimal z)) by (done || apply decimal_nonempty).
  by apply toU64_decimal.
Qed.

Lemma fits_bit z : fits 1 z -> z = 0 \/ z = 1.
Proof. unfold fits. lia. Qed.

Lemma need_bit_bit tokens i key z why :
  nth i tokens [] = bit key z -> fits 1 z ->
  OracleMain.need_bit tokens i key why = inr z.
Proof.
  intros Hi Hz%fits_bit. unfold OracleMain.need_bit.
  rewrite (need_field_entry _ _ _ (text (if z =? 0 then "0" else "1"))).
  - by destruct Hz as [-> | ->].
  - done.
  - by destruct (z =? 0).
Qed.

Lemma kindFromName_token k : OracleMain.kindFromName (kind_token k) = Some k.
Proof. by destruct k. Qed.

Lemma encFromName_token e : OracleMain.encFromName (encoding_token e) = Some e.
Proof. by destruct e. Qed.

(** The names of the allowed kinds rebuild the table. *)
Lemma parse_kinds_token allowed :
  length allowed = 6%nat -> OracleMain.at_kind allowed OracleMain.Invalid = false ->
  allowed_kinds allowed <> [] ->
  OracleMain.parse_kinds (OracleMain.split_at OracleMain.comma [] (kinds_token allowed))
    (replicate 6 false) = inr allowed.
Proof.
  intros Hl Hi Hn. unfold kinds_token. rewrite split_join.
  - destruct allowed as [|a [|b [|c [|d [|e [|f [|? ?]]]]]]]; try done.
    change (a = false) in Hi. subst a. by destruct b, c, d, e, f.
  - by destruct (allowed_kinds allowed).
  - apply list.Forall_fmap, list.Forall_forall. intros k _.
    destruct k; apply (bool_decide_unpack (_ ∉ _)); vm_compute; exact I.
Qed.

Lemma kinds_token_nonempty allowed : allowed_kinds allowed <> [] -> kinds_token allowed <> [].
Proof.
  unfold kinds_token. destruct (allowed_kinds allowed) as [|k [|k' ks]]; [done| |].
  - by destruct k.
  - intros _. cbn [map join]. by destruct k.
Qed.

(** ** Hexadecimal *)

Lemma hex_byte b :
  let hi := OracleMain.hex_digit (Z.shiftr (byte.unsigned b) 4) in
  let lo := OracleMain.hex_digit (Z.land (byte.unsigned b) 0x0F) in
  (OracleMain.hexNibble hi <? 0) || (OracleMain.hexNibble lo <? 0) = false /\
  byte.of_Z (Z.lor (Z.shiftl (OracleMain.hexNibble hi) 4) (OracleMain.hexNibble lo)) = b /\
  printable hi = true /\ printable lo = true.
Proof. destruct b; vm_compute; by repeat split. Qed.

Lemma hexDecode_loop_toHex bs : OracleMain.hexDecode_loop (OracleMain.toHex bs) = inr bs.
Proof.
  induction bs as [|b bs IH]; [done|].
  change (OracleMain.toHex (b :: bs)) with
    (OracleMain.hex_digit (Z.shiftr (byte.unsigned b) 4) ::
     OracleMain.hex_digit (Z.land (byte.unsigned b) 0x0F) :: OracleMain.toHex bs).
  cbn [OracleMain.hexDecode_loop]. destruct (hex_byte b) as (H1 & H2 & _). rewrite H1, IH.
  unfold mbind, OracleMain.result_bind, mret, OracleMain.result_ret. by rewrite H2.
Qed.

Lemma length_toHex bs : length (OracleMain.toHex bs) = (2 * length bs)%nat.
Proof.
  induction bs as [|b bs IH]; [done|]. unfold OracleMain.toHex in *. cbn [flat_map app length].
  rewrite IH. lia.
Qed.

Lemma printable_toHex bs : forallb printable (OracleMain.toHex bs) = true.
Proof.
  induction bs as [|b bs IH]; [done|].
  change (OracleMain.toHex (b :: bs)) with
    (OracleMain.hex_digit (Z.shiftr (byte.unsigned b) 4) ::
     OracleMain.hex_digit (Z.land (byte.unsigned b) 0x0F) :: OracleMain.toHex bs).
  cbn [forallb]. destruct (hex_byte b) as (_ & _ & H1 & H2). by rewrite H1, H2, IH.
Qed.

Lemma payload_token_nonempty payload : payload_token payload <> [].
Proof. by destruct payload. Qed.

(** A payload is read back from its token. *)
Lemma payload_round_trip payload :
  (if bool_decide (payload_token payload = text "-") then mret []
   else OracleMain.hexDecode (payload_token payload)) = (inr payload : OracleMain.result _).
Proof.
  unfold payload_token. destruct payload as [|b bs]; [done|]. cbn [OracleMain.is_nil].
  rewrite bool_decide_eq_false_2.
  2: { intros H. apply (f_equal length) in H. rewrite length_toHex in H. cbn in H. lia. }
  unfold OracleMain.hexDecode.
  assert (size (OracleMain.toHex (b :: bs)) mod 2 = 0) as ->.
  { unfold size. rewrite length_toHex, Nat2Z.inj_mul, Z.mul_comm. apply Z_mod_mult. }
  apply hexDecode_loop_toHex.
Qed.

(** ** Every token is printable *)

Lemma printable_digits ds : Forall is_digit ds -> forallb printable ds = true.
Proof.
  induction 1 as [|c ds [Hl Hu] H IH]; [done|]. cbn. rewrite IH, andb_true_r.
  unfold printable. apply Z.ltb_lt. lia.
Qed.

Lemma token_ok_entry key value :
  forallb printable (text key) = true -> forallb printable value = true ->
  token_ok (entry key value) = true.
Proof.
  intros Hk Hv. unfold token_ok, entry. rewrite forallb_app, Hk. cbn [forallb].
  rewrite Hv. by destruct (text key).
Qed.

Lemma token_ok_number key z :
  forallb printable (text key) = true -> fits 64 z -> token_ok (number key z) = true.
Proof.
  intros Hk Hz. apply token_ok_entry; [done|]. apply printable_digits. by apply decimal_spec.
Qed.

Lemma token_ok_bit key z : forallb printable (text key) = true -> token_ok (bit key z) = true.
Proof. intros Hk. apply token_ok_entry; [done|]. by destruct (z =? 0). Qed.

Lemma printable_kinds allowed : forallb printable (kinds_token allowed) = true.
Proof.
  unfold kinds_token. induction (allowed_kinds allowed) as [|k ks IH]; [done|].
  destruct ks as [|k' ks].
  - by destruct k.
  - change (forallb printable (kind_token k ++ OracleMain.comma ::
      join OracleMain.comma (map kind_token (k' :: ks))) = true).
    rewrite forallb_app. cbn [forallb]. rewrite IH. by destruct k.
Qed.

Lemma printable_payload payload : forallb printable (payload_token payload) = true.
Proof.
  unfold payload_token. destruct payload; [done|]. apply printable_toHex.
Qed.

Lemma tokens_ok_cons t ts :
  token_ok t = true -> forallb token_ok ts = true -> forallb token_ok (t :: ts) = true.
Proof. intros H H'. cbn [forallb]. by rewrite H, H'. Qed.

(** Prove that the tokens of a line are good, entry by entry. *)
Ltac good_token :=
  lazymatch goal with
  | |- token_ok (text _) = true => reflexivity
  | |- token_ok (number _ _) = true => apply token_ok_number; [reflexivity|assumption]
  | |- token_ok (bit _ _) = true => apply token_ok_bit; reflexivity
  | |- token_ok (entry _ (kinds_token _)) = true =>
      apply token_ok_entry; [reflexivity|apply printable_kinds]
  | |- token_ok (entry _ (payload_token _)) = true =>
      apply token_ok_entry; [reflexivity|apply printable_payload]
  | |- token_ok (entry _ (kind_token ?k)) = true =>
      apply token_ok_entry; [reflexivity|by destruct k]
  | |- token_ok (entry _ (encoding_token ?e)) = true =>
      apply token_ok_entry; [reflexivity|by destruct e]
  end.

Ltac good_tokens := repeat (apply tokens_ok_cons; [good_token|]); reflexivity.

Ltac split_fits H :=
  repeat (let Hz := fresh "Hz" in apply list.Forall_cons in H as [Hz H]).

Lemma profile_tokens_ok sc : scenario_ok sc -> forallb token_ok (profile_tokens sc) = true.
Proof. intros (Hn & _). split_fits Hn. unfold profile_tokens. good_tokens. Qed.

Lemma segment_tokens_ok i seg :
  fits 64 i -> seg_ok seg -> forallb token_ok (segment_tokens i seg) = true.
Proof. intros Hi [Hn _]. split_fits Hn. unfold segment_tokens. good_tokens. Qed.

Lemma limits_tokens_ok sc : scenario_ok sc -> forallb token_ok (limits_tokens sc) = true.
Proof. intros (Hn & _). split_fits Hn. unfold limits_tokens. good_tokens. Qed.

(** ** Parsing the lines *)

Lemma bind_step {A B} (m : OracleMain.result A) (f : A -> OracleMain.result B) x r :
  m = inr x -> f x = r -> (m ≫= f) = r.
Proof. by intros -> <-. Qed.

(** Run a parser over fields that are known, in order. *)
Ltac parse_field :=
  lazymatch goal with
  | |- OracleMain.splitFields _ _ = _ => apply splitFields_line; [done|assumption]
  | |- OracleMain.ensure _ _ = _ => reflexivity
  | |- OracleMain.need_u64 _ _ _ _ = _ => eapply need_number; [reflexivity|assumption]
  | |- OracleMain.need_bit _ _ _ _ = _ => eapply need_bit_bit; [reflexivity|assumption]
  | |- OracleMain.need_field _ _ _ _ = _ => eapply need_field_entry; [reflexivity|]
  end.

Ltac parse_fields := repeat (eapply bind_step; [parse_field|cbv beta]).

Lemma parseProfile_line sc sc0 :
  scenario_ok sc -> OracleMain.kindAllowed sc0 = replicate 6 false ->
  OracleMain.parseProfile (line_of (profile_tokens sc)) sc0 =
    inr {| sc with OracleMain.maxseg := OracleMain.maxseg sc0;
                   OracleMain.maxpayload := OracleMain.maxpayload sc0;
                   OracleMain.segments := OracleMain.segments sc0 |}.
Proof.
  intros Hok Hk. pose proof (profile_tokens_ok sc Hok) as Ht.
  destruct Hok as (Hn & Hb & Hl & Hi & Ha & _). split_fits Hn. split_fits Hb.
  unfold OracleMain.parseProfile. parse_fields.
  { by apply kinds_token_nonempty. }
  eapply bind_step; [rewrite Hk; by apply parse_kinds_token|]. cbv beta. parse_fields.
  by destruct sc.
Qed.

Lemma kind_token_nonempty k : kind_token k <> [].
Proof. by destruct k. Qed.

Lemma encoding_token_nonempty e : encoding_token e <> [].
Proof. by destruct e. Qed.

Lemma parseSegment_line seg sc :
  seg_ok seg -> fits 64 (size (OracleMain.segments sc)) ->
  OracleMain.parseSegment
      (line_of (segment_tokens (size (OracleMain.segments sc)) seg)) sc =
    inr {| sc with OracleMain.segments := OracleMain.segments sc ++ [seg] |}.
Proof.
  intros Hok Hi. pose proof (segment_tokens_ok _ seg Hi Hok) as Ht.
  destruct Hok as (Hn & _). split_fits Hn. unfold OracleMain.parseSegment. parse_fields.
  rewrite Z.eqb_refl. parse_fields; [apply kind_token_nonempty|].
  eapply bind_step; [by rewrite kindFromName_token|]. cbv beta.
  parse_fields; [apply encoding_token_nonempty|].
  eapply bind_step; [by rewrite encFromName_token|]. cbv beta.
  parse_fields; [apply payload_token_nonempty|].
  eapply bind_step; [apply payload_round_trip|]. by destruct seg.
Qed.

Lemma parseLimits_line sc sc0 :
  scenario_ok sc ->
  OracleMain.parseLimits (line_of (limits_tokens sc)) sc0 =
    inr {| sc0 with OracleMain.maxseg := OracleMain.maxseg sc;
                    OracleMain.maxpayload := OracleMain.maxpayload sc |}.
Proof.
  intros Hok. pose proof (limits_tokens_ok sc Hok) as Ht. destruct Hok as (Hn & _).
  split_fits Hn. unfold OracleMain.parseLimits. by parse_fields.
Qed.
