(* ===== verification/OracleRun.v ===== *)
(** * The oracle as a whole

    A rendered scenario goes through the reader unchanged, and the printed verdict of a
    question in the joint scope is the library's. *)

From S2P Require Import Prelude.
From S2P Require Import Ids.
From S2P Require Import Digest.
From S2P Require Import Segment.
From S2P Require Import Reason.
From S2P Require Import Governance.
From S2P Require Import Validation.
From S2P Require Import Oracle.
From S2P Require Import OracleProps.
From S2P Require Import OracleChecks.
From S2P Require Import OracleVerdict.
From S2P Require Import OracleText.
From S2P Require Import OracleRender.

(** ** Keywords *)

Lemma hasKeyword_line word tokens :
  tokens <> [] -> OracleMain.hasKeyword (line_of (text word :: tokens)) (text word) = true.
Proof.
  intros Hn. destruct tokens as [|t tokens]; [done|].
  change (line_of (text word :: t :: tokens)) with
    (text word ++ OracleMain.space :: line_of (t :: tokens)).
  unfold OracleMain.hasKeyword. case_bool_decide; [done|].
  rewrite prefix_then_app, andb_true_r, size_app, size_cons.
  pose proof (size_nonneg (line_of (t :: tokens))). apply Z.ltb_lt. lia.
Qed.

Lemma hasKeyword_other line word :
  take (length (text word)) line <> text word ->
  OracleMain.hasKeyword line (text word) = false.
Proof.
  intros H. unfold OracleMain.hasKeyword. rewrite bool_decide_eq_false_2.
  - unfold OracleMain.prefix_then. rewrite bool_decide_eq_false_2 by done.
    by rewrite andb_false_l, andb_false_r.
  - intros ->. by rewrite firstn_all in H.
Qed.

Lemma profile_keyword sc :
  OracleMain.hasKeyword (line_of (profile_tokens sc)) (text "PROFILE") = true.
Proof. by apply hasKeyword_line. Qed.

Lemma segment_keyword i seg :
  OracleMain.hasKeyword (line_of (segment_tokens i seg)) (text "SEG") = true.
Proof. by apply hasKeyword_line. Qed.

Lemma limits_keyword sc :
  OracleMain.hasKeyword (line_of (limits_tokens sc)) (text "LIMITS") = true /\
  OracleMain.hasKeyword (line_of (limits_tokens sc)) (text "SEG") = false.
Proof. split; [by apply hasKeyword_line|by apply hasKeyword_other]. Qed.

(** ** All the lines *)

Lemma parseSegments_lines segs rest : forall sc,
  Forall seg_ok segs -> fits 64 (size (OracleMain.segments sc) + size segs) ->
  match rest with
  | line :: _ => OracleMain.hasKeyword line (text "SEG") = false
  | [] => True
  end ->
  OracleMain.parseSegments (segment_lines (size (OracleMain.segments sc)) segs ++ rest) sc =
    inr ({| sc with OracleMain.segments := OracleMain.segments sc ++ segs |}, rest).
Proof.
  induction segs as [|seg segs IH]; intros sc Hok Hf Hrest.
  - cbn [segment_lines app]. destruct rest as [|line rest].
    + cbn. rewrite app_nil_r. by destruct sc.
    + cbn [OracleMain.parseSegments]. rewrite Hrest, app_nil_r. by destruct sc.
  - apply list.Forall_cons in Hok as [Hs Hok]. rewrite size_cons in Hf.
    pose proof (size_nonneg segs). pose proof (size_nonneg (OracleMain.segments sc)).
    cbn [segment_lines app OracleMain.parseSegments].
    rewrite segment_keyword.
    eapply bind_step; [apply parseSegment_line; [done|unfold fits in *; lia]|]. cbv beta.
    set (sc' := {| sc with OracleMain.segments := OracleMain.segments sc ++ [seg] |}).
    replace (size (OracleMain.segments sc) + 1) with (size (OracleMain.segments sc'))
      by (cbn; by rewrite size_snoc).
    rewrite (IH sc').
    + subst sc'. cbn. by rewrite <-app_assoc.
    + done.
    + cbn. rewrite size_snoc. by replace (_ + 1 + _) with
        (size (OracleMain.segments sc) + (1 + size segs)) by lia.
    + done.
Qed.

Lemma parseScenario_lines sc :
  scenario_ok sc -> OracleMain.parseScenario (scenario_lines sc) = inr sc.
Proof.
  intros Hok. pose proof Hok as (_ & _ & _ & _ & _ & Hs & Hc).
  unfold OracleMain.parseScenario, scenario_lines.
  eapply bind_step; [by rewrite profile_keyword|]. cbv beta.
  eapply bind_step; [by apply parseProfile_line|]. cbv beta.
  eapply bind_step.
  { apply (parseSegments_lines _ [line_of (limits_tokens sc); text "END"]
      {| sc with OracleMain.maxseg := 0; OracleMain.maxpayload := 0;
                 OracleMain.segments := [] |}); [done| |].
    - cbn [OracleMain.segments]. rewrite size_nil. pose proof (size_nonneg (OracleMain.segments sc)).
      unfold fits. change OracleMain.kMaxLines with 262144 in Hc. lia.
    - apply limits_keyword. }
  cbv beta. eapply bind_step; [by rewrite (proj1 (limits_keyword sc))|]. cbv beta.
  eapply bind_step; [by apply parseLimits_line|]. by destruct sc.
Qed.

(** ** Reading lines *)

(** A line the reader keeps as it is. *)
Definition line_ok (line : list Byte.byte) : Prop :=
  Forall (fun c => 32 <= byte.unsigned c) line /\ size line <= OracleMain.kMaxLineBytes.

Lemma pop_cr_keeps line :
  Forall (fun c => 32 <= byte.unsigned c) line -> OracleMain.pop_cr line = line.
Proof.
  intros H. unfold OracleMain.pop_cr. destruct (list.last line) as [c|] eqn:E; [|done].
  rewrite byte_eqb_false; [done|]. apply list.last_Some in E as [l' ->].
  apply Forall_app in H as [_ H]. apply list.Forall_cons in H as [H _].
  intros Hc. rewrite Hc in H. by vm_compute in H.
Qed.

Lemma readLines_loop_line line input lines cur :
  Forall (fun c => 32 <= byte.unsigned c) line ->
  size cur + size line <= OracleMain.kMaxLineBytes ->
  OracleMain.readLines_loop (line ++ input) lines cur =
    OracleMain.readLines_loop input lines (cur ++ line).
Proof.
  revert cur. induction line as [|c line IH]; intros cur H Hs; [by rewrite app_nil_r|].
  apply list.Forall_cons in H as [Hc H]. rewrite size_cons in Hs. pose proof (size_nonneg line).
  cbn [app OracleMain.readLines_loop]. rewrite byte_eqb_false.
  2: { intros E. rewrite E in Hc. by vm_compute in Hc. }
  destruct (Z.leb_spec OracleMain.kMaxLineBytes (size cur)); [lia|].
  rewrite IH; [by rewrite <-app_assoc|done|]. rewrite size_snoc. lia.
Qed.

Lemma readLines_loop_lines ls : forall lines,
  Forall line_ok ls -> size lines + size ls <= OracleMain.kMaxLines ->
  OracleMain.readLines_loop (end_lines ls) lines [] = inr (lines ++ ls, []).
Proof.
  induction ls as [|line ls IH]; intros lines H Hs; [by rewrite app_nil_r|].
  apply list.Forall_cons in H as [[Hc Hl] H]. rewrite size_cons in Hs.
  pose proof (size_nonneg ls).
  change (end_lines (line :: ls)) with ((line ++ [OracleMain.newline]) ++ end_lines ls).
  rewrite <-app_assoc, readLines_loop_line; [|done|rewrite size_nil; lia].
  cbn [app OracleMain.readLines_loop]. rewrite byte_eqb_refl, pop_cr_keeps by done.
  rewrite size_snoc.
  destruct (Z.ltb_spec OracleMain.kMaxLines (size lines + 1)); [lia|].
  rewrite IH; [by rewrite <-app_assoc|done|]. rewrite size_snoc. lia.
Qed.

Lemma readLines_lines ls :
  Forall line_ok ls -> size ls <= OracleMain.kMaxLines ->
  OracleMain.readLines (end_lines ls) false = inr ls.
Proof.
  intros H Hs. unfold OracleMain.readLines.
  by rewrite (readLines_loop_lines ls [] H) by (rewrite size_nil; lia).
Qed.

(** ** The lines of a scenario *)

Lemma length_join c tokens :
  (length (join c tokens) <= length (concat tokens) + length tokens)%nat.
Proof.
  induction tokens as [|t tokens IH]; [done|]. destruct tokens as [|t' tokens].
  - cbn. rewrite app_nil_r. lia.
  - change (join c (t :: t' :: tokens)) with (t ++ c :: join c (t' :: tokens)).
    cbn [concat] in *. rewrite !length_app in *. cbn [length] in *. lia.
Qed.

Lemma printable_ge token :
  forallb printable token = true -> Forall (fun c => 32 <= byte.unsigned c) token.
Proof.
  rewrite forallb_forall, list.Forall_forall. intros H c Hc%list_elem_of_In.
  specialize (H c Hc). unfold printable in H. simpl_bools. lia.
Qed.

Lemma line_of_bytes tokens :
  forallb token_ok tokens = true ->
  Forall (fun c => 32 <= byte.unsigned c) (line_of tokens).
Proof.
  unfold line_of. induction tokens as [|t tokens IH]; [constructor|].
  cbn [forallb]. unfold token_ok at 1. intros H. simpl_bools.
  destruct tokens as [|t' tokens]; [by apply printable_ge|].
  change (join OracleMain.space (t :: t' :: tokens)) with
    (t ++ OracleMain.space :: join OracleMain.space (t' :: tokens)).
  apply Forall_app. split; [by apply printable_ge|]. constructor; [by vm_compute|auto].
Qed.

(** The longest token that is not a payload has fewer than this many bytes. *)
Definition short (t : list Byte.byte) : Prop := (length t <= 60)%nat.

Lemma short_number key z : (length (text key) <= 20)%nat -> short (number key z).
Proof.
  intros Hk. unfold short, number, entry. rewrite length_app. cbn [length].
  pose proof (length_decimal_loop 20 z). unfold decimal. lia.
Qed.

Lemma short_bit key z : (length (text key) <= 20)%nat -> short (bit key z).
Proof.
  intros Hk. unfold short, bit, entry. rewrite length_app. cbn [length].
  destruct (z =? 0); cbn; lia.
Qed.

Lemma short_concat tokens :
  Forall short tokens -> (length (concat tokens) <= 60 * length tokens)%nat.
Proof.
  induction 1 as [|t tokens Ht H IH]; [done|]. cbn [concat length]. rewrite length_app.
  unfold short in Ht. lia.
Qed.

Lemma short_kinds allowed : short (entry "kinds" (kinds_token allowed)).
Proof.
  unfold kinds_token, allowed_kinds. cbn [List.filter].
  by destruct (OracleMain.at_kind allowed OracleMain.Node),
    (OracleMain.at_kind allowed OracleMain.Adjacency),
    (OracleMain.at_kind allowed OracleMain.Endpoint),
    (OracleMain.at_kind allowed OracleMain.Binding),
    (OracleMain.at_kind allowed OracleMain.Policy); apply (bool_decide_unpack _); vm_compute.
Qed.

Ltac short_tokens :=
  repeat (apply list.Forall_cons_2;
    [first [ apply short_number; cbn; lia | apply short_bit; cbn; lia
           | apply short_kinds
           | unfold short; cbn; lia
           | match goal with
             | |- context [kind_token ?k] => destruct k; unfold short; cbn; lia
             | |- context [encoding_token ?e] => destruct e; unfold short; cbn; lia
             end ]|]); apply list.Forall_nil_2.

Lemma line_ok_short tokens :
  forallb token_ok tokens = true -> Forall short tokens -> (length tokens <= 14)%nat ->
  line_ok (line_of tokens).
Proof.
  intros Ht Hs Hl. split; [by apply line_of_bytes|]. unfold size, line_of.
  pose proof (length_join OracleMain.space tokens). pose proof (short_concat tokens Hs).
  change OracleMain.kMaxLineBytes with 1048576. lia.
Qed.

Lemma profile_line_ok sc : scenario_ok sc -> line_ok (line_of (profile_tokens sc)).
Proof.
  intros Hok. apply line_ok_short; [by apply profile_tokens_ok| |cbn; lia].
  unfold profile_tokens. short_tokens.
Qed.

Lemma limits_line_ok sc : scenario_ok sc -> line_ok (line_of (limits_tokens sc)).
Proof.
  intros Hok. apply line_ok_short; [by apply limits_tokens_ok| |cbn; lia].
  unfold limits_tokens. short_tokens.
Qed.

(** All tokens of a segment line but the payload are short. *)
Lemma segment_tokens_split i seg :
  exists tokens, segment_tokens i seg =
      tokens ++ [entry "payload" (payload_token (OracleMain.payload seg))] /\
    length tokens = 13%nat /\ Forall short tokens.
Proof.
  eexists (_ :: _ :: _ :: _ :: _ :: _ :: _ :: _ :: _ :: _ :: _ :: _ :: [_]).
  split; [reflexivity|]. split; [reflexivity|]. short_tokens.
Qed.

Lemma segment_line_ok i seg :
  fits 64 i -> seg_ok seg -> line_ok (line_of (segment_tokens i seg)).
Proof.
  intros Hi Hok. split; [by apply line_of_bytes, segment_tokens_ok|].
  destruct (segment_tokens_split i seg) as (tokens & -> & Hl & Hs).
  pose proof (length_join OracleMain.space
    (tokens ++ [entry "payload" (payload_token (OracleMain.payload seg))])) as Hj.
  pose proof (short_concat tokens Hs) as Hc. destruct Hok as [_ Hp].
  rewrite concat_app, !length_app in Hj. cbn [concat length] in Hj.
  rewrite app_nil_r in Hj. unfold entry at 2 in Hj. rewrite length_app in Hj.
  cbn [length] in Hj. change (length (text "payload")) with 7%nat in Hj.
  assert (length (payload_token (OracleMain.payload seg)) <=
          1 + 2 * length (OracleMain.payload seg))%nat.
  { unfold payload_token. destruct (OracleMain.payload seg) as [|b bs]; [cbn; lia|].
    cbn [OracleMain.is_nil]. rewrite length_toHex. lia. }
  unfold size, line_of in *. change OracleMain.kMaxLineBytes with 1048576.
  change (2 ^ 18) with 262144 in Hp. lia.
Qed.

Lemma segment_lines_ok segs : forall i,
  0 <= i -> i + size segs < 2 ^ 64 -> Forall seg_ok segs ->
  Forall line_ok (segment_lines i segs).
Proof.
  induction segs as [|seg segs IH]; intros i Hi Hs H; [constructor|].
  apply list.Forall_cons in H as [Hseg H]. rewrite size_cons in Hs.
  pose proof (size_nonneg segs). cbn [segment_lines]. constructor.
  - apply segment_line_ok; [unfold fits; lia|done].
  - apply IH; [lia|lia|done].
Qed.

Lemma size_segment_lines segs : forall i, size (segment_lines i segs) = size segs.
Proof.
  induction segs as [|seg segs IH]; intros i; [done|].
  cbn [segment_lines]. by rewrite !size_cons, IH.
Qed.

(** The reader returns the scenario that was rendered. *)
Theorem render_round_trip sc :
  scenario_ok sc ->
  (lines ← OracleMain.readLines (render sc) false; OracleMain.parseScenario lines) = inr sc.
Proof.
  intros Hok. eapply bind_step; [|by apply parseScenario_lines].
  pose proof Hok as (_ & _ & _ & _ & _ & Hs & Hc).
  change OracleMain.kMaxLines with 262144 in Hc. apply readLines_lines.
  - unfold scenario_lines. constructor; [by apply profile_line_ok|].
    apply Forall_app. split; [apply segment_lines_ok; [lia|lia|done]|].
    constructor; [by apply limits_line_ok|]. constructor; [|constructor].
    by apply (bool_decide_unpack _).
  - unfold scenario_lines. rewrite size_cons, size_app, size_segment_lines, !size_cons, size_nil.
    change OracleMain.kMaxLines with 262144. lia.
Qed.

(** ** The names of the reasons *)

(** A code the oracle gives a name of a reason has the name the library gives it. *)
Lemma reasonName_agrees c :
  OracleMain.reasonName (oracle_code c) <> "Unknown"%string ->
  OracleMain.reasonName (oracle_code c) = reason_code_name c.
Proof. destruct c; vm_compute; done. Qed.

Definition named (x : OracleMain.Reason) : Prop :=
  OracleMain.reasonName (OracleMain.r_code x) <> "Unknown"%string.

Lemma named_emit_if b phase code i d :
  OracleMain.reasonName code <> "Unknown"%string ->
  Forall named (OracleMain.emit_if b phase code i d).
Proof. intros H. destruct b; repeat constructor. exact H. Qed.

Lemma named_for_scanned n facts segs f :
  (forall i fact seg, Forall named (f i fact seg)) ->
  Forall named (OracleMain.for_scanned n facts segs f).
Proof.
  intros Hf. apply list.Forall_forall. intros x (i & seg & _ & _ & Hx)%elem_of_for_scanned.
  by apply (proj1 (list.Forall_forall _ _) (Hf _ _ _)) in Hx.
Qed.

Ltac by_names :=
  repeat first
    [ apply Forall_app; split
    | apply named_emit_if; vm_compute; discriminate
    | apply named_for_scanned; intros
    | apply list.Forall_singleton; vm_compute; discriminate
    | match goal with |- Forall named (match ?x with _ => _ end) => destruct x end ].

(** Every code the oracle pushes has a name. *)
Lemma emitted_named sc canon : Forall named (OracleMain.emitted sc canon).
Proof.
  unfold OracleMain.emitted, OracleMain.check_phase5, OracleMain.check_limits. cbv zeta.
  by_names.
Qed.

Lemma elem_of_unique_from {A} (same : A -> A -> bool) k : forall x y,
  y ∈ OracleMain.unique_from same x k -> y ∈ x :: k.
Proof.
  induction k as [|z k IH]; intros x y H; [done|]. cbn [OracleMain.unique_from] in H.
  destruct (same x z).
  - apply IH in H. rewrite !elem_of_cons in *. tauto.
  - rewrite elem_of_cons in H. destruct H as [->|H]; [by left|]. right. by apply IH.
Qed.

Lemma check_named sc canon : Forall named (OracleMain.check sc canon).
Proof.
  apply list.Forall_forall. intros x Hx. pose proof (emitted_named sc canon) as H.
  apply (proj1 (list.Forall_forall _ _) H). unfold OracleMain.check in Hx.
  rewrite <-(merge_sort_Permutation OracleMain.not_after).
  destruct (merge_sort _ _); [done|]. by eapply elem_of_unique_from.
Qed.

(** ** The verdict in print *)

(** What the library answers, laid out as docs/ORACLE_SPEC.md asks. *)
Definition library_answer (p : SegmentProfile) (l : Limits) (ss : list Segment)
  : list Byte.byte :=
  let v := validate_segment_sequence (Some l) (Some p) ss None 0 in
  let canonical := canonicalize_segments ss in
  let d := sequence_digest canonical (pr_payload_width p) in
  text "valid=" ++ text (if result_ok v then "1" else "0") ++ [OracleMain.newline] ++
  text "primary=" ++ text (primary_name v) ++ [OracleMain.newline] ++
  text "reasons=" ++
    OracleMain.join_names (map (fun r => reason_code_name (r_code r)) (reasons v)) ++
    [OracleMain.newline] ++
  text "bytes=" ++ OracleMain.toHex (canonical_sequence_bytes canonical (pr_payload_width p)) ++
    [OracleMain.newline] ++
  text "digest=" ++ OracleMain.hex16 (hi d) ++ OracleMain.hex16 (lo d) ++
    [OracleMain.newline].

Lemma names_agree p l ss :
  joint_scope p l ss ->
  map (fun x => OracleMain.reasonName (OracleMain.r_code x))
    (OracleMain.check (scenario_of p l ss) (OracleMain.canonicalize (scenario_of p l ss))) =
  map (fun r => reason_code_name (r_code r))
    (reasons (validate_segment_sequence (Some l) (Some p) ss None 0)).
Proof.
  intros Hs. pose proof (check_named (scenario_of p l ss)
    (OracleMain.canonicalize (scenario_of p l ss))) as Hn.
  rewrite check_agrees in * by done. rewrite map_map.
  apply map_ext_in. intros r Hr. apply reasonName_agrees.
  apply (proj1 (list.Forall_forall _ _) Hn (oracle_view r)).
  by apply list_elem_of_fmap_2, list_elem_of_In.
Qed.

Lemma main_of_verdict sc :
  0 <= OracleMain.width sc -> scenario_ok sc -> encodable sc = true ->
  OracleMain.main (render sc) false =
    let bytes := canonical_sequence_bytes (canonicalize_segments (lib_segments sc))
                   (OracleMain.width sc) in
    (OracleMain.report (OracleMain.check sc (OracleMain.canonicalize sc)) bytes
       (hi (digest128 bytes)) (lo (digest128 bytes)), 0).
Proof.
  intros Hw Hok He. unfold OracleMain.main.
  assert (OracleMain.run (render sc) false =
    inr (OracleMain.report (OracleMain.check sc (OracleMain.canonicalize sc))
      (canonical_sequence_bytes (canonicalize_segments (lib_segments sc)) (OracleMain.width sc))
      (hi (digest128 (canonical_sequence_bytes (canonicalize_segments (lib_segments sc))
        (OracleMain.width sc))))
      (lo (digest128 (canonical_sequence_bytes (canonicalize_segments (lib_segments sc))
        (OracleMain.width sc)))))) as ->; [|done].
  unfold OracleMain.run. pose proof (render_round_trip sc Hok) as Hr.
  destruct (OracleMain.readLines (render sc) false) as [e|lines]; [done|].
  change (OracleMain.parseScenario lines = inr sc) in Hr. eapply bind_step; [reflexivity|]. cbv beta.
  eapply bind_step; [exact Hr|]. cbv beta zeta.
  eapply bind_step; [rewrite encodeSequence_spec, He by done; reflexivity|]. cbv beta.
  by rewrite digest_agrees.
Qed.

(** C24: Put to a question in the joint scope, the oracle prints the library's answer and
    exits with success. *)
Theorem oracle_confirms_library p l ss :
  joint_scope p l ss -> scenario_ok (scenario_of p l ss) ->
  encodable (scenario_of p l ss) = true ->
  OracleMain.main (render (scenario_of p l ss)) false = (library_answer p l ss, 0).
Proof.
  intros Hs Hok He. pose proof (js_width _ _ _ Hs).
  rewrite main_of_verdict by (done || (cbn; lia)). cbv zeta. f_equal.
  rewrite lib_scenario_segments. unfold OracleMain.report, library_answer, sequence_digest.
  cbv zeta. rewrite names_agree, check_agrees by done. cbn [scenario_of OracleMain.width].
  unfold result_ok, primary_name.
  by destruct (reasons (validate_segment_sequence (Some l) (Some p) ss None 0)).
Qed.
