(* ===== verification/OracleWitnesses.v ===== *)
(** * The theorems of the oracle at a concrete question

    Three segments, the second a repeat of the first in another spelling and the third an
    adjacency: the oracle and the library refuse them with the same four reasons. *)

From S2P Require Import Prelude.
From S2P Require Import Ids.
From S2P Require Import Segment.
From S2P Require Import Reason.
From S2P Require Import Governance.
From S2P Require Import Validation.
From S2P Require Import Oracle.
From S2P Require Import OracleProps.
From S2P Require Import OracleChecks.
From S2P Require Import OracleVerdict.
From S2P Require Import OracleText.
From S2P Require Import OracleRender.
From S2P Require Import OracleRun.

Definition asked_node (e : SegmentEncodingId) : Segment :=
  {| empty_segment with seg_kind := KNode; seg_encoding := e; seg_id := 7;
     seg_generation := 1; seg_node := 3; seg_payload := [Byte.x0a] |}.

Definition asked_adjacency : Segment :=
  {| empty_segment with seg_kind := KAdjacency; seg_id := 8; seg_generation := 1;
     seg_adjacency := 4; seg_topology := 2 |}.

Definition asked : list Segment :=
  [asked_node EInvalid; asked_node AbstractNodeV1; asked_adjacency].

Definition asked_profile : SegmentProfile := abstract_governance_profile.

(** Both pairs of positions of the question, one by one. *)
Ltac each_pair :=
  intros [|[|[|[|j]]]] [|[|[|[|i]]]] a b Hji Ha Hb; try lia; try done;
  vm_compute in Ha, Hb; simplify_eq; vm_compute; try done.

Lemma asked_scope : joint_scope asked_profile default_limits asked.
Proof.
  split.
  - vm_compute. reflexivity.
  - vm_compute. discriminate.
  - discriminate.
  - by repeat constructor.
  - each_pair.
  - each_pair.
  - reflexivity.
  - by apply (bool_decide_unpack _).
  - by apply (bool_decide_unpack _).
  - vm_compute. reflexivity.
Defined.

Lemma oracle_confirms_library_witness :
  OracleMain.main (render (scenario_of asked_profile default_limits asked)) false =
    (library_answer asked_profile default_limits asked, 0) /\
  map r_code (reasons (validate_segment_sequence (Some default_limits) (Some asked_profile)
    asked None 0)) =
    [ProfileRepeatNotPermitted; SegmentDuplicateConsecutive; CapabilityEvidenceUnavailable;
     TopologyEvidenceUnavailable].
Proof.
  split.
  - apply oracle_confirms_library; [apply asked_scope| |vm_compute; reflexivity].
    apply (bool_decide_unpack _). vm_compute. exact I.
  - vm_compute. reflexivity.
Defined.

Lemma encodeSequence_spec_witness :
  let sc := scenario_of asked_profile default_limits asked in
  OracleMain.encodeSequence sc (OracleMain.canonicalize sc) =
    if encodable sc
    then inr (canonical_sequence_bytes (canonicalize_segments (lib_segments sc))
                (OracleMain.width sc))
    else inl "output-too-large"%string.
Proof. intros sc. apply encodeSequence_spec. vm_compute. discriminate. Defined.

Lemma render_round_trip_witness :
  let sc := scenario_of asked_profile default_limits asked in
  (lines ← OracleMain.readLines (render sc) false; OracleMain.parseScenario lines) = inr sc.
Proof.
  intros sc. apply render_round_trip. apply (bool_decide_unpack _). vm_compute. exact I.
Defined.
