(* ===== verification/Transport.v ===== *)
(** * Sockets and port files

    [include/srf/transport.hpp] and [src/transport.cpp], as compiled for POSIX.  The
    operating system is the interface [Kernel]; what the code relies on of it, the
    behaviour of stream sockets that POSIX documents, is [KernelLaws].

    The loops repeat a call for as long as it would block, so they have fuel; they return
    with enough of it whenever the kernel cannot block forever. *)

From S2P Require Import Prelude.
From S2P Require Import Ids.
From S2P Require Import Segment.
From S2P Require Import Reason.
From S2P Require Import Governance.
From S2P Require Import Wire.
From S2P Require Import WireStream.

(** ** The operating system *)

(** [errno] after a failed call, as far as [would_block] tells: [EWOULDBLOCK], [EAGAIN] or
    [EINTR], or anything else. *)
Inductive Errno := Again | Broken.

(** One connected stream socket of the kernel. *)
Class Kernel (K : Type) := {
  (** [::send]: what it returns. *)
  sys_send : list Byte.byte -> K -> Z * K;
  (** [::recv] with room for so many bytes: what it returns, and the bytes written. *)
  sys_recv : Z -> K -> Z * list Byte.byte * K;
  sys_errno : K -> Errno;
  (** What the socket has taken to send, and what it still has to deliver. *)
  outgoing : K -> list Byte.byte;
  incoming : K -> list Byte.byte;
}.

Class KernelLaws (K : Type) `{Kernel K} := {
  send_takes bytes k w k' :
    sys_send bytes k = (w, k') -> 0 < w ->
    w <= size bytes /\ outgoing k' = outgoing k ++ take (Z.to_nat w) bytes;
  send_fails bytes k w k' :
    sys_send bytes k = (w, k') -> w <= 0 -> outgoing k' = outgoing k;
  recv_gives n k got bytes k' :
    sys_recv n k = (got, bytes, k') -> 0 < got ->
    size bytes = got /\ got <= n /\ incoming k = bytes ++ incoming k';
  recv_fails n k got bytes k' :
    sys_recv n k = (got, bytes, k') -> got <= 0 -> incoming k' = incoming k;
}.

Definition would_block {K} `{Kernel K} (k : K) : bool :=
  match sys_errno k with Again => true | Broken => false end.

(** ** Sockets *)
Record Socket := mkSocket { handle : Z }.

(** [Socket{}] *)
Definition empty_socket : Socket := mkSocket 0.

Definition socket_valid (s : Socket) : bool := negb (handle s =? 0).

(** [close]: the descriptors it closes. *)
Definition socket_close (s : Socket) : Socket * list Z :=
  if handle s =? 0 then (s, []) else (empty_socket, [handle s]).

(** Move construction: the new socket, and what the other is left with. *)
Definition socket_move (other : Socket) : Socket * Socket := (other, empty_socket).

(** Move assignment from another socket: both, and the descriptors it closes. *)
Definition socket_assign (s other : Socket) : Socket * Socket * list Z :=
  let '(_, closed) := socket_close s in (other, empty_socket, closed).

(** The result of [::socket], which is -1 when it fails, and whether [::bind] and
    [::listen] succeed. *)
Record ListenCalls := { lc_socket : Z; lc_bind : bool; lc_listen : bool }.

(** The socket, the result, and the descriptors closed on the way out. *)
Definition listen_loopback (io : ListenCalls) (out : ValidationResult)
  : Socket * ValidationResult * list Z :=
  let sock := lc_socket io in
  if sock =? -1 then (empty_socket, add InternalError 0 1 out, [])
  else if negb (lc_bind io) then (empty_socket, add InternalError 0 2 out, [sock])
  else if negb (lc_listen io) then (empty_socket, add InternalError 0 3 out, [sock])
  else (mkSocket sock, out, []).

(** The results of [::socket] and [::connect]. *)
Record ConnectCalls := { cc_socket : Z; cc_connect : bool }.

Definition connect_loopback (io : ConnectCalls) (out : ValidationResult)
  : Socket * ValidationResult * list Z :=
  let sock := cc_socket io in
  if sock =? -1 then (empty_socket, add InternalError 0 4 out, [])
  else if negb (cc_connect io) then (empty_socket, add InternalError 0 5 out, [sock])
  else (mkSocket sock, out, []).

(** [accepted] is the result of [::accept]. *)
Definition socket_accept (s : Socket) (accepted : Z) (out : ValidationResult)
  : Socket * ValidationResult :=
  if handle s =? 0 then (empty_socket, add InternalError 0 6 out)
  else if accepted =? -1 then (empty_socket, add InternalError 0 7 out)
  else (mkSocket accepted, out).

(** [name] is the port [::getsockname] reports, when it succeeds. *)
Definition local_port (s : Socket) (name : option Z) : Z :=
  if handle s =? 0 then 0 else match name with Some port => port | None => 0 end.

(** ** Sending and receiving *)
Definition kMaxTransfer : Z := Z.shiftl 1 20.

Section Transfer.
Context {K : Type} `{Kernel K}.

Fixpoint send_loop (fuel : nat) (bytes : list Byte.byte) (sent : Z) (k : K)
  : option (bool * K) :=
  match fuel with
  | O => None
  | S fuel =>
      if sent <? size bytes then
        let left := size bytes - sent in
        let chunk := if kMaxTransfer <? left then kMaxTransfer else left in
        let '(written, k) :=
          sys_send (take (Z.to_nat chunk) (drop (Z.to_nat sent) bytes)) k in
        if written <=? 0 then
          if would_block k then send_loop fuel bytes sent k else Some (false, k)
        else send_loop fuel bytes (sent + written) k
      else Some (true, k)
  end.

(** [send_all]; [None] when the fuel ran out. *)
Definition send_all (fuel : nat) (s : Socket) (bytes : list Byte.byte) (k : K)
  : option (bool * K) :=
  if handle s =? 0 then Some (false, k) else send_loop fuel bytes 0 k.

Fixpoint recv_loop (fuel : nat) (chunk : Z) (k : K)
  : option (option (list Byte.byte) * K) :=
  match fuel with
  | O => None
  | S fuel =>
      let '(got, bytes, k) := sys_recv chunk k in
      if got =? 0 then Some (None, k)
      else if got <? 0 then
        if would_block k then recv_loop fuel chunk k else Some (None, k)
      else Some (Some bytes, k)
  end.

(** [recv_some] into a buffer of [n] bytes: the bytes received, when it returns [true]. *)
Definition recv_some (fuel : nat) (s : Socket) (n : Z) (k : K)
  : option (option (list Byte.byte) * K) :=
  if (handle s =? 0) || (n =? 0) then Some (None, k)
  else recv_loop fuel (if kMaxTransfer <? n then kMaxTransfer else n) k.

(** The chunks a reader gets that calls [recv_some] until it returns [false]. *)
Fixpoint recv_chunks (fuel : nat) (s : Socket) (n : Z) (k : K)
  : option (list (list Byte.byte) * K) :=
  match fuel with
  | O => None
  | S fuel' =>
      match recv_some fuel s n k with
      | None => None
      | Some (None, k) => Some ([], k)
      | Some (Some chunk, k) =>
          match recv_chunks fuel' s n k with
          | None => None
          | Some (chunks, k) => Some (chunk :: chunks, k)
          end
      end
  end.
End Transfer.

(** ** Port files *)

(** [file << port << "\n"]: the decimal digits of a 16-bit value and a newline.  Five
    digits are enough. *)
Fixpoint put_decimal (fuel : nat) (z : Z) : list Byte.byte :=
  match fuel with
  | O => []
  | S fuel =>
      (if z <? 10 then [] else put_decimal fuel (z / 10)) ++ [byte.of_Z (48 + z mod 10)]
  end.

(** What happens to the port file: whether it opens, and whether the flush succeeds. *)
Record PortFileCalls := { pf_open : bool; pf_flush : bool }.

(** [write_port_file]: the answer and what the file holds, when it opened. *)
Definition write_port_file (io : PortFileCalls) (port : Z) : bool * option (list Byte.byte) :=
  if negb (pf_open io) then (false, None)
  else (pf_flush io, Some (put_decimal 5 port ++ [Byte.x0a])).

(** [file >> value] into an [unsigned int], as libstdc++ reads it: blanks are skipped, a
    sign is accepted and a minus negates within the type; no digit, or digits out of range,
    set the fail bit. *)
Definition is_blank (b : Byte.byte) : bool :=
  let v := byte.unsigned b in (v =? 32) || ((9 <=? v) && (v <=? 13)).

Fixpoint skip_blanks (l : list Byte.byte) : list Byte.byte :=
  match l with
  | b :: l' => if is_blank b then skip_blanks l' else l
  | [] => []
  end.

Definition is_decimal (b : Byte.byte) : bool :=
  let v := byte.unsigned b in (48 <=? v) && (v <=? 57).

Fixpoint get_digits (acc : Z) (l : list Byte.byte) : Z :=
  match l with
  | b :: l' => if is_decimal b then get_digits (acc * 10 + (byte.unsigned b - 48)) l' else acc
  | [] => acc
  end.

Definition get_sign (l : list Byte.byte) : bool * list Byte.byte :=
  match l with
  | b :: l' =>
      if byte.unsigned b =? 45 then (true, l')
      else if byte.unsigned b =? 43 then (false, l') else (false, l)
  | [] => (false, [])
  end.

Definition get_unsigned (l : list Byte.byte) : option Z :=
  let '(negative, l) := get_sign (skip_blanks l) in
  match l with
  | b :: _ =>
      if is_decimal b then
        let value := get_digits 0 l in
        if 2 ^ 32 <=? value then None else Some (if negative then u32 (- value) else value)
      else None
  | [] => None
  end.

(** [read_port_file]; [None] for a file that does not open. *)
Definition read_port_file (file : option (list Byte.byte)) : option Z :=
  match file with
  | None => None
  | Some content =>
      match get_unsigned content with
      | None => None
      | Some value =>
          if (value =? 0) || (65535 <? value) then None else Some (u16 value)
      end
  end.
