(* ===== verification/TransportProps.v ===== *)
(** * Correctness of the transport

    What a successful [send_all] hands to the kernel is exactly its bytes, in order, and a
    failed one a proper front of them; both loops return unless the kernel blocks forever;
    the chunks a reader gets are a cut of what the kernel had to deliver; and so the frames
    one end sends are the frames the other receives.  The port a coordinator writes is the
    port a worker reads. *)

From S2P Require Import Prelude.
From S2P Require Import Ids.
From S2P Require Import Segment.
From S2P Require Import Reason.
From S2P Require Import Governance.
From S2P Require Import Wire.
From S2P Require Import WireProps.
From S2P Require Import WireFrames.
From S2P Require Import WireStream.
From S2P Require Import Transport.

(** ** Sending *)

Section Sending.
Context {K : Type} `{KernelLaws K}.

Lemma take_app_drop {A} (n m : nat) (l : list A) :
  take n l ++ take m (drop n l) = take (n + m) l.
Proof. revert l. induction n as [|n IH]; intros [|x l]; cbn; [done..|by rewrite take_nil|]. by rewrite IH. Qed.

(** The loop adds the bytes from [sent] on, all of them when it succeeds. *)
Lemma send_loop_spec fuel bytes : forall sent k b k',
  0 <= sent <= size bytes ->
  send_loop fuel bytes sent k = Some (b, k') ->
  exists n, sent <= n <= size bytes /\ (b = true <-> n = size bytes) /\
    outgoing k' = outgoing k ++ take (Z.to_nat (n - sent)) (drop (Z.to_nat sent) bytes).
Proof.
  induction fuel as [|fuel IH]; intros sent k b k' Hs; [done|]. cbn [send_loop].
  destruct (Z.ltb_spec sent (size bytes)) as [Hlt|Hge].
  2: { intros [= <- <-]. exists sent. split_and!; [lia|lia|split; [lia|done]|].
       by rewrite Z.sub_diag, take_0, app_nil_r. }
  set (left := size bytes - sent).
  set (chunk := if kMaxTransfer <? left then kMaxTransfer else left).
  assert (0 < chunk <= left) as Hc.
  { subst chunk. destruct (Z.ltb_spec kMaxTransfer left); [|lia].
    change kMaxTransfer with 1048576 in *. lia. }
  set (piece := take (Z.to_nat chunk) (drop (Z.to_nat sent) bytes)).
  destruct (sys_send piece k) as [w k1] eqn:E.
  destruct (Z.leb_spec w 0) as [Hw|Hw].
  - pose proof (send_fails _ _ _ _ E Hw) as Ho. destruct (would_block k1).
    + intros (n & Hn & Hb & Hk)%IH; [|done]. exists n. by rewrite Hk, Ho.
    + intros [= <- <-]. exists sent. split_and!; [lia|lia|split; [done|lia]|].
      by rewrite Ho, Z.sub_diag, take_0, app_nil_r.
  - destruct (send_takes _ _ _ _ E Hw) as [Hle Ho].
    assert (size piece = chunk) as Hp.
    { subst piece. unfold size in *. rewrite length_take, length_drop. lia. }
    intros (n & Hn & Hb & Hk)%IH; [|lia]. exists n. split_and!; [lia|lia|done|].
    rewrite Hk, Ho, <-app_assoc. f_equal. subst piece.
    rewrite take_take, Nat.min_l by lia.
    replace (drop (Z.to_nat (sent + w)) bytes) with
      (drop (Z.to_nat w) (drop (Z.to_nat sent) bytes)) by (rewrite drop_drop; f_equal; lia).
    rewrite take_app_drop. f_equal. lia.
Qed.

(** The kernel answered a send of something by asking to try again. *)
Definition blocked (k' k : K) : Prop :=
  exists bytes w, sys_send bytes k = (w, k') /\ w <= 0 /\ would_block k' = true.

Lemma send_loop_more fuel bytes : forall sent k r,
  send_loop fuel bytes sent k = Some r -> forall fuel', (fuel <= fuel')%nat ->
  send_loop fuel' bytes sent k = Some r.
Proof.
  induction fuel as [|fuel IH]; intros sent k r Hr fuel' Hf; [done|].
  destruct fuel' as [|fuel']; [lia|]. cbn [send_loop] in *.
  destruct (sent <? size bytes); [|done]. destruct (sys_send _ k) as [w k1].
  destruct (w <=? 0); [destruct (would_block k1); [|done]|]; (eapply IH; [done|lia]).
Qed.

Lemma send_loop_returns bytes :
  (forall k, Acc blocked k) -> forall sent k, 0 <= sent ->
  exists fuel r, send_loop fuel bytes sent k = Some r.
Proof.
  intros Hacc sent. remember (Z.to_nat (size bytes - sent)) as n eqn:Hn. revert sent Hn.
  induction n as [n IHn] using (well_founded_induction lt_wf). intros sent Hn k Hs.
  induction (Hacc k) as [k _ IHk].
  destruct (Z.ltb_spec sent (size bytes)) as [Hlt|Hge].
  2: { exists 1%nat. eexists. cbn [send_loop].
       destruct (Z.ltb_spec sent (size bytes)); [lia|done]. }
  set (left := size bytes - sent).
  set (chunk := if kMaxTransfer <? left then kMaxTransfer else left).
  set (piece := take (Z.to_nat chunk) (drop (Z.to_nat sent) bytes)).
  destruct (sys_send piece k) as [w k1] eqn:E.
  assert (forall fuel, send_loop (S fuel) bytes sent k =
    if w <=? 0 then if would_block k1 then send_loop fuel bytes sent k1 else Some (false, k1)
    else send_loop fuel bytes (sent + w) k1) as Hstep.
  { intros fuel. cbn [send_loop]. destruct (Z.ltb_spec sent (size bytes)); [|lia].
    fold left. fold chunk. fold piece. by rewrite E. }
  destruct (Z.leb_spec w 0) as [Hw|Hw].
  - destruct (would_block k1) eqn:Hb.
    + destruct (IHk k1) as (fuel & r & Hr); [by exists piece, w|].
      exists (S fuel), r. by rewrite Hstep.
    + exists 1%nat, (false, k1). by rewrite Hstep.
  - destruct (IHn (Z.to_nat (size bytes - (sent + w))) ltac:(lia) (sent + w) eq_refl k1
      ltac:(lia)) as (fuel & r & Hr).
    exists (S fuel), r. by rewrite Hstep.
Qed.
End Sending.

(** ** Receiving *)

Section Receiving.
Context {K : Type} `{KernelLaws K}.

Lemma recv_loop_spec fuel chunk : forall k r k',
  recv_loop fuel chunk k = Some (r, k') ->
  match r with
  | Some bytes => 0 < size bytes <= chunk /\ incoming k = bytes ++ incoming k'
  | None => incoming k' = incoming k
  end.
Proof.
  induction fuel as [|fuel IH]; intros k r k'; [done|]. cbn [recv_loop].
  destruct (sys_recv chunk k) as [[got bytes] k1] eqn:E.
  destruct (Z.eqb_spec got 0) as [Hz|Hz].
  { intros [= <- <-]. eapply recv_fails; [exact E|lia]. }
  destruct (Z.ltb_spec got 0) as [Hn|Hn].
  - assert (incoming k1 = incoming k) as Hi by (eapply recv_fails; [exact E|lia]).
    destruct (would_block k1); [|by intros [= <- <-]].
    intros Hr%IH. by rewrite <-Hi.
  - intros [= <- <-]. destruct (recv_gives _ _ _ _ _ E ltac:(lia)) as (Hs & Hl & Hi).
    split; [lia|done].
Qed.

Lemma recv_some_spec fuel s n k r k' :
  recv_some fuel s n k = Some (r, k') ->
  match r with
  | Some bytes => 0 < size bytes <= n /\ incoming k = bytes ++ incoming k'
  | None => incoming k' = incoming k
  end.
Proof.
  unfold recv_some. destruct (_ || _); [by intros [= <- <-]|].
  intros Hr%recv_loop_spec. destruct r; [|done]. destruct Hr as [Hs Hi]. split; [|done].
  destruct (Z.ltb_spec kMaxTransfer n); lia.
Qed.

(** The chunks of a reader are a cut of what arrived, none of them empty. *)
Lemma recv_chunks_spec fuel s n : forall k chunks k',
  recv_chunks fuel s n k = Some (chunks, k') ->
  incoming k = concat chunks ++ incoming k' /\
  Forall (fun c => 0 < size c <= n) chunks.
Proof.
  induction fuel as [|fuel IH]; intros k chunks k'; [done|]. cbn [recv_chunks].
  destruct (recv_some (S fuel) s n k) as [[[chunk|] k1]|] eqn:E; [| |done];
    apply recv_some_spec in E.
  - destruct (recv_chunks fuel s n k1) as [[cs k2]|] eqn:Ec; [|done].
    intros [= <- <-]. destruct E as [Hs Hi]. apply IH in Ec as [Hi' Hc].
    split; [cbn [concat]; by rewrite Hi, Hi', app_assoc|by apply list.Forall_cons_2].
  - intros [= <- <-]. split; [by rewrite E|apply list.Forall_nil_2].
Qed.
(** The kernel answered a read by asking to try again. *)
Definition starved (k' k : K) : Prop :=
  exists n got bytes, sys_recv n k = (got, bytes, k') /\ got < 0 /\ would_block k' = true.

Lemma recv_loop_more fuel chunk : forall k r,
  recv_loop fuel chunk k = Some r -> forall fuel', (fuel <= fuel')%nat ->
  recv_loop fuel' chunk k = Some r.
Proof.
  induction fuel as [|fuel IH]; intros k r Hr fuel' Hf; [done|].
  destruct fuel' as [|fuel']; [lia|]. cbn [recv_loop] in *.
  destruct (sys_recv chunk k) as [[got bytes] k1].
  destruct (got =? 0); [done|]. destruct (got <? 0); [|done].
  destruct (would_block k1); [|done]. eapply IH; [done|lia].
Qed.

Lemma recv_some_more fuel s n k r :
  recv_some fuel s n k = Some r -> forall fuel', (fuel <= fuel')%nat ->
  recv_some fuel' s n k = Some r.
Proof. unfold recv_some. destruct (_ || _); [done|]. apply recv_loop_more. Qed.

Lemma recv_chunks_more fuel s n : forall k r,
  recv_chunks fuel s n k = Some r -> forall fuel', (fuel <= fuel')%nat ->
  recv_chunks fuel' s n k = Some r.
Proof.
  induction fuel as [|fuel IH]; intros k r Hr fuel' Hf; [done|].
  destruct fuel' as [|fuel']; [lia|]. cbn [recv_chunks] in *.
  destruct (recv_some (S fuel) s n k) as [[c k1]|] eqn:E; [|done].
  rewrite (recv_some_more _ _ _ _ _ E (S fuel')) by lia. destruct c as [c|]; [|done].
  destruct (recv_chunks fuel s n k1) as [[cs k2]|] eqn:Ec; [|done].
  by rewrite (IH _ _ Ec fuel') by lia.
Qed.

Lemma recv_some_returns s n :
  (forall k, Acc starved k) -> forall k, exists fuel r, recv_some fuel s n k = Some r.
Proof.
  intros Hacc k. unfold recv_some. destruct (_ || _); [by exists 0%nat; eexists|].
  generalize (if kMaxTransfer <? n then kMaxTransfer else n). intros chunk.
  induction (Hacc k) as [k _ IHk].
  destruct (sys_recv chunk k) as [[got bytes] k1] eqn:E.
  assert (forall fuel, recv_loop (S fuel) chunk k =
    if got =? 0 then Some (None, k1)
    else if got <? 0 then
      if would_block k1 then recv_loop fuel chunk k1 else Some (None, k1)
    else Some (Some bytes, k1)) as Hstep by (intros fuel; cbn [recv_loop]; by rewrite E).
  destruct (got =? 0); [by exists 1%nat; eexists; rewrite Hstep|].
  destruct (Z.ltb_spec got 0); [|by exists 1%nat; eexists; rewrite Hstep].
  destruct (would_block k1) eqn:Hb; [|by exists 1%nat; eexists; rewrite Hstep].
  destruct (IHk k1) as (fuel & r & Hr); [by exists chunk, got, bytes|].
  exists (S fuel), r. by rewrite Hstep.
Qed.

(** A reader reaches the end of a stream whenever the kernel cannot ask to try again
    forever: each chunk shortens what is left to deliver. *)
Theorem recv_chunks_returns s n :
  (forall k, Acc starved k) -> forall k,
  exists fuel r, forall fuel', (fuel <= fuel')%nat -> recv_chunks fuel' s n k = Some r.
Proof.
  intros Hacc k. cut (exists fuel r, recv_chunks fuel s n k = Some r).
  { intros (fuel & r & Hr). exists fuel, r. by apply recv_chunks_more. }
  remember (length (incoming k)) as m eqn:Hm. revert k Hm.
  induction m as [m IH] using (well_founded_induction lt_wf). intros k Hm.
  destruct (recv_some_returns s n Hacc k) as (fuel & [[c|] k1] & Hr).
  2: { exists (S fuel). eexists. cbn [recv_chunks].
       by rewrite (recv_some_more _ _ _ _ _ Hr (S fuel)) by lia. }
  destruct (recv_some_spec _ _ _ _ _ _ Hr) as [Hs Hi].
  apply (f_equal length) in Hi. rewrite length_app in Hi. unfold size in Hs.
  destruct (IH (length (incoming k1)) ltac:(lia) k1 eq_refl) as (fuel2 & [cs k2] & Hc).
  exists (S (fuel + fuel2)), (c :: cs, k2). cbn [recv_chunks].
  rewrite (recv_some_more _ _ _ _ _ Hr (S (fuel + fuel2))) by lia.
  by rewrite (recv_chunks_more _ _ _ _ _ Hc (fuel + fuel2)%nat) by lia.
Qed.
End Receiving.

(** ** The whole transfer *)

Section Transfer.
Context {K : Type} `{KernelLaws K}.

Lemma send_loop_all fuel s bytes k k' :
  send_all fuel s bytes k = Some (true, k') ->
  outgoing k' = outgoing k ++ bytes /\ socket_valid s = true.
Proof.
  unfold send_all, socket_valid. destruct (Z.eqb_spec (handle s) 0) as [Hh|Hh]; [done|].
  intros Hs. pose proof (size_nonneg bytes).
  destruct (send_loop_spec fuel bytes 0 k true k' ltac:(lia) Hs) as (n & Hn & Hb & Ho).
  split; [|done]. rewrite (proj1 Hb eq_refl), Z.sub_0_r, drop_0 in Ho.
  unfold size in Ho. by rewrite Nat2Z.id, firstn_all in Ho.
Qed.

(** A successful send hands over exactly the bytes; a failed one a front of them, and all
    of them only for want of a socket. *)
Theorem send_all_spec fuel s bytes k b k' :
  send_all fuel s bytes k = Some (b, k') ->
  exists n, 0 <= n <= size bytes /\ outgoing k' = outgoing k ++ take (Z.to_nat n) bytes /\
    (b = true -> n = size bytes /\ socket_valid s = true) /\
    (b = false -> n < size bytes \/ socket_valid s = false).
Proof.
  unfold send_all, socket_valid. destruct (Z.eqb_spec (handle s) 0) as [Hh|Hh].
  - intros [= <- <-]. exists 0. pose proof (size_nonneg bytes).
    rewrite take_0, app_nil_r. split_and!; try lia; try done.
  - intros Hs. pose proof (size_nonneg bytes).
    destruct (send_loop_spec fuel bytes 0 k b k' ltac:(lia) Hs) as (n & Hn & Hb & Ho).
    rewrite Z.sub_0_r, drop_0 in Ho. exists n. split_and!; try lia; try done.
    + intros ->. split; [by apply Hb|done].
    + intros ->. left. destruct (decide (n = size bytes)) as [E|]; [|lia].
      by apply Hb in E.
Qed.

Lemma send_all_more fuel s bytes k r :
  send_all fuel s bytes k = Some r -> forall fuel', (fuel <= fuel')%nat ->
  send_all fuel' s bytes k = Some r.
Proof. unfold send_all. destruct (_ =? _); [done|]. apply send_loop_more. Qed.

(** A send returns whenever the kernel cannot ask to try again forever. *)
Lemma send_all_eventually s bytes k :
  (forall k, Acc blocked k) ->
  exists fuel r, forall fuel', (fuel <= fuel')%nat -> send_all fuel' s bytes k = Some r.
Proof.
  intros Hacc. unfold send_all. destruct (handle s =? 0); [by exists 0%nat; eexists|].
  destruct (send_loop_returns bytes Hacc 0 k ltac:(lia)) as (fuel & r & Hr).
  exists fuel, r. by apply send_loop_more.
Qed.
End Transfer.

(** What a reader is delivered, when it drains the bytes of a list of frames. *)
Lemma chunks_are_frames `{KernelLaws K} limits fs fuel s n (q q' : K) chunks :
  Forall (frame_wire limits) fs -> incoming q = concat (map frame_bytes fs) ->
  recv_chunks fuel s n q = Some (chunks, q') -> incoming q' = [] ->
  let '(received, a) := receive limits chunks new_assembler in
  received = fs /\ fa_buffer a = [] /\ fa_overflowed a = false.
Proof.
  intros Hfs Hline Hr Hend. apply recv_chunks_spec in Hr as [Hi _].
  rewrite Hline, Hend, app_nil_r in Hi.
  pose proof (receive_stream limits chunks) as Hrs.
  pose proof (stream_frames limits fs [] Hfs) as Hst. rewrite app_nil_r in Hst.
  rewrite <-Hi, Hst in Hrs. destruct (receive limits chunks new_assembler) as [hs a].
  change (stream limits []) with (@nil Frame, new_assembler) in Hrs. cbv beta iota in Hrs.
  rewrite app_nil_r in Hrs. destruct Hrs as [-> [Ho Hb]]. cbn in Ho, Hb.
  split_and!; [done|by apply Hb|done].
Qed.

(** C31: The frames of a list, sent on one socket and read from the other until the end of the
    stream.  When neither kernel can make its caller wait forever, both ends return; and
    when the send reports success and the line carries the bytes to a reader that drains
    it, the frames received are exactly the frames sent, in order, whatever pieces the
    kernels made of them, and nothing is left in the assembler. *)
Theorem frames_arrive {K K'} `{KernelLaws K} `{KernelLaws K'} limits fs s (k : K) :
  (forall k : K, Acc blocked k) -> (forall q : K', Acc starved q) ->
  Forall (frame_wire limits) fs -> outgoing k = [] ->
  exists sent k', (exists fuel, forall fuel', (fuel <= fuel')%nat ->
    send_all fuel' s (concat (map frame_bytes fs)) k = Some (sent, k')) /\
  (sent = true -> forall s' n (q : K'), incoming q = outgoing k' ->
    exists chunks q', (exists fuel, forall fuel', (fuel <= fuel')%nat ->
      recv_chunks fuel' s' n q = Some (chunks, q')) /\
    (incoming q' = [] ->
      let '(received, a) := receive limits chunks new_assembler in
      received = fs /\ fa_buffer a = [] /\ fa_overflowed a = false)).
Proof.
  intros Hsend Hrecv Hfs Hk.
  destruct (send_all_eventually s (concat (map frame_bytes fs)) k Hsend)
    as (fuel & [sent k'] & Hs).
  exists sent, k'. split; [by exists fuel|]. intros -> s' n q Hq.
  destruct (send_loop_all (K:=K) _ _ _ _ _ (Hs fuel ltac:(done))) as [Hout _].
  rewrite Hk in Hout. cbn [app] in Hout.
  destruct (recv_chunks_returns s' n Hrecv q) as (fuel2 & [chunks q'] & Hr).
  exists chunks, q'. split; [by exists fuel2|]. intros Hend.
  apply (chunks_are_frames limits fs fuel2 s' n q q'); [done|congruence|by apply Hr|done].
Qed.

(** ** Sockets own their descriptors *)

(** A listener is opened on the descriptor it was given, or the descriptor is closed. *)
Lemma listen_loopback_spec io out :
  let '(s, out', closed) := listen_loopback io out in
  (out' = out /\ handle s = lc_socket io /\ closed = []) \/
  (socket_valid s = false /\ (lc_socket io <> -1 -> closed = [lc_socket io])).
Proof.
  unfold listen_loopback. destruct (Z.eqb_spec (lc_socket io) (-1)); [by right|].
  destruct (lc_bind io); cbn [negb]; [|by right].
  destruct (lc_listen io); cbn [negb]; [by left|by right].
Qed.

(** Descriptor zero is a descriptor, but not to a [Socket]: it is neither usable nor ever
    closed. *)
Example descriptor_zero_is_lost out :
  let io := {| lc_socket := 0; lc_bind := true; lc_listen := true |} in
  let '(s, _, closed) := listen_loopback io out in
  socket_valid s = false /\ closed = [] /\ (socket_close s).2 = [].
Proof. done. Qed.

(** After a close nothing is left to close, and a moved-from socket owns nothing. *)
Lemma socket_close_once s : socket_close (socket_close s).1 = ((socket_close s).1, []).
Proof. unfold socket_close. destruct (handle s =? 0) eqn:E; [cbn; by rewrite E|done]. Qed.

(** ** Port files *)

Lemma decimal_digit d : 0 <= d < 10 -> byte.unsigned (byte.of_Z (48 + d)) = 48 + d.
Proof. intros. rewrite byte.unsigned_of_Z. apply Z.mod_small. lia. Qed.

Lemma get_digits_app ds tl : forall acc,
  Forall (fun b => is_decimal b = true) ds ->
  get_digits acc (ds ++ tl) = get_digits (get_digits acc ds) tl.
Proof.
  induction ds as [|b ds IH]; intros acc H; [done|].
  apply list.Forall_cons in H as [Hb H]. cbn [app get_digits]. by rewrite Hb, IH.
Qed.

Lemma put_decimal_spec fuel : forall z, 0 <= z < 10 ^ Z.of_nat fuel ->
  Forall (fun b => is_decimal b = true) (put_decimal fuel z) /\
  get_digits 0 (put_decimal fuel z) = z /\ (fuel <> 0%nat -> put_decimal fuel z <> []).
Proof.
  induction fuel as [|fuel IH]; intros z Hz.
  { cbn in Hz. split_and!; [constructor|cbn; lia|done]. }
  rewrite Nat2Z.inj_succ, Z.pow_succ_r in Hz by lia. cbn [put_decimal].
  pose proof (Z.mod_pos_bound z 10 ltac:(lia)) as Hm.
  pose proof (decimal_digit _ Hm) as Hd. pose proof (Z.div_mod z 10 ltac:(lia)) as Hdm.
  set (last := byte.of_Z (48 + z mod 10)) in *.
  assert (is_decimal last = true) as Hl.
  { unfold is_decimal. rewrite Hd. apply andb_true_iff. rewrite !Z.leb_le. lia. }
  destruct (Z.ltb_spec z 10).
  - cbn [app]. split_and!; [by apply list.Forall_singleton| |done].
    cbn [get_digits]. rewrite Hl, Hd, Z.mod_small by lia. lia.
  - destruct (IH (z / 10)) as (Hf & Hn & _).
    { split; [apply Z.div_pos; lia|apply Z.div_lt_upper_bound; lia]. }
    split_and!.
    + apply Forall_app. split; [done|by apply list.Forall_singleton].
    + rewrite get_digits_app by done. rewrite Hn. cbn [get_digits]. rewrite Hl, Hd. lia.
    + by destruct (put_decimal fuel (z / 10)).
Qed.

(** A numeral starts with neither a blank nor a sign. *)
Lemma skip_blanks_digit b l : is_decimal b = true -> skip_blanks (b :: l) = b :: l.
Proof.
  unfold is_decimal. rewrite andb_true_iff, !Z.leb_le. intros Hb. cbn [skip_blanks].
  unfold is_blank. destruct (Z.eqb_spec (byte.unsigned b) 32); [lia|].
  destruct (Z.leb_spec (byte.unsigned b) 13); [lia|]. by rewrite andb_false_r.
Qed.

Lemma get_sign_digit b l : is_decimal b = true -> get_sign (b :: l) = (false, b :: l).
Proof.
  unfold is_decimal. rewrite andb_true_iff, !Z.leb_le. intros Hb. cbn [get_sign].
  destruct (Z.eqb_spec (byte.unsigned b) 45); [lia|].
  by destruct (Z.eqb_spec (byte.unsigned b) 43); [lia|].
Qed.

(** The port a coordinator publishes is the port a worker reads. *)
Theorem port_file_round_trip io port :
  0 < port < 65536 -> pf_open io = true ->
  read_port_file (write_port_file io port).2 = Some port.
Proof.
  intros Hp Ho. unfold write_port_file. rewrite Ho. cbn [negb snd read_port_file].
  destruct (put_decimal_spec 5 port) as (Hf & Hn & Hne).
  { change (10 ^ Z.of_nat 5) with 100000. lia. }
  unfold get_unsigned. destruct (put_decimal 5 port) as [|b ds] eqn:E; [by specialize (Hne ltac:(done))|].
  apply list.Forall_cons in Hf as [Hb Hf]. change ((b :: ds) ++ [Byte.x0a]) with (b :: ds ++ [Byte.x0a]).
  rewrite skip_blanks_digit, get_sign_digit by done. cbv beta iota. rewrite Hb.
  change (b :: ds ++ [Byte.x0a]) with ((b :: ds) ++ [Byte.x0a]).
  assert (get_digits 0 ((b :: ds) ++ [Byte.x0a]) = port) as Hg.
  { rewrite get_digits_app by (by apply list.Forall_cons_2). by rewrite Hn. }
  rewrite Hg.
  destruct (Z.leb_spec (2 ^ 32) port); [lia|].
  destruct (Z.eqb_spec port 0); [lia|]. destruct (Z.ltb_spec 65535 port); [lia|].
  cbn [orb]. f_equal. apply wrap_small. unfold fits. lia.
Qed.
