(* ===== verification/Process.v ===== *)
(** * Child processes and bounded waiting

    [include/srf/process.hpp] and [src/process.cpp], as compiled for POSIX.  The operating
    system's process table is the interface [Processes]; [ProcessLaws] states what POSIX
    documents of it.  [wait_until] is a loop over a predicate that may change the state it
    looks at, with the thread's sleep as a step of that state. *)

From S2P Require Import Prelude.
From S2P Require Import Ids.
From S2P Require Import Segment.
From S2P Require Import Reason.
From S2P Require Import Governance.

(** ** The operating system *)

(** The flag of [waitpid]. *)
Inductive WaitFlag := Blocking | NoHang.

Class Processes (K : Type) := {
  (** [posix_spawn] of an executable with an argument vector: the error number, and the
      process identifier when it is 0. *)
  sys_spawn : String.string -> list String.string -> K -> Z * Z * K;
  (** [waitpid]: what it returns, and the status it stores. *)
  sys_waitpid : WaitFlag -> Z -> K -> Z * Z * K;
  (** [kill] with [SIGKILL]. *)
  sys_kill : Z -> K -> K;
  (** [WIFEXITED] and [WEXITSTATUS] of a status. *)
  exit_status : Z -> option Z;
}.

(** A process identifier is positive; [waitpid] answers with the identifier it was given,
    with 0 for a child that has not changed state, which only the flag allows, or with -1;
    and a child that has been waited for is a child no more. *)
Class ProcessLaws (K : Type) `{Processes K} := {
  spawn_positive exe args k pid k' : sys_spawn exe args k = (0, pid, k') -> 0 < pid;
  waitpid_answers flag pid k r st k' :
    sys_waitpid flag pid k = (r, st, k') -> r = pid \/ r = -1 \/ (r = 0 /\ flag = NoHang);
  waitpid_reaps flag pid k st k' flag' r st' k'' :
    0 < pid -> sys_waitpid flag pid k = (pid, st, k') ->
    sys_waitpid flag' pid k' = (r, st', k'') -> r = -1;
}.

(** ** Children *)
Record ChildProcess := mkChild { cp_handle : Z; cp_pid : Z }.

(** [ChildProcess{}] *)
Definition no_child : ChildProcess := mkChild 0 0.

Definition child_started (c : ChildProcess) : bool := negb (cp_handle c =? 0).

Definition child_move (other : ChildProcess) : ChildProcess * ChildProcess :=
  (other, no_child).

(** Move assignment from another child: outside Windows nothing is done about the child
    that is overwritten. *)
Definition child_assign (c other : ChildProcess) : ChildProcess * ChildProcess :=
  (other, no_child).

Section Child.
Context {K : Type} `{Processes K}.

Definition child_spawn (executable : String.string) (arguments : list String.string)
    (out : ValidationResult) (k : K) : ChildProcess * ValidationResult * K :=
  let '(rc, pid, k) := sys_spawn executable (executable :: arguments) k in
  if negb (rc =? 0) then (no_child, add InternalError 0 (u64 rc) out, k)
  else (mkChild (u64 pid) (u64 pid), out, k).

(** The destructor. *)
Definition child_drop (c : ChildProcess) (k : K) : K :=
  if negb (cp_handle c =? 0) then
    let '(_, _, k) := sys_waitpid NoHang (cp_pid c) k in k
  else k.

Definition child_running (c : ChildProcess) (k : K) : bool * K :=
  if cp_handle c =? 0 then (false, k)
  else let '(r, _, k) := sys_waitpid NoHang (cp_pid c) k in (r =? 0, k).

Definition child_kill (c : ChildProcess) (k : K) : K :=
  if cp_handle c =? 0 then k else sys_kill (cp_pid c) k.

Definition child_wait (c : ChildProcess) (k : K) : Z * K :=
  if cp_handle c =? 0 then (-1, k)
  else
    let '(r, status, k) := sys_waitpid Blocking (cp_pid c) k in
    if r <? 0 then (-1, k)
    else match exit_status status with Some code => (code, k) | None => (-1, k) end.
End Child.

(** ** Bounded waiting *)
Section Waiting.
Context {S : Type} (predicate : S -> bool * S) (sleep : Z -> S -> S).

(** The loop, from [elapsed] milliseconds on; [None] when the fuel ran out. *)
Fixpoint wait_loop (fuel : nat) (bound_milliseconds elapsed : Z) (s : S) : option (bool * S) :=
  match fuel with
  | O => None
  | Datatypes.S fuel =>
      let '(b, s) := predicate s in
      if b then Some (true, s)
      else if bound_milliseconds <=? elapsed then Some (predicate s)
      else wait_loop fuel bound_milliseconds (u32 (elapsed + 5)) (sleep 5 s)
  end.

(** [wait_until]; enough fuel for every bound is shown below. *)
Definition wait_until (bound_milliseconds : Z) (s : S) : option (bool * S) :=
  wait_loop (Z.to_nat (bound_milliseconds / 5 + 2)) bound_milliseconds 0 s.

(** The state in which the predicate is asked for the [n]-th time, when it always refuses. *)
Fixpoint polled (n : nat) (s : S) : S :=
  match n with
  | O => s
  | Datatypes.S n => polled n (sleep 5 (predicate s).2)
  end.

(** How often the predicate is asked at most before the last question. *)
Definition polls (bound_milliseconds : Z) : nat := Z.to_nat ((bound_milliseconds + 4) / 5).

(** The loop refuses exactly when the predicate does in every state the polling passes
    through, and asks the predicate once more in the last: every 32-bit count of elapsed
    milliseconds the loop reaches is a multiple of five and the largest 32-bit integer is
    one, so it passes any bound before it could wrap around. *)
Lemma wait_loop_spec bound n : forall fuel i s,
  fits 32 bound -> 0 <= i -> polls bound = (Z.to_nat i + n)%nat -> (n < fuel)%nat ->
  exists b s', wait_loop fuel bound (5 * i) s = Some (b, s') /\
    (b = false <->
      (forall j, (j <= n)%nat -> (predicate (polled j s)).1 = false) /\
      (predicate (predicate (polled n s)).2).1 = false).
Proof.
  unfold polls, fits. induction n as [|n IH]; intros fuel i s Hb Hi Hn Hf;
    (destruct fuel as [|fuel]; [lia|]); cbn [wait_loop];
    destruct (predicate s) as [b s1] eqn:E.
  - destruct b.
    { exists true, s1. split; [done|]. split; [done|]. intros [H _].
      specialize (H 0%nat ltac:(lia)). cbn in H. by rewrite E in H. }
    destruct (Z.leb_spec bound (5 * i)).
    2: { exfalso. pose proof (Z.div_mod (bound + 4) 5 ltac:(lia)).
         pose proof (Z.mod_pos_bound (bound + 4) 5 ltac:(lia)). lia. }
    destruct (predicate s1) as [b2 s2] eqn:E2. exists b2, s2. split; [done|].
    cbn [polled]. rewrite E. cbn [snd]. rewrite E2. cbn [fst]. split; [|by intros [_ ?]].
    intros ->. split; [|done]. intros j Hj. replace j with 0%nat by lia. cbn. by rewrite E.
  - destruct b.
    { exists true, s1. split; [done|]. split; [done|]. intros [H _].
      specialize (H 0%nat ltac:(lia)). cbn in H. by rewrite E in H. }
    pose proof (Z.div_mod (bound + 4) 5 ltac:(lia)).
    pose proof (Z.mod_pos_bound (bound + 4) 5 ltac:(lia)).
    destruct (Z.leb_spec bound (5 * i)); [exfalso; lia|].
    assert (u32 (5 * i + 5) = 5 * (i + 1)) as ->.
    { rewrite Z.mul_add_distr_l. apply wrap_small. unfold fits. lia. }
    destruct (IH fuel (i + 1) (sleep 5 s1) Hb ltac:(lia) ltac:(lia) ltac:(lia))
      as (b & s' & -> & Hiff).
    exists b, s'. split; [done|]. rewrite Hiff. cbn [polled]. rewrite E. cbn [snd].
    split; intros [Ha Hl]; (split; [|done]).
    + intros [|j] Hj; cbn [polled]; rewrite E; [done|]. cbn [snd]. apply Ha. lia.
    + intros j Hj. specialize (Ha (Datatypes.S j) ltac:(lia)). cbn [polled] in Ha.
      by rewrite E in Ha.
Qed.

(** Waiting returns for every 32-bit bound, and reports failure exactly when the predicate
    was asked every five milliseconds up to the bound, and once more at the end, and always
    refused. *)
Theorem wait_until_bounded bound s :
  fits 32 bound ->
  exists b s', wait_until bound s = Some (b, s') /\
    (b = false <->
      (forall j, (j <= polls bound)%nat -> (predicate (polled j s)).1 = false) /\
      (predicate (predicate (polled (polls bound) s)).2).1 = false).
Proof.
  intros Hb. apply (wait_loop_spec bound (polls bound) _ 0 s Hb); [lia|done|].
  unfold polls, fits in *.
  assert ((bound + 4) / 5 < bound / 5 + 2).
  { apply Z.div_lt_upper_bound; [lia|].
    pose proof (Z.div_mod bound 5 ltac:(lia)). pose proof (Z.mod_pos_bound bound 5 ltac:(lia)). lia. }
  pose proof (Z.div_pos (bound + 4) 5 ltac:(lia) ltac:(lia)). lia.
Qed.
End Waiting.

(** ** Waiting for a child *)
Section Reaping.
Context {K : Type} `{ProcessLaws K}.

(** A child that was spawned is started, under its process identifier; otherwise nothing
    is, and the error number is reported. *)
Lemma child_spawn_spec executable arguments out (k : K) :
  (forall rc pid k', sys_spawn executable (executable :: arguments) k = (rc, pid, k') ->
    fits 64 rc /\ fits 64 pid) ->
  let '(c, out', k') := child_spawn executable arguments out k in
  if child_started c then
    out' = out /\ sys_spawn executable (executable :: arguments) k = (0, cp_pid c, k')
  else exists rc pid, rc <> 0 /\ out' = add InternalError 0 rc out /\
    sys_spawn executable (executable :: arguments) k = (rc, pid, k').
Proof.
  intros Hfit. unfold child_spawn.
  destruct (sys_spawn executable (executable :: arguments) k) as [[rc pid] k1] eqn:E.
  destruct (Hfit _ _ _ eq_refl) as [Hr Hp].
  destruct (Z.eqb_spec rc 0) as [->|Hz]; cbn [negb].
  - unfold child_started. cbn [cp_handle cp_pid]. rewrite (wrap_small 64 pid) by done.
    pose proof (spawn_positive _ _ _ _ _ E). destruct (Z.eqb_spec pid 0); [lia|done].
  - cbn. exists rc, pid. by rewrite (wrap_small 64 rc).
Qed.

(** The exit code of a child that has ended is told once: a call of [child_running] that
    notices the end takes it, and [child_wait] reports -1 from then on. *)
Theorem running_takes_the_exit_code c (k : K) :
  child_started c = true -> 0 < cp_pid c ->
  forall st k', sys_waitpid NoHang (cp_pid c) k = (cp_pid c, st, k') ->
  child_running c k = (false, k') /\ (child_wait c k').1 = -1.
Proof.
  unfold child_started, child_running, child_wait. intros Hs Hp st k' E.
  destruct (cp_handle c =? 0); [done|]. rewrite E. split.
  - by destruct (Z.eqb_spec (cp_pid c) 0); [lia|].
  - destruct (sys_waitpid Blocking (cp_pid c) k') as [[r st'] k2] eqn:E2.
    by rewrite (waitpid_reaps _ _ _ _ _ _ _ _ _ Hp E E2).
Qed.

(** A wait reports the exit code of a child that exits, and -1 for one that a signal
    ended. *)
Lemma child_wait_spec c (k : K) :
  child_started c = true -> 0 < cp_pid c ->
  let '(r, st, k') := sys_waitpid Blocking (cp_pid c) k in
  child_wait c k = (if r =? cp_pid c then default (-1) (exit_status st) else -1, k').
Proof.
  unfold child_started, child_wait. intros Hs Hp. destruct (cp_handle c =? 0); [done|].
  destruct (sys_waitpid Blocking (cp_pid c) k) as [[r st] k'] eqn:E.
  destruct (waitpid_answers _ _ _ _ _ _ E) as [->|[->|[_ [=]]]].
  - rewrite Z.eqb_refl. destruct (Z.ltb_spec (cp_pid c) 0); [lia|].
    by destruct (exit_status st).
  - destruct (Z.eqb_spec (-1) (cp_pid c)); [lia|done].
Qed.
End Reaping.
