(* ===== verification/TransportWitnesses.v ===== *)
(** * Witnesses of the transport and of the processes

    Concrete kernels, for the interfaces [Kernel] and [Processes] and their laws, and runs
    of the code over them. *)

From S2P Require Import Prelude.
From S2P Require Import Ids.
From S2P Require Import Segment.
From S2P Require Import Reason.
From S2P Require Import Governance.
From S2P Require Import Wire.
From S2P Require Import WireProps.
From S2P Require Import WireFrames.
From S2P Require Import WireStream.
From S2P Require Import Coordinator.
From S2P Require Import CoordinatorWitnesses.
From S2P Require Import Transport.
From S2P Require Import TransportProps.
From S2P Require Import Process.

(** ** A slow kernel: it refuses every other call, and moves at most seven bytes *)
Record SlowKernel := mkSlow {
  sk_out : list Byte.byte; sk_in : list Byte.byte; sk_busy : bool; sk_errno : Errno;
}.

Definition slow_send (bytes : list Byte.byte) (k : SlowKernel) : Z * SlowKernel :=
  if sk_busy k then (-1, mkSlow (sk_out k) (sk_in k) false Again)
  else
    let piece := take 7 bytes in
    (size piece, mkSlow (sk_out k ++ piece) (sk_in k) true Broken).

Definition slow_recv (n : Z) (k : SlowKernel) : Z * list Byte.byte * SlowKernel :=
  if sk_busy k then (-1, [], mkSlow (sk_out k) (sk_in k) false Again)
  else
    let piece := take (Z.to_nat (Z.min 7 n)) (sk_in k) in
    (size piece, piece,
     mkSlow (sk_out k) (drop (Z.to_nat (Z.min 7 n)) (sk_in k)) true Broken).

#[export] Instance slow_kernel : Kernel SlowKernel := {|
  sys_send := slow_send; sys_recv := slow_recv; sys_errno := sk_errno;
  outgoing := sk_out; incoming := sk_in;
|}.

#[export] Instance slow_kernel_laws : KernelLaws SlowKernel.
Proof.
  split; intros *; cbn -[Z.of_nat take drop]; unfold slow_send, slow_recv; destruct (sk_busy _).
  - intros [= <- <-] ?. lia.
  - intros [= <- <-] _. cbn [sk_out]. unfold size. rewrite length_take, Nat2Z.id.
    split; [lia|]. f_equal. by destruct (Nat.min_spec 7 (length bytes)) as [[? ->]|[? ->]];
      [|rewrite !take_ge by lia].
  - by intros [= <- <-] _.
  - intros [= <- <-] Hw. cbn [sk_out]. unfold size in Hw.
    destruct (take 7 bytes); [by rewrite app_nil_r|cbn in Hw; lia].
  - intros [= <- <- <-] ?. lia.
  - intros [= <- <- <-] Hg. cbn [sk_in]. rewrite take_drop. split; [done|].
    split; [|done]. unfold size in *. rewrite length_take in *. lia.
  - by intros [= <- <- <-] _.
  - intros [= <- <- <-] Hg. cbn [sk_in]. unfold size in Hg.
    destruct (take _ (sk_in k)) eqn:E; [|cbn in Hg; lia].
    pose proof (take_drop (Z.to_nat (Z.min 7 n)) (sk_in k)) as Ht. by rewrite E in Ht.
Qed.

(** It never refuses twice in a row. *)
Lemma slow_refuses_once k : Acc blocked (k : SlowKernel).
Proof.
  assert (forall k : SlowKernel, sk_busy k = false -> Acc blocked k) as Hfree.
  { intros k0 Hb. constructor. intros k1 (bytes & w & E & Hw & Hblock). cbn in E.
    unfold slow_send in E. rewrite Hb in E. by injection E as <- <-. }
  destruct (sk_busy k) eqn:Hb; [|by apply Hfree].
  constructor. intros k1 (bytes & w & E & _). cbn in E. unfold slow_send in E.
  rewrite Hb in E. injection E as <- <-. by apply Hfree.
Qed.

Lemma slow_starves_once k : Acc starved (k : SlowKernel).
Proof.
  assert (forall k : SlowKernel, sk_busy k = false -> Acc starved k) as Hfree.
  { intros k0 Hb. constructor. intros k1 (n & got & bytes & E & Hw & _). cbn in E.
    unfold slow_recv in E. rewrite Hb in E. injection E as <- <- <-.
    pose proof (size_nonneg (take (Z.to_nat (Z.min 7 n)) (sk_in k0))). lia. }
  destruct (sk_busy k) eqn:Hb; [|by apply Hfree].
  constructor. intros k1 (n & got & bytes & E & _). cbn in E. unfold slow_recv in E.
  rewrite Hb in E. injection E as <- <- <-. by apply Hfree.
Qed.

Definition idle : SlowKernel := mkSlow [] [] true Broken.
Definition demo_frames : list Frame := [hello_frame; create_frame].

(** The two frames go out in pieces of seven bytes, and are read in pieces of at most
    five. *)
Definition demo_sent : bool * SlowKernel :=
  default (false, idle) (send_all 200 (mkSocket 3) (concat (map frame_bytes demo_frames)) idle).

Definition demo_line : SlowKernel := mkSlow [] (sk_out demo_sent.2) false Broken.

Definition demo_read : list (list Byte.byte) * SlowKernel :=
  default ([], idle) (recv_chunks 200 (mkSocket 4) 5 demo_line).

Example slow_send_run :
  send_all 200 (mkSocket 3) (concat (map frame_bytes demo_frames)) idle =
    Some (true, demo_sent.2).
Proof. vm_compute. reflexivity. Qed.

Example slow_recv_run :
  recv_chunks 200 (mkSocket 4) 5 demo_line = Some demo_read /\ sk_in demo_read.2 = [] /\
  (20 <? size demo_read.1) = true.
Proof. vm_compute. repeat split. Qed.

Lemma frames_arrive_witness :
  (receive default_limits demo_read.1 new_assembler).1 = demo_frames.
Proof.
  destruct (frames_arrive (K' := SlowKernel) default_limits demo_frames (mkSocket 3) idle
    slow_refuses_once slow_starves_once demo_frames_wire eq_refl)
    as (sent & k' & [fuel Hs] & Hr).
  specialize (Hs (Nat.max 200 fuel) (Nat.le_max_r _ _)).
  rewrite (send_all_more _ _ _ _ _ slow_send_run (Nat.max 200 fuel) (Nat.le_max_l _ _)) in Hs.
  apply (inj Some) in Hs. apply pair_eq in Hs as [Hb <-].
  destruct (Hr (eq_sym Hb) (mkSocket 4) 5 demo_line eq_refl) as (chunks & q' & [fuel2 Hc] & Hd).
  destruct slow_recv_run as (Hrun & Hend & _).
  specialize (Hc (Nat.max 200 fuel2) (Nat.le_max_r _ _)).
  rewrite (recv_chunks_more _ _ _ _ _ Hrun (Nat.max 200 fuel2) (Nat.le_max_l _ _)) in Hc.
  apply (inj Some) in Hc. rewrite Hc in Hend |- *. specialize (Hd Hend).
  cbn [fst]. destruct (receive default_limits chunks new_assembler) as [fs a].
  exact (proj1 Hd).
Defined.

(** ** One child that has ended *)

(** The table of one process: running, ended with a status, or waited for. *)
Inductive OneChild := Running | Ended (status : Z) | Gone.

Definition one_waitpid (flag : WaitFlag) (pid : Z) (k : OneChild) : Z * Z * OneChild :=
  match k with
  | Running => match flag with NoHang => (0, 0, k) | Blocking => (pid, 0, Gone) end
  | Ended status => (pid, status, Gone)
  | Gone => (-1, 0, Gone)
  end.

(** The exit code is in the second byte of a status whose low seven bits are clear. *)
#[export] Instance one_child : Processes OneChild := {|
  sys_spawn _ _ _ := (0, 77, Running);
  sys_waitpid := one_waitpid;
  sys_kill _ k := match k with Running => Ended 9 | _ => k end;
  exit_status st := if Z.land st 127 =? 0 then Some (Z.land (Z.shiftr st 8) 255) else None;
|}.

#[export] Instance one_child_laws : ProcessLaws OneChild.
Proof.
  split; intros *; cbn.
  - intros E. by simplify_eq.
  - unfold one_waitpid. intros E. destruct k, flag; simplify_eq; auto.
  - unfold one_waitpid. intros Hp E1 E2. destruct k; [destruct flag|..]; simplify_eq/=; lia.
Qed.

(** Spawned, killed, found to be running no more, and then waited for in vain. *)
Example one_child_run :
  let '(c, out, k) := child_spawn "srf_worker" ["--boot"; "1"] empty_result Running in
  let '(alive, k) := child_running c k in
  let '(still, k) := child_running c (child_kill c k) in
  child_started c = true /\ alive = true /\ still = false /\ (child_wait c k).1 = -1.
Proof. vm_compute. repeat split. Qed.

(** A child that exits with code 3, when nobody asks first. *)
Example one_child_exit : (child_wait (mkChild 77 77) (Ended (Z.shiftl 3 8))).1 = 3.
Proof. done. Qed.

(** A condition that becomes true after 42 milliseconds, and the bounds that are enough. *)
Example wait_until_run :
  let ready t := (42 <=? t, t) in
  wait_until ready Z.add 40 0 = Some (false, 40) /\
  wait_until ready Z.add 41 0 = Some (true, 45) /\
  wait_until ready Z.add 1000 0 = Some (true, 45).
Proof. vm_compute. repeat split. Qed.

Lemma wait_until_bounded_witness :
  exists s, wait_until (fun t => (42 <=? t, t)) Z.add 20 0 = Some (false, s).
Proof.
  destruct (wait_until_bounded (fun t => (42 <=? t, t)) Z.add 20 0) as (b & s' & Hw & Hb).
  - unfold fits. lia.
  - exists s'. rewrite Hw. destruct b; [|done].
    enough (true = false) by done. apply Hb. split; [|done].
    intros j Hj. change (polls 20) with 4%nat in Hj.
    destruct j as [|[|[|[|[|]]]]]; [done..|lia].
Defined.
