(* ===== verification/Threads.v ===== *)
(** * The threads of a server

    [serve], [stop], [monitor_loop] and the control of [handle_connection] in
    [src/coordinator.cpp], as threads that interleave: a step is one atomic action of one
    of them.  What the calls of a connection do to the store is [Coordinator]; here a call
    only has to find the store, which [stop] destroys.

    The threads are the one that runs [serve], the monitor, one per connection and the one
    that calls [stop]; calls of [stop] follow one another, as they do in the coordinator
    program and the destructor.  A step is a thread's own, or comes from outside: a client
    that connects, data or the end of a connection that arrives.  Whether closing a
    descriptor ends the calls that wait on it is a fact of the platform, [wakes]. *)

From stdpp Require Import relations.
From stdpp Require Import sets.
From S2P Require Import Prelude.
From S2P Require Import Ids.

(** ** States *)

(** Where the thread of a connection is in [handle_connection].  [frames] counts the
    complete frames that are still buffered. *)
Inductive HandlerPoint :=
| HLoop                                   (* [while (open && !stopping_.load())] *)
| HEnter                                  (* the call of [recv_some] *)
| HRecv                                   (* waiting in [recv] *)
| HNext (frames : nat)                    (* [assembler.next] *)
| HDispatch (frames : nat)                (* [dispatch], which uses the store *)
| HSend (frames : nat)                    (* encoding and sending the answer *)
| HEnd                                    (* [if (session.registered)] *)
| HMarkDead                               (* [mark_dead], which uses the store *)
| HRefresh                                (* [refresh_currentness], which uses the store *)
| HClose                                  (* [peer->close()] *)
| HRemove                                 (* the removal from [active_peers_] *)
| HDone.

Record Handler := mkHandler {
  h_at : HandlerPoint;
  h_registered : bool;
  h_open : bool;                          (* the peer's socket *)
}.

Definition new_handler : Handler := mkHandler HLoop false true.

(** Where [serve] is. *)
Inductive AcceptPoint :=
| ACheck                                  (* [while (!stopping_.load())] *)
| AEnter                                  (* the call of [Socket::accept] *)
| AAccept                                 (* waiting in [accept] *)
| ARetry                                  (* no valid peer *)
| AGot                                    (* a valid peer *)
| ASpawn (served : Z)                     (* counted *)
| AReturned.

(** Where [monitor_loop] is. *)
Inductive MonitorPoint :=
| MCheck
| MSleep
| MRecheck
| MExpire                                 (* [expire_leases], which uses the store *)
| MDone.

(** Where [stop] is; [SIdle] when it is not running. *)
Inductive StopPoint :=
| SIdle
| SFlag                                   (* [stopping_.exchange(true)] *)
| SListener                               (* [listener_.close()] *)
| SMonitor                                (* [monitor_.join()] *)
| SSwap                                   (* the locked section *)
| SPeers (peers pending : list nat)       (* closing the peers that are left *)
| SJoin (pending : list nat)              (* joining the threads that are left *)
| SReset.                                 (* [store_.reset()] *)

Record Server := {
  sv_stopping : bool;
  sv_listener : bool;                     (* [listener_] is open *)
  sv_store : bool;                        (* [store_] is not null *)
  sv_served : Z;
  sv_max_connections : Z;
  sv_workers : list nat;                  (* [workers_] *)
  sv_peers : list nat;                    (* [active_peers_] *)
  sv_handlers : list Handler;             (* every connection thread, by its number *)
  sv_accept : AcceptPoint;
  sv_monitor : MonitorPoint;
  sv_stop : StopPoint;
  sv_stopped : bool;                      (* a call of [stop] has returned *)
}.

(** A server that [start] has started, and that is about to [serve]. *)
Definition started (max_connections : Z) : Server := {|
  sv_stopping := false; sv_listener := true; sv_store := true; sv_served := 0;
  sv_max_connections := max_connections; sv_workers := []; sv_peers := [];
  sv_handlers := []; sv_accept := ACheck; sv_monitor := MCheck; sv_stop := SIdle;
  sv_stopped := false;
|}.

Definition accept_at p (s : Server) : Server := {| s with sv_accept := p |}.
Definition monitor_at p (s : Server) : Server := {| s with sv_monitor := p |}.
Definition stop_at p (s : Server) : Server := {| s with sv_stop := p |}.
Definition put_handler (i : nat) (h : Handler) (s : Server) : Server :=
  {| s with sv_handlers := <[i := h]> (sv_handlers s) |}.

Definition at_point p (h : Handler) : Handler := {| h with h_at := p |}.

(** ** Steps *)

(** [serve]: the next action, when it does not wait. *)
Definition spawn (served : Z) (s : Server) : Server :=
  let i := length (sv_handlers s) in
  {| s with sv_handlers := sv_handlers s ++ [new_handler];
            sv_workers := sv_workers s ++ [i]; sv_peers := sv_peers s ++ [i];
            sv_accept :=
              if negb (sv_max_connections s =? 0) && (sv_max_connections s <=? served)
              then AReturned else ACheck |}.

Section Platform.
Variable wakes : bool.

Definition accept_step (s : Server) : option Server :=
  match sv_accept s with
  | ACheck => Some (accept_at (if sv_stopping s then AReturned else AEnter) s)
  | AEnter => Some (accept_at (if sv_listener s then AAccept else ARetry) s)
  | AAccept => if negb (sv_listener s) && wakes then Some (accept_at ARetry s) else None
  | ARetry => Some (accept_at (if sv_stopping s then AReturned else ACheck) s)
  | AGot =>
      let served := u32 (sv_served s + 1) in
      Some {| s with sv_served := served; sv_accept := ASpawn served |}
  | ASpawn served => Some (spawn served s)
  | AReturned => None
  end.

Definition monitor_step (s : Server) : option Server :=
  match sv_monitor s with
  | MCheck => Some (monitor_at (if sv_stopping s then MDone else MSleep) s)
  | MSleep => Some (monitor_at MRecheck s)
  | MRecheck => Some (monitor_at (if sv_stopping s then MDone else MExpire) s)
  | MExpire => Some (monitor_at MCheck s)
  | MDone => None
  end.

(** What a connection's thread can do next on its own. *)
Inductive handler_step (stopping : bool) : Handler -> Handler -> Prop :=
| h_loop_stop h : h_at h = HLoop -> stopping = true ->
    handler_step stopping h (at_point HEnd h)
| h_loop_go h : h_at h = HLoop -> stopping = false ->
    handler_step stopping h (at_point HEnter h)
| h_enter h : h_at h = HEnter ->
    handler_step stopping h (at_point (if h_open h then HRecv else HEnd) h)
| h_woken h : h_at h = HRecv -> h_open h = false -> wakes = true ->
    handler_step stopping h (at_point HEnd h)
| h_next h n : h_at h = HNext (S n) -> handler_step stopping h (at_point (HDispatch n) h)
| h_drained h : h_at h = HNext 0 -> handler_step stopping h (at_point HLoop h)
| h_overflowed h : h_at h = HNext 0 -> handler_step stopping h (at_point HEnd h)
| h_dispatched h n registered : h_at h = HDispatch n ->
    (h_registered h = true -> registered = true) ->
    handler_step stopping h (mkHandler (HSend n) registered (h_open h))
| h_answered h n : h_at h = HSend n -> handler_step stopping h (at_point (HNext n) h)
| h_parted h n : h_at h = HSend n -> handler_step stopping h (at_point HEnd h)
| h_lost h : h_at h = HEnd ->
    handler_step stopping h (at_point (if h_registered h then HMarkDead else HClose) h)
| h_marked h : h_at h = HMarkDead -> handler_step stopping h (at_point HRefresh h)
| h_refreshed h : h_at h = HRefresh -> handler_step stopping h (at_point HClose h)
| h_closed h : h_at h = HClose ->
    handler_step stopping h (mkHandler HRemove (h_registered h) false).

(** The removal of a connection's peer, under the lock. *)
Definition forget_peer (i : nat) (s : Server) : Server :=
  {| s with sv_peers := List.filter (fun j => negb (j =? i)%nat) (sv_peers s) |}.

Definition close_peer (i : nat) (s : Server) : Server :=
  match sv_handlers s !! i with
  | Some h => put_handler i {| h with h_open := false |} s
  | None => s
  end.

Definition finished (i : nat) (s : Server) : bool :=
  match sv_handlers s !! i with
  | Some h => match h_at h with HDone => true | _ => false end
  | None => true
  end.

Definition stop_step (s : Server) : option Server :=
  match sv_stop s with
  | SIdle => None
  | SFlag => Some {| s with sv_stopping := true; sv_stop := SListener |}
  | SListener => Some {| s with sv_listener := false; sv_stop := SMonitor |}
  | SMonitor => match sv_monitor s with MDone => Some (stop_at SSwap s) | _ => None end
  | SSwap => Some {| s with sv_workers := []; sv_stop := SPeers (sv_peers s) (sv_workers s) |}
  | SPeers (i :: peers) pending => Some (stop_at (SPeers peers pending) (close_peer i s))
  | SPeers [] pending => Some (stop_at (SJoin pending) s)
  | SJoin (i :: pending) => if finished i s then Some (stop_at (SJoin pending) s) else None
  | SJoin [] => Some (stop_at SReset s)
  | SReset => Some {| s with sv_store := false; sv_stop := SIdle; sv_stopped := true |}
  end.

(** A step some thread takes on its own. *)
Inductive own : Server -> Server -> Prop :=
| own_accept s s' : accept_step s = Some s' -> own s s'
| own_monitor s s' : monitor_step s = Some s' -> own s s'
| own_handler s i h h' : sv_handlers s !! i = Some h ->
    handler_step (sv_stopping s) h h' -> own s (put_handler i h' s)
| own_remove s i h : sv_handlers s !! i = Some h -> h_at h = HRemove ->
    own s (put_handler i (at_point HDone h) (forget_peer i s))
| own_stop s s' : stop_step s = Some s' -> own s s'.

(** A call that waits returns because of the outside: a client, or an error.  A closed
    descriptor still delivers to a call that was not woken. *)
Inductive outside : Server -> Server -> Prop :=
| out_connected s : sv_accept s = AAccept -> sv_listener s = true \/ wakes = false ->
    outside s (accept_at AGot s)
| out_refused s : sv_accept s = AAccept -> outside s (accept_at ARetry s)
| out_data s i h n : sv_handlers s !! i = Some h -> h_at h = HRecv ->
    h_open h = true \/ wakes = false -> outside s (put_handler i (at_point (HNext n) h) s)
| out_end s i h : sv_handlers s !! i = Some h -> h_at h = HRecv ->
    outside s (put_handler i (at_point HEnd h) s).

Definition step (s s' : Server) : Prop := own s s' \/ outside s s'.

(** [stop] is called. *)
Inductive call : Server -> Server -> Prop :=
| call_stop s : sv_stop s = SIdle -> call s (stop_at SFlag s).

Definition reachable (s : Server) : Prop :=
  exists max_connections, rtc (fun s s' => step s s' \/ call s s') (started max_connections) s.

(** The next action of some thread is a call into the store. *)
Definition uses_store (s : Server) : Prop :=
  sv_monitor s = MExpire \/
  exists i h, sv_handlers s !! i = Some h /\
    match h_at h with HDispatch _ | HMarkDead | HRefresh => True | _ => False end.
End Platform.

(** [epoch()] and [registered_publishers()] dereference [store_]: [None] when there is
    nothing to dereference. *)
Definition through_store {A} (f : A) (s : Server) : option A :=
  if sv_store s then Some f else None.
