(* ===== verification/ThreadsProps.v ===== *)
(** * Correctness of the threads

    No thread of a server uses the store after [stop] has destroyed it, whatever the
    interleaving; once stopping has begun every run is finite, and where closing a
    descriptor wakes its waiters the last state of a run is one in which [stop] has
    returned and every thread has ended. *)

From stdpp Require Import relations.
From stdpp Require Import sets.
From S2P Require Import Prelude.
From S2P Require Import Ids.
From S2P Require Import Threads.

(** ** The invariant *)

(** A connection's thread that will not use the store unless it goes on serving. *)
Definition harmless (h : Handler) : Prop :=
  match h_at h with
  | HClose | HRemove | HDone => True
  | HLoop | HEnd => h_registered h = false
  | _ => False
  end.

Definition flagged (p : StopPoint) : bool :=
  match p with SIdle | SFlag => false | _ => true end.
Definition monitored (p : StopPoint) : bool :=
  match p with SIdle | SFlag | SListener | SMonitor => false | _ => true end.

(** The threads that a call of [stop] still has to wait for. *)
Definition awaited (s : Server) : list nat :=
  match sv_stop s with
  | SPeers _ pending | SJoin pending => pending
  | SReset => []
  | _ => sv_workers s
  end.

Record Safe (s : Server) : Prop := {
  safe_flag : flagged (sv_stop s) = true \/ sv_stopped s = true -> sv_stopping s = true;
  safe_monitor : monitored (sv_stop s) = true \/ sv_stopped s = true -> sv_monitor s = MDone;
  safe_handlers : forall i h, sv_handlers s !! i = Some h -> ~ harmless h ->
    sv_stopped s = false /\ i ∈ awaited s;
  safe_workers : sv_stopping s = false ->
    forall i, (i < length (sv_handlers s))%nat -> i ∈ sv_workers s;
  safe_store : sv_store s = negb (sv_stopped s);
}.

Section Threads.
Variable wakes : bool.
Notation own := (own wakes).
Notation outside := (outside wakes).
Notation step := (step wakes).
Notation reachable := (reachable wakes).

Lemma started_safe n : Safe (started n).
Proof.
  split; cbn; [by intros [|]|by intros [|]| |intros _ i ?; lia|done].
  intros i h. by rewrite lookup_nil.
Qed.

(** A thread that is harmless and sees the flag stays so. *)
Lemma handler_step_harmless h h' :
  handler_step wakes true h h' -> harmless h -> harmless h'.
Proof.
  unfold harmless. destruct 1; cbn [at_point h_at h_registered]; try done;
    try (by destruct (h_at h)); match goal with H : h_at h = _ |- _ => rewrite H end; try done.
  by intros ->.
Qed.

Lemma not_flagged s : Safe s -> sv_stopping s = false ->
  flagged (sv_stop s) = false /\ sv_stopped s = false /\ awaited s = sv_workers s.
Proof.
  intros Hs Hf. pose proof (safe_flag s Hs) as Hp. unfold awaited.
  destruct (sv_stop s), (sv_stopped s); cbn in *; (try by rewrite Hp in Hf by auto);
    split_and!; done.
Qed.

(** One connection's thread moves. *)
Lemma update_handler_safe s i h h' :
  Safe s -> sv_handlers s !! i = Some h ->
  (sv_stopping s = true -> harmless h -> harmless h') -> Safe (put_handler i h' s).
Proof.
  intros Hs Hi Hh. pose proof Hs as [Hf Hm Hha Hw Hst]. split; cbn; try done.
  - intros j hj. destruct (decide (i = j)) as [<-|Hij].
    2: { rewrite list_lookup_insert_ne by done. apply Hha. }
    rewrite list_lookup_insert_eq by (by eapply lookup_lt_Some). intros [= <-] Hn.
    destruct (sv_stopping s) eqn:Hstop.
    + apply (Hha i h Hi). intros Hharm. by apply Hn, Hh.
    + destruct (not_flagged s Hs Hstop) as (_ & Hd & Ha). split; [done|].
      change (awaited (put_handler i h' s)) with (awaited s). rewrite Ha.
      apply Hw; [done|]. by eapply lookup_lt_Some.
  - intros Hstop j. rewrite length_insert. by apply Hw.
Qed.

Lemma handler_safe s i h h' :
  Safe s -> sv_handlers s !! i = Some h -> handler_step wakes (sv_stopping s) h h' ->
  Safe (put_handler i h' s).
Proof.
  intros Hs Hi Hstep. apply (update_handler_safe s i h); [done..|]. intros Hstop.
  rewrite Hstop in Hstep. by apply handler_step_harmless.
Qed.

(** The threads of [serve] and of the monitor do not touch what the invariant is about,
    except for new connections. *)
Lemma spawn_safe s served : Safe s -> Safe (spawn served s).
Proof.
  intros Hs. pose proof Hs as [Hf Hm Hha Hw Hst]. split; cbn; try done.
  - intros i h [Hi|[_ [_ <-]%list_lookup_singleton_Some]]%lookup_app_Some Hn; [|by destruct Hn].
    destruct (Hha i h Hi Hn) as [Hd Ha]. split; [done|]. unfold awaited in *. cbn in *.
    destruct (sv_stop s); try done; set_solver.
  - intros Hstop i. rewrite length_app. cbn. intros Hi.
    destruct (decide (i = length (sv_handlers s))) as [->|]; [set_solver|].
    apply elem_of_app. left. apply Hw; [done|lia].
Qed.

Lemma accept_safe s s' : Safe s -> accept_step wakes s = Some s' -> Safe s'.
Proof.
  intros Hs. unfold accept_step. destruct (sv_accept s); try destruct (_ && _);
    intros [= <-]; try (by apply spawn_safe); by destruct Hs.
Qed.

Lemma monitor_safe s s' : Safe s -> monitor_step s = Some s' -> Safe s'.
Proof.
  intros [Hf Hm Hha Hw Hst] E. unfold monitor_step in E.
  destruct (sv_monitor s) eqn:Hp; try apply (inj Some) in E as <-; try done; split; cbn;
    try done; intros H; by specialize (Hm H).
Qed.

(** Only the place of [stop] moves, and what is awaited stays. *)
Lemma stop_at_safe s p :
  Safe s -> awaited (stop_at p s) = awaited s ->
  (flagged p = true -> sv_stopping s = true) ->
  (monitored p = true -> sv_monitor s = MDone) -> Safe (stop_at p s).
Proof.
  intros [Hf Hm Hha Hw Hst] Ha Hp Hq. split; rewrite ?Ha; cbn; try done.
  - intros [?|?]; [by apply Hp|by apply Hf; right].
  - intros [?|?]; [by apply Hq|by apply Hm; right].
Qed.

Lemma close_peer_safe i s : Safe s -> Safe (close_peer i s).
Proof.
  intros Hs. unfold close_peer. destruct (sv_handlers s !! i) as [h|] eqn:E; [|done].
  by apply (update_handler_safe s i h).
Qed.

Lemma finished_harmless i h s :
  finished i s = true -> sv_handlers s !! i = Some h -> harmless h.
Proof. unfold finished, harmless. intros Hf E. rewrite E in Hf. by destruct (h_at h). Qed.

Lemma stop_safe s s' : Safe s -> stop_step s = Some s' -> Safe s'.
Proof.
  intros Hs. pose proof Hs as [Hf Hm Hha Hw Hst]. unfold stop_step.
  destruct (sv_stop s) as [| | | | |[|i peers] pending|[|i pending]|] eqn:Hp; cbn in Hf, Hm.
  - done.
  - intros [= <-]. split; cbn; try done.
    unfold awaited in *. cbn. by rewrite Hp in Hha.
  - intros [= <-]. split; cbn; try done; auto.
    unfold awaited in *. cbn. by rewrite Hp in Hha.
  - destruct (sv_monitor s) eqn:Hmon; intros [= <-].
    apply stop_at_safe; auto. unfold awaited. cbn. by rewrite Hp.
  - intros [= <-]. split; cbn; try done; auto.
    + unfold awaited in *. cbn. by rewrite Hp in Hha.
    + intros Hstop. by rewrite Hf in Hstop by auto.
  - intros [= <-]. apply stop_at_safe; auto. unfold awaited. cbn. by rewrite Hp.
  - intros [= <-]. apply stop_at_safe.
    + by apply close_peer_safe.
    + unfold awaited, close_peer. by destruct (sv_handlers s !! i); cbn; rewrite Hp.
    + intros _. unfold close_peer. by destruct (sv_handlers s !! i); cbn; auto.
    + intros _. unfold close_peer. by destruct (sv_handlers s !! i); cbn; auto.
  - intros [= <-]. apply stop_at_safe; auto. unfold awaited. cbn. by rewrite Hp.
  - destruct (finished i s) eqn:Hfin; intros [= <-].
    split; cbn; try done; auto.
    intros j h Hj Hn. destruct (Hha j h Hj Hn) as [Hd Ha]. split; [done|].
    unfold awaited in *. rewrite Hp in Ha. cbn.
    apply elem_of_cons in Ha as [->|Ha]; [|done].
    exfalso. by eapply Hn, finished_harmless.
  - intros [= <-]. split; cbn; try done; auto.
    intros j h Hj Hn. destruct (Hha j h Hj Hn) as [_ Ha].
    unfold awaited in Ha. rewrite Hp in Ha. by apply elem_of_nil in Ha.
Qed.

Lemma own_safe s s' : Safe s -> own s s' -> Safe s'.
Proof.
  intros Hs. destruct 1 as [s s' E|s s' E|s i h h' Hi E|s i h Hi E|s s' E].
  - by eapply accept_safe.
  - by eapply monitor_safe.
  - by eapply handler_safe.
  - eapply update_handler_safe; [|exact Hi|done]. by destruct Hs.
  - by eapply stop_safe.
Qed.

Lemma outside_safe s s' : Safe s -> outside s s' -> Safe s'.
Proof.
  intros Hs. destruct 1 as [s E|s E|s i h n Hi E|s i h Hi E].
  1-2: by destruct Hs.
  all: apply (update_handler_safe s i h); [done|done|]; intros _; unfold harmless; by rewrite E.
Qed.

Lemma call_safe s s' : Safe s -> call s s' -> Safe s'.
Proof.
  intros Hs Hc. destruct Hc as [s H]. apply stop_at_safe; [done| |done..]. unfold awaited. cbn. by rewrite H.
Qed.

Lemma reachable_safe s : reachable s -> Safe s.
Proof.
  intros [n Hr]. pose proof (started_safe n) as H0.
  induction Hr as [|s1 s2 s3 [[Ho|Ho]|Hc] _ IH]; [done|apply IH..];
    eauto using own_safe, outside_safe, call_safe.
Qed.

(** C10: No thread of the server ever uses the store once it is destroyed, however the threads,
    the clients and the calls of [stop] interleave. *)
Theorem no_use_after_stop s :
  reachable s -> uses_store s -> sv_store s = true /\ sv_stopped s = false.
Proof.
  intros Hr%reachable_safe Hu. pose proof Hr as [Hf Hm Hha Hw Hst].
  enough (sv_stopped s = false) as Hd by (by rewrite Hst, Hd).
  destruct Hu as [Hmon|(i & h & Hi & Hp)].
  - apply not_true_iff_false. intros Hd. by rewrite Hm in Hmon by auto.
  - apply (Hha i h Hi). unfold harmless. destruct (h_at h); tauto.
Qed.

(** ** Termination *)

Definition handler_weight (h : Handler) : nat :=
  match h_at h with
  | HDone => 0 | HRemove => 1 | HClose => 2 | HRefresh => 3 | HMarkDead => 4 | HEnd => 5
  | HLoop | HRecv => 6 | HEnter => 7
  | HNext n => 7 + 3 * n | HSend n => 8 + 3 * n | HDispatch n => 9 + 3 * n
  end.

Definition accept_weight (s : Server) : nat :=
  match sv_accept s with
  | AReturned => 0 | ACheck => 1 | ARetry => 2 | AAccept => 3 | AEnter => 4
  | ASpawn _ => 10 | AGot => 11
  end.

Definition monitor_weight (s : Server) : nat :=
  match sv_monitor s with
  | MDone => 0 | MCheck => 1 | MExpire => 2 | MRecheck => 3 | MSleep => 4
  end.

Definition stop_weight (s : Server) : nat :=
  let all := (length (sv_peers s) + length (sv_workers s))%nat in
  match sv_stop s with
  | SIdle => 0
  | SFlag => all + 7 | SListener => all + 6 | SMonitor => all + 5 | SSwap => all + 4
  | SPeers peers pending => length peers + length pending + 3
  | SJoin pending => length pending + 2
  | SReset => 1
  end.

Definition weight (s : Server) : nat :=
  sum_list_with handler_weight (sv_handlers s) + accept_weight s + monitor_weight s +
  stop_weight s.

(** The threads that wait for the outside, or are about to. *)
Definition receiver (h : Handler) : nat :=
  match h_at h with HEnter | HRecv => 1 | _ => 0 end.

Definition receivers (s : Server) : nat :=
  sum_list_with receiver (sv_handlers s) +
  match sv_accept s with AEnter | AAccept => 1 | _ => 0 end.

Lemma sum_insert {A} (f : A -> nat) (l : list A) i x y :
  l !! i = Some x ->
  (sum_list_with f (<[i := y]> l) + f x = sum_list_with f l + f y)%nat.
Proof.
  revert i. induction l as [|z l IH]; intros [|i]; csimpl; [done..| |].
  - intros [= ->]. lia.
  - intros Hi. specialize (IH i Hi). lia.
Qed.

Lemma sum_snoc {A} (f : A -> nat) (l : list A) x :
  sum_list_with f (l ++ [x]) = (sum_list_with f l + f x)%nat.
Proof. induction l; cbn; lia. Qed.

Lemma handler_step_lighter h h' :
  handler_step wakes true h h' ->
  (handler_weight h' < handler_weight h)%nat /\ (receiver h' <= receiver h)%nat.
Proof.
  unfold handler_weight, receiver.
  destruct 1; cbn [at_point h_at]; try done;
    match goal with H : h_at h = _ |- _ => rewrite H end; try (split; lia).
  - destruct (h_open h); split; lia.
  - destruct (h_registered h); split; lia.
Qed.

(** Once stopping has begun, a thread's own step makes progress and lets nobody wait for
    the outside anew; and a step from outside ends somebody's waiting. *)
Lemma put_handler_progress s i h h' :
  sv_handlers s !! i = Some h ->
  (weight (put_handler i h' s) + handler_weight h = weight s + handler_weight h')%nat /\
  (receivers (put_handler i h' s) + receiver h = receivers s + receiver h')%nat.
Proof.
  intros Hi. pose proof (sum_insert handler_weight _ _ _ h' Hi).
  pose proof (sum_insert receiver _ _ _ h' Hi).
  unfold weight, receivers, accept_weight, monitor_weight, stop_weight. cbn. lia.
Qed.

Definition progress (s s' : Server) : Prop :=
  sv_stopping s' = true /\
  ((receivers s' < receivers s)%nat \/
   (receivers s' <= receivers s)%nat /\ (weight s' < weight s)%nat).

Lemma close_peer_same i s : let s' := close_peer i s in
  weight s' = weight s /\ receivers s' = receivers s /\ sv_stopping s' = sv_stopping s.
Proof.
  cbn. unfold close_peer. destruct (sv_handlers s !! i) as [h|] eqn:E; [|done].
  destruct (put_handler_progress s i h {| h with h_open := false |} E) as [Hw Hr].
  unfold handler_weight, receiver in Hw, Hr. cbn in Hw, Hr. repeat split; cbn; lia.
Qed.

Lemma filter_length (f : nat -> bool) (l : list nat) : (length (List.filter f l) <= length l)%nat.
Proof. induction l as [|x l IH]; cbn; [done|]. destruct (f x); cbn; lia. Qed.

Lemma accept_progress s s' :
  sv_stopping s = true -> accept_step wakes s = Some s' -> progress s s'.
Proof.
  unfold accept_step, progress, weight, receivers, accept_weight, monitor_weight, stop_weight.
  intros Hs. rewrite Hs.
  destruct (sv_accept s) eqn:E; try destruct (_ && _); intros [= <-]; cbn;
    rewrite ?Hs, ?sum_snoc, ?length_app; (split; [done|]); right;
    try (destruct (sv_listener s)); try (destruct (_ && _)); cbn;
    try (destruct (sv_stop s)); cbn; lia.
Qed.

Lemma monitor_progress s s' :
  sv_stopping s = true -> monitor_step s = Some s' -> progress s s'.
Proof.
  unfold monitor_step, progress, weight, receivers, accept_weight, monitor_weight, stop_weight.
  intros Hs. rewrite Hs. destruct (sv_monitor s) eqn:E; intros [= <-]; cbn; rewrite Hs;
    (split; [done|]); right; lia.
Qed.

Lemma stop_at_weight p s :
  (weight (stop_at p s) + stop_weight s = weight s + stop_weight (stop_at p s))%nat.
Proof. unfold weight, accept_weight, monitor_weight. cbn. lia. Qed.

Lemma stop_progress s s' :
  sv_stopping s = true -> stop_step s = Some s' -> progress s s'.
Proof.
  unfold stop_step, progress. intros Hs.
  destruct (sv_stop s) as [| | | | |[|i peers] pending|[|i pending]|] eqn:E; try done;
    try (intros [= <-]; (split; [done|]); right;
      unfold weight, receivers, accept_weight, monitor_weight, stop_weight; cbn; rewrite E;
      cbn; lia).
  - destruct (sv_monitor s) eqn:Em; intros [= <-]. split; [done|]. right.
    unfold weight, receivers, accept_weight, monitor_weight, stop_weight. cbn. rewrite E. lia.
  - intros [= <-]. destruct (close_peer_same i s) as (Hw & Hr & Hst).
    split; [by rewrite <-Hs|]. right. split; [by rewrite <-Hr|].
    assert (stop_weight (close_peer i s) = stop_weight s) as Heq.
    { unfold close_peer, stop_weight. by destruct (sv_handlers s !! i). }
    assert (stop_weight s = (length peers + length pending + 4)%nat) as Hs1.
    { unfold stop_weight. rewrite E. cbn. lia. }
    pose proof (stop_at_weight (SPeers peers pending) (close_peer i s)) as Hp.
    unfold stop_weight at 2 in Hp. cbn [sv_stop stop_at] in Hp. lia.
  - destruct (finished i s); intros [= <-]. split; [done|]. right.
    unfold weight, receivers, accept_weight, monitor_weight, stop_weight. cbn. rewrite E.
    cbn. lia.
Qed.

Lemma handler_progress s i h h' :
  sv_stopping s = true -> sv_handlers s !! i = Some h ->
  (receiver h' < receiver h)%nat \/
  (receiver h' <= receiver h)%nat /\ (handler_weight h' < handler_weight h)%nat ->
  progress s (put_handler i h' s).
Proof.
  intros Hs Hi Hh. destruct (put_handler_progress s i h h' Hi). split; [done|]. lia.
Qed.

Lemma own_progress s s' : sv_stopping s = true -> own s s' -> progress s s'.
Proof.
  intros Hs Ho. destruct Ho as [s s' E|s s' E|s i h h' Hi E|s i h Hi E|s s' E].
  - by apply accept_progress.
  - by apply monitor_progress.
  - rewrite Hs in E. apply handler_step_lighter in E.
    apply (handler_progress s i h); [done..|]. lia.
  - set (s1 := forget_peer i s).
    destruct (handler_progress s1 i h (at_point HDone h) Hs Hi) as [Hs2 Hp].
    { right. unfold receiver, handler_weight. cbn. rewrite E. lia. }
    split; [done|].
    assert (receivers s1 = receivers s) as Hr by done.
    assert (weight s1 <= weight s)%nat as Hw.
    { pose proof (filter_length (fun j => negb (j =? i)%nat) (sv_peers s)).
      unfold s1, forget_peer, weight, accept_weight, monitor_weight, stop_weight. cbn.
      destruct (sv_stop s); lia. }
    lia.
  - by apply stop_progress.
Qed.

Lemma outside_progress s s' : sv_stopping s = true -> outside s s' -> progress s s'.
Proof.
  intros Hs Ho. destruct Ho as [s E _|s E|s i h n Hi E _|s i h Hi E].
  1-2: split; [done|]; left; unfold receivers; cbn; rewrite E; cbn; lia.
  all: apply (handler_progress s i h); [done..|]; left; unfold receiver; cbn; rewrite E; lia.
Qed.

(** Progress cannot go on forever. *)
Lemma progress_finite s : Acc (fun s' s => progress s s') s.
Proof.
  remember (receivers s) as r eqn:Hr. revert s Hr.
  induction r as [r IHr] using (well_founded_induction lt_wf). intros s Hr.
  remember (weight s) as w eqn:Hw. revert s Hr Hw.
  induction w as [w IHw] using (well_founded_induction lt_wf). intros s Hr Hw.
  constructor. intros s' [_ [Hlt|[Hle Hlt]]].
  - apply (IHr (receivers s')); [lia|done].
  - destruct (decide (receivers s' = r)) as [E|E].
    + apply (IHw (weight s')); [lia|done..].
    + apply (IHr (receivers s')); [lia|done].
Qed.

Lemma stopping_finite s : sv_stopping s = true -> Acc (fun s' s => step s s') s.
Proof.
  intros Hs. induction (progress_finite s) as [s _ IH]. constructor. intros s' Hstep.
  assert (progress s s') as Hp.
  { destruct Hstep; [by apply own_progress|by apply outside_progress]. }
  apply IH; [done|]. apply Hp.
Qed.

(** ** Completion *)

Definition past_listener (p : StopPoint) : bool :=
  match p with SIdle | SFlag | SListener => false | _ => true end.
Definition swapped (p : StopPoint) : bool :=
  match p with SPeers _ _ | SJoin _ | SReset => true | _ => false end.
Definition closing (s : Server) : list nat :=
  match sv_stop s with SPeers peers _ => peers | _ => [] end.

(** What [stop] closes: the listener, and then every socket somebody can wait on. *)
Record Closes (s : Server) : Prop := {
  closes_listener : past_listener (sv_stop s) = true \/ sv_stopped s = true ->
    sv_listener s = false;
  closes_peers : forall i h, sv_handlers s !! i = Some h -> h_at h <> HDone -> i ∈ sv_peers s;
  closes_open : swapped (sv_stop s) = true -> forall i h, sv_handlers s !! i = Some h ->
    receiver h = 1%nat -> h_open h = true -> i ∈ closing s;
  closes_all : sv_stopped s = true -> forall i h, sv_handlers s !! i = Some h ->
    receiver h = 1%nat -> h_open h = false;
}.

Lemma started_closes n : Closes (started n).
Proof. split; cbn; [by intros [|]|by intros *; rewrite lookup_nil|done..]. Qed.

Lemma put_handler_closes s i h h' :
  Closes s -> sv_handlers s !! i = Some h -> (h_at h' <> HDone -> h_at h <> HDone) ->
  (sv_stopped s = true \/ swapped (sv_stop s) = true -> receiver h' = 1%nat -> h_open h' = true ->
    receiver h = 1%nat /\ h_open h = true) ->
  Closes (put_handler i h' s).
Proof.
  intros [Hl Hp Ho Ha] Hi Hd Hr.
  assert (forall j hj, <[i:=h']> (sv_handlers s) !! j = Some hj ->
    i = j /\ hj = h' \/ sv_handlers s !! j = Some hj) as Hcase.
  { intros j hj. destruct (decide (i = j)) as [<-|Hij].
    - rewrite list_lookup_insert_eq by (by eapply lookup_lt_Some). intros [= <-]. by left.
    - rewrite list_lookup_insert_ne by done. by right. }
  split; cbn; [done|intros j hj Hj|intros Hsw j hj Hj|intros Hs j hj Hj];
    destruct (Hcase j hj Hj) as [[<- ->]|Hj'].
  - intros Hn. apply (Hp i h Hi). by apply Hd.
  - by apply (Hp j hj).
  - intros H1 H2. destruct (Hr (or_intror Hsw) H1 H2). by apply (Ho Hsw i h).
  - by apply (Ho Hsw j hj).
  - intros H1. apply not_true_iff_false. intros H2.
    destruct (Hr (or_introl Hs) H1 H2) as [H3 H4]. by rewrite (Ha Hs i h) in H4.
  - by apply (Ha Hs j hj).
Qed.

Lemma handler_step_closes stopping h h' :
  handler_step wakes stopping h h' ->
  h_at h <> HDone /\ (stopping = true -> receiver h' = 1%nat -> h_open h' = true ->
    receiver h = 1%nat /\ h_open h = true).
Proof.
  unfold receiver. destruct 1; cbn [at_point h_at h_open];
    match goal with H : h_at h = _ |- _ => rewrite H end; (split; [done|]);
    intros Hstop; try done; try congruence.
  by destruct (h_registered h).
Qed.

Lemma stop_at_closes s p :
  Closes s -> (past_listener p = true -> sv_listener s = false) ->
  (swapped p = true -> forall i h, sv_handlers s !! i = Some h -> receiver h = 1%nat ->
    h_open h = true -> i ∈ closing (stop_at p s)) -> Closes (stop_at p s).
Proof.
  intros [Hl Hp Ho Ha] Hq Hw. split; cbn; [|done..].
  intros [?|?]; [by apply Hq|by apply Hl; right].
Qed.

Lemma spawn_closes s served : Safe s -> Closes s -> Closes (spawn served s).
Proof.
  intros Hs [Hl Hp Ho Ha]. split; cbn; [done|..].
  - intros i h [Hi|[Hlen [He <-]%list_lookup_singleton_Some]]%lookup_app_Some Hn.
    + apply elem_of_app. left. by apply (Hp i h).
    + assert (i = length (sv_handlers s)) as -> by lia. set_solver.
  - intros Hsw i h [Hi|[_ [_ <-]%list_lookup_singleton_Some]]%lookup_app_Some; [|done].
    by apply (Ho Hsw i h).
  - intros Hd i h [Hi|[_ [_ <-]%list_lookup_singleton_Some]]%lookup_app_Some; [|done].
    by apply (Ha Hd i h).
Qed.

Lemma close_peer_closed s i peers pending j h :
  Closes s -> sv_stop s = SPeers (i :: peers) pending ->
  sv_handlers (close_peer i s) !! j = Some h -> receiver h = 1%nat -> h_open h = true ->
  j ∈ peers.
Proof.
  intros [_ _ Ho _] E. unfold close_peer, closing in *. rewrite E in Ho.
  specialize (Ho eq_refl). destruct (sv_handlers s !! i) as [hi|] eqn:Ei; cbn.
  - destruct (decide (i = j)) as [<-|Hij].
    + rewrite list_lookup_insert_eq by (by eapply lookup_lt_Some). by intros [= <-].
    + rewrite list_lookup_insert_ne by done. intros H1 H2 H3.
      specialize (Ho j h H1 H2 H3). set_solver.
  - intros H1 H2 H3. specialize (Ho j h H1 H2 H3). apply elem_of_cons in Ho as [->|]; [|done].
    by rewrite Ei in H1.
Qed.

Lemma stop_closes s s' : Safe s -> Closes s -> stop_step s = Some s' -> Closes s'.
Proof.
  intros Hs Hc. pose proof Hc as [Hl Hp Ho Ha]. unfold stop_step.
  destruct (sv_stop s) as [| | | | |[|i peers] pending|[|i pending]|] eqn:E; cbn in Hl, Ho.
  - done.
  - intros [= <-]. split; cbn; [|done..]. intros [|]; [done|by apply Hl; right].
  - intros [= <-]. by split.
  - destruct (sv_monitor s); intros [= <-]. apply stop_at_closes; [done|by auto|done].
  - intros [= <-]. split; cbn; [by auto|done| |done].
    intros _ i h Hi Hr _. apply (Hp i h Hi). unfold receiver in Hr. by destruct (h_at h).
  - intros [= <-]. apply stop_at_closes; [done|by auto|]. intros _ i h H1 H2 H3.
    specialize (Ho eq_refl i h H1 H2 H3). unfold closing in Ho. by rewrite E in Ho.
  - intros [= <-]. apply stop_at_closes.
    + unfold close_peer. destruct (sv_handlers s !! i) as [h|] eqn:Ei; [|done].
      by apply (put_handler_closes s i h).
    + intros _. unfold close_peer. by destruct (sv_handlers s !! i); cbn; auto.
    + intros _ j h. by apply close_peer_closed with pending.
  - intros [= <-]. apply stop_at_closes; [done|by auto|]. intros _ i h H1 H2 H3.
    specialize (Ho eq_refl i h H1 H2 H3). unfold closing in Ho. by rewrite E in Ho.
  - destruct (finished i s); intros [= <-]. apply stop_at_closes; [done|by auto|].
    intros _ j h H1 H2 H3. specialize (Ho eq_refl j h H1 H2 H3). unfold closing in Ho.
    by rewrite E in Ho.
  - intros [= <-]. split; cbn; [by auto|done..|]. intros _ i h H1 H2.
    apply not_true_iff_false. intros H3. specialize (Ho eq_refl i h H1 H2 H3).
    unfold closing in Ho. rewrite E in Ho. by apply elem_of_nil in Ho.
Qed.

Lemma remove_closes s i h :
  Closes s -> sv_handlers s !! i = Some h -> h_at h = HRemove ->
  Closes (put_handler i (at_point HDone h) (forget_peer i s)).
Proof.
  intros [Hl Hp Ho Ha] Hi E.
  assert (forall j hj, <[i:=at_point HDone h]> (sv_handlers s) !! j = Some hj ->
    h_at hj = HDone \/ i <> j /\ sv_handlers s !! j = Some hj) as Hcase.
  { intros j hj. destruct (decide (i = j)) as [<-|Hij].
    - rewrite list_lookup_insert_eq by (by eapply lookup_lt_Some). intros [= <-]. by left.
    - rewrite list_lookup_insert_ne by done. by right. }
  split; cbn; [done|intros j hj Hj|intros Hsw j hj Hj|intros Hs j hj Hj];
    destruct (Hcase j hj Hj) as [Hd|[Hij Hj']]; unfold receiver; rewrite ?Hd; try done.
  - intros Hn. apply list_elem_of_In, List.filter_In. split.
    + apply list_elem_of_In. by apply (Hp j hj).
    + by destruct (Nat.eqb_spec j i); [congruence|].
  - by apply (Ho Hsw j hj).
  - by apply (Ha Hs j hj).
Qed.

Lemma own_closes s s' : Safe s -> Closes s -> own s s' -> Closes s'.
Proof.
  intros Hs Hc Ho. destruct Ho as [s s' E|s s' E|s i h h' Hi E|s i h Hi E|s s' E].
  - revert E. unfold accept_step. destruct (sv_accept s); try destruct (_ && _);
      intros [= <-]; try (by apply spawn_closes); by destruct Hc.
  - revert E. unfold monitor_step. destruct (sv_monitor s); intros [= <-]; by destruct Hc.
  - apply handler_step_closes in E as [Hn Hr]. apply (put_handler_closes s i h); [done..|].
    intros Hsw. apply Hr, (safe_flag s Hs). destruct Hsw as [?|Hsw]; [by right|left].
    by destruct (sv_stop s).
  - by apply remove_closes.
  - by eapply stop_closes.
Qed.

Lemma outside_closes s s' : Closes s -> outside s s' -> Closes s'.
Proof.
  intros Hc Ho. destruct Ho as [s E _|s E|s i h n Hi E _|s i h Hi E].
  1-2: by destruct Hc.
  all: apply (put_handler_closes s i h); [done|done|by rewrite E|done].
Qed.

Lemma call_closes s s' : Closes s -> call s s' -> Closes s'.
Proof. intros Hc Ho. destruct Ho as [s E]. by apply stop_at_closes. Qed.

Lemma reachable_closes s : reachable s -> Safe s /\ Closes s.
Proof.
  intros [n Hr]. pose proof (started_safe n) as H0. pose proof (started_closes n) as H1.
  induction Hr as [|s1 s2 s3 [[Ho|Ho]|Hc] _ IH]; [done|apply IH..];
    eauto using own_safe, outside_safe, call_safe, own_closes, outside_closes, call_closes.
Qed.

(** Whatever was reached by steps alone, once stopping has begun. *)
Lemma steps_stopping s s' : sv_stopping s = true -> rtc step s s' -> sv_stopping s' = true.
Proof.
  intros Hs Hr. induction Hr as [|s1 s2 s3 [Ho|Ho] _ IH]; [done|..]; apply IH.
  - by destruct (own_progress _ _ Hs Ho).
  - by destruct (outside_progress _ _ Hs Ho).
Qed.

(** The flag is up only if a call of [stop] has raised it. *)
Definition begun (s : Server) : Prop :=
  sv_stopping s = true -> flagged (sv_stop s) = true \/ sv_stopped s = true.

Lemma stop_begun s s' : begun s -> stop_step s = Some s' -> begun s'.
Proof.
  unfold begun, stop_step, close_peer. intros Hb.
  destruct (sv_stop s) as [| | | | |[|i peers] pending|[|i pending]|];
    try destruct (sv_monitor s); try destruct (sv_handlers s !! i);
    try destruct (finished i s); intros [= <-]; cbn in *; auto.
Qed.

Lemma own_begun s s' : begun s -> own s s' -> begun s'.
Proof.
  intros Hb Ho. destruct Ho as [s s' E|s s' E|s i h h' Hi E|s i h Hi E|s s' E].
  - revert E. unfold accept_step. destruct (sv_accept s); try destruct (_ && _);
      by intros [= <-].
  - revert E. unfold monitor_step. destruct (sv_monitor s); by intros [= <-].
  - done.
  - done.
  - by eapply stop_begun.
Qed.

Lemma reachable_begun s : reachable s -> begun s.
Proof.
  intros [n Hr]. assert (begun (started n)) as H0 by done.
  induction Hr as [|s1 s2 s3 [[Ho|Ho]|Hc] _ IH]; [done|apply IH..].
  - by eapply own_begun.
  - by destruct Ho.
  - destruct Hc as [s Hc]. unfold begun in *. rewrite Hc in H0. cbn in *. tauto.
Qed.

Lemma reachable_steps s s' : reachable s -> rtc step s s' -> reachable s'.
Proof.
  intros [n Hr] Hs. exists n. etrans; [done|]. eapply (rtc_subrel step); [by left|done].
Qed.
End Threads.

(** The end of a server: [stop] has returned, the store is gone and every thread ended. *)
Record Quiescent (s : Server) : Prop := {
  quiet_stop : sv_stop s = SIdle;
  quiet_stopped : sv_stopped s = true;
  quiet_store : sv_store s = false;
  quiet_accept : sv_accept s = AReturned;
  quiet_monitor : sv_monitor s = MDone;
  quiet_handlers : Forall (fun h => h_at h = HDone) (sv_handlers s);
}.

Section Waking.
Notation own := (own true).

(** A thread of a connection can go on unless it has ended or waits on an open socket. *)
Lemma handler_can_step s i h :
  sv_handlers s !! i = Some h -> (forall s', ~ own s s') ->
  h_at h = HDone \/ h_at h = HRecv /\ h_open h = true.
Proof.
  intros Hi Hn.
  assert (forall h', ~ handler_step true (sv_stopping s) h h') as Hh.
  { intros h' Hstep. eapply Hn. by eapply own_handler. }
  destruct (h_at h) as [| | |[|n]|n|n| | | | | |] eqn:E; try by left.
  - destruct (sv_stopping s) eqn:Es; edestruct Hh; [by apply h_loop_stop|by apply h_loop_go].
  - edestruct Hh. by apply h_enter.
  - right. split; [done|]. apply not_false_iff_true. intros Ho.
    edestruct Hh. by apply h_woken.
  - edestruct Hh. by apply h_drained.
  - edestruct Hh. by eapply h_next.
  - edestruct Hh. by apply (h_dispatched _ _ _ n true).
  - edestruct Hh. by eapply h_answered.
  - edestruct Hh. by apply h_lost.
  - edestruct Hh. by apply h_marked.
  - edestruct Hh. by apply h_refreshed.
  - edestruct Hh. by apply h_closed.
  - edestruct Hn. by eapply own_remove.
Qed.

Lemma stuck_quiescent s :
  Safe s -> Closes s -> begun s -> sv_stopping s = true ->
  (forall s', ~ own s s') -> Quiescent s.
Proof.
  intros Hs Hc Hb Hst Hn.
  assert (sv_monitor s = MDone) as Hmon.
  { destruct (monitor_step s) eqn:E; [edestruct Hn; by apply own_monitor|].
    unfold monitor_step in E. by destruct (sv_monitor s). }
  assert (stop_step s = None) as Hstop.
  { destruct (stop_step s) eqn:E; [edestruct Hn; by apply own_stop|done]. }
  assert (sv_stop s = SIdle) as Hp.
  { unfold stop_step in Hstop. rewrite Hmon in Hstop.
    destruct (sv_stop s) as [| | | | |[|i peers] pending|[|i pending]|] eqn:E; try done.
    destruct (finished i s) eqn:Hf; [done|]. exfalso. unfold finished in Hf.
    destruct (sv_handlers s !! i) as [h|] eqn:Hi; [|done].
    destruct (handler_can_step s i h Hi Hn) as [Hd|[Hr Ho]]; [by rewrite Hd in Hf|].
    pose proof (closes_open s Hc) as Hopen. unfold closing in Hopen. rewrite E in Hopen.
    specialize (Hopen eq_refl i h Hi). unfold receiver in Hopen. rewrite Hr in Hopen.
    by apply (Hopen eq_refl), elem_of_nil in Ho. }
  assert (sv_stopped s = true) as Hidle.
  { destruct (Hb Hst) as [Hf|]; [|done]. by rewrite Hp in Hf. }
  split; [done|done| | |done|].
  - by rewrite (safe_store s Hs), Hidle.
  - destruct (accept_step true s) eqn:E; [edestruct Hn; by apply own_accept|].
    unfold accept_step in E. rewrite (closes_listener s Hc) in E by auto.
    by destruct (sv_accept s).
  - apply Forall_lookup. intros i h Hi.
    destruct (handler_can_step s i h Hi Hn) as [Hd|[Hr Ho]]; [done|].
    rewrite (closes_all s Hc Hidle i h Hi) in Ho; [done|]. unfold receiver. by rewrite Hr.
Qed.

(** C16: Where closing a descriptor wakes the calls that wait on it, stopping completes: once a
    call of [stop] has raised the flag every run of the server is finite, whatever its
    clients do, and it ends only when [stop] has returned, the store is gone and the threads
    of [serve], of the monitor and of every connection have ended. *)
Theorem stop_completes s :
  reachable true s -> sv_stopping s = true ->
  Acc (fun s' s => step true s s') s /\
  forall s', rtc (step true) s s' -> (forall s'', ~ own s' s'') -> Quiescent s'.
Proof.
  intros Hr Hst. split; [by apply stopping_finite|]. intros s' Hs Hn.
  pose proof (reachable_steps true s s' Hr Hs) as Hr'.
  destruct (reachable_closes true s' Hr') as [Hsafe Hc].
  apply stuck_quiescent; [done|done|by eapply reachable_begun|by eapply steps_stopping|done].
Qed.
End Waking.

(** Where closing a descriptor does not wake them, as POSIX allows and Linux does, stopping
    can hang: [stop] waits for the thread of a connection, which waits for a client that
    says nothing, and no thread of the server can go on. *)
Definition hung : Server := {|
  sv_stopping := true; sv_listener := false; sv_store := true; sv_served := 1;
  sv_max_connections := 1; sv_workers := []; sv_peers := [0%nat];
  sv_handlers := [mkHandler HRecv false false]; sv_accept := AReturned;
  sv_monitor := MDone; sv_stop := SJoin [0%nat]; sv_stopped := false;
|}.

Ltac own_next rule := eapply rtc_l; [left; left; eapply rule; reflexivity|]; cbn.
Ltac handler_next rule :=
  eapply rtc_l; [left; left; eapply (own_handler _ _ 0); [reflexivity|by apply rule]|]; cbn.

Theorem stop_can_hang : reachable false hung /\ forall s, ~ own false hung s.
Proof.
  split.
  - exists 1. unfold started.
    do 2 own_next own_accept. eapply rtc_l; [left; right; by apply out_connected; auto|]. cbn.
    do 2 own_next own_accept. handler_next h_loop_go. handler_next h_enter.
    eapply rtc_l; [right; by apply call_stop|]. cbn.
    do 2 own_next own_stop. own_next own_monitor. do 4 own_next own_stop. reflexivity.
  - intros s Ho. remember hung as h0 eqn:E0. destruct Ho as [s s' E|s s' E|s i h h' Hi E|s i h Hi E|s s' E];
      subst s; try done.
    + destruct i; [|done]. injection Hi as <-. inversion E; subst; done.
    + destruct i; [|done]. injection Hi as <-. done.
Qed.

(** After [stop], [epoch()] has no store to read: the coordinator program, which prints the
    epoch after its last call of [stop], dereferences a null pointer. *)
Theorem no_epoch_after_stop {A} wakes (f : A) s :
  reachable wakes s -> sv_stopped s = true -> through_store f s = None.
Proof.
  intros Hr%reachable_safe Hd. unfold through_store. by rewrite (safe_store s Hr), Hd.
Qed.
