(* ===== verification/ThreadsWitnesses.v ===== *)
(** * Witnesses of the threads

    Runs of a server of one connection: the monitor about to expire leases, a connection
    that dispatches while [stop] is called, and a whole run to the end. *)

From stdpp Require Import relations.
From S2P Require Import Prelude.
From S2P Require Import Ids.
From S2P Require Import Threads.
From S2P Require Import ThreadsProps.

(** The next action of [serve], of the monitor or of [stop]. *)
Definition advance (who : Server -> option Server) (s : Server) : Server := default s (who s).

Definition ahead (s s' : Server) : Prop := step true s s' \/ call s s'.

Lemma advance_accept s : rtc ahead s (advance (accept_step true) s).
Proof.
  unfold advance. destruct (accept_step true s) eqn:E; [|done]. cbn.
  apply rtc_once. left. left. by apply own_accept.
Qed.
Lemma advance_monitor s : rtc ahead s (advance monitor_step s).
Proof.
  unfold advance. destruct (monitor_step s) eqn:E; [|done]. cbn.
  apply rtc_once. left. left. by apply own_monitor.
Qed.
Lemma advance_stop s : rtc ahead s (advance stop_step s).
Proof.
  unfold advance. destruct (stop_step s) eqn:E; [|done]. cbn.
  apply rtc_once. left. left. by apply own_stop.
Qed.

(** A server whose monitor is about to expire leases. *)
Definition expiring : Server := Nat.iter 3 (advance monitor_step) (started 0).

Lemma expiring_reachable : reachable true expiring.
Proof.
  exists 0. unfold expiring. cbn [Nat.iter].
  repeat (etrans; [|apply advance_monitor]). reflexivity.
Qed.

Lemma no_use_after_stop_witness : sv_store expiring = true.
Proof.
  assert (uses_store expiring) as Hu by (left; reflexivity).
  destruct (no_use_after_stop true expiring expiring_reachable Hu) as [H _]. exact H.
Defined.

(** A call of [stop] that has raised the flag while [serve] waits for a client. *)
Definition raised : Server :=
  advance stop_step (stop_at SFlag (Nat.iter 2 (advance (accept_step true)) (started 0))).

Lemma raised_reachable : reachable true raised.
Proof.
  exists 0. unfold raised. etrans; [|apply advance_stop].
  eapply rtc_r; [|by right; apply call_stop]. cbn [Nat.iter].
  repeat (etrans; [|apply advance_accept]). reflexivity.
Qed.

Lemma stop_completes_witness :
  sv_accept raised = AAccept /\ Acc (fun s' s => step true s s') raised.
Proof.
  split; [reflexivity|].
  exact (proj1 (stop_completes raised raised_reachable eq_refl)).
Defined.

(** The rest of that run: the listener closes and wakes [serve], the monitor ends, and
    [stop] destroys the store. *)
Definition after_raised : Server :=
  Nat.iter 6 (advance stop_step)
    (advance monitor_step (Nat.iter 2 (advance (accept_step true)) (advance stop_step raised))).

Example after_raised_quiescent : Quiescent after_raised.
Proof. split; try reflexivity. constructor. Qed.

Lemma no_epoch_after_stop_witness : through_store 7 after_raised = None.
Proof.
  apply (no_epoch_after_stop true 7 after_raised); [|reflexivity].
  destruct raised_reachable as [n Hr]. exists n. etrans; [exact Hr|]. unfold after_raised.
  cbn [Nat.iter]. repeat (etrans; [|apply advance_stop]).
  etrans; [|apply advance_monitor]. repeat (etrans; [|apply advance_accept]).
  apply advance_stop.
Defined.
