(* ===== verification/Tools.v ===== *)
(** * The two programs

    [tools/srf_coordinator.cpp] and [tools/srf_worker.cpp], each in a Module: the options of
    a command line, and what [main] does with them, as calls of [Coordinator], [Threads] and
    [Worker].  What a program prints is a list of reports. *)

From S2P Require Import Prelude.
From S2P Require Import Ids.
From S2P Require Import Digest.
From S2P Require Import Segment.
From S2P Require Import Reason.
From S2P Require Import Lifecycle.
From S2P Require Import Governance.
From S2P Require Import Evidence.
From S2P Require Import Persistence.
From S2P Require Import Store.
From S2P Require Import Wire.
From S2P Require Import Coordinator.
From S2P Require Import Worker.
From S2P Require Import Transport.
From S2P Require Import Threads.

(** ** Numerals *)

(** [std::strtoull(value.c_str(), nullptr, 10)]; [std::strtoul] is the same where
    [unsigned long] has 64 bits.  Out of range is the largest value, and what is not a
    number is zero. *)
Definition strtoull (value : String.string) : Z :=
  let '(negative, l) := get_sign (skip_blanks (String.list_byte_of_string value)) in
  let v := get_digits 0 l in
  if 2 ^ 64 <=? v then 2 ^ 64 - 1 else if negative then u64 (- v) else v.

(** ** The coordinator program *)
Module CoordinatorTool.

Record Options := {
  state_path : String.string;
  port_path : String.string;
  port : Z;
  lease_ms : Z;
  hold_ms : Z;
  load_persisted : bool;
  advance_epoch : bool;
}.

Definition default_options : Options := {|
  state_path := ""; port_path := ""; port := 0; lease_ms := 4000; hold_ms := 0;
  load_persisted := true; advance_epoch := true;
|}.

(** The options that take a value, and the others; [None] for what is neither. *)
Definition set_value (arg value : String.string) (o : Options) : Options :=
  if String.eqb arg "--state" then {| o with state_path := value |}
  else if String.eqb arg "--port-file" then {| o with port_path := value |}
  else if String.eqb arg "--port" then {| o with port := u16 (strtoull value) |}
  else if String.eqb arg "--lease-ms" then {| o with lease_ms := u32 (strtoull value) |}
  else {| o with hold_ms := u32 (strtoull value) |}.

Definition takes_value (arg : String.string) : bool :=
  existsb (String.eqb arg) ["--state"; "--port-file"; "--port"; "--lease-ms"; "--hold-ms"]%string.

Definition set_flag (arg : String.string) (o : Options) : option Options :=
  if String.eqb arg "--no-load" then Some {| o with load_persisted := false |}
  else if String.eqb arg "--no-epoch-bump" then Some {| o with advance_epoch := false |}
  else None.

Fixpoint parse (args : list String.string) (o : Options) : option Options :=
  match args with
  | [] => Some o
  | arg :: args =>
      if takes_value arg then
        match args with [] => None | value :: args => parse args (set_value arg value o) end
      else match set_flag arg o with Some o => parse args o | None => None end
  end.

Definition config (o : Options) : CoordinatorConfig := {|
  cf_limits := default_limits; cf_lease_milliseconds := lease_ms o;
  cf_load_persisted := load_persisted o; cf_advance_epoch := advance_epoch o;
|}.

(** How the program ends: it exits with a code, or reads the epoch through a null
    pointer. *)
Inductive Ending := Exits (code : Z) | NullDereference.

Inductive Report :=
| Ready (epoch : CoordinatorEpoch) (port : Z) (recovered : Z)
| Stopped (epoch : CoordinatorEpoch).

(** [main].  [backend] opens the state file, [served] is the server after [serve] and the
    calls of [stop], and [epoch] what is then stored as the epoch, if anything is. *)
Definition main {P} `{IPersistence P} (args : list String.string)
    (backend : String.string -> P) (io : StartIo) (served : Server) (epoch : CoordinatorEpoch)
  : Ending * list Report :=
  match parse args default_options with
  | None => (Exits 2, [])
  | Some o =>
      let state := if String.eqb (state_path o) "" then None else Some (backend (state_path o)) in
      match start (config o) state io empty_result with
      | (false, _, _, _) => (Exits 3, [])
      | (true, _, report, c) =>
          let ready := Ready (co_epoch c) (io_port io) (lr_lists_recovered report) in
          match through_store epoch served with
          | None => (NullDereference, [ready])
          | Some epoch => (Exits 0, [ready; Stopped epoch])
          end
      end
  end.
End CoordinatorTool.

(** ** The worker program *)
Module WorkerTool.

Record Options := {
  port_path : String.string;
  boot : Z;
  publisher : Z;
  scope : Z;
  list_id : Z;
  segment_id : Z;
  node_id : Z;
  hold_ms : Z;
  heartbeat_ms : Z;
  publish : bool;
  replace : bool;
  revalidate : bool;
}.

Definition default_options : Options := {|
  port_path := ""; boot := 1; publisher := 1; scope := 1; list_id := 0; segment_id := 0;
  node_id := 0; hold_ms := 0; heartbeat_ms := 0; publish := false; replace := false;
  revalidate := false;
|}.

Definition set_value (arg value : String.string) (o : Options) : Options :=
  if String.eqb arg "--port-file" then {| o with port_path := value |}
  else if String.eqb arg "--boot" then {| o with boot := strtoull value |}
  else if String.eqb arg "--publisher" then {| o with publisher := strtoull value |}
  else if String.eqb arg "--scope" then {| o with scope := strtoull value |}
  else if String.eqb arg "--list" then {| o with list_id := strtoull value |}
  else if String.eqb arg "--segment" then {| o with segment_id := strtoull value |}
  else if String.eqb arg "--node" then {| o with node_id := strtoull value |}
  else if String.eqb arg "--hold-ms" then {| o with hold_ms := u32 (strtoull value) |}
  else {| o with heartbeat_ms := u32 (strtoull value) |}.

Definition takes_value (arg : String.string) : bool :=
  existsb (String.eqb arg)
    ["--port-file"; "--boot"; "--publisher"; "--scope"; "--list"; "--segment"; "--node";
     "--hold-ms"; "--heartbeat-ms"]%string.

Definition set_flag (arg : String.string) (o : Options) : option Options :=
  if String.eqb arg "--publish" then Some {| o with publish := true |}
  else if String.eqb arg "--replace" then Some {| o with replace := true |}
  else if String.eqb arg "--revalidate" then Some {| o with revalidate := true |}
  else None.

Fixpoint parse (args : list String.string) (o : Options) : option Options :=
  match args with
  | [] => Some o
  | arg :: args =>
      if takes_value arg then
        match args with [] => None | value :: args => parse args (set_value arg value o) end
      else match set_flag arg o with Some o => parse args o | None => None end
  end.

Definition make_draft (o : Options) (generation : Z) : ListDraft := {| empty_draft with
  ld_id := list_id o; ld_scope := scope o; ld_profile := 0x00010001;
  ld_expected_generation := generation;
  ld_segments := [{| empty_segment with
    seg_kind := KNode; seg_id := segment_id o; seg_generation := 1; seg_node := node_id o;
    seg_payload := [Byte.x01; Byte.x02] |}] |}.

Definition config (o : Options) : WorkerConfig := {|
  wc_limits := default_limits; wc_boot := boot o; wc_publisher := publisher o;
  wc_scope := scope o; wc_expected_epoch := 0 |}.

Inductive Report :=
| Hello (status : StatusCode) (epoch : CoordinatorEpoch) (session : WorkerSessionId)
| Rejected (primary : option WireReason)
| Did (what : String.string) (status : StatusCode) (generation : SegmentListGeneration)
    (digest : Digest128) (replay : bool)
| HeartbeatFailed (primary : option WireReason)
| Done.

Definition report (what : String.string) (p : Response) : Report :=
  Did what (rp_status p) (rp_generation p) (rp_digest p) (rp_idempotent_replay p).

(** What the network does during a run: the port file and the connection, one line per
    exchange, and one per turn of the holding loop until its deadline. *)
Record Network := {
  nw_port : option Z;
  nw_connect : Z -> list Reason;
  nw_hello : Line;
  nw_publish : Line;
  nw_replace_get : Line;
  nw_replace : Line;
  nw_revalidate_get : Line;
  nw_revalidate : Line;
  nw_hold : list Line;
}.

(** The generation of the list that [get] answers with, or zero. *)
Definition current_generation (o : Options) (line : Line) (w : WorkerClient)
  : Z * list Byte.byte * WorkerClient :=
  let '(p, sent, w) := send_get (list_id o) line w in
  (match rp_summaries p with [] => 0 | s :: _ => sm_generation s end, sent, w).

Definition run_publish (o : Options) (nw : Network) (w : WorkerClient)
  : list Report * list Byte.byte * WorkerClient :=
  if publish o then
    let '(p, sent, w) := send_mutation Message.CreateList (make_draft o 0) (nw_publish nw) w in
    ([report "PUBLISH" p], sent, w)
  else ([], [], w).

Definition run_replace (o : Options) (nw : Network) (w : WorkerClient)
  : list Report * list Byte.byte * WorkerClient :=
  if replace o then
    let '(generation, sent, w) := current_generation o (nw_replace_get nw) w in
    let '(p, sent', w) :=
      send_mutation Message.ReplaceList (make_draft o generation) (nw_replace nw) w in
    ([report "REPLACE" p], sent ++ sent', w)
  else ([], [], w).

Definition run_revalidate (o : Options) (nw : Network) (w : WorkerClient)
  : list Report * list Byte.byte * WorkerClient :=
  if revalidate o then
    let '(generation, sent, w) := current_generation o (nw_revalidate_get nw) w in
    let '(p, sent', w) :=
      send_lifecycle OpRevalidate (list_id o) generation (nw_revalidate nw) w in
    ([report "REVALIDATE" p], sent ++ sent', w)
  else ([], [], w).

(** The holding loop: a heartbeat per turn, if any are asked for, until one fails. *)
Fixpoint hold (o : Options) (turns : list Line) (w : WorkerClient)
  : list Report * list Byte.byte * WorkerClient :=
  match turns with
  | [] => ([], [], w)
  | line :: turns =>
      if negb (heartbeat_ms o =? 0) then
        let '(p, sent, w) := heartbeat line w in
        match rp_status p with
        | StOk => let '(rs, sent', w) := hold o turns w in (rs, sent ++ sent', w)
        | _ => ([HeartbeatFailed (head (rp_reasons p))], sent, w)
        end
      else hold o turns w
  end.

(** [main]: the exit code, the reports and the bytes sent. *)
Definition main (args : list String.string) (nw : Network)
  : Z * list Report * list Byte.byte :=
  match parse args default_options with
  | None => (2, [], [])
  | Some o =>
      let client := new_client (config default_options) in
      match open (config o) (nw_port nw) (nw_connect nw) empty_result client with
      | (false, _, _) => (3, [], [])
      | (true, _, w) =>
          let '(p, sent, w) := handshake (nw_hello nw) w in
          let hello := Hello (rp_status p) (rp_epoch p) (rp_session p) in
          match rp_status p with
          | StOk =>
              let '(rs1, sent1, w) := run_publish o nw w in
              let '(rs2, sent2, w) := run_replace o nw w in
              let '(rs3, sent3, w) := run_revalidate o nw w in
              let '(rs4, sent4, w) := hold o (nw_hold nw) w in
              (0, hello :: rs1 ++ rs2 ++ rs3 ++ rs4 ++ [Done],
               sent ++ sent1 ++ sent2 ++ sent3 ++ sent4)
          | _ => (0, [hello; Rejected (head (rp_reasons p))], sent)
          end
      end
  end.
End WorkerTool.
