(* ===== verification/ToolsProps.v ===== *)
(** * Correctness of the two programs

    A decimal numeral given on a command line is read as the number it is; the options of a
    worker survive being written as its documented command line; and a coordinator program
    that was started and stopped ends by reading the epoch of a store that is gone. *)

From stdpp Require Import relations.
From S2P Require Import Prelude.
From S2P Require Import Ids.
From S2P Require Import Governance.
From S2P Require Import Persistence.
From S2P Require Import Store.
From S2P Require Import Wire.
From S2P Require Import Worker.
From S2P Require Import Coordinator.
From S2P Require Import Transport.
From S2P Require Import TransportProps.
From S2P Require Import Threads.
From S2P Require Import ThreadsProps.
From S2P Require Import Tools.

(** The decimal numeral of a 64-bit value. *)
Definition numeral (z : Z) : String.string := String.string_of_list_byte (put_decimal 20 z).

Theorem strtoull_numeral z : fits 64 z -> strtoull (numeral z) = z.
Proof.
  intros Hz. unfold strtoull, numeral. rewrite String.list_byte_of_string_of_list_byte.
  destruct (put_decimal_spec 20 z) as (Hf & Hn & Hne).
  { unfold fits in Hz. change (10 ^ Z.of_nat 20) with 100000000000000000000. lia. }
  specialize (Hne ltac:(done)). destruct (put_decimal 20 z) as [|b ds]; [done|].
  apply list.Forall_cons in Hf as [Hb Hf].
  rewrite skip_blanks_digit, get_sign_digit by done. cbv beta iota. rewrite Hn.
  destruct (Z.leb_spec (2 ^ 64) z); [unfold fits in Hz; lia|done].
Qed.

(** ** The worker's command line *)
Module WorkerOptions.
Import WorkerTool.

Definition flag (name : String.string) (b : bool) : list String.string :=
  if b then [name] else [].

Definition command_line (o : Options) : list String.string :=
  ["--port-file"; port_path o; "--boot"; numeral (boot o); "--publisher"; numeral (publisher o);
   "--scope"; numeral (scope o)]%string ++
  flag "--publish" (publish o) ++ flag "--replace" (replace o) ++
  flag "--revalidate" (revalidate o) ++
  ["--list"; numeral (list_id o); "--segment"; numeral (segment_id o); "--node";
   numeral (node_id o); "--heartbeat-ms"; numeral (heartbeat_ms o); "--hold-ms";
   numeral (hold_ms o)]%string.

Definition options_fit (o : Options) : Prop :=
  fits 64 (boot o) /\ fits 64 (publisher o) /\ fits 64 (scope o) /\ fits 64 (list_id o) /\
  fits 64 (segment_id o) /\ fits 64 (node_id o) /\ fits 32 (heartbeat_ms o) /\
  fits 32 (hold_ms o).

(** The options of a worker are read back from its command line. *)
Theorem parse_command_line o :
  options_fit o -> parse (command_line o) default_options = Some o.
Proof.
  intros (H1 & H2 & H3 & H4 & H5 & H6 & H7 & H8).
  assert (fits 64 (heartbeat_ms o) /\ fits 64 (hold_ms o)) as [H7' H8'] by (unfold fits in *; lia).
  destruct o as [pp b pu sc li se no ho he p r v].
  cbn [boot publisher scope list_id segment_id node_id heartbeat_ms hold_ms] in *.
  transitivity (Some {| port_path := pp; boot := strtoull (numeral b);
    publisher := strtoull (numeral pu); scope := strtoull (numeral sc);
    list_id := strtoull (numeral li); segment_id := strtoull (numeral se);
    node_id := strtoull (numeral no); hold_ms := u32 (strtoull (numeral ho));
    heartbeat_ms := u32 (strtoull (numeral he)); publish := p; replace := r;
    revalidate := v |}).
  - destruct p, r, v; reflexivity.
  - by rewrite !strtoull_numeral, !(wrap_small 32) by done.
Qed.
End WorkerOptions.

(** ** The end of the coordinator program *)

(** Once started, the coordinator program never exits properly: its last report needs the
    epoch, and [stop] has destroyed the store that holds it. *)
Theorem coordinator_never_exits {P} `{IPersistence P} args (backend : String.string -> P) io
    wakes served epoch :
  reachable wakes served -> sv_stopped served = true ->
  match CoordinatorTool.main args backend io served epoch with
  | (CoordinatorTool.Exits code, reports) => (code = 2 \/ code = 3) /\ reports = []
  | (CoordinatorTool.NullDereference, reports) =>
      exists e p n, reports = [CoordinatorTool.Ready e p n]
  end.
Proof.
  intros Hr Hs. unfold CoordinatorTool.main.
  assert (through_store epoch served = None) as ->.
  { apply reachable_safe in Hr. unfold through_store. by rewrite (safe_store served Hr), Hs. }
  destruct (CoordinatorTool.parse args _) as [o|]; [|by auto].
  destruct (start _ _ _ _) as [[[[] out] report] c]; [by eauto|by auto].
Qed.

(** A worker whose options or connection fail reports and sends nothing; one whose hello is
    refused reports that and does nothing else. *)
Theorem rejected_worker_stops args nw :
  let '(code, reports, sent) := WorkerTool.main args nw in
  match reports with
  | [] => (code = 2 \/ code = 3) /\ sent = []
  | WorkerTool.Hello status _ _ :: rest =>
      code = 0 /\ (status <> StOk -> exists primary, rest = [WorkerTool.Rejected primary])
  | _ => False
  end.
Proof.
  unfold WorkerTool.main. destruct (WorkerTool.parse args _) as [o|]; [|by auto].
  destruct (Worker.open _ _ _ _ _) as [[[] out] w]; [|by auto].
  destruct (Worker.handshake _ w) as [[p sent] w1].
  destruct (rp_status p) eqn:E; try (by split; [done|eauto]).
  destruct (WorkerTool.run_publish o nw w1) as [[rs1 s1] w2].
  destruct (WorkerTool.run_replace o nw w2) as [[rs2 s2] w3].
  destruct (WorkerTool.run_revalidate o nw w3) as [[rs3 s3] w4].
  destruct (WorkerTool.hold o (WorkerTool.nw_hold nw) w4) as [[rs4 s4] w5]. by rewrite ?E.
Qed.

Example worker_usage :
  WorkerTool.parse ["--port-file"; "p"; "--boot"; " 12x"; "--scope"; "-1"; "--publish"]
    WorkerTool.default_options =
  Some {| WorkerTool.default_options with WorkerTool.port_path := "p"; WorkerTool.boot := 12;
          WorkerTool.scope := 2 ^ 64 - 1; WorkerTool.publish := true |} /\
  WorkerTool.parse ["--publish"; "--boot"] WorkerTool.default_options = None /\
  WorkerTool.parse ["--bogus"] WorkerTool.default_options = None.
Proof. vm_compute. repeat split. Qed.
