(* ===== verification/Render.v ===== *)
(** * Digests and results as text

    [to_hex] and [Digest128::hex] of [src/digest.cpp], and [ValidationResult::to_string] of
    [src/reason.cpp].  A digest is read back from its text; the text of a result determines
    its reasons up to the details and the index of the first, and no reason is cut by the
    buffer it is formatted in. *)

From S2P Require Import Prelude.
From S2P Require Import Ids.
From S2P Require Import Digest.
From S2P Require Import Reason.
From S2P Require Import Governance.

Module Rendering.

(** ** Definitions *)

(** A digit of a base up to sixteen, in lower case. *)
Definition numeral_digit (d : Z) : Byte.byte :=
  nth (Z.to_nat d) (text "0123456789abcdef") Byte.x00.

(** The conversions [%u] and [%x]: the shortest numeral, of at most [fuel] digits. *)
Fixpoint numeral (base : Z) (fuel : nat) (z : Z) : list Byte.byte :=
  match fuel with
  | O => []
  | S fuel => (if z <? base then [] else numeral base fuel (z / base)) ++
              [numeral_digit (z mod base)]
  end.

(** The flag [0] of a conversion with a width. *)
Definition zero_pad (width : nat) (s : list Byte.byte) : list Byte.byte :=
  replicate (width - length s) Byte.x30 ++ s.

(** [snprintf] into a buffer: what does not fit before the terminator is dropped. *)
Definition in_buffer (capacity : nat) (s : list Byte.byte) : list Byte.byte :=
  take (capacity - 1) s.

Definition to_hex (value : Z) : list Byte.byte := in_buffer 17 (zero_pad 16 (numeral 16 16 value)).

Definition to_hex_width (value : Z) (width : nat) : list Byte.byte :=
  in_buffer 16 (zero_pad width (numeral 16 8 value)).

Definition digest_hex (d : Digest128) : list Byte.byte := to_hex (hi d) ++ to_hex (lo d).

Definition comma : Byte.byte := Byte.x2c.
Definition open_bracket : Byte.byte := Byte.x5b.
Definition close_bracket : Byte.byte := Byte.x5d.

(** [,%s[%u]] *)
Definition reason_format (r : Reason) : list Byte.byte :=
  comma :: text (reason_code_name (r_code r)) ++
  open_bracket :: numeral 10 10 (r_index r) ++ [close_bracket].

Definition result_to_string (o : ValidationResult) : list Byte.byte :=
  match reasons o with
  | [] => text "Ok"
  | _ :: rest =>
      text (primary_name o) ++ flat_map (fun r => in_buffer 96 (reason_format r)) rest ++
      if truncated o then text ",truncated" else []
  end.

(** ** Reading numerals *)
Definition digit_value (c : Byte.byte) : Z :=
  let b := byte.unsigned c in if b <? 58 then b - 48 else b - 87.

Definition read_numeral (base : Z) (l : list Byte.byte) : Z :=
  fold_left (fun v c => v * base + digit_value c) l 0.

Lemma digit_read d : 0 <= d < 16 -> digit_value (numeral_digit d) = d.
Proof.
  intros Hd. assert (forallb (fun n => digit_value (numeral_digit (Z.of_nat n)) =? Z.of_nat n)
    (seq 0 16) = true) as H by reflexivity.
  rewrite forallb_forall in H. specialize (H (Z.to_nat d)). rewrite Z2Nat.id in H by lia.
  apply Z.eqb_eq, H, in_seq. lia.
Qed.

Lemma fold_read base l v :
  fold_left (fun v c => v * base + digit_value c) l v =
  v * base ^ Z.of_nat (length l) + read_numeral base l.
Proof.
  unfold read_numeral. revert v. induction l as [|c l IH]; intros v; cbn [fold_left length].
  { cbn. lia. }
  rewrite (IH (v * _ + _)), (IH (0 * _ + _)), Nat2Z.inj_succ, Z.pow_succ_r by lia. ring.
Qed.

Lemma read_app base l l' :
  read_numeral base (l ++ l') =
  read_numeral base l * base ^ Z.of_nat (length l') + read_numeral base l'.
Proof. unfold read_numeral at 1. rewrite fold_left_app. apply fold_read. Qed.

Lemma read_numeral_numeral base fuel z :
  2 <= base <= 16 -> 0 <= z < base ^ Z.of_nat fuel ->
  read_numeral base (numeral base fuel z) = z.
Proof.
  intros Hb. revert z. induction fuel as [|fuel IH]; intros z Hz; [cbn in *; lia|].
  rewrite Nat2Z.inj_succ, Z.pow_succ_r in Hz by lia. cbn [numeral].
  pose proof (Z.mod_pos_bound z base ltac:(lia)) as Hm.
  rewrite read_app. change (read_numeral base [?x]) with (0 * base + digit_value x).
  rewrite digit_read by lia. change (Z.of_nat (length [_])) with 1. rewrite Z.pow_1_r.
  destruct (Z.ltb_spec z base).
  - rewrite Z.mod_small by lia. cbn. lia.
  - rewrite IH; [pose proof (Z.div_mod z base); lia|].
    split; [apply Z.div_pos; lia|apply Z.div_lt_upper_bound; lia].
Qed.

Lemma length_numeral base fuel z : (length (numeral base fuel z) <= fuel)%nat.
Proof.
  revert z. induction fuel as [|fuel IH]; intros z; cbn [numeral]; [done|].
  rewrite length_app. cbn [length]. specialize (IH (z / base)).
  destruct (z <? base); cbn [length]; lia.
Qed.

Lemma read_zero_pad base width l : read_numeral base (zero_pad width l) = read_numeral base l.
Proof.
  unfold zero_pad. rewrite read_app. induction (width - length l)%nat as [|n IH]; [done|].
  cbn [replicate]. change (Byte.x30 :: ?l) with ([Byte.x30] ++ l). rewrite read_app.
  change (read_numeral base [Byte.x30]) with (0 * base + 0). lia.
Qed.

Lemma length_zero_pad width l : (length l <= width)%nat -> length (zero_pad width l) = width.
Proof. intros. unfold zero_pad. rewrite length_app, length_replicate. lia. Qed.

Lemma to_hex_read v : fits 64 v -> length (to_hex v) = 16%nat /\ read_numeral 16 (to_hex v) = v.
Proof.
  intros Hv. assert (length (zero_pad 16 (numeral 16 16 v)) = 16%nat) as Hl
    by apply length_zero_pad, length_numeral.
  unfold to_hex, in_buffer. rewrite take_ge by (rewrite Hl; lia). split; [done|].
  rewrite read_zero_pad. apply read_numeral_numeral; [lia|].
  unfold fits in Hv. change (16 ^ Z.of_nat 16) with (2 ^ 64). lia.
Qed.

(** A digest is written with thirty-two digits and read back from them. *)
Theorem digest_hex_read d :
  fits 64 (hi d) -> fits 64 (lo d) ->
  length (digest_hex d) = 32%nat /\ read_numeral 16 (digest_hex d) = hi d * 2 ^ 64 + lo d.
Proof.
  intros [Hh Hhv]%to_hex_read [Hl Hlv]%to_hex_read. unfold digest_hex.
  by rewrite length_app, read_app, Hh, Hl, Hhv, Hlv.
Qed.

Theorem digest_hex_inj d e :
  fits 64 (hi d) -> fits 64 (lo d) -> fits 64 (hi e) -> fits 64 (lo e) ->
  digest_hex d = digest_hex e -> d = e.
Proof.
  intros Hhd Hld Hhe Hle E. destruct (digest_hex_read d Hhd Hld) as [_ Hd].
  destruct (digest_hex_read e Hhe Hle) as [_ He]. rewrite E, He in Hd.
  unfold fits in *. destruct d, e. cbn in *. f_equal; lia.
Qed.

(** ** The text of a result *)

(** Names hold neither separator and leave room in the buffer. *)
Definition plain (l : list Byte.byte) : bool :=
  forallb (fun b => negb (Byte.eqb b comma || Byte.eqb b open_bracket)) l.

Lemma name_plain c :
  plain (text (reason_code_name c)) = true /\ (length (text (reason_code_name c)) <= 40)%nat.
Proof. destruct c; vm_compute; split; reflexivity || lia. Qed.

(** The code of a name. *)
Definition code_named (n : list Byte.byte) : option ReasonCode :=
  cn_code <$> find (fun e => bool_decide (text (cn_name e) = n)) kCodes.

Lemma code_named_name c : code_named (text (reason_code_name c)) = Some c.
Proof. destruct c; vm_compute; reflexivity. Qed.

Lemma name_inj c c' : text (reason_code_name c) = text (reason_code_name c') -> c = c'.
Proof. intros E. pose proof (code_named_name c) as H. rewrite E, code_named_name in H. by injection H. Qed.

Lemma plain_app l l' : plain (l ++ l') = plain l && plain l'.
Proof. apply forallb_app. Qed.

Lemma numeral_plain base fuel z : 2 <= base <= 16 -> plain (numeral base fuel z) = true.
Proof.
  intros Hb. revert z. induction fuel as [|fuel IH]; intros z; [done|]. cbn [numeral].
  rewrite plain_app. assert (plain [numeral_digit (z mod base)] = true) as ->.
  { pose proof (Z.mod_pos_bound z base ltac:(lia)) as Hm.
    assert (forallb (fun n => plain [numeral_digit (Z.of_nat n)]) (seq 0 16) = true) as H
      by reflexivity.
    rewrite forallb_forall in H. specialize (H (Z.to_nat (z mod base))).
    rewrite Z2Nat.id in H by lia. apply H, in_seq. lia. }
  rewrite andb_true_r. by destruct (z <? base).
Qed.

(** What follows the comma of a reason. *)
Definition reason_body (r : Reason) : list Byte.byte :=
  text (reason_code_name (r_code r)) ++
  open_bracket :: numeral 10 10 (r_index r) ++ [close_bracket].

(** The buffer never cuts a reason. *)
Lemma reason_format_fits r : in_buffer 96 (reason_format r) = comma :: reason_body r.
Proof.
  unfold in_buffer. apply take_ge. cbn [length]. unfold reason_body.
  rewrite length_app. cbn [length]. rewrite length_app. cbn [length].
  destruct (name_plain (r_code r)) as [_ Hn]. pose proof (length_numeral 10 10 (r_index r)). lia.
Qed.

Definition comma_free (l : list Byte.byte) : Prop := comma ∉ l.

Lemma plain_free l : plain l = true -> comma ∉ l /\ open_bracket ∉ l.
Proof.
  unfold plain. rewrite forallb_forall. intros H.
  split; intros Hin%list_elem_of_In%H; vm_compute in Hin; discriminate.
Qed.

Lemma body_comma_free r : comma_free (reason_body r).
Proof.
  unfold comma_free, reason_body. rewrite elem_of_app, elem_of_cons, elem_of_app.
  destruct (plain_free _ (proj1 (name_plain (r_code r)))) as [Hn _].
  destruct (plain_free _ (numeral_plain 10 10 (r_index r) ltac:(lia))) as [Hd _].
  intros [?|[?|[?|[=]%list_elem_of_singleton]]]; done.
Qed.

(** The first separator cuts a text in one way. *)
Lemma cut_unique {A} (c : A) a b x y :
  c ∉ a -> c ∉ b -> a ++ c :: x = b ++ c :: y -> a = b /\ x = y.
Proof.
  revert b. induction a as [|h a IH]; intros [|k b] Ha Hb E; cbn in E.
  - by injection E as ->.
  - injection E as <- _. destruct Hb. by left.
  - injection E as -> _. destruct Ha. by left.
  - injection E as -> E. rewrite not_elem_of_cons in Ha, Hb.
    destruct (IH b) as [-> ->]; tauto.
Qed.

Lemma joined_unique ts us a b :
  comma_free a -> comma_free b -> Forall comma_free ts -> Forall comma_free us ->
  a ++ flat_map (cons comma) ts = b ++ flat_map (cons comma) us -> a = b /\ ts = us.
Proof.
  unfold comma_free. revert us a b.
  induction ts as [|t ts IH]; intros [|u us] a b Ha Hb Hts Hus E; cbn [flat_map] in E.
  - rewrite !app_nil_r in E. done.
  - rewrite app_nil_r in E. destruct Ha. rewrite E. apply elem_of_app. right. by left.
  - rewrite app_nil_r in E. destruct Hb. rewrite <-E. apply elem_of_app. right. by left.
  - cbn [app] in E. apply cut_unique in E as [-> E]; [|done|done].
    apply list.Forall_cons in Hts as [Ht Hts]. apply list.Forall_cons in Hus as [Hu Hus].
    by destruct (IH us t u Ht Hu Hts Hus E) as [-> ->].
Qed.

(** A reason is known by its body, up to its detail. *)
Lemma body_inj r r' :
  fits 32 (r_index r) -> fits 32 (r_index r') -> reason_body r = reason_body r' ->
  r_code r = r_code r' /\ r_index r = r_index r'.
Proof.
  intros Hr Hr' E. unfold reason_body in E.
  apply cut_unique in E as [Hn E]; [|apply plain_free, name_plain..].
  apply name_inj in Hn. apply (f_equal (fun l => read_numeral 10 (removelast l))) in E.
  rewrite !removelast_last, !read_numeral_numeral in E; [done|lia| |lia|];
    unfold fits in *; change (10 ^ Z.of_nat 10) with 10000000000; lia.
Qed.

Lemma bodies_inj rs rs' t t' :
  Forall (fun r => fits 32 (r_index r)) rs -> Forall (fun r => fits 32 (r_index r)) rs' ->
  map reason_body rs ++ (if t : bool then [text "truncated"] else []) =
  map reason_body rs' ++ (if t' : bool then [text "truncated"] else []) ->
  map (fun r => (r_code r, r_index r)) rs = map (fun r => (r_code r, r_index r)) rs' /\ t = t'.
Proof.
  assert (forall r, reason_body r <> text "truncated") as Hne.
  { intros r E. assert (open_bracket ∈ text "truncated") as Hin.
    { rewrite <-E. apply elem_of_app. right. by left. }
    by apply (proj2 (plain_free (text "truncated") eq_refl)) in Hin. }
  intros Hf. revert rs'. induction Hf as [|r rs Hr Hf IH]; intros [|r' rs'] Hf' E.
  - by destruct t, t'.
  - destruct t; cbn in E; [injection E as E _; by apply eq_sym, Hne in E|done].
  - destruct t'; cbn in E; [injection E as E _; by apply Hne in E|done].
  - apply list.Forall_cons in Hf' as [Hr' Hf']. cbn [map app] in E. injection E as E1 E2.
    destruct (body_inj r r' Hr Hr' E1) as [Hc Hi]. destruct (IH rs' Hf' E2) as [IH1 ->].
    cbn [map]. by rewrite Hc, Hi, IH1.
Qed.

(** The text of a failure, as its parts. *)
Lemma result_to_string_parts o r rs :
  reasons o = r :: rs ->
  result_to_string o = text (reason_code_name (r_code r)) ++
    flat_map (cons comma) (map reason_body rs ++ if truncated o then [text "truncated"] else []).
Proof.
  intros E. unfold result_to_string, primary_name. rewrite E. f_equal.
  rewrite flat_map_app. f_equal; [|by destruct (truncated o)].
  clear E. induction rs as [|x rs IH]; [done|]. cbn [flat_map map].
  by rewrite reason_format_fits, IH.
Qed.

Lemma parts_comma_free rs (t : bool) :
  Forall comma_free (map reason_body rs ++ if t then [text "truncated"] else []).
Proof.
  apply Forall_app. split.
  - apply list.Forall_forall. intros l (x & -> & _)%list_elem_of_fmap. apply body_comma_free.
  - destruct t; repeat constructor. by apply (plain_free (text "truncated")).
Qed.

(** Only the empty result reads [Ok]. *)
Lemma result_to_string_ok o :
  no_ok (reasons o) -> result_to_string o = text "Ok" -> reasons o = [].
Proof.
  intros Hn E. destruct (reasons o) as [|r rs] eqn:Er; [done|].
  rewrite (result_to_string_parts o r rs Er), <-(app_nil_r (text "Ok")) in E.
  apply (joined_unique _ [] _ (text "Ok")) in E as [E _];
    [|by apply plain_free, name_plain|by apply (plain_free (text "Ok"))
     |apply parts_comma_free|constructor].
  apply (name_inj _ ReasonOk) in E. by apply list.Forall_cons in Hn as [? _].
Qed.

(** The text of a result determines its reasons in order, the index of each but the first,
    and whether reasons were dropped. *)
Theorem result_to_string_determines o o' :
  no_ok (reasons o) -> no_ok (reasons o') ->
  Forall (fun r => fits 32 (r_index r)) (reasons o) ->
  Forall (fun r => fits 32 (r_index r)) (reasons o') ->
  result_to_string o = result_to_string o' ->
  map r_code (reasons o) = map r_code (reasons o') /\
  map r_index (tl (reasons o)) = map r_index (tl (reasons o')) /\
  (reasons o <> [] -> truncated o = truncated o').
Proof.
  intros Hn Hn' Hf Hf' E.
  destruct (reasons o) as [|r rs] eqn:Er.
  { rewrite <-Er in Hn. assert (reasons o' = []) as ->; [|done].
    apply result_to_string_ok; [done|]. rewrite <-E. unfold result_to_string. by rewrite Er. }
  destruct (reasons o') as [|r' rs'] eqn:Er'.
  { assert (reasons o = []) as H; [|by rewrite Er in H].
    apply result_to_string_ok; [by rewrite Er|]. rewrite E. unfold result_to_string. by rewrite Er'. }
  rewrite (result_to_string_parts o r rs Er), (result_to_string_parts o' r' rs' Er') in E.
  apply joined_unique in E as [Hname E];
    [|apply plain_free, name_plain|apply plain_free, name_plain|apply parts_comma_free..].
  apply name_inj in Hname. apply list.Forall_cons in Hf as [_ Hf].
  apply list.Forall_cons in Hf' as [_ Hf'].
  destruct (bodies_inj rs rs' (truncated o) (truncated o') Hf Hf' E) as [Hp Ht].
  cbn [map tl]. rewrite Hname.
  pose proof (f_equal (map fst) Hp) as Hc. pose proof (f_equal (map snd) Hp) as Hi.
  rewrite !map_map in Hc, Hi. split_and!; [by f_equal|done|done].
Qed.

End Rendering.
