(* ===== verification/Examples.v ===== *)
(** * The example programs: their support

    [examples/example_support.hpp].  An example is a computation over a [Scenario], which
    counts its checks: a check that fails is counted and the run goes on, as in the source,
    while reading a value that is not there ends it, where the source would be undefined.
    The lines an example prints for its reader are left out. *)

From S2P Require Import Prelude.
From S2P Require Import Ids.
From S2P Require Import Bytes.
From S2P Require Import Digest.
From S2P Require Import Segment.
From S2P Require Import Reason.
From S2P Require Import Lifecycle.
From S2P Require Import Governance.
From S2P Require Import Authority.
From S2P Require Import Registries.
From S2P Require Import Evidence.
From S2P Require Import Validation.
From S2P Require Import Persistence.
From S2P Require Import Store.
From S2P Require Import Explain.

Module Support.

(** ** Synthetic fabrication *)
Definition kScope : Z := 0x100.
Definition kOtherScope : Z := 0x101.
Definition kCapabilityA : Z := 0x1001.
Definition kCapabilityB : Z := 0x1002.
Definition kPublisher : Z := 0x9001.
Definition kBoot : Z := 0xB001.
Definition kReincarnatedPublisher : Z := 0x9002.
Definition kReincarnatedBoot : Z := 0xB002.
Definition kTopology : Z := 1.
Definition kCapabilityGeneration : Z := 1.
Definition kPath : Z := 0x4001.
Definition kPathAuthority : Z := 1.
Definition kRoute : Z := 0x5001.
Definition kRouteGeneration : Z := 1.
Definition kConstraint : Z := 0x6001.
Definition kConstraintGeneration : Z := 1.
Definition kGovernanceProfile : Z := 0x00010001.
Definition kOrderedProfile : Z := 0x00010002.
Definition kNullableProfile : Z := 0x00010003.
Definition kFabricSize : nat := 16.

Definition segment_id (n : Z) : SegmentId := u64 (0x3000 + n).
Definition node_id (n : Z) : NodeId := u64 (0x2000 + n).
Definition adjacency_id (n : Z) : AdjacencyId := u64 (0x7000 + n).
Definition endpoint_id (n : Z) : EndpointId := u64 (0x8000 + n).
Definition binding_id (n : Z) : BindingId := u64 (0xA000 + n).
Definition list_id (n : Z) : SegmentListId := u64 (0xC000 + n).
Definition policy_id (n : Z) : SegmentPolicyId := u64 (0xD000 + n).

Definition node_segment_of (n : Z) (payload : Byte.byte) : Segment := {| empty_segment with
  seg_kind := KNode; seg_id := segment_id n; seg_generation := 1; seg_node := node_id n;
  seg_payload := [payload] |}.

Definition node_segment (n : Z) : Segment := node_segment_of n Byte.x11.

Definition adjacency_segment (n topology : Z) : Segment := {| empty_segment with
  seg_kind := KAdjacency; seg_id := segment_id (100 + n); seg_generation := 1;
  seg_adjacency := adjacency_id n; seg_topology := topology; seg_payload := [Byte.x22] |}.

Definition endpoint_segment (n : Z) : Segment := {| empty_segment with
  seg_kind := KEndpoint; seg_id := segment_id (200 + n); seg_generation := 1;
  seg_endpoint := endpoint_id n; seg_payload := [Byte.x33] |}.

Definition binding_segment (n : Z) : Segment := {| empty_segment with
  seg_kind := KBinding; seg_id := segment_id (300 + n); seg_generation := 1;
  seg_binding := binding_id n; seg_payload := [Byte.x44] |}.

Definition policy_segment (n : Z) : Segment := {| empty_segment with
  seg_kind := KPolicy; seg_id := segment_id (400 + n); seg_generation := 1;
  seg_policy := policy_id n; seg_policy_generation := 1; seg_payload := [Byte.x55] |}.

(** The numbers from 1 to [n]. *)
Definition upto (n : nat) : list Z := map Z.of_nat (seq 1 n).

Definition node_sequence (count : nat) : list Segment := map node_segment (upto count).

Definition advance_topology (generation : Z) (e : SyntheticEvidence) : SyntheticEvidence :=
  fold_left (fun e n =>
    SE.add_adjacency (adjacency_id n) generation (node_id n) (node_id (n + 1)) kScope e)
    (upto kFabricSize) (SE.set_topology_generation generation e).

(** The fabric of [make_scenario]. *)
Definition fabric_step (e : SyntheticEvidence) (n : Z) : SyntheticEvidence :=
  let e := SE.add_node (node_id n) kScope e in
  let e := SE.add_segment (segment_id n) KNode 1 kScope e in
  let e := SE.add_segment (segment_id (100 + n)) KAdjacency 1 kScope e in
  let e := SE.add_segment (segment_id (200 + n)) KEndpoint 1 kScope e in
  let e := SE.add_segment (segment_id (300 + n)) KBinding 1 kScope e in
  let e := SE.add_segment (segment_id (400 + n)) KPolicy 1 kScope e in
  let e := SE.add_adjacency (adjacency_id n) kTopology (node_id n) (node_id (n + 1)) kScope e in
  let e := SE.add_endpoint (endpoint_id n) (node_id n) kScope e in
  SE.add_binding (binding_id n) (segment_id n) kScope e.

Definition make_fabric : SyntheticEvidence :=
  let e := SE.set_topology_generation kTopology new_synthetic in
  let e := SE.set_capability_generation kCapabilityGeneration e in
  let e := SE.set_path_authority_generation kPathAuthority e in
  let e := SE.set_route_generation kRouteGeneration e in
  let e := SE.add_capability kCapabilityA kCapabilityGeneration true e in
  let e := SE.add_capability kCapabilityB kCapabilityGeneration true e in
  let e := SE.add_path kPath kPathAuthority kScope e in
  let e := SE.add_route kRoute kRouteGeneration 0 0 kScope e in
  let e := SE.add_constraint kConstraint kConstraintGeneration kScope e in
  fold_left fabric_step (upto kFabricSize) e.

Definition restrictive_policy : SegmentPolicy := {| empty_policy with
  po_id := policy_id 1; po_generation := 1; po_owner_scope := kScope;
  po_allowed_profiles := [kGovernanceProfile];
  po_allowed_kinds_mask := kinds_mask [KNode; KEndpoint; KBinding; KPolicy];
  po_required_segments := [segment_id 2]; po_forbidden_segments := [segment_id 9];
  po_allow_replacement := true; po_allow_derivation := false; po_require_strict := true |}.

(** ** Runs

    What an example works on: a store over the synthetic fabric and the memory backend, the
    counter of attempts, and the counts of the transcript. *)
Definition ExampleStore := SegmentListStore SyntheticEvidence MemoryPersistence.

Record Scenario := {
  sc_store : ExampleStore;
  sc_setup : ValidationResult;
  sc_attempt_counter : Z;
  sc_checks : Z;
  sc_failures : Z;
}.

(** [None] for a run that reads what is not there. *)
Definition Run (A : Type) : Type := Scenario -> option (A * Scenario).

Definition ret {A} (a : A) : Run A := fun w => Some (a, w).
Definition bind {A B} (m : Run A) (k : A -> Run B) : Run B :=
  fun w => match m w with Some (a, w) => k a w | None => None end.

(** [Transcript::check] and [Transcript::equal] *)
Definition check (ok : bool) : Run unit := fun w =>
  Some (tt, {| w with sc_checks := sc_checks w + 1;
                      sc_failures := if ok then sc_failures w else sc_failures w + 1 |}).

Definition check_eq {A} `{EqDecision A} (x y : A) : Run unit := check (bool_decide (x = y)).
Definition check_reason (r : ValidationResult) (code : ReasonCode) : Run unit :=
  check (contains code r).
Definition check_primary (r : ValidationResult) (code : ReasonCode) : Run unit :=
  check (code_eqb (r_code (primary r)) code).

(** A value that is there, or the end of the run: a dereference, or [front] of a vector. *)
Definition deref {A} (o : option A) : Run A := fun w =>
  match o with Some a => Some (a, w) | None => None end.

(** A query and an operation of the store, and a change of the fabric it observes. *)
Definition look {A} (f : ExampleStore -> A) : Run A := fun w => Some (f (sc_store w), w).
Definition act {A} (f : ExampleStore -> A * ExampleStore) : Run A := fun w =>
  let '(a, s) := f (sc_store w) in Some (a, {| w with sc_store := s |}).
Definition fabric (f : SyntheticEvidence -> SyntheticEvidence) : Run unit := fun w =>
  let s := sc_store w in
  Some (tt, {| w with sc_store := {| s with st_evidence := f <$> st_evidence s |} |}).
Definition authority {A} (f : AuthorityTable -> A * AuthorityTable) : Run A :=
  act (fun s => let '(a, t) := f (st_authority s) in (a, {| s with st_authority := t |})).

(** [Scenario::caller] *)
Definition caller_as (publisher : PublisherId) (boot : WorkerBootId) : Run CallerIdentity := fun w =>
  let n := u64 (sc_attempt_counter w + 1) in
  Some ({| ci_epoch := at_epoch (st_authority (sc_store w)); ci_publisher := publisher;
           ci_boot := boot; ci_scope := kScope; ci_attempt := u64 (0xE000 + n) |},
        {| w with sc_attempt_counter := n |}).
Definition caller : Run CallerIdentity := caller_as kPublisher kBoot.

(** [Scenario::draft], with its segments *)
Definition draft_of (profile : SegmentProfileId) (n : Z) (segments : list Segment) : ListDraft :=
  {| empty_draft with ld_id := list_id n; ld_scope := kScope; ld_profile := profile;
                      ld_segments := segments |}.
Definition draft : Z -> list Segment -> ListDraft := draft_of kGovernanceProfile.

(** [Scenario::create], and creation of a draft by a fresh attempt *)
Definition create_draft (d : ListDraft) : Run MutationOutcome :=
  bind caller (fun c => act (create_list undisturbed c d)).
Definition create_with (profile : SegmentProfileId) (n : Z) (segments : list Segment)
  : Run MutationOutcome := create_draft (draft_of profile n segments).
Definition create : Z -> list Segment -> Run MutationOutcome := create_with kGovernanceProfile.

(** [MutationOutcome::ok] *)
Definition outcome_ok (o : MutationOutcome) : bool :=
  match mo_status o with StOk => true | _ => false end.

(** The list that the store has under an identifier: [CHECK(stored.has_value())] and its
    dereference. *)
Definition stored (n : Z) : Run SegmentList :=
  bind (look (get (list_id n))) (fun l => bind (check (negb (is_none l))) (fun _ => deref l)).

(** [make_scenario], with persistence *)
Definition make_scenario : Scenario :=
  let s := new_store default_limits (Some make_fabric) (Some new_memory) in
  let setup := set_limits (Some (st_limits s)) empty_result in
  let '(r, s) := register_profile abstract_governance_profile s in
  let setup := absorb r setup in
  let '(r, s) := register_profile abstract_ordered_profile s in
  let setup := absorb r setup in
  let '(r, s) := register_profile abstract_nullable_profile s in
  let setup := absorb r setup in
  let '(r, t) := AuthorityTable.register_publisher kPublisher kBoot kScope
    (at_epoch (st_authority s)) (st_limits s) (st_authority s) in
  {| sc_store := {| s with st_authority := t |}; sc_setup := absorb r setup;
     sc_attempt_counter := 0; sc_checks := 0; sc_failures := 0 |}.

(** [CHECK(scenario.setup.ok())] *)
Definition setup_ok : Run unit := fun w => check (result_ok (sc_setup w)) w.

(** The exit code of an example, and how many checks it made; [None] when it reads what is
    not there. *)
Definition exit_code (example : Run unit) : option (Z * Z) :=
  match example make_scenario with
  | Some (_, w) => Some (if sc_failures w =? 0 then 0 else 1, sc_checks w)
  | None => None
  end.
End Support.

Declare Scope example_scope.
Notation "'let*' x ':=' m 'in' k" := (Support.bind m (fun x => k))
  (at level 200, x name, m at level 100, k at level 200, right associativity) : example_scope.
Notation "m ;; k" := (Support.bind m (fun _ => k))
  (at level 100, k at level 200, right associativity) : example_scope.
