(* ===== verification/ExamplePrograms.v ===== *)
(** * The example programs

    [examples/srf_example_*.cpp], each the [main] of one program: what it does to the store
    and the fabric, and every check it makes.  The theorem at the end runs them all. *)

From S2P Require Import Prelude.
From S2P Require Import Ids.
From S2P Require Import Bytes.
From S2P Require Import Digest.
From S2P Require Import Segment.
From S2P Require Import Reason.
From S2P Require Import Lifecycle.
From S2P Require Import Governance.
From S2P Require Import Authority.
From S2P Require Import Registries.
From S2P Require Import Evidence.
From S2P Require Import Validation.
From S2P Require Import Persistence.
From S2P Require Import Store.
From S2P Require Import Explain.
From S2P Require Import Examples.

Open Scope example_scope.
Import Support.

Definition example_01 : Run unit :=
  setup_ok;;
  let profile := abstract_governance_profile in
  let width := pr_payload_width profile in
  check_eq (support_value (pr_support profile)) (support_value AbstractSynthetic);;
  check (allows_kind profile KNode);;
  check (allows_kind profile KAdjacency);;
  check (negb (allows_kind profile KInvalid));;
  check (negb (pr_allow_empty profile));;
  check (negb (pr_allow_loose profile));;
  let forward := [node_segment 1; node_segment 2; node_segment 3] in
  let* outcome := create 1 forward in
  check (outcome_ok outcome);;
  check (mo_durable outcome);;
  check (negb (is_zero (mo_digest outcome)));;
  let* l := stored 1 in
  let segments := c_segments (sl_content l) in
  check_eq (sl_state l) Active;;
  check_eq (sl_currentness l) Current;;
  check_eq (size segments) 3;;
  fold_right (fun s k => check_eq (seg_encoding s) AbstractNodeV1;; k) (ret tt) segments;;
  check_eq (sl_content_digest l) (mo_digest outcome);;
  check_eq (sl_content_digest l) (content_digest (sl_content l) width);;
  check_eq (sl_sequence_digest l) (sequence_digest segments width);;
  let short := node_segment_of 1 Byte.x11 in
  let padded := {| short with seg_payload := [Byte.x11; Byte.x00; Byte.x00; Byte.x00] |} in
  check_eq (canonical_segment_bytes short width) (canonical_segment_bytes padded width);;
  check (segment_semantic_equal short padded width);;
  let canonical := canonicalize_segments forward in
  let canonical_reversed :=
    canonicalize_segments [node_segment 3; node_segment 2; node_segment 1] in
  let* draft_front := deref (head forward) in
  let* canonical_front := deref (head canonical) in
  check_eq (seg_encoding draft_front) EInvalid;;
  check_eq (seg_encoding canonical_front) AbstractNodeV1;;
  let forward_digest := sequence_digest canonical width in
  let reverse_digest := sequence_digest canonical_reversed width in
  check_eq forward_digest (sl_sequence_digest l);;
  check (negb (bool_decide (forward_digest = reverse_digest))).


Definition example_02 : Run unit :=
  setup_ok;;
  let* w := look observed_watermark in
  check_eq (wm_topology w) kTopology;;
  let* accepted := create 1 [adjacency_segment 1 kTopology] in
  check (outcome_ok accepted);;
  let* l := stored 1 in
  let* front := deref (head (c_segments (sl_content l))) in
  check_eq (c_topology (sl_content l)) kTopology;;
  check_eq (seg_topology front) kTopology;;
  check_eq (seg_encoding front) AbstractAdjacencyV1;;
  let* mismatch := create_draft {| (draft 2 [adjacency_segment 1 2]) with ld_topology := 2 |} in
  check (negb (outcome_ok mismatch));;
  check_reason (mo_result mismatch) TopologyGenerationMismatch;;
  check_reason (mo_result mismatch) TopologyAdjacencyStale;;
  check_primary (mo_result mismatch) TopologyGenerationMismatch;;
  let* n := look list_count in
  check_eq n 1;;
  fabric (advance_topology 2);;
  let* stale := create 3 [adjacency_segment 1 1] in
  check (negb (outcome_ok stale));;
  check_reason (mo_result stale) TopologyAdjacencyStale;;
  check_primary (mo_result stale) TopologyAdjacencyStale;;
  let* refreshed := create 4 [adjacency_segment 1 2] in
  check (outcome_ok refreshed);;
  let* l := stored 4 in
  check_eq (c_topology (sl_content l)) 2;;
  let* n := look list_count in
  check_eq n 2.

Definition example_03 : Run unit :=
  setup_ok;;
  let* baseline := create 1 [node_segment 1] in
  check (outcome_ok baseline);;
  let* l := stored 1 in
  check_eq (c_capability (sl_content l)) kCapabilityGeneration;;
  fabric (SE.remove_capability kCapabilityB);;
  let* missing := create 2 [node_segment 1] in
  check (negb (outcome_ok missing));;
  check_reason (mo_result missing) CapabilityMissing;;
  check_primary (mo_result missing) CapabilityMissing;;
  fabric (SE.add_capability kCapabilityB kCapabilityGeneration false);;
  let* unsupported := create 3 [node_segment 1] in
  check (negb (outcome_ok unsupported));;
  check_reason (mo_result unsupported) CapabilityUnsupported;;
  check (negb (contains CapabilityMissing (mo_result unsupported)));;
  check_primary (mo_result unsupported) CapabilityUnsupported;;
  fabric (SE.add_capability kCapabilityA 2 true);;
  fabric (SE.add_capability kCapabilityB 2 true);;
  fabric (SE.set_capability_generation 2);;
  let* stale := create_draft
    {| (draft 4 [node_segment 1]) with ld_capability := kCapabilityGeneration |} in
  check (negb (outcome_ok stale));;
  check_reason (mo_result stale) CapabilityGenerationMismatch;;
  check_primary (mo_result stale) CapabilityGenerationMismatch;;
  let* fresh := create 5 [node_segment 2] in
  check (outcome_ok fresh);;
  let* l := stored 5 in
  check_eq (c_capability (sl_content l)) 2;;
  let* n := look list_count in
  check_eq n 2;;
  fabric (SE.remove_capability kCapabilityB);;
  let* x := look (fun s => explain_missing_capability (list_id 1) (Some (observed_evidence s)) s) in
  check (ex_contains CapabilityMissing x);;
  check (negb (is_empty (ex_entries x)));;
  let* front := deref (head (ex_entries x)) in
  check_eq (r_detail front) kCapabilityB.

Definition example_04 : Run unit :=
  setup_ok;;
  let governance := abstract_governance_profile in
  let* at_limit := create 1 (node_sequence 8) in
  check (outcome_ok at_limit);;
  let* l := stored 1 in
  check_eq (size (c_segments (sl_content l))) 8;;
  check_eq (size (c_segments (sl_content l))) (pr_max_depth governance);;
  let* over := create 2 (node_sequence 9) in
  check (negb (outcome_ok over));;
  check_reason (mo_result over) ProfileMaxDepthExceeded;;
  check_primary (mo_result over) ProfileMaxDepthExceeded;;
  check_eq (r_detail (primary (mo_result over))) (pr_max_depth governance);;
  let* nullable_at_limit := create_with kNullableProfile 3 (node_sequence 4) in
  check (outcome_ok nullable_at_limit);;
  let* nullable_over := create_with kNullableProfile 4 (node_sequence 5) in
  check (negb (outcome_ok nullable_over));;
  check_reason (mo_result nullable_over) ProfileMaxDepthExceeded;;
  check_primary (mo_result nullable_over) ProfileMaxDepthExceeded;;
  let* n := look list_count in
  check_eq n 2;;
  let* total := look total_segments in
  check_eq total 12.

(** A draft under the restrictive policy. *)
Definition governed (d : ListDraft) : ListDraft :=
  {| d with ld_policy := po_id restrictive_policy |}.

Definition example_05 : Run unit :=
  setup_ok;;
  let policy := restrictive_policy in
  let* registered := act (register_policy policy) in
  check (result_ok registered);;
  let* accepted := create_draft (governed (draft 1 [node_segment 2; endpoint_segment 1])) in
  check (outcome_ok accepted);;
  let* l := stored 1 in
  check_eq (c_policy (sl_content l)) (po_id policy);;
  check_eq (c_policy_generation (sl_content l)) 1;;
  let* kind := create_draft
    (governed (draft 2 [node_segment 2; adjacency_segment 1 kTopology])) in
  check (negb (outcome_ok kind));;
  check_reason (mo_result kind) PolicyDeniedSegmentKind;;
  check_primary (mo_result kind) PolicyDeniedSegmentKind;;
  let* required := create_draft (governed (draft 3 [node_segment 1; endpoint_segment 1])) in
  check (negb (outcome_ok required));;
  check_reason (mo_result required) PolicyRequiredEntityMissing;;
  check_primary (mo_result required) PolicyRequiredEntityMissing;;
  check_eq (r_detail (primary (mo_result required))) (segment_id 2);;
  let* forbidden := create_draft (governed (draft 4 [node_segment 2; node_segment 9])) in
  check (negb (outcome_ok forbidden));;
  check_reason (mo_result forbidden) PolicyForbiddenEntityPresent;;
  check_primary (mo_result forbidden) PolicyForbiddenEntityPresent;;
  let* denied := create_draft (governed (draft_of kOrderedProfile 5 [node_segment 2])) in
  check (negb (outcome_ok denied));;
  check_reason (mo_result denied) PolicyDeniedProfile;;
  check_primary (mo_result denied) PolicyDeniedProfile;;
  let* n := look list_count in
  check_eq n 1.

(** The digests of the segments one by one, in order of their digests. *)
Definition unit_digests (segments : list Segment) (width : Z) : list Digest128 :=
  map (fun s => digest128 (canonical_segment_bytes s width)) segments.

Definition digest_lt (a b : Digest128) : bool :=
  if hi a =? hi b then lo a <? lo b else hi a <? hi b.

Fixpoint insert_digest (d : Digest128) (l : list Digest128) : list Digest128 :=
  match l with
  | [] => [d]
  | d' :: l' => if digest_lt d' d then d' :: insert_digest d l' else d :: l
  end.

Definition sort_units (l : list Digest128) : list Digest128 := fold_right insert_digest [] l.

Definition example_06 : Run unit :=
  setup_ok;;
  let width := pr_payload_width abstract_governance_profile in
  let ascending := [node_segment 1; node_segment 2; node_segment 3] in
  let descending := [node_segment 3; node_segment 2; node_segment 1] in
  let ascending_sequence := sequence_digest ascending width in
  let descending_sequence := sequence_digest descending width in
  check (negb (bool_decide (ascending_sequence = descending_sequence)));;
  check_eq (sequence_digest ascending width) ascending_sequence;;
  check_eq (sort_units (unit_digests ascending width))
    (sort_units (unit_digests descending width));;
  check (negb (bool_decide (canonical_sequence_bytes ascending width =
                            canonical_sequence_bytes descending width)));;
  let* first := create 1 ascending in
  let* second := create 2 descending in
  check (outcome_ok first);;
  check (outcome_ok second);;
  check (negb (bool_decide (mo_digest first = mo_digest second)));;
  let* l1 := stored 1 in
  let* l2 := stored 2 in
  check (negb (bool_decide (sl_content_digest l1 = sl_content_digest l2)));;
  check (negb (bool_decide (sl_sequence_digest l1 = sl_sequence_digest l2)));;
  let* f1 := deref (head (c_segments (sl_content l1))) in
  let* f2 := deref (head (c_segments (sl_content l2))) in
  check_eq (seg_id f1) (segment_id 1);;
  check_eq (seg_id f2) (segment_id 3);;
  let* third := create 3 ascending in
  check (outcome_ok third);;
  let* l3 := stored 3 in
  check_eq (sl_sequence_digest l3) (sl_sequence_digest l1);;
  check (negb (bool_decide (sl_content_digest l3 = sl_content_digest l1)));;
  check (negb (bool_decide (sl_content_digest l3 = sl_content_digest l2))).


(** An expected generation. *)
Definition expecting (g : SegmentListGeneration) (d : ListDraft) : ListDraft :=
  {| d with ld_expected_generation := g |}.

Definition replace_draft (d : ListDraft) : Run MutationOutcome :=
  let* c := caller in act (replace_list undisturbed c d).

(** A transition of a list, by a fresh attempt. *)
Definition transition_list
    (f : CallerIdentity -> SegmentListId -> SegmentListGeneration ->
         ExampleStore -> MutationOutcome * ExampleStore) (n : Z) (g : SegmentListGeneration)
  : Run MutationOutcome :=
  let* c := caller in act (f c (list_id n) g).

Definition example_07 : Run unit :=
  setup_ok;;
  let* first := create 1 [node_segment 1] in
  check (outcome_ok first);;
  let superseding n segments := {| (draft n segments) with
    ld_supersedes := list_id 1; ld_supersedes_generation := 1 |} in
  let* second := create_draft (superseding 2 [node_segment 1; node_segment 2]) in
  check (outcome_ok second);;
  let* old := stored 1 in
  check_eq (sl_state old) Superseded;;
  check_eq (ln_superseded_by (sl_lineage old)) (list_id 2);;
  check (lifecycle_is_terminal_for_activation (sl_state old));;
  check (negb (lifecycle_is_available (sl_state old)));;
  let* replaced := replace_draft (expecting 1 (draft 1 [node_segment 1])) in
  check (negb (outcome_ok replaced));;
  check_reason (mo_result replaced) ListSuperseded;;
  check_reason (mo_result replaced) LifecycleTransitionDenied;;
  check_primary (mo_result replaced) ListSuperseded;;
  let* revalidated := transition_list (revalidate undisturbed) 1 1 in
  check (negb (outcome_ok revalidated));;
  check_reason (mo_result revalidated) ListSuperseded;;
  check_primary (mo_result revalidated) ListSuperseded;;
  let* denied := create_draft (superseding 3 [node_segment 3]) in
  check (negb (outcome_ok denied));;
  check_reason (mo_result denied) LifecycleTransitionDenied;;
  check_primary (mo_result denied) LifecycleTransitionDenied;;
  let* x := look (explain_supersession (list_id 1)) in
  check (ex_contains ListSuperseded x);;
  check (negb (is_empty (ex_entries x)));;
  let* front := deref (head (ex_entries x)) in
  check_eq (r_detail front) (list_id 2);;
  let* entries := look history in
  check (existsb (fun e => (dh_list e =? list_id 1) && state_eqb (dh_state e) Superseded) entries);;
  let* retired := transition_list (retire undisturbed) 1 1 in
  check (outcome_ok retired);;
  let* final := stored 1 in
  check_eq (sl_state final) Retired;;
  let* n := look list_count in
  check_eq n 2.

Definition example_08 : Run unit :=
  setup_ok;;
  let* created := create 1 [adjacency_segment 1 kTopology] in
  check (outcome_ok created);;
  let* before := stored 1 in
  check_eq (sl_state before) Active;;
  check_eq (sl_currentness before) Current;;
  fabric (advance_topology 2);;
  let* report := act (refresh_currentness undisturbed) in
  check_eq (cr_examined report) 1;;
  check_eq (cr_invalidated report) 1;;
  check_eq (size (cr_changes report)) 1;;
  let* change := deref (head (cr_changes report)) in
  check_eq (cc_was change) Current;;
  check_eq (cc_now change) StaleTopology;;
  let* after := stored 1 in
  check_eq (sl_state after) RevalidationRequired;;
  check_eq (sl_currentness after) StaleTopology;;
  check (negb (lifecycle_is_available (sl_state after)));;
  check (negb (currentness_is_usable (sl_currentness after)));;
  let* x := look (explain (list_id 1)) in
  check_eq (ex_topic x) WhyRevalidationRequired;;
  check (ex_contains CurrentnessStaleTopology x);;
  let* topology := look (fun s =>
    explain_stale_topology (list_id 1) (Some (observed_evidence s)) s) in
  check (ex_contains TopologyAdjacencyStale topology);;
  check (ex_contains TopologyGenerationMismatch topology);;
  let* revalidated := transition_list (revalidate undisturbed) 1 1 in
  check (negb (outcome_ok revalidated));;
  check_reason (mo_result revalidated) TopologyAdjacencyStale;;
  let* fresh := create 2 [adjacency_segment 1 2] in
  check (outcome_ok fresh);;
  let* l := stored 2 in
  check_eq (c_topology (sl_content l)) 2;;
  check_eq (sl_state l) Active;;
  let* n := look list_count in
  check_eq n 2.

(** Queries and operations of the authority table. *)
Definition ask {A} (f : AuthorityTable -> A) : Run A := look (fun s => f (st_authority s)).
Definition register (publisher : PublisherId) (boot : WorkerBootId) (epoch : CoordinatorEpoch)
  : Run ValidationResult :=
  let* limits := look st_limits in
  authority (AuthorityTable.register_publisher publisher boot kScope epoch limits).

Definition example_09 : Run unit :=
  setup_ok;;
  let* epoch := ask at_epoch in
  let* first := create 1 [node_segment 1] in
  check (outcome_ok first);;
  let* alive := ask (AuthorityTable.is_alive kPublisher) in
  check alive;;
  let* fenced := ask (AuthorityTable.is_fenced kBoot) in
  check (negb fenced);;
  let* dead := authority (AuthorityTable.mark_dead kPublisher) in
  check (result_ok dead);;
  let* alive := ask (AuthorityTable.is_alive kPublisher) in
  check (negb alive);;
  let* fenced := ask (AuthorityTable.is_fenced kBoot) in
  check fenced;;
  let* refused := create 2 [node_segment 2] in
  check (negb (outcome_ok refused));;
  check_reason (mo_result refused) CallerFencedPublisher;;
  check_primary (mo_result refused) CallerFencedPublisher;;
  let* n := look list_count in
  check_eq n 1;;
  let* beat := authority (AuthorityTable.heartbeat kPublisher kBoot epoch) in
  check (failed beat);;
  check_reason beat CallerFencedPublisher;;
  let* rebind := register kPublisher kBoot epoch in
  check (failed rebind);;
  check_reason rebind BootAlreadyFenced;;
  check_primary rebind BootAlreadyFenced;;
  let* stale := register kPublisher kReincarnatedBoot epoch in
  check (failed stale);;
  check_reason stale CallerStaleWorkerBoot;;
  let* reincarnated := register kReincarnatedPublisher kReincarnatedBoot epoch in
  check (result_ok reincarnated);;
  let* alive := ask (AuthorityTable.is_alive kReincarnatedPublisher) in
  check alive;;
  let* publishers := ask (fun t => size (at_publishers t)) in
  check_eq publishers 2;;
  let* c := caller_as kReincarnatedPublisher kReincarnatedBoot in
  let* fresh := act (create_list undisturbed c (draft 3 [node_segment 3])) in
  check (outcome_ok fresh);;
  let* l := stored 3 in
  check_eq (au_publisher (sl_authority l)) kReincarnatedPublisher;;
  check_eq (au_boot (sl_authority l)) kReincarnatedBoot;;
  let* report := act (refresh_currentness undisturbed) in
  check_eq (cr_examined report) 2;;
  check_eq (cr_invalidated report) 1;;
  let* orphan := stored 1 in
  check_eq (sl_currentness orphan) FencedPublisher;;
  check_eq (sl_state orphan) RevalidationRequired.

(** The store restarted over the image of the old one, and the fabric it shares. *)
Definition restart (image : list Byte.byte) (s : ExampleStore) : ExampleStore :=
  new_store default_limits (st_evidence s)
    (Some (MemoryPersistence.set_bytes image new_memory)).

Definition example_10 : Run unit :=
  setup_ok;;
  let* memory := look st_persistence in
  check (negb (is_none memory));;
  let* created := create 1 [node_segment 1; node_segment 2] in
  check (outcome_ok created);;
  let* epoch_before := ask at_epoch in
  let* memory := look st_persistence in
  let* memory := deref memory in
  check (0 <? mp_save_count memory);;
  let* n := look list_count in
  check_eq n 1;;
  (* from here on the store is the restarted one *)
  act (fun s => (tt, restart (mp_bytes memory) s));;
  let* report := act load in
  check (lr_loaded report);;
  check (negb (lr_empty report));;
  check (result_ok (lr_result report));;
  check_eq (lr_lists_recovered report) 1;;
  check_eq (lr_lists_requiring_revalidation report) 1;;
  check_eq (lr_publishers_fenced report) 1;;
  let* epoch_after := ask at_epoch in
  check_eq epoch_after (u64 (epoch_before + 1));;
  let* restored := stored 1 in
  check_eq (sl_state restored) RevalidationRequired;;
  check_eq (sl_currentness restored) CRevalidationRequired;;
  check (negb (lifecycle_is_available (sl_state restored)));;
  check_eq (sl_content_digest restored) (mo_digest created);;
  let* alive := ask (AuthorityTable.is_alive kPublisher) in
  check (negb alive);;
  let* fenced := ask (AuthorityTable.is_fenced kBoot) in
  check fenced;;
  let* publishers := ask (fun t => size (at_publishers t)) in
  check_eq publishers 1;;
  let* registered := register kReincarnatedPublisher kReincarnatedBoot epoch_after in
  check (result_ok registered);;
  let stale := {| ci_epoch := epoch_before; ci_publisher := kReincarnatedPublisher;
                  ci_boot := kReincarnatedBoot; ci_scope := kScope; ci_attempt := 0xE900 |} in
  let* old_epoch := act (create_list undisturbed stale (draft 2 [node_segment 3])) in
  check (negb (outcome_ok old_epoch));;
  check_reason (mo_result old_epoch) EpochStale;;
  check_primary (mo_result old_epoch) EpochStale;;
  let* n := look list_count in
  check_eq n 1;;
  let* exported := look export_state in
  check_eq (ds_epoch exported) epoch_after.


(** [SegmentListSnapshot::valid] *)
Definition snapshot_valid (s : SegmentListSnapshot) : bool := valid (ss_id s).

Definition example_11 : Run unit :=
  setup_ok;;
  let* declared := create 1 [node_segment 1; node_segment 2; node_segment 3] in
  check (outcome_ok declared);;
  check (mo_durable declared);;
  let* active := stored 1 in
  check_eq (sl_state active) Active;;
  check_eq (sl_currentness active) Current;;
  check (lifecycle_is_available (sl_state active));;
  check (currentness_is_usable (sl_currentness active));;
  let* request := look (fun s => {| empty_request with
    vr_limits := Some (st_limits s); vr_list_id := list_id 1; vr_scope := kScope;
    vr_profile_id := c_profile (sl_content active);
    vr_profile := Some abstract_governance_profile; vr_profile_found := true;
    vr_segments := c_segments (sl_content active);
    vr_topology := c_topology (sl_content active);
    vr_evidence := Some (observed_evidence s); vr_full := true |}) in
  check (result_ok (validate_request request));;
  let* before := act (snapshot (list_id 1)) in
  check (snapshot_valid before);;
  check_eq (ss_digest before) (mo_digest declared);;
  let* before_list := deref (ss_list before) in
  check_eq (sl_state before_list) Active;;
  let* replaced :=
    replace_draft (expecting 1 (draft 1 [node_segment 3; node_segment 2; node_segment 1])) in
  check (outcome_ok replaced);;
  check_eq (mo_generation replaced) 2;;
  check (negb (bool_decide (mo_digest replaced = ss_digest before)));;
  let* after := act (snapshot (list_id 1)) in
  check (snapshot_valid after);;
  let* d := look (fun s => diff (st_limits s) before after) in
  check (negb (is_empty (sd_entries d)));;
  check (negb (sd_truncated d));;
  check (sd_order_changed d);;
  check (sd_contains GenerationAdvance d);;
  check (sd_contains Reorder d);;
  let* x := look (explain (list_id 1)) in
  check_eq (ex_topic x) WhyActive;;
  check (ex_contains CurrentnessCurrent x);;
  let* segment := look (fun s =>
    explain_segment (list_id 1) 0 (Some (observed_evidence s)) s) in
  check (ex_contains ReasonOk segment);;
  let* withdrawing := transition_list (withdraw undisturbed) 1 2 in
  check (outcome_ok withdrawing);;
  let* l := stored 1 in
  check_eq (sl_state l) Withdrawing;;
  check (negb (lifecycle_is_available (sl_state l)));;
  let* withdrawn := transition_list (withdraw_commit undisturbed) 1 2 in
  check (outcome_ok withdrawn);;
  let* retired := transition_list (retire undisturbed) 1 2 in
  check (outcome_ok retired);;
  let* final := stored 1 in
  check_eq (sl_state final) Retired;;
  check (lifecycle_is_terminal_for_activation (sl_state final));;
  let* after_retire := replace_draft (expecting 2 (draft 1 [node_segment 1])) in
  check (negb (outcome_ok after_retire));;
  check_reason (mo_result after_retire) ListRetired;;
  check_primary (mo_result after_retire) ListRetired;;
  let* entries := look history in
  check (5 <=? size entries).


Definition examples : list (Run unit) :=
  [example_01; example_02; example_03; example_04; example_05; example_06; example_07;
   example_08; example_09; example_10; example_11].

(** The exit codes, and the checks that the source makes. *)
Definition expected : list (option (Z * Z)) :=
  [Some (0, 26); Some (0, 19); Some (0, 21); Some (0, 15); Some (0, 20); Some (0, 19);
   Some (1, 26); Some (0, 26); Some (0, 30); Some (0, 26); Some (1, 37)].

(** Every example runs to its end and makes all its checks, and all but two exit with 0.
    The seventh and the last each expect a reason about a terminal state to be the primary
    one, where the reason that the transition is denied, of the same phase and a lower
    number, comes first. *)
Theorem examples_run :
  map exit_code examples = expected.
Proof. vm_cast_no_check (eq_refl expected). Qed.

(** ** The independent consumer

    [consumer/main.cpp]: a store without persistence over a small fabric of its own. *)
Module Consumer.

Definition kScope : Z := 0x51.
Definition kCapabilityA : Z := 0x1001.
Definition kCapabilityB : Z := 0x1002.

Definition make_evidence (with_capability_b : bool) : SyntheticEvidence :=
  let e := SE.set_topology_generation 1 new_synthetic in
  let e := SE.set_capability_generation 1 e in
  let e := SE.add_capability kCapabilityA 1 true e in
  let e := if with_capability_b then SE.add_capability kCapabilityB 1 true e else e in
  fold_left (fun e n =>
    SE.add_segment (u64 (0x3000 + n)) KNode 1 kScope (SE.add_node (u64 (0x2000 + n)) kScope e))
    (upto 4) e.

Definition node (n : Z) : Segment := {| empty_segment with
  seg_kind := KNode; seg_id := u64 (0x3000 + n); seg_generation := 1;
  seg_node := u64 (0x2000 + n); seg_payload := [Byte.x01] |}.

Definition make_caller (attempt : MutationAttemptId) (s : ExampleStore) : CallerIdentity := {|
  ci_epoch := at_epoch (st_authority s); ci_publisher := 0x9001; ci_boot := 0xB001;
  ci_scope := kScope; ci_attempt := attempt |}.

(** A store over a fabric with a profile and a publisher, and what registering them came
    to. *)
Definition open_store (e : SyntheticEvidence)
  : ValidationResult * ValidationResult * ExampleStore :=
  let s := new_store default_limits (Some e) None in
  let '(registered, s) := register_profile abstract_governance_profile s in
  let '(publisher, t) := AuthorityTable.register_publisher 0x9001 0xB001 kScope
    (at_epoch (st_authority s)) (st_limits s) (st_authority s) in
  (registered, publisher, {| s with st_authority := t |}).

Definition draft (segments : list Segment) : ListDraft := {| empty_draft with
  ld_id := derive_segment_list_id (text "consumer") (text "primary-path");
  ld_scope := kScope; ld_profile := pr_id abstract_governance_profile;
  ld_segments := segments |}.

(** A mutation of the consumer's list under a given attempt. *)
Definition mutate
    (f : CallerIdentity -> ExampleStore -> MutationOutcome * ExampleStore)
    (attempt : MutationAttemptId) : Run MutationOutcome :=
  act (fun s => f (make_caller attempt s) s).

(** The checks of a list that is read back. *)
Definition check_stored (l : SegmentList) : Run unit :=
  let segments := c_segments (sl_content l) in
  check (size segments =? 3);;
  let* front := deref (head segments) in
  check (seg_id front =? 0x3003);;
  check (ln_supersedes (sl_lineage l) =? 1);;
  check (state_eqb (sl_state l) Active);;
  check (currentness_eqb (sl_currentness l) Current).

Definition main (registered publisher : ValidationResult) : Run unit :=
  check (result_ok registered);;
  check (result_ok publisher);;
  let d := draft [node 1; node 2; node 3] in
  let* created := mutate (fun c => create_list undisturbed c d) 1 in
  check (outcome_ok created);;
  check (mo_generation created =? 1);;
  check (negb (is_zero (mo_digest created)));;
  let '(_, _, weak) := open_store (make_evidence false) in
  let '(refused, _) := create_list undisturbed (make_caller 2 weak) d weak in
  check (negb (outcome_ok refused));;
  check (contains CapabilityMissing (mo_result refused));;
  let* replaced := mutate (fun c =>
    replace_list undisturbed c (expecting 1 (draft [node 3; node 2; node 1]))) 3 in
  check (outcome_ok replaced);;
  check (negb (bool_decide (mo_digest replaced = mo_digest created)));;
  check (mo_generation replaced =? 2);;
  let* l := look (get (ld_id d)) in
  check (negb (is_none l));;
  match l with Some l => check_stored l | None => ret tt end;;
  let* revalidated := mutate (fun c => revalidate undisturbed c (ld_id d) 2) 4 in
  check (outcome_ok revalidated);;
  check (mo_generation revalidated =? 3);;
  let* before := act (snapshot (ld_id d)) in
  mutate (fun c => replace_list undisturbed c (expecting 3 d)) 5;;
  let* after := act (snapshot (ld_id d)) in
  let* x := look (fun s => diff (st_limits s) before after) in
  check (sd_contains Reorder x || sd_contains Replace x).

(** The exit code and the number of checks. *)
Definition exit_code : option (Z * Z) :=
  let '(registered, publisher, s) := open_store (make_evidence true) in
  match main registered publisher {| sc_store := s; sc_setup := empty_result;
    sc_attempt_counter := 0; sc_checks := 0; sc_failures := 0 |} with
  | Some (_, w) => Some (if sc_failures w =? 0 then 0 else 1, sc_checks w)
  | None => None
  end.

(** The consumer makes all its checks and exits with 0. *)
Theorem consumer_run : exit_code = Some (0, 19).
Proof. vm_cast_no_check (eq_refl (Some (0, 19))). Qed.
End Consumer.
